(* ===== verification/_CoqProject ===== *)
-Q . S2P
Prelude.v
Companion.v
CompanionSafety.v
CompanionCalls.v
CompanionLiveness.v
StartWorld.v
StartWorldSafety.v
StartWorldLiveness.v
References.v
Slots.v
SlotRanges.v
ObjectScan.v
ObjectLayout.v
ObjectModel.v
Roots.v
CodeRoots.v
RootSources.v
Layout.v
Abi.v
Mutator.v
Barrier.v
BarrierSafety.v
X86.v
Interleaving.v
AsmBarriers.v
EdenAllocate.v
LIR.v
C1Barriers.v
C1Safety.v
C1Stubs.v
C2Barriers.v
C2Safety.v
Tiers.v
LoadTiers.v
BarrierSet.v
C2Allocate.v
AllocTiers.v
AllocRaces.v
Finalizer.v
Heap.v
Services.v
Collection.v
HeapQueries.v
C2Merge.v
Ffi.v
