(* ===== verification/Prelude.v ===== *)
(** * mmtk-openjdk: a verification library

    mmtk-openjdk binds the memory manager MMTk to OpenJDK: the C++ code under
    [openjdk/] makes MMTk one of HotSpot's heaps, and the Rust crate under
    [mmtk/] instantiates mmtk-core.  This library models the C++ code, and the
    Rust functions that are the other half of its components, and proves them
    correct.
    This file is the prelude: outcomes, machine words, labelled steps and the
    lemmas the components share.

    ** The program and its files

    _Collections._  mmtk-core asks, through the table of upcalls, for the world
    to be stopped and started again.  A companion thread turns such a request
    into a blocking operation of the VM thread.  Mutators that run out of memory
    block until the collection is over.
    - [Companion]: [mmtkVMCompanionThread.cpp], [mmtkVMOperation.cpp].  One
      partial step function per thread ([companion_step],
      [do_mmtk_stw_operation_step], [gc_step]), interleaved by [step].
      [CompanionSafety] has the invariant and the contract [StwSpec];
      [CompanionLiveness] the measure.  [CompanionCalls]: the two upcalls that
      call [request], and the protocol's assertions.
    - [StartWorld]: the stop-the-world part of [mmtkUpcalls.cpp], for any number
      of mutators and a GC worker, over [StwSpec].  [StartWorldSafety],
      [StartWorldLiveness].
    - [References]: [mmtk_enqueue_references].
    - [Finalizer]: [mmtkFinalizerThread.cpp].
    - [Collection]: [collection.rs] and [active_plan.rs], the variable that load
      barriers test, and the [DerivedPointerTable], over the pauses of
      [StartWorld].

    _Roots and objects._  A collection starts from the slots that HotSpot's
    iterators pass to a closure of the binding, and traces the objects.
    - [Slots]: [OpenJDKSlot] of [slots.rs] and the compressed pointers.
      [SlotRanges]: [OpenJDKSlotRange].
    - [ObjectScan]: [object_scanning.rs] and what it reads of [abi.rs].
      [ObjectLayout]: objects and classes as HotSpot lays them out, described
      without the functions that read them, and what a scan finds in them.
    - [Abi]: the structures of [abi.rs] with the layout of [repr(C)], and the
      comparison with HotSpot's layout at start-up.
    - [ObjectModel]: [object_model.rs] and [reference_glue.rs]: copying.
    - [Roots]: [mmtkRootsClosure.hpp], with the ownership of its buffers.
    - [CodeRoots]: the registration of compiled methods ([mmtkHeap.cpp],
      [api.rs]) and the packet that scans them ([gc_work.rs]).
    - [RootSources]: the packets of a collection, the upcall table of both
      languages, and the [scan_..._roots] functions of [mmtkHeap.cpp].

    _Allocation._  Objects are allocated by a slow path in C++ or by code that
    the interpreter, C1 and C2 emit, in the same mutator structure.
    - [Layout]: C structures with their ABI layout, and those of
      [mmtkMutator.hpp].
    - [Mutator]: [mmtkMutator.cpp] and the thread callbacks.
    - [EdenAllocate]: [eden_allocate] of [mmtkBarrierSetAssembler_x86.cpp].
    - [C2Allocate]: [expand_allocate] of [mmtkBarrierSetC2.cpp]: which path is
      taken, and the nodes of the fast one.  [C2Merge]: the graph that joins it to
      the slow path.
    - [AllocTiers]: the allocations of all tiers in one memory.  [Interleaving] and
      [AllocRaces]: the instructions of several threads on one memory, and
      [eden_allocate] run by all of them at once.

    _Barriers._  Accesses to reference fields tell mmtk-core what a generational
    or a concurrent collector has to know: from the runtime, from assembly, and
    from code that C1 and C2 compile.
    - [Barrier]: the barrier runtimes and the [AccessBarrier].  [BarrierSafety]:
      what they guarantee.
    - [X86], [AsmBarriers]: the emitted instructions and the barriers made of
      them.
    - [LIR], [C1Barriers], [C1Safety], [C1Stubs]: C1, from the operations of a
      generator to the stubs.
    - [C2Barriers], [C2Safety]: C2, as statements over the nodes of its graph.
    - [Tiers]: the writes of all tiers on one memory.  [LoadTiers]: the weak loads
      besides them.
    - [BarrierSet]: [mmtkBarrierSet.cpp], the choice of the barrier.

    _Start-up and services._
    - [Heap]: the flags, the environment, [MMTkHeap::initialize],
      [post_initialize], [enable_collection].
    - [Services]: threads, memory pool, clock.
    - [HeapQueries]: the rest of [mmtkHeap.cpp] and [mmtkUpcalls.cpp], what HotSpot
      asks the heap and mmtk-core asks HotSpot.
    - [Ffi]: the declarations of [mmtk.h], the definitions of [api.rs], and the
      calls.

    ** What the theorems show

    - Stop-the-world: a [request] that has returned left the Java threads as it
      asked ([suspended_means_stopped]); all calls return and the world restarts
      in every interleaving ([waits_terminate], [world_restarts]); the protocol
      implements [StwSpec] ([protocol_refines_spec]); its assertions, on the states
      and on the calling threads, hold for the calls of the upcalls
      ([assertions_hold]); its critical sections exclude each other, the operation is
      bracketed by [Heap_lock].  Over [StwSpec]: mutators are released ([gc_releases_mutators])
      without a lost wake-up ([no_lost_wakeup]); each is visited once per stop.
      The variable of the load barriers changes with the world stopped only, so a
      mutator's barrier records exactly while marking is on
      ([load_barrier_follows_marking]).
    - References and finalizers: the pending list after a collection
      ([enqueue_references_spec]); the finalizer thread drains what was found
      ([finalizer_drains]).
    - Roots and objects: every root, each once, whatever the order of the packets
      ([collection_scans_all_roots]), those of the code cache by refinement of a
      registry of live methods ([code_cache_refines_registry]), decoded by Rust as
      C++ tagged them ([tagged_root_decodes]), so that what Rust loads is what the
      roots hold ([roots_received]); the references of an object as HotSpot lays it
      out ([object_scan_exact]); slots and compressed pointers ([slot_store_load],
      [vm_layout_encodes]).
    - Moving: a copy is the object at its new address ([copied_object_same]), the
      rest of the heap keeps its contents while objects are evacuated
      ([evacuation_preserves]); sliding over the object itself is as good as a copy
      through a buffer ([compaction_preserves]).
    - Class metadata: read through the mirrored structures, a class whose fields
      are at their places in memory leads a scan to the references of its objects
      ([scan_from_class_bytes]), and the structures nest as the casts assume
      ([casts_sound]); the check of the layout finds a size that differs ([layout_check_one_mismatch]), and what
      it does not find ([layout_check_blind]).
    - Allocation: the emitted fast paths allocate exactly when they may and
      otherwise fall to the slow path ([eden_allocate_asm],
      [expand_allocate_run]), at the offsets of the cursor and the
      limit of the selected allocator ([tlab_offsets_sound]); the objects of all threads and tiers are apart and
      have their valid-object bits ([allocations_separate]); fast paths that run at
      the same time do not disturb each other while their bits are in different
      bytes ([allocations_do_not_race]), and can when they share one
      ([shared_byte_loses_bit]); allocations and [post_alloc] match up
      ([allocs_initialised]); in C2's graph control, memory and result come from
      the path that was taken ([expand_graph_merges]).
    - Barriers: over any sequence of accesses SATB keeps the snapshot
      ([satb_keeps_snapshot]), the object barrier the remembered set
      ([object_barrier_remembers]), the load barrier the referents
      ([weak_load_recorded]).  The emitted code does what the runtime does: the
      [..._asm], [..._c1_...] and [..._c2_...] theorems, down to the registers of
      the stubs ([c1_stub_calls], [visit_sound]).  A program that runs in all tiers
      keeps the snapshot and the remembered set too, stores of null included
      ([satb_snapshot_all_tiers], [object_remembered_all_tiers]), and what its weak loads return is recorded
      ([marking_finds_all_tiers]), since the tiers are given the parts of one barrier
      ([barrier_set_consistent]).  The calls that C2 emits are typed
      ([c2_calls_typed]).
    - Start-up: when the machine starts, and with which options ([heap_starts]).
    - The boundary of the languages: every call passes what the definition takes
      and uses no result it does not give ([calls_agree]).

    ** How the code is represented

    A [guarantee] or [fatal] that fires is [Fatal], an access C++ leaves
    undefined is [Undef] (type [outcome] below).  Words are integers between 0
    and [2^64], wrapped where the code computes in a machine width; memory is a
    function from addresses to bytes in [Slots] and everything above it.  Threads
    are step relations; a monitor has spurious wake-ups.  Code that emits code is
    a function to a list of instructions, LIR operations or statements, which has
    a semantics of its own; the theorems run the emitted code.  Where threads run
    emitted code at the same time, an instruction is one step, and its write is seen
    by all threads at once.

    Bounds: the capacity of a work packet is any positive number, the number of
    mutators, requests, roots and accesses is arbitrary.  Emitted code only jumps
    forward, so its run is by recursion on the instructions and needs no fuel.
    Fuel is in two loops over iterators: [SlotRanges.iterate_slots] needs one more
    than the number of slots ([iter_slots_ok]), [Collection.iterator_collect] one
    more than the number of mutators ([iterator_complete]).  Field and metadata
    addresses are below [2^63], as on x86-64 in user space: bit 63 is the tag of
    a slot.

    ** Code outside the repository

    mmtk-core and HotSpot are type classes, whose laws are what the binding relies
    on, each with an instance that the witnesses run: [FinalizableCore], [HashMapOrder], [HotSpotRoots],
    [MutatorCore], [BarrierCore] with the laws of [ObjectBarrierCore] and
    [SATBBarrierCore], [RawAccess] and [RawLIR] (the access itself), [Callee] and
    [StubFrames] (a call from emitted code and the frame of a stub), [C2Graph],
    [C2Run] and [ObjectInit] (what C2 knows and does), [MMTKBuilder] (the option
    parser), [ChunkAlign], [CopyContext] with [CopyContextLaws] (where a copy
    goes), [MemoryHeap] with [SATBMemory], [ObjectMemory] and [MarkingMemory] (the
    slow paths on memory), [AllocationHeap] with [AllocationLaws] (the allocation
    functions on memory), [HeapCore] with [HeapCoreLaws] (its answers).  [StwSpec] is the one
    interface between two parts of
    the binding that is proved here, by [CompanionSafety].  [VMThread::execute] is the [Sched] part of
    [Companion.step].  The meaning of x86 instructions and LIR operations is
    defined, for the ones that are emitted.

    ** Not modelled

    - The glue headers by which HotSpot finds the classes of the binding: aliases
      and declarations that forward.
    - The types of nodes in C2's macro expansion, and the initialisation of an
      object there, which are HotSpot's.
    - HotSpot's code patching in C1: where the offset of a field is not known yet,
      the stub of the SATB barrier loads the old value by a [mem2reg] that is patched
      at run time and takes the slot's address by a [lea].  The [mem2reg] is a load
      here, and the address is the one the field has once it is known.
    - Interleavings inside [mmtk_unregister_nmethod], which takes the locks of its
      two tables one after the other: it is one step.
    - [MMTkVMCompanionThread::wait_for_reached] has no caller: it is modelled in
      [Companion], but no run of [CompanionCalls] calls it.
    - Printing and logging.
    - Of the Rust crate: the metadata specifications of [vm_metadata], which are
      constants of mmtk-core, and the version string that the build generates.
    - Build files, continuous integration and tracing scripts. *)

From stdpp Require Import base gmap list.
From Stdlib Require Import ZArith Lia.

(** ** Outcomes

    A [guarantee], [fatal] or [vm_exit] that fires stops the virtual machine:
    [Fatal].  An access that C++ leaves undefined (a write past the end of a
    buffer, say) is [Undef].  The monad notation is stdpp's. *)

Inductive outcome (A : Type) : Type :=
| Ok (a : A)
| Fatal
| Undef.
Arguments Ok {A} a.
Arguments Fatal {A}.
Arguments Undef {A}.

#[export] Instance outcome_ret : MRet outcome := @Ok.

#[export] Instance outcome_bind : MBind outcome := fun A B f m =>
  match m with
  | Ok a => f a
  | Fatal => Fatal
  | Undef => Undef
  end.

(** [guarantee(b, ...)]: checked in every build. *)
Definition guarantee (b : bool) : outcome unit :=
  if b then Ok tt else Fatal.

Lemma outcome_bind_assoc {A B C} (m : outcome A) (f : A → outcome B) (g : B → outcome C) :
  ((m ≫= f) ≫= g) = m ≫= (λ a, f a ≫= g).
Proof. by destruct m. Qed.

Lemma outcome_bind_ok {A B} (m : outcome A) (f : A → outcome B) b :
  m ≫= f = Ok b ↔ ∃ a, m = Ok a ∧ f a = Ok b.
Proof.
  destruct m as [a| |]; simpl; split; try (by intros; eauto); intros (? & [=] & ?).
  by subst.
Qed.

(** A loop over a finite sequence whose body may stop the machine. *)
Fixpoint ofold {A S} (f : S → A → outcome S) (s : S) (l : list A) : outcome S :=
  match l with
  | [] => Ok s
  | x :: l => s' ← f s x; ofold f s' l
  end.

Lemma ofold_app {A S} (f : S → A → outcome S) s l1 l2 :
  ofold f s (l1 ++ l2) = s' ← ofold f s l1; ofold f s' l2.
Proof.
  revert s; induction l1 as [|x l1 IH]; intros s; simpl; [done|].
  rewrite outcome_bind_assoc. destruct (f s x); simpl; auto.
Qed.

(** The rule for such loops: a body that keeps [I] leaves the loop with [I]. *)
Lemma ofold_inv {A S} (f : S → A → outcome S) (I : list A → S → Prop) (l : list A) :
  ∀ d s,
  I d s →
  (∀ d' x s', x ∈ l → I d' s' → ∃ s'', f s' x = Ok s'' ∧ I (d' ++ [x]) s'') →
  ∃ s', ofold f s l = Ok s' ∧ I (d ++ l) s'.
Proof.
  induction l as [|x l IH]; intros d s Hs Hf; simpl.
  - exists s. by rewrite app_nil_r.
  - destruct (Hf d x s) as (s1 & -> & H1); [set_solver|done|]; simpl.
    replace (d ++ x :: l) with ((d ++ [x]) ++ l) by (by rewrite <-app_assoc).
    apply IH; [done|]. intros d' y s' Hy. apply Hf. set_solver.
Qed.

(** ** Transition systems *)

(** Runs of a labelled system, with the labels in order. *)
Inductive lsteps {S E} (R : S → E → S → Prop) : S → list E → S → Prop :=
| lsteps_nil s : lsteps R s [] s
| lsteps_cons s e s' es s'' : R s e s' → lsteps R s' es s'' → lsteps R s (e :: es) s''.

(** A simulation carries runs over, with the same labels. *)
Lemma lsteps_simulation {S T E} (R : S → E → S → Prop) (Q : T → E → T → Prop)
    (sim : S → T → Prop) :
  (∀ s t e s', sim s t → R s e s' → ∃ t', Q t e t' ∧ sim s' t') →
  ∀ s es s', lsteps R s es s' → ∀ t, sim s t → ∃ t', lsteps Q t es t' ∧ sim s' t'.
Proof.
  intros Hs s es s' Hr. induction Hr as [s|s e s1 es s2 H1 _ IH]; intros t Ht.
  - exists t. split; [constructor|done].
  - destruct (Hs _ _ _ _ Ht H1) as (t1 & Hq & Ht1). destruct (IH t1 Ht1) as (t2 & Hq2 & Ht2).
    exists t2. split; [by econstructor|done].
Qed.

(** An inductive invariant holds in every state a run reaches. *)
Lemma rtc_invariant {S} (R : relation S) (I : S → Prop) :
  (∀ s s', I s → R s s' → I s') → ∀ s s', rtc R s s' → I s → I s'.
Proof. intros HI s s'. induction 1; eauto. Qed.

(** Runs are no longer than a measure that every step decreases. *)
Lemma nsteps_measure {S} (R : relation S) (I : S → Prop) (m : S → nat) :
  (∀ s s', I s → R s s' → I s' ∧ m s' < m s) →
  ∀ n s s', nsteps R n s s' → I s → I s' ∧ n + m s' ≤ m s.
Proof.
  intros HR n s s'. induction 1 as [|n x y z Hxy _ IH]; intros Hs; [auto with lia|].
  destruct (HR _ _ Hs Hxy) as [Hy Hm]. destruct (IH Hy). split; [done|lia].
Qed.

(** A forward simulation with stuttering, lifted to runs. *)
Lemma simulation_rtc {S A} (R : relation S) (Q : relation A) (I : S → Prop) (abs : S → A) :
  (∀ s s', I s → R s s' → I s') →
  (∀ s s', I s → R s s' → abs s = abs s' ∨ Q (abs s) (abs s')) →
  ∀ s s', rtc R s s' → I s → rtc Q (abs s) (abs s').
Proof.
  intros HI Hsim s s'. induction 1 as [|x y z Hxy _ IH]; intros Hx; [done|].
  destruct (Hsim _ _ Hx Hxy) as [->|HQ]; [eauto|].
  eapply rtc_l; eauto.
Qed.

(** ** Machine words

    A [w]-bit word is an integer in [[0, 2^w)]; the signed reading of a word is
    explicit, as the casts of the source are. *)

Definition wrap (w z : Z) : Z := z `mod` 2 ^ w.
Definition sign (w z : Z) : Z :=
  if decide (2 ^ (w - 1) ≤ wrap w z)%Z then (wrap w z - 2 ^ w)%Z else wrap w z.

Abbreviation u64 := (wrap 64).
Abbreviation u32 := (wrap 32).
Abbreviation u8 := (wrap 8).
Abbreviation i64 := (sign 64).
Abbreviation i32 := (sign 32).

Create HintDb words.
Create Rewrite HintDb words.

Section words.
Local Open Scope Z_scope.
Implicit Types w z a b n : Z.

Lemma wrap_bound w z : 0 ≤ w → 0 ≤ wrap w z < 2 ^ w.
Proof. intros. apply Z.mod_pos_bound. lia. Qed.

Lemma wrap_small w z : 0 ≤ z < 2 ^ w → wrap w z = z.
Proof. intros. by apply Z.mod_small. Qed.

Lemma wrap_wrap w z : wrap w (wrap w z) = wrap w z.
Proof. apply Zmod_mod. Qed.

Lemma wrap_testbit w z n :
  0 ≤ w → Z.testbit (wrap w z) n = (bool_decide (n < w) && Z.testbit z n)%bool.
Proof.
  intros Hw. unfold wrap. case_bool_decide as Hn; simpl.
  - destruct (decide (0 ≤ n)).
    + by rewrite Z.mod_pow2_bits_low.
    + by rewrite !Z.testbit_neg_r by lia.
  - by rewrite Z.mod_pow2_bits_high by lia.
Qed.

(** Narrowing keeps what the low bits say. *)
Lemma wrap_land w z n : 0 ≤ w → 0 ≤ n < 2 ^ w → Z.land (wrap w z) n = Z.land z n.
Proof.
  intros Hw Hn. apply Z.bits_inj'. intros k Hk.
  rewrite !Z.land_spec, wrap_testbit by lia. case_bool_decide as Hkw; [done|]; simpl.
  destruct (Z.testbit n k) eqn:E; [|by rewrite andb_false_r].
  rewrite <-(Z.mod_small n (2 ^ w)) in E by lia.
  by rewrite Z.mod_pow2_bits_high in E by lia.
Qed.

Lemma sign_small w z : 1 ≤ w → 0 ≤ z < 2 ^ (w - 1) → sign w z = z.
Proof.
  intros Hw Hz. assert (wrap w z = z) as E.
  { apply wrap_small. assert (2 ^ (w - 1) ≤ 2 ^ w) by (apply Z.pow_le_mono_r; lia). lia. }
  unfold sign. rewrite E. case_decide; [lia|done].
Qed.

(** The bits of a word do not depend on its reading as signed. *)
Lemma sign_testbit w z n : 0 ≤ n < w → Z.testbit (sign w z) n = Z.testbit z n.
Proof.
  intros Hn. rewrite <-(Z.mod_pow2_bits_low (sign w z) w n) by lia.
  rewrite <-(Z.mod_pow2_bits_low z w n) by lia. f_equal. unfold sign, wrap.
  case_decide; [|apply Zmod_mod]. rewrite <-Zminus_mod_idemp_r, Z_mod_same_full, Z.sub_0_r. apply Zmod_mod.
Qed.

(** Reading one bit: the form every barrier of the source uses. *)
Lemma land_1_testbit z : Z.land z 1 = if Z.testbit z 0 then 1 else 0.
Proof.
  change 1 with (Z.ones 1) at 1. rewrite Z.land_ones by lia.
  change (2 ^ 1) with 2. rewrite Zmod_odd, Z.bit0_odd. done.
Qed.

Lemma shiftr_land_1 z n :
  0 ≤ n → Z.land (Z.shiftr z n) 1 = if Z.testbit z n then 1 else 0.
Proof. intros. by rewrite land_1_testbit, Z.shiftr_spec, Z.add_0_l by lia. Qed.

Lemma land_7_bound z : 0 ≤ Z.land z 7 < 8.
Proof. change 7 with (Z.ones 3). rewrite Z.land_ones by lia. by apply Z.mod_pos_bound. Qed.

Lemma land_7_mod z : Z.land z 7 = z mod 8.
Proof. change 7 with (Z.ones 3). by rewrite Z.land_ones by lia. Qed.

(** Setting a bit that is out of the tested position changes nothing. *)
Lemma lor_bit_testbit z n m :
  0 ≤ n → 0 ≤ m →
  Z.testbit (Z.lor z (Z.shiftl 1 n)) m = (Z.testbit z m || bool_decide (m = n))%bool.
Proof.
  intros Hn Hm. rewrite Z.lor_spec. f_equal.
  rewrite Z.shiftl_1_l, Z.pow2_bits_eqb by lia.
  rewrite Z.eqb_sym. case_bool_decide as E; [by apply Z.eqb_eq|by apply Z.eqb_neq].
Qed.

End words.

#[export] Hint Rewrite wrap_wrap : words.
(** Clearing the lower three bits of a word. *)
Lemma land_not_7 z : (0 ≤ z < 2 ^ 64 → Z.land z (u64 (Z.lnot 7)) = z / 8 * 8)%Z.
Proof.
  intros Hz. rewrite <-(Z.shiftl_mul_pow2 _ 3), <-(Z.shiftr_div_pow2 _ 3) by lia.
  rewrite <-Z.ldiff_ones_r by lia. change (Z.ones 3) with 7%Z. rewrite Z.ldiff_land.
  apply Z.bits_inj'. intros k Hk. rewrite !Z.land_spec, wrap_testbit by lia.
  case_bool_decide; [done|]. simpl. rewrite andb_false_r.
  replace z with (wrap 64 z) by (by apply wrap_small). rewrite wrap_testbit by lia.
  by rewrite bool_decide_eq_false_2 by lia.
Qed.

#[export] Hint Resolve wrap_bound land_7_bound : words.

(** Discharges the range side conditions of word arithmetic. *)
Ltac word_range :=
  change (2 ^ 64)%Z with 18446744073709551616%Z in *;
  change (2 ^ 63)%Z with 9223372036854775808%Z in *;
  change (2 ^ 32)%Z with 4294967296%Z in *;
  change (2 ^ 8)%Z with 256%Z in *; lia.
