(* ===== verification/Companion.v ===== *)
(** * The VM companion thread and the stop-the-world operation

    [mmtkVMCompanionThread.cpp] and [mmtkVMOperation.cpp].  Three threads share
    the monitor [_lock] and the two fields it protects, [_desired_state] and
    [_reached_state]:

    - the companion thread runs [MMTkVMCompanionThread::run];
    - the VM thread runs [do_mmtk_stw_operation], from [VM_MMTkSTWOperation::doit];
    - a GC thread calls [request] and [wait_for_reached].

    Each thread is an executable partial function on the shared state, one case
    per program point ([None]: the thread is blocked there); [step] interleaves
    them.  A thread that waits on [_lock] is at a [..Waiting] point until
    [notify_all] (or a spurious wake-up) moves it to the matching [..Reacq]
    point, where it takes the lock again and tests its loop condition again.

    [VMThread::execute] is HotSpot's.  Its contract for a blocking safepoint
    operation is the [Sched] transitions of [step]: the operation is queued by
    the caller, the VM thread brings the Java threads to a safepoint and runs
    [doit], the Java threads resume after [doit], and the caller gets to run
    [doit_epilogue] some time after that. *)

From stdpp Require Import base gmap list.
From S2P Require Import Prelude.

(** ** State *)

Inductive stw_state := threads_suspended | threads_resumed.
#[export] Instance stw_state_eq_dec : EqDecision stw_state.
Proof. solve_decision. Defined.

(** The threads that take [_lock]. *)
Inductive tid := TCompanion | TVM | TGC.
#[export] Instance tid_eq_dec : EqDecision tid.
Proof. solve_decision. Defined.

(** Who holds [Heap_lock]: the companion thread, or some other thread. *)
Inductive heap_holder := HCompanion | HOther.
#[export] Instance heap_holder_eq_dec : EqDecision heap_holder.
Proof. solve_decision. Defined.

(** Program points of [MMTkVMCompanionThread::run]. *)
Inductive companion_pc :=
| CTop        (* about to take [_lock] *)
| CEntered    (* holds [_lock], before the first assertion *)
| CCheck      (* holds [_lock], at the test of the wait loop *)
| CWaiting | CReacq
| CPrologue   (* inside [VMThread::execute], about to call [doit_prologue] *)
| CExecute    (* [doit_prologue] returned true, about to queue the operation *)
| CBlocked    (* blocked until the VM thread has finished the operation *)
| CEpilogue.  (* about to call [doit_epilogue] *)

#[export] Instance companion_pc_eq_dec : EqDecision companion_pc.
Proof. solve_decision. Defined.

(** Program points of the VM thread with respect to the operation. *)
Inductive vm_pc :=
| VIdle
| VAcquire    (* at the safepoint, inside [doit], about to take [_lock] *)
| VEntered    (* holds [_lock], before [_reached_state = _threads_suspended] *)
| VCheck      (* holds [_lock], at the test of the wait loop *)
| VWaiting | VReacq
| VReturn.    (* [doit] has returned, Java threads still at the safepoint *)

(** Program points of the GC thread: [request(d, w)] and [wait_for_reached(d)]. *)
Inductive gc_pc :=
| GRun
| GAcquire (d : stw_state) (w : bool)   (* request: about to take [_lock] *)
| GSet (d : stw_state) (w : bool)       (* request: holds [_lock], before the assignment *)
| GWAcquire (d : stw_state)             (* wait_for_reached: about to take [_lock] *)
| GWEntered (d : stw_state)             (* wait_for_reached: holds [_lock] *)
| GCheck (d : stw_state)                (* holds [_lock], at the test of the wait loop *)
| GWaiting (d : stw_state)
| GReacq (d : stw_state).

(** Where the operation is in the VM thread's queue. *)
Inductive vmop_state := QNone | QQueued | QRunning | QFinished | QDone.

#[export] Instance vmop_state_eq_dec : EqDecision vmop_state.
Proof. solve_decision. Defined.

Record st := St {
  lock : option tid;
  desired_state : stw_state;
  reached_state : stw_state;
  cpc : companion_pc;
  vpc : vm_pc;
  gpc : gc_pc;
  vmop : vmop_state;
  java_stopped : bool;          (* Java threads held at the operation's safepoint *)
  heap_lock : option heap_holder;
  pending_list : bool;          (* Universe::has_reference_pending_list() *)
  heap_notified : nat;          (* Heap_lock->notify_all() calls *)
  granted : option stw_state    (* the state the last returned wait has observed *)
}.

Definition set_lock l s := St l (desired_state s) (reached_state s) (cpc s) (vpc s) (gpc s)
  (vmop s) (java_stopped s) (heap_lock s) (pending_list s) (heap_notified s) (granted s).
Definition set_desired d s := St (lock s) d (reached_state s) (cpc s) (vpc s) (gpc s)
  (vmop s) (java_stopped s) (heap_lock s) (pending_list s) (heap_notified s) (granted s).
Definition set_reached r s := St (lock s) (desired_state s) r (cpc s) (vpc s) (gpc s)
  (vmop s) (java_stopped s) (heap_lock s) (pending_list s) (heap_notified s) (granted s).
Definition set_cpc c s := St (lock s) (desired_state s) (reached_state s) c (vpc s) (gpc s)
  (vmop s) (java_stopped s) (heap_lock s) (pending_list s) (heap_notified s) (granted s).
Definition set_vpc v s := St (lock s) (desired_state s) (reached_state s) (cpc s) v (gpc s)
  (vmop s) (java_stopped s) (heap_lock s) (pending_list s) (heap_notified s) (granted s).
Definition set_gpc g s := St (lock s) (desired_state s) (reached_state s) (cpc s) (vpc s) g
  (vmop s) (java_stopped s) (heap_lock s) (pending_list s) (heap_notified s) (granted s).
Definition set_vmop q s := St (lock s) (desired_state s) (reached_state s) (cpc s) (vpc s) (gpc s)
  q (java_stopped s) (heap_lock s) (pending_list s) (heap_notified s) (granted s).
Definition set_java b s := St (lock s) (desired_state s) (reached_state s) (cpc s) (vpc s) (gpc s)
  (vmop s) b (heap_lock s) (pending_list s) (heap_notified s) (granted s).
Definition set_heap h s := St (lock s) (desired_state s) (reached_state s) (cpc s) (vpc s) (gpc s)
  (vmop s) (java_stopped s) h (pending_list s) (heap_notified s) (granted s).
Definition set_pending b s := St (lock s) (desired_state s) (reached_state s) (cpc s) (vpc s) (gpc s)
  (vmop s) (java_stopped s) (heap_lock s) b (heap_notified s) (granted s).
Definition heap_notify s := St (lock s) (desired_state s) (reached_state s) (cpc s) (vpc s) (gpc s)
  (vmop s) (java_stopped s) (heap_lock s) (pending_list s) (S (heap_notified s)) (granted s).
Definition set_granted g s := St (lock s) (desired_state s) (reached_state s) (cpc s) (vpc s) (gpc s)
  (vmop s) (java_stopped s) (heap_lock s) (pending_list s) (heap_notified s) g.

(** The constructor: resumed, nothing requested, all threads at their start. *)
Definition MMTkVMCompanionThread : st :=
  St None threads_resumed threads_resumed CTop VIdle GRun QNone false None false 0 None.

(** ** The monitor *)

Definition wake_c (c : companion_pc) := match c with CWaiting => CReacq | c => c end.
Definition wake_v (v : vm_pc) := match v with VWaiting => VReacq | v => v end.
Definition wake_g (g : gc_pc) := match g with GWaiting d => GReacq d | g => g end.

(** [_lock->notify_all()]. *)
Definition notify_all (s : st) : st :=
  set_cpc (wake_c (cpc s)) (set_vpc (wake_v (vpc s)) (set_gpc (wake_g (gpc s)) s)).

(** Taking [_lock]: blocked while another thread holds it. *)
Definition acquire (t : tid) (s : st) : option st :=
  match lock s with
  | None => Some (set_lock (Some t) s)
  | Some _ => None
  end.

Definition release (s : st) : st := set_lock None s.

(** ** The VM operation *)

(** [VM_MMTkSTWOperation::doit_prologue]: blocked while another thread holds
    [Heap_lock]; returns true. *)
Definition doit_prologue (s : st) : option (bool * st) :=
  match heap_lock s with
  | None => Some (true, set_heap (Some HCompanion) s)
  | Some _ => None
  end.

(** [VM_MMTkSTWOperation::doit_epilogue]. *)
Definition doit_epilogue (s : st) : st :=
  let s := if pending_list s then heap_notify s else s in
  set_heap None s.

(** ** The companion thread *)

Definition companion_step (s : st) : option st :=
  match cpc s with
  | CTop => s ← acquire TCompanion s; Some (set_cpc CEntered s)
  | CEntered => Some (set_cpc CCheck s)
  | CCheck =>
      if decide (desired_state s ≠ threads_suspended)
      then Some (set_cpc CWaiting (release s))
      else Some (set_cpc CPrologue (release s))
  | CWaiting => None
  | CReacq => s ← acquire TCompanion s; Some (set_cpc CCheck s)
  | CPrologue =>
      '(proceed, s) ← doit_prologue s;
      Some (set_cpc (if (proceed : bool) then CExecute else CTop) s)
  | CExecute => Some (set_cpc CBlocked (set_vmop QQueued s))
  | CBlocked =>
      match vmop s with
      | QDone => Some (set_cpc CEpilogue (set_vmop QNone s))
      | _ => None
      end
  | CEpilogue => Some (set_cpc CTop (doit_epilogue s))
  end.

(** ** The VM thread in [do_mmtk_stw_operation] *)

Definition do_mmtk_stw_operation_step (s : st) : option st :=
  match vpc s with
  | VIdle => None
  | VAcquire => s ← acquire TVM s; Some (set_vpc VEntered s)
  | VEntered => Some (notify_all (set_reached threads_suspended (set_vpc VCheck s)))
  | VCheck =>
      if decide (desired_state s ≠ threads_resumed)
      then Some (set_vpc VWaiting (release s))
      else Some (release (notify_all (set_reached threads_resumed (set_vpc VReturn s))))
  | VWaiting => None
  | VReacq => s ← acquire TVM s; Some (set_vpc VCheck s)
  | VReturn => None
  end.

(** ** The GC thread in [request] and [wait_for_reached] *)

Definition gc_step (s : st) : option st :=
  match gpc s with
  | GRun => None
  | GAcquire d w => s ← acquire TGC s; Some (set_gpc (GSet d w) s)
  | GSet d w =>
      let s := notify_all (set_desired d s) in
      Some (if (w : bool) then set_gpc (GCheck d) s else set_gpc GRun (release s))
  | GWAcquire d => s ← acquire TGC s; Some (set_gpc (GWEntered d) s)
  | GWEntered d => Some (set_gpc (GCheck d) s)
  | GCheck d =>
      if decide (reached_state s ≠ d)
      then Some (set_gpc (GWaiting d) (release s))
      else Some (set_granted (Some d) (set_gpc GRun (release s)))
  | GWaiting _ => None
  | GReacq d => s ← acquire TGC s; Some (set_gpc (GCheck d) s)
  end.

(** Calls by the GC thread, as the assertions of [request] and [wait_for_reached]
    ask for them: for the state that it has not asked for last, and a wait only for
    the state that it has.  That the upcalls, which do not test this, keep to it is
    [CompanionCalls.assertions_hold]. *)
Definition call_request (d : stw_state) (w : bool) (s : st) : option st :=
  match gpc s with
  | GRun =>
      if decide (desired_state s = d) then None
      else Some (set_granted None (set_gpc (GAcquire d w) s))
  | _ => None
  end.

Definition call_wait_for_reached (d : stw_state) (s : st) : option st :=
  match gpc s with
  | GRun => if decide (desired_state s = d) then Some (set_gpc (GWAcquire d) s) else None
  | _ => None
  end.

(** ** Interleaving *)

Inductive label := Companion | VM | GC | Sched | HeapFree | Call | HeapTaken | Pending | Spurious.

Inductive step : label → st → st → Prop :=
| step_companion s s' : companion_step s = Some s' → step Companion s s'
| step_vm s s' : do_mmtk_stw_operation_step s = Some s' → step VM s s'
| step_gc s s' : gc_step s = Some s' → step GC s s'
| step_safepoint_begin s :
    vmop s = QQueued → vpc s = VIdle →
    step Sched s (set_vmop QRunning (set_vpc VAcquire (set_java true s)))
| step_safepoint_end s :
    vpc s = VReturn →
    step Sched s (set_vmop QFinished (set_vpc VIdle (set_java false s)))
| step_execute_returns s :
    vmop s = QFinished → step Sched s (set_vmop QDone s)
| step_heap_free s : heap_lock s = Some HOther → step HeapFree s (set_heap None s)
| step_heap_taken s : heap_lock s = None → step HeapTaken s (set_heap (Some HOther) s)
| step_pending s b : step Pending s (set_pending b s)
| step_call_request s d w s' : call_request d w s = Some s' → step Call s s'
| step_call_wait s d s' : call_wait_for_reached d s = Some s' → step Call s s'
| step_spurious_c s : cpc s = CWaiting → step Spurious s (set_cpc CReacq s)
| step_spurious_v s : vpc s = VWaiting → step Spurious s (set_vpc VReacq s)
| step_spurious_g s d : gpc s = GWaiting d → step Spurious s (set_gpc (GReacq d) s).

Definition any_step (s s' : st) : Prop := ∃ l, step l s s'.
Definition reachable (s : st) : Prop := rtc any_step MMTkVMCompanionThread s.

(** The steps that the threads and the VM thread's scheduler take by
    themselves: no new call, no spurious wake-up, nobody else taking
    [Heap_lock]. *)
Definition progress (s s' : st) : Prop :=
  step Companion s s' ∨ step VM s s' ∨ step GC s s' ∨ step Sched s s' ∨ step HeapFree s s'.
