(* ===== verification/CompanionSafety.v ===== *)
(** * Safety of the stop-the-world protocol

    The invariant of [Companion.step], mutual exclusion, what a returned [request]
    guarantees, and the refinement of the protocol to the two-line contract the rest
    of the binding relies on ([StwSpec]). *)

From stdpp Require Import base gmap list.
From S2P Require Import Prelude Companion.

(** ** The contract: a world that is running or stopped *)

Module StwSpec.

(** [target]: what the GC asked for last; [observed]: what its last returned
    wait has told it, until it asks again. *)
Record world := World {
  stopped : bool;
  target : stw_state;
  observed : option stw_state
}.

Inductive spec_step : relation world :=
| spec_call w : spec_step w (World (stopped w) (target w) None)
| spec_ask w d : observed w = None → target w ≠ d → spec_step w (World (stopped w) d None)
| spec_stop w : stopped w = false → spec_step w (World true (target w) (observed w))
| spec_start w :
    stopped w = true → observed w ≠ Some threads_suspended →
    spec_step w (World false (target w) (observed w))
| spec_observe w d :
    target w = d → (d = threads_suspended → stopped w = true) →
    spec_step w (World (stopped w) (target w) (Some d)).

Definition initial : world := World false threads_resumed None.

End StwSpec.

(** What the protocol shows of the contract's state. *)
Definition abstract (s : st) : StwSpec.world :=
  StwSpec.World (java_stopped s) (desired_state s) (granted s).

(** ** The invariant *)

Definition c_holds (c : companion_pc) : bool :=
  match c with CEntered | CCheck => true | _ => false end.
Definition v_holds (v : vm_pc) : bool :=
  match v with VEntered | VCheck => true | _ => false end.
Definition g_holds (g : gc_pc) : bool :=
  match g with GSet _ _ | GWEntered _ | GCheck _ => true | _ => false end.

(** The VM thread has announced the stop and not yet the resumption. *)
Definition v_suspended (v : vm_pc) : bool :=
  match v with VCheck | VWaiting | VReacq => true | _ => false end.

(** The companion thread holds [Heap_lock] for its operation. *)
Definition c_in_op (c : companion_pc) : bool :=
  match c with CExecute | CBlocked | CEpilogue => true | _ => false end.

(** What the GC thread knows of the two fields at its program point. *)
Definition gc_ok (g : gc_pc) (desired reached : stw_state) (gr : option stw_state) : Prop :=
  match g with
  | GRun => True
  | GAcquire d _ | GSet d _ => desired ≠ d ∧ gr = None
  | GWAcquire d | GWEntered d | GCheck d | GReacq d => desired = d
  | GWaiting d => desired = d ∧ reached ≠ d
  end.

Record inv (s : st) : Prop := {
  inv_lock_c : lock s = Some TCompanion ↔ c_holds (cpc s) = true;
  inv_lock_v : lock s = Some TVM ↔ v_holds (vpc s) = true;
  inv_lock_g : lock s = Some TGC ↔ g_holds (gpc s) = true;
  inv_reached : reached_state s = threads_suspended ↔ v_suspended (vpc s) = true;
  inv_vmop_c : vmop s = QNone ↔ cpc s ≠ CBlocked;
  inv_vmop_v : vmop s = QRunning ↔ vpc s ≠ VIdle;
  inv_java : java_stopped s = true ↔ vpc s ≠ VIdle;
  inv_heap : heap_lock s = Some HCompanion ↔ c_in_op (cpc s) = true;
  inv_c_wait : cpc s = CWaiting → desired_state s = threads_resumed;
  inv_v_wait : vpc s = VWaiting → desired_state s = threads_suspended;
  inv_gc : gc_ok (gpc s) (desired_state s) (reached_state s) (granted s);
  inv_granted : granted s = Some threads_suspended →
    desired_state s = threads_suspended ∧ reached_state s = threads_suspended
}.

Lemma inv_init : inv MMTkVMCompanionThread.
Proof. split; simpl; naive_solver. Qed.

(** Splits a step function's equation into one goal per outcome. *)
Ltac open_step H :=
  repeat match type of H with
  | context [decide ?P] => destruct (decide P)
  | context [match ?x with _ => _ end] => destruct x eqn:?; simplify_eq/=
  end; simplify_eq/=;
  repeat match goal with H : ¬ _ ≠ _ |- _ => apply dec_stable in H; subst end.

(** Waking the waiters changes none of the facts the invariant is about. *)
Lemma c_holds_wake c : c_holds (wake_c c) = c_holds c.
Proof. by destruct c. Qed.
Lemma v_holds_wake v : v_holds (wake_v v) = v_holds v. Proof. by destruct v. Qed.
Lemma g_holds_wake g : g_holds (wake_g g) = g_holds g. Proof. by destruct g. Qed.
Lemma v_suspended_wake v : v_suspended (wake_v v) = v_suspended v. Proof. by destruct v. Qed.
Lemma c_in_op_wake c : c_in_op (wake_c c) = c_in_op c. Proof. by destruct c. Qed.
Lemma wake_c_blocked c : wake_c c = CBlocked ↔ c = CBlocked. Proof. by destruct c. Qed.
Lemma wake_c_waiting c : wake_c c = CWaiting ↔ False. Proof. by destruct c. Qed.
Lemma wake_v_idle v : wake_v v = VIdle ↔ v = VIdle. Proof. by destruct v. Qed.
Lemma wake_v_waiting v : wake_v v = VWaiting ↔ False. Proof. by destruct v. Qed.
Lemma gc_ok_wake g d r r' gr : gc_ok g d r gr → gc_ok (wake_g g) d r' gr.
Proof. destruct g; naive_solver. Qed.

Create Rewrite HintDb wake.
#[export] Hint Rewrite c_holds_wake v_holds_wake g_holds_wake v_suspended_wake c_in_op_wake
  wake_c_blocked wake_c_waiting wake_v_idle wake_v_waiting : wake.
#[export] Hint Resolve gc_ok_wake : core.

(** Shows the invariant of a state whose program points are known. *)
Ltac crush_inv :=
  split; simpl in *; autorewrite with wake; try assumption; eauto 2;
  try (intuition congruence);
  try (repeat match goal with d : stw_state |- _ => destruct d end; intuition congruence).

Ltac open_st s := destruct s as [lk d r c v g q j h p n gr]; simpl in *.

Lemma companion_step_inv s s' : inv s → companion_step s = Some s' → inv s'.
Proof.
  intros [] Hs. open_st s.
  unfold companion_step, acquire, release, doit_prologue, doit_epilogue in Hs; simpl in Hs.
  destruct c; simpl in *; open_step Hs; crush_inv.
Qed.

Lemma vm_step_inv s s' : inv s → do_mmtk_stw_operation_step s = Some s' → inv s'.
Proof.
  intros [] Hs. open_st s.
  unfold do_mmtk_stw_operation_step, acquire, release, notify_all in Hs; simpl in Hs.
  destruct v; simpl in *; open_step Hs; crush_inv.
Qed.

Lemma gc_step_inv s s' : inv s → gc_step s = Some s' → inv s'.
Proof.
  intros [] Hs. open_st s.
  unfold gc_step, acquire, release, notify_all in Hs; simpl in Hs.
  destruct g; simpl in *; open_step Hs; crush_inv.
Qed.

Lemma step_inv l s s' : inv s → step l s s' → inv s'.
Proof.
  intros Hi Hs. destruct Hs as [s s' E|s s' E|s s' E|s E1 E2|s E|s E|s E|s E|s b|s e w s' E
    |s e s' E|s E|s E|s e E].
  1-3: eauto using companion_step_inv, vm_step_inv, gc_step_inv.
  all: destruct Hi; open_st s; subst; simpl in *.
  all: try (unfold call_request, call_wait_for_reached in E; simpl in E;
            destruct g; simpl in *; open_step E).
  all: crush_inv.
Qed.

Lemma reachable_inv s : reachable s → inv s.
Proof.
  intros Hr. eapply rtc_invariant; [|exact Hr|apply inv_init].
  intros ? ? Hi [l Hl]. eauto using step_inv.
Qed.

(** A state reached by running labelled steps: used to build concrete runs. *)
Lemma reachable_step l s s' : reachable s → step l s s' → reachable s'.
Proof. intros Hr Hs. eapply rtc_r; [exact Hr|by exists l]. Qed.

(** ** Facts of reachable states *)

Lemma inv_stopped s :
  inv s → reached_state s = threads_suspended → java_stopped s = true.
Proof.
  intros [] Hr. apply inv_java0. intros Hv. rewrite Hv in *.
  by apply inv_reached0 in Hr.
Qed.

(** The companion thread is blocked as long as its operation is queued... *)
Lemma inv_blocked s : inv s → vmop s ≠ QNone → cpc s = CBlocked.
Proof.
  intros [] Hq. destruct (cpc s) eqn:E; try done; exfalso; by apply Hq, inv_vmop_c0.
Qed.

(** ... in particular as long as the VM thread runs it. *)
Lemma inv_running s : inv s → vpc s ≠ VIdle → vmop s = QRunning ∧ cpc s = CBlocked.
Proof.
  intros Hi Hv. assert (vmop s = QRunning) as Hq by (by apply Hi).
  split; [done|]. apply inv_blocked; [done|]. by rewrite Hq.
Qed.

(** Nobody is in a critical section while [_lock] is free. *)
Lemma inv_free s :
  inv s → lock s = None →
  c_holds (cpc s) = false ∧ v_holds (vpc s) = false ∧ g_holds (gpc s) = false.
Proof.
  intros [] Hl. split_and!; apply not_true_is_false; intros H.
  - apply inv_lock_c0 in H. congruence.
  - apply inv_lock_v0 in H. congruence.
  - apply inv_lock_g0 in H. congruence.
Qed.

Lemma inv_granted_stopped s :
  inv s → granted s = Some threads_suspended → java_stopped s = true.
Proof. intros Hi Hg. apply inv_stopped; [done|]. by apply (inv_granted s Hi). Qed.

(** The threads inside the three critical sections. *)
Definition in_section (t : tid) (s : st) : bool :=
  match t with
  | TCompanion => c_holds (cpc s)
  | TVM => v_holds (vpc s)
  | TGC => g_holds (gpc s)
  end.

(** ** Concrete runs *)

(** A scheduler's choice; [run] plays a list of choices. *)
Inductive choice :=
| DoCompanion | DoVM | DoGC | DoSafepointBegin | DoSafepointEnd | DoExecuteReturns
| DoRequest (d : stw_state) (w : bool) | DoPending (b : bool).

Definition play (a : choice) (s : st) : option st :=
  match a with
  | DoCompanion => companion_step s
  | DoVM => do_mmtk_stw_operation_step s
  | DoGC => gc_step s
  | DoSafepointBegin =>
      match vmop s, vpc s with
      | QQueued, VIdle => Some (set_vmop QRunning (set_vpc VAcquire (set_java true s)))
      | _, _ => None
      end
  | DoSafepointEnd =>
      match vpc s with
      | VReturn => Some (set_vmop QFinished (set_vpc VIdle (set_java false s)))
      | _ => None
      end
  | DoExecuteReturns =>
      match vmop s with QFinished => Some (set_vmop QDone s) | _ => None end
  | DoRequest d w => call_request d w s
  | DoPending b => Some (set_pending b s)
  end.

Fixpoint run (l : list choice) (s : st) : option st :=
  match l with
  | [] => Some s
  | a :: l => s' ← play a s; run l s'
  end.

Lemma play_step a s s' : play a s = Some s' → any_step s s'.
Proof.
  destruct a; simpl; intros E; try (eexists; by eauto using step).
  - destruct (vmop s) eqn:?, (vpc s) eqn:?; simplify_eq. eexists. by eauto using step.
  - destruct (vpc s) eqn:?; simplify_eq. eexists. by eauto using step.
  - destruct (vmop s) eqn:?; simplify_eq. eexists. by eauto using step.
  - simplify_eq. eexists. by eauto using step.
Qed.

Lemma run_rtc l s s' : run l s = Some s' → rtc any_step s s'.
Proof.
  revert s; induction l as [|a l IH]; intros s E; simpl in E; [by simplify_eq|].
  destruct (play a s) as [s1|] eqn:E1; simpl in E; [|done].
  eapply rtc_l; eauto using play_step.
Qed.

Lemma run_reachable l s : run l MMTkVMCompanionThread = Some s → reachable s.
Proof. apply run_rtc. Qed.

(** The run of one stop request up to its return. *)
Definition stop_run : list choice :=
  [DoCompanion; DoCompanion; DoCompanion;                 (* the companion waits *)
   DoRequest threads_suspended true; DoGC; DoGC; DoGC;     (* the GC thread asks and waits *)
   DoCompanion; DoCompanion; DoCompanion; DoCompanion;     (* execute, operation queued *)
   DoSafepointBegin; DoVM; DoVM; DoVM;                     (* the VM thread announces the stop *)
   DoGC; DoGC].                                            (* the request returns *)

(** ... and of the resume request, up to the companion thread's epilogue. *)
Definition resume_run : list choice :=
  stop_run ++
  [DoRequest threads_resumed true; DoGC; DoGC; DoGC;
   DoVM; DoVM; DoGC; DoGC; DoPending true;
   DoSafepointEnd; DoExecuteReturns; DoCompanion].

Definition after (l : list choice) : st :=
  match run l MMTkVMCompanionThread with Some s => s | None => MMTkVMCompanionThread end.

Lemma after_reachable l : is_Some (run l MMTkVMCompanionThread) → reachable (after l).
Proof. intros [s E]. unfold after. rewrite E. by eapply run_reachable. Qed.

(** ** Properties *)

(** At most one of the companion thread, the VM thread and the GC thread is
    inside a critical section of [_lock]. *)
Theorem mutual_exclusion s t1 t2 :
  reachable s → in_section t1 s = true → in_section t2 s = true → t1 = t2.
Proof.
  intros Hr%reachable_inv H1 H2. destruct Hr.
  destruct t1, t2; simpl in *; intuition congruence.
Qed.

Lemma mutual_exclusion_witness :
  in_section TGC (after (take 16 stop_run)) = true ∧ TGC = TGC.
Proof.
  assert (reachable (after (take 16 stop_run))) as Hr.
  { apply after_reachable. eexists. vm_compute. reflexivity. }
  split; [by vm_compute|].
  apply (mutual_exclusion _ TGC TGC Hr); by vm_compute.
Defined.

(** C1. A [request(_threads_suspended, true)] that has returned means the Java
    threads are stopped; they stay stopped, and the GC keeps that knowledge,
    through every step of any thread other than the GC's own next request. *)
Theorem suspended_means_stopped s :
  reachable s → granted s = Some threads_suspended →
  java_stopped s = true ∧
  ∀ l s', step l s s' → l ≠ Call → granted s' = Some threads_suspended ∧ java_stopped s' = true.
Proof.
  intros Hr Hg. apply reachable_inv in Hr.
  split; [by apply inv_granted_stopped|]. intros l s' Hs Hl.
  assert (granted s' = Some threads_suspended) as Hg1.
  { destruct Hs as [s s' E|s s' E|s s' E| | | | | | | | | | |]; try done; destruct Hr; open_st s.
    - unfold companion_step, acquire, release, doit_prologue, doit_epilogue in E; simpl in E.
      destruct c; simpl in E; open_step E; first [assumption | reflexivity].
    - unfold do_mmtk_stw_operation_step, acquire, release, notify_all in E; simpl in E.
      destruct v; simpl in E; open_step E; first [assumption | reflexivity].
    - unfold gc_step, acquire, release, notify_all in E; simpl in E.
      destruct g; simpl in *; open_step E; intuition congruence. }
  split; [done|]. apply (step_inv _ _ _ Hr) in Hs. by apply inv_granted_stopped.
Qed.

Lemma suspended_means_stopped_witness : java_stopped (after stop_run) = true.
Proof.
  apply (suspended_means_stopped (after stop_run)).
  - apply after_reachable. eexists. vm_compute. reflexivity.
  - by vm_compute.
Defined.

(** While the VM thread is inside the operation, the Java threads are
    stopped, the companion thread is blocked in [VMThread::execute] and holds
    [Heap_lock] for the operation; the epilogue releases it, and notifies the
    reference handler exactly when the pending list is not empty. *)
Theorem operation_bracket s :
  reachable s →
  (vpc s ≠ VIdle → java_stopped s = true ∧ cpc s = CBlocked ∧ heap_lock s = Some HCompanion) ∧
  (cpc s = CEpilogue → ∃ s', companion_step s = Some s' ∧ cpc s' = CTop ∧ heap_lock s' = None ∧
     heap_notified s' = (if pending_list s then 1 else 0) + heap_notified s).
Proof.
  intros Hi%reachable_inv. split.
  - intros Hv. destruct (inv_running _ Hi Hv) as [_ Hc].
    split_and!; [by apply Hi|done|]. apply Hi. by rewrite Hc.
  - intros Hc. unfold companion_step, doit_epilogue. rewrite Hc.
    eexists; split; [done|]. by destruct (pending_list s).
Qed.

Lemma operation_bracket_witness :
  heap_lock (after (take 14 stop_run)) = Some HCompanion ∧
  ∃ s', companion_step (after resume_run) = Some s' ∧ heap_notified s' = 1.
Proof.
  assert (reachable (after (take 14 stop_run))) as H1.
  { apply after_reachable. eexists. vm_compute. reflexivity. }
  assert (reachable (after resume_run)) as H2.
  { apply after_reachable. eexists. vm_compute. reflexivity. }
  split.
  - apply (operation_bracket _ H1). by vm_compute.
  - destruct (proj2 (operation_bracket _ H2) eq_refl) as (s' & E & _ & _ & Hn).
    exists s'. split; [exact E|]. rewrite Hn. by vm_compute.
Defined.

(** ** Refinement of the contract *)

Lemma step_refines l s s' :
  inv s → step l s s' → abstract s = abstract s' ∨ StwSpec.spec_step (abstract s) (abstract s').
Proof.
  intros Hi Hs. unfold abstract.
  destruct Hs as [s s' E|s s' E|s s' E|s E1 E2|s E|s E|s E|s E|s b|s e w s' E
    |s e s' E|s E|s E|s e E]; destruct Hi; open_st s; subst; simpl in *; auto.
  - unfold companion_step, acquire, release, doit_prologue, doit_epilogue in E; simpl in E.
    destruct c; simpl in E; open_step E; auto.
  - unfold do_mmtk_stw_operation_step, acquire, release, notify_all in E; simpl in E.
    destruct v; simpl in E; open_step E; auto.
  - unfold gc_step, acquire, release, notify_all in E; simpl in E.
    destruct g as [|e w|e w|e|e|e|e|e]; simpl in *; open_step E; auto; right.
    1, 2: destruct inv_gc0 as [? ->]; by apply (StwSpec.spec_ask (StwSpec.World _ _ _)).
    apply (StwSpec.spec_observe (StwSpec.World _ _ _)); [done|]. simpl. intros ->.
    apply inv_java0. intros ->. by pose proof (proj1 inv_reached0 eq_refl).
  - right. apply (StwSpec.spec_stop (StwSpec.World _ _ _)). simpl.
    destruct j; [|done]. exfalso. by apply inv_java0.
  - right. apply (StwSpec.spec_start (StwSpec.World _ _ _)); simpl; [by apply inv_java0|].
    intros Hg. apply inv_granted0 in Hg as [_ Hg]. by apply inv_reached0 in Hg.
  - unfold call_request in E; simpl in E. destruct g; open_step E.
    right. apply (StwSpec.spec_call (StwSpec.World _ _ _)).
  - unfold call_wait_for_reached in E; simpl in E. destruct g; open_step E; auto.
Qed.

(** C3. The three-thread protocol refines the contract [StwSpec]: every run maps
    to a run of a world in which a stop is observed only when the world is
    stopped, and a stop that has been observed is not undone before the GC asks
    for something else. *)
Theorem protocol_refines_spec s :
  reachable s → rtc StwSpec.spec_step StwSpec.initial (abstract s).
Proof.
  intros Hr. change StwSpec.initial with (abstract MMTkVMCompanionThread).
  eapply (simulation_rtc any_step _ inv); [| |exact Hr|apply inv_init].
  - intros ? ? Hi [l Hl]. eauto using step_inv.
  - intros ? ? Hi [l Hl]. eauto using step_refines.
Qed.

Lemma protocol_refines_spec_witness :
  rtc StwSpec.spec_step StwSpec.initial
    (StwSpec.World true threads_suspended (Some threads_suspended)).
Proof.
  apply (protocol_refines_spec (after stop_run)).
  apply after_reachable. eexists. vm_compute. reflexivity.
Defined.
