(* ===== verification/CompanionCalls.v ===== *)
(** * The calls of the stop-the-world protocol

    [Companion.step] lets the GC thread make the calls that the assertions of
    [request] allow.  Here the callers are the code: [mmtk_stop_all_mutators] and
    [mmtk_resume_mutators] of [mmtkUpcalls.cpp], which call [request] without a test,
    and mmtk-core, whose workers call the two in turn.  They keep to the contract, so
    all of the protocol's assertions hold, those on the identity of the calling
    thread included, and what [CompanionSafety] and [CompanionLiveness] show applies
    to them.  [wait_for_reached] has no caller. *)

From stdpp Require Import base gmap list.
From S2P Require Import Prelude Companion CompanionSafety.

(** ** Threads *)

(** The companion thread, the VM thread, the threads of [mmtk_spawn_gc_thread], and
    Java threads. *)
Inductive thread :=
| MMTkVMCompanion | VMThread | MMTkCollector (id : nat) | JavaThread (id : nat).
#[export] Instance thread_eq_dec : EqDecision thread.
Proof. solve_decision. Defined.

(** [Thread::is_VM_thread] and [Thread::is_Java_thread]; a [NamedThread] is neither. *)
Definition is_VM_thread (t : thread) : bool := match t with VMThread => true | _ => false end.
Definition is_Java_thread (t : thread) : bool := match t with JavaThread _ => true | _ => false end.

(** ** The upcalls *)

(** Between the upcalls the world is resumed or stopped; inside them [request] is
    running. *)
Inductive upcall_pc := UResumed | UStopping | UStopped | UResuming.

(** The protocol, and [Thread::current()] in [request] and in
    [do_mmtk_stw_operation]. *)
Record calls := Calls {
  base : st;
  upcalls : upcall_pc;
  requester : thread;
  operator : thread
}.

Definition start : calls := Calls MMTkVMCompanionThread UResumed MMTkVMCompanion MMTkVMCompanion.

(** Entering [request(d, w)], whatever the state. *)
Definition enter_request (d : stw_state) (w : bool) (s : st) : st := set_granted None (set_gpc (GAcquire d w) s).

(** The call of [request] in [mmtk_stop_all_mutators], and in
    [mmtk_resume_mutators], by the thread [t]. *)
Definition mmtk_stop_all_mutators_request (t : thread) (s : calls) : calls :=
  Calls (enter_request threads_suspended true (base s)) UStopping t (operator s).
Definition mmtk_resume_mutators_request (t : thread) (s : calls) : calls :=
  Calls (enter_request threads_resumed true (base s)) UResuming t (operator s).

(** mmtk-core's workers call the upcalls in turn, not always the same worker.  The
    operation is executed by the VM thread. *)
Inductive calls_step : calls → calls → Prop :=
| cs_protocol l s b : l ≠ Call → l ≠ Sched → step l (base s) b →
    calls_step s (Calls b (upcalls s) (requester s) (operator s))
| cs_execute s b : step Sched (base s) b → calls_step s (Calls b (upcalls s) (requester s) VMThread)
| cs_stop s id : upcalls s = UResumed → calls_step s (mmtk_stop_all_mutators_request (MMTkCollector id) s)
| cs_stopped s : upcalls s = UStopping → gpc (base s) = GRun →
    calls_step s (Calls (base s) UStopped (requester s) (operator s))
| cs_resume s id : upcalls s = UStopped → calls_step s (mmtk_resume_mutators_request (MMTkCollector id) s)
| cs_resumed s : upcalls s = UResuming → gpc (base s) = GRun →
    calls_step s (Calls (base s) UResumed (requester s) (operator s)).

Definition calls_reachable (s : calls) : Prop := rtc calls_step start s.

(** ** The assertions of the source, at the points where it makes them *)

(** The three at the start of [request] and [wait_for_reached]. *)
Definition called_by_gc_thread (t : thread) : bool :=
  negb (is_VM_thread t) && bool_decide (t ≠ MMTkVMCompanion) && negb (is_Java_thread t).

Definition asserts (s : calls) : bool :=
  let b := base s in
  match cpc b with
  | CEntered => bool_decide (reached_state b = threads_resumed)
  | CCheck => bool_decide (desired_state b = threads_suspended → reached_state b = threads_resumed)
  | _ => true
  end &&
  match vpc b with
  | VAcquire => is_VM_thread (operator s)
  | VCheck => bool_decide (desired_state b = threads_resumed → reached_state b = threads_suspended)
  | _ => true
  end &&
  match gpc b with
  | GAcquire _ _ | GWAcquire _ => called_by_gc_thread (requester s)
  | GSet d _ => bool_decide (desired_state b ≠ d)
  | GWEntered d => bool_decide (desired_state b = d)
  | _ => true
  end.

(** ** The callers keep to the contract *)

(** Inside [request(d, true)]. *)
Definition in_request (d : stw_state) (s : st) : Prop :=
  match gpc s with
  | GAcquire e w | GSet e w => e = d ∧ w = true ∧ desired_state s ≠ d
  | GCheck e | GWaiting e | GReacq e => e = d ∧ desired_state s = d
  | GRun => desired_state s = d ∧ granted s = Some d
  | GWAcquire _ | GWEntered _ => False
  end.

Definition upcall_ok (u : upcall_pc) (s : st) : Prop :=
  match u with
  | UResumed => gpc s = GRun ∧ desired_state s = threads_resumed
  | UStopping => in_request threads_suspended s
  | UStopped => gpc s = GRun ∧ desired_state s = threads_suspended ∧ granted s = Some threads_suspended
  | UResuming => in_request threads_resumed s
  end.

Record calls_inv (s : calls) : Prop := {
  ci_reachable : reachable (base s);
  ci_upcall : upcall_ok (upcalls s) (base s);
  ci_requester : gpc (base s) ≠ GRun → ∃ id, requester s = MMTkCollector id;
  ci_operator : vpc (base s) ≠ VIdle → operator s = VMThread
}.

(** A step that is not a call leaves a request what it is. *)
Lemma step_keeps l s s' :
  l ≠ Call → step l s s' →
  (gpc s = GRun → gpc s' = GRun ∧ desired_state s' = desired_state s ∧ granted s' = granted s) ∧
  (∀ d, in_request d s → in_request d s') ∧
  (l ≠ Sched → vpc s = VIdle → vpc s' = VIdle).
Proof.
  intros Hl Hs. unfold in_request.
  destruct Hs as [s s' E|s s' E|s s' E|s E1 E2|s E|s E|s E|s E|s b|s e w s' E|s e s' E|s E|s E|s e E]; try done; open_st s.
  - unfold companion_step, acquire, release, doit_prologue, doit_epilogue in E; simpl in E.
    destruct c; simpl in E; open_step E; naive_solver.
  - unfold do_mmtk_stw_operation_step, acquire, release, notify_all in E; simpl in E.
    destruct v; simpl in E; open_step E; destruct g; naive_solver.
  - unfold gc_step, acquire, release, notify_all in E; simpl in E.
    destruct g; simpl in *; open_step E; naive_solver.
  - subst. naive_solver.
  - subst. naive_solver.
Qed.

Lemma upcall_ok_step l u s s' : l ≠ Call → step l s s' → upcall_ok u s → upcall_ok u s'.
Proof.
  intros Hl Hs. destruct (step_keeps l s s' Hl Hs) as (H1 & H2 & _). destruct u; cbn; auto.
  - intros [E1 E2]. destruct (H1 E1) as (-> & -> & _). done.
  - intros (E1 & E2 & E3). destruct (H1 E1) as (-> & -> & ->). done.
Qed.

(** The unguarded call is one that [Companion.step] allows. *)
Lemma enter_request_allowed d w s :
  gpc s = GRun → desired_state s ≠ d → step Call s (enter_request d w s).
Proof. intros E1 E2. apply (step_call_request s d w). unfold call_request. by rewrite E1, decide_False. Qed.

Lemma calls_inv_step s s' : calls_inv s → calls_step s s' → calls_inv s'.
Proof.
  intros [Hr Hu Hq Ho] Hs. destruct Hs as [l s b Hl Hl2 Hs|s b Hs|s id E|s E Eg|s id E|s E Eg]; cbn in *.
  - destruct (step_keeps l _ _ Hl Hs) as (H1 & _ & H3). split; cbn.
    + eapply reachable_step; [exact Hr|exact Hs].
    + by eapply upcall_ok_step.
    + intros Hn. apply Hq. intros E. by apply Hn, H1.
    + intros Hn. apply Ho. intros E. by apply Hn, H3.
  - destruct (step_keeps Sched _ _ ltac:(done) Hs) as (H1 & _ & _). split; cbn; [eapply reachable_step; [exact Hr|exact Hs]| |..]; try done.
    + by eapply (upcall_ok_step Sched).
    + intros Hn. apply Hq. intros E. by apply Hn, H1.
  - rewrite E in Hu. destruct Hu as [E1 E2]. split; cbn; [|by rewrite E2|by exists id|done].
    eapply reachable_step; [exact Hr|]. apply enter_request_allowed; [done|by rewrite E2].
  - rewrite E in Hu. unfold upcall_ok, in_request in *. rewrite Eg in Hu. destruct Hu as [U1 U2]. by split.
  - rewrite E in Hu. destruct Hu as (E1 & E2 & E3). split; cbn; [|by rewrite E2|by exists id|done].
    eapply reachable_step; [exact Hr|]. apply enter_request_allowed; [done|by rewrite E2].
  - rewrite E in Hu. unfold upcall_ok, in_request in *. rewrite Eg in Hu. destruct Hu as [U1 U2]. by split.
Qed.

Lemma calls_reachable_inv s : calls_reachable s → calls_inv s.
Proof.
  intros Hr. eapply rtc_invariant; [|exact Hr|].
  - intros ? ? Hi Hs. by eapply calls_inv_step.
  - split; cbn; try done. apply rtc_refl.
Qed.

Lemma inv_asserts s : calls_inv s → asserts s = true.
Proof.
  intros [Hr Hu Hq Ho]. pose proof (reachable_inv _ Hr) as []. unfold asserts.
  rewrite !andb_true_iff; split_and!.
  - destruct (cpc (base s)) eqn:Ec; try done; case_bool_decide; try done;
      destruct (vmop (base s)), (vpc (base s)), (reached_state (base s)); simpl in *; intuition congruence.
  - destruct (vpc (base s)) eqn:Ev; try done; [by rewrite Ho|]. case_bool_decide; [done|]. intuition congruence.
  - destruct (gpc (base s)) eqn:Eg; try done; simpl in *.
    + destruct Hq as [id ->]; done.
    + case_bool_decide; naive_solver.
    + destruct Hq as [id ->]; done.
    + case_bool_decide; naive_solver.
Qed.

(** C33. Every assertion of [run], [request] and [do_mmtk_stw_operation] (and of
    [wait_for_reached], which nothing calls), on the two states and on the calling thread, holds
    whenever the code evaluates it: mmtk-core's workers call
    [mmtk_stop_all_mutators] and [mmtk_resume_mutators] in turn, and these call
    [request] without a test; every state of such a run is one of the protocol, and
    between the two upcalls the Java threads are stopped. *)
Theorem assertions_hold s :
  calls_reachable s →
  asserts s = true ∧ reachable (base s) ∧ (upcalls s = UStopped → java_stopped (base s) = true).
Proof.
  intros Hi%calls_reachable_inv. split; [by apply inv_asserts|]. pose proof Hi as [Hr Hu _ _]. split; [done|].
  intros E. rewrite E in Hu. destruct Hu as (_ & _ & Hg). by apply inv_granted_stopped; [apply reachable_inv|].
Qed.

(** ** A concrete run *)

(** Worker 0 stops the world; a step of the threads of the protocol is played as in
    [CompanionSafety]. *)
Definition stop_calls : calls :=
  Calls (after stop_run) UStopped (MMTkCollector 0) VMThread.

Definition is_sched (a : choice) : bool :=
  match a with DoSafepointBegin | DoSafepointEnd | DoExecuteReturns => true | _ => false end.

(** Steps of the protocol's threads inside an upcall. *)
Fixpoint play_all (l : list choice) (s : calls) : option calls :=
  match l with
  | [] => Some s
  | DoRequest _ _ :: _ | DoPending _ :: _ => None
  | a :: l =>
      match play a (base s) with
      | Some b => play_all l (Calls b (upcalls s) (requester s) (if is_sched a then VMThread else operator s))
      | None => None
      end
  end.

Lemma play_calls_step a s b :
  play a (base s) = Some b → (∀ d w, a ≠ DoRequest d w) → (∀ p, a ≠ DoPending p) →
  calls_step s (Calls b (upcalls s) (requester s) (if is_sched a then VMThread else operator s)).
Proof.
  intros E H1 H2. destruct a; cbn [play is_sched] in *; try (by edestruct H1); try (by edestruct H2).
  - apply (cs_protocol Companion.Companion s); [done|done|by constructor].
  - apply (cs_protocol VM s); [done|done|by constructor].
  - apply (cs_protocol GC s); [done|done|by constructor].
  - apply cs_execute. destruct (vmop (base s)) eqn:?, (vpc (base s)) eqn:?; simplify_eq. by constructor.
  - apply cs_execute. destruct (vpc (base s)) eqn:?; simplify_eq. by constructor.
  - apply cs_execute. destruct (vmop (base s)) eqn:?; simplify_eq. by constructor.
Qed.

Lemma play_all_reachable l s s' : calls_reachable s → play_all l s = Some s' → calls_reachable s'.
Proof.
  revert s. induction l as [|a l IH]; intros s Hr E; cbn in E; [by simplify_eq|].
  assert (∃ b, play a (base s) = Some b ∧ (∀ d w, a ≠ DoRequest d w) ∧ (∀ p, a ≠ DoPending p) ∧
    play_all l (Calls b (upcalls s) (requester s) (if is_sched a then VMThread else operator s)) = Some s')
    as (b & Eb & H1 & H2 & El).
  { destruct a; try done; destruct (play _ (base s)) as [b|] eqn:Eb; try done; by exists b. }
  eapply IH; [|exact El]. eapply rtc_r; [exact Hr|]. by apply play_calls_step.
Qed.

Lemma stop_calls_reachable : calls_reachable stop_calls.
Proof.
  assert (calls_reachable (mmtk_stop_all_mutators_request (MMTkCollector 0)
    (Calls (after (take 3 stop_run)) UResumed MMTkVMCompanion MMTkVMCompanion))) as H1.
  { eapply rtc_r; [|by apply cs_stop]. eapply (play_all_reachable (take 3 stop_run) start); [apply rtc_refl|].
    vm_compute. reflexivity. }
  assert (calls_reachable (Calls (after stop_run) UStopping (MMTkCollector 0) VMThread)) as H2.
  { eapply (play_all_reachable (drop 4 stop_run)); [exact H1|]. vm_compute. reflexivity. }
  assert (gpc (after stop_run) = GRun) as Hg by (vm_compute; reflexivity).
  unfold stop_calls. revert H2 Hg. generalize (after stop_run). intros b H2 Hg.
  eapply rtc_r; [exact H2|]. by apply (cs_stopped (Calls b UStopping (MMTkCollector 0) VMThread)).
Qed.

Lemma assertions_hold_witness : asserts stop_calls = true ∧ java_stopped (base stop_calls) = true.
Proof.
  destruct (assertions_hold stop_calls stop_calls_reachable) as (H1 & _ & H2).
  split; [exact H1|apply H2; reflexivity].
Defined.
