(* ===== verification/CompanionLiveness.v ===== *)
(** * Liveness of the stop-the-world protocol

    No request waits for ever: every run of the three threads and of the VM
    thread's scheduler ([Companion.progress]: no new call, no spurious wake-up,
    [Heap_lock] only ever released by others) is bounded by a measure, and a run
    that cannot be extended has returned from the call.  A lost notification
    would break [progress_enabled], so this is where the [notify_all] calls of
    the source are used. *)

From stdpp Require Import base gmap list.
From Stdlib Require Import Lia.
From S2P Require Import Prelude Companion CompanionSafety.

(** ** The measure *)

(** Distance of the companion and VM threads from the point where they wait for
    the opposite of the state that is desired now. *)
Definition distance (d : stw_state) (c : companion_pc) (v : vm_pc) (q : vmop_state) : nat :=
  match d with
  | threads_suspended =>
      match c with
      | CEpilogue => 17 | CTop => 16 | CWaiting => 16 | CEntered => 15 | CReacq => 15
      | CCheck => 14 | CPrologue => 13 | CExecute => 12
      | CBlocked =>
          match q with
          | QNone | QQueued => 11 | QFinished => 19 | QDone => 18
          | QRunning =>
              match v with
              | VReturn => 20 | VIdle => 11 | VAcquire => 10 | VEntered => 9
              | VReacq => 8 | VCheck => 7 | VWaiting => 6
              end
          end
      end
  | threads_resumed =>
      match c with
      | CPrologue => 20 | CExecute => 19 | CEpilogue => 10 | CTop => 9 | CEntered => 8
      | CReacq => 8 | CCheck => 7 | CWaiting => 6
      | CBlocked =>
          match q with
          | QNone | QQueued => 18 | QFinished => 12 | QDone => 11
          | QRunning =>
              match v with
              | VIdle => 18 | VAcquire => 17 | VEntered => 16 | VReacq => 15 | VWaiting => 15
              | VCheck => 14 | VReturn => 13
              end
          end
      end
  end.

Definition gc_rank (g : gc_pc) : nat :=
  match g with
  | GAcquire _ _ => 1005 | GSet _ _ => 1004 | GWAcquire _ => 4 | GWEntered _ => 3
  | GReacq _ => 2 | GCheck _ => 1 | GWaiting _ | GRun => 0
  end.

Definition measure (s : st) : nat :=
  4 * distance (desired_state s) (cpc s) (vpc s) (vmop s) + gc_rank (gpc s) +
  match heap_lock s with Some HOther => 1 | _ => 0 end.

Lemma distance_bound d c v q : distance d c v q ≤ 20.
Proof. destruct d, c, q, v; simpl; lia. Qed.

Lemma gc_rank_wake g : gc_rank (wake_g g) ≤ gc_rank g + 2.
Proof. destruct g; simpl; lia. Qed.

Lemma companion_measure s s' : inv s → companion_step s = Some s' → measure s' < measure s.
Proof.
  intros [] E. unfold measure. open_st s.
  unfold companion_step, acquire, release, doit_prologue, doit_epilogue in E; simpl in E.
  destruct c; simpl in *; open_step E; try destruct d; simpl;
    repeat case_match; simplify_eq; try lia; exfalso; intuition congruence.
Qed.

Lemma vm_measure s s' : inv s → do_mmtk_stw_operation_step s = Some s' → measure s' < measure s.
Proof.
  intros Hi E. unfold measure.
  assert (vpc s ≠ VIdle) as Hv by (intros Hv; unfold do_mmtk_stw_operation_step in E; by rewrite Hv in E).
  destruct (inv_running _ Hi Hv) as [Hq Hc]. destruct Hi. open_st s. subst.
  pose proof (gc_rank_wake g).
  unfold do_mmtk_stw_operation_step, acquire, release, notify_all in E; simpl in E.
  destruct v; simpl in *; open_step E; try destruct d; simpl; try lia; by exfalso.
Qed.

Lemma gc_measure s s' : gc_step s = Some s' → measure s' < measure s.
Proof.
  intros E. unfold measure. open_st s.
  unfold gc_step, acquire, release, notify_all in E; simpl in E.
  destruct g as [|e w|e w|e|e|e|e|e]; simpl in *; open_step E; simpl; try lia.
  all: pose proof (distance_bound e (wake_c c) (wake_v v) q); lia.
Qed.

Lemma sched_measure s s' : inv s → step Sched s s' → measure s' < measure s.
Proof.
  intros Hi E. unfold measure.
  inversion E as [| | |? E1 E2|? E1|? E1| | | | | | | |]; subst.
  - assert (cpc s = CBlocked) as Hc by (apply inv_blocked; [done|by rewrite E1]).
    open_st s; subst. destruct d; simpl; lia.
  - destruct (inv_running s Hi) as [Hq Hc]; [by rewrite E1|].
    open_st s; subst. destruct d; simpl; lia.
  - assert (cpc s = CBlocked) as Hc by (apply inv_blocked; [done|by rewrite E1]).
    open_st s; subst. destruct d; simpl; lia.
Qed.

Lemma progress_measure s s' : inv s → progress s s' → inv s' ∧ measure s' < measure s.
Proof.
  intros Hi Hp. split.
  - destruct Hp as [H|[H|[H|[H|H]]]]; eauto using step_inv.
  - destruct Hp as [H|[H|[H|[H|H]]]].
    + inversion H; subst. by apply companion_measure.
    + inversion H; subst. by apply vm_measure.
    + inversion H; subst. by apply gc_measure.
    + by apply sched_measure.
    + inversion H as [| | | | | |? E| | | | | | |]; subst. unfold measure; simpl. rewrite E. lia.
Qed.

(** ** Some step is always possible while a call is in progress *)

Lemma companion_progress s s' : companion_step s = Some s' → progress s s'.
Proof. left. by constructor. Qed.
Lemma vm_progress s s' : do_mmtk_stw_operation_step s = Some s' → progress s s'.
Proof. right; left. by constructor. Qed.
Lemma gc_progress s s' : gc_step s = Some s' → progress s s'.
Proof. do 2 right; left. by constructor. Qed.
Lemma sched_progress s s' : step Sched s s' → progress s s'.
Proof. unfold progress. tauto. Qed.
Lemma heap_progress s s' : step HeapFree s s' → progress s s'.
Proof. unfold progress. tauto. Qed.

Create HintDb progress.
#[export] Hint Resolve companion_progress vm_progress gc_progress sched_progress heap_progress : progress.
#[export] Hint Constructors step : progress.

(** The thread that holds [_lock] can go on. *)
Lemma holder_progress s : inv s → lock s ≠ None → ∃ s', progress s s'.
Proof.
  intros Hi Hl. destruct (lock s) as [[]|] eqn:E; [| | |done].
  - apply (inv_lock_c s Hi) in E.
    assert (is_Some (companion_step s)) as [s' Hs]; [|eauto with progress].
    unfold companion_step. destruct (cpc s); try done; repeat case_decide; eauto.
  - apply (inv_lock_v s Hi) in E.
    assert (is_Some (do_mmtk_stw_operation_step s)) as [s' Hs]; [|eauto with progress].
    unfold do_mmtk_stw_operation_step. destruct (vpc s); try done; repeat case_decide; eauto.
  - apply (inv_lock_g s Hi) in E.
    assert (is_Some (gc_step s)) as [s' Hs]; [|eauto with progress].
    unfold gc_step. destruct (gpc s); try done; repeat case_decide; eauto.
Qed.

(** With [_lock] free, the companion thread is blocked only in its wait loop or
    while the VM thread has its operation. *)
Lemma companion_progress_free s :
  inv s → lock s = None → cpc s ≠ CWaiting → vmop s = QNone ∨ vmop s = QDone → ∃ s', progress s s'.
Proof.
  intros Hi Hl Hw Hq. destruct (inv_free s Hi Hl) as (Hc & _ & _).
  destruct (cpc s) eqn:E; try done.
  3: destruct (heap_lock s) as [[]|] eqn:Hh.
  3: by apply Hi in Hh; rewrite E in Hh.
  3: eexists; by eauto with progress.
  5: destruct Hq as [Hq|Hq]; [by apply Hi in Hq|].
  all: eexists; apply companion_progress; unfold companion_step, acquire, doit_prologue;
    rewrite E, ?Hl, ?Hh, ?Hq; done.
Qed.

(** With [_lock] free, so is the VM thread. *)
Lemma vm_progress_free s :
  inv s → lock s = None → vpc s ≠ VWaiting → vmop s = QQueued ∨ vmop s = QRunning ∨ vmop s = QFinished →
  ∃ s', progress s s'.
Proof.
  intros Hi Hl Hw Hq. destruct (inv_free s Hi Hl) as (_ & Hv & _).
  destruct (vpc s) eqn:E; try done.
  1: destruct Hq as [Hq|[Hq|Hq]]; [|by apply Hi in Hq|]; eexists; by eauto with progress.
  3: eexists; by eauto with progress.
  all: eexists; apply vm_progress; unfold do_mmtk_stw_operation_step, acquire; by rewrite E, Hl.
Qed.

Lemma free_progress s :
  inv s → lock s = None → cpc s ≠ CWaiting ∨ vmop s ≠ QNone → vpc s ≠ VWaiting → ∃ s', progress s s'.
Proof.
  intros Hi Hl Hc Hv. destruct (vmop s) eqn:Hq.
  - apply companion_progress_free; [done|done|naive_solver|by left].
  - apply vm_progress_free; auto.
  - apply vm_progress_free; auto.
  - apply vm_progress_free; auto.
  - apply companion_progress_free; [done|done| |by right].
    rewrite inv_blocked; [done|done|by rewrite Hq].
Qed.

Lemma progress_enabled s : inv s → gpc s ≠ GRun → ∃ s', progress s s'.
Proof.
  intros Hi Hg. destruct (lock s) eqn:Hl; [apply holder_progress; [done|by rewrite Hl]|].
  destruct (inv_free s Hi Hl) as (_ & _ & Hh).
  pose proof (inv_gc s Hi) as Hok.
  destruct (gpc s) as [|d w|d w|d|d|d|d|d] eqn:E; try done.
  1, 2, 4: eexists; apply gc_progress; unfold gc_step, acquire; rewrite E, Hl; done.
  simpl in Hok. destruct Hok as [Hd Hr]. apply free_progress; [done|done| |].
  - destruct d.
    + left. intros Hc. apply (inv_c_wait s Hi) in Hc. congruence.
    + right. intros Hq.
      assert (reached_state s = threads_suspended) as Hs by (by destruct (reached_state s)).
      apply (inv_reached s Hi) in Hs.
      assert (vpc s ≠ VIdle) as Hv by (intros Hv; by rewrite Hv in Hs).
      destruct (inv_running s Hi Hv). congruence.
  - intros Hv. apply (inv_v_wait s Hi) in Hv as Hs.
    assert (reached_state s = threads_suspended) as Hs' by (apply (inv_reached s Hi); by rewrite Hv).
    congruence.
Qed.

(** ** Every call returns *)

(** The state a call in progress waits for. *)
Definition asking (s : st) : option stw_state :=
  match gpc s with
  | GAcquire d true | GSet d true => Some d
  | GWAcquire d | GWEntered d | GCheck d | GWaiting d | GReacq d => Some d
  | _ => None
  end.

(** The call goes on, or it has returned with what it waited for. *)
Definition asked (d : stw_state) (s : st) : Prop :=
  asking s = Some d ∨ gpc s = GRun ∧ granted s = Some d.

Lemma asking_wake s d g : gpc s = g → asking s = Some d → asking (set_gpc (wake_g g) s) = Some d.
Proof. unfold asking. simpl. intros ->. by destruct g. Qed.

Lemma asked_step a s s' : inv s → progress s s' → asked a s → asked a s'.
Proof.
  unfold asked. intros Hi Hp Ha.
  destruct Hp as [H|[H|[H|[H|H]]]]; inversion H; subst; clear H.
  4-7: exact Ha.
  all: match goal with H : _ = Some _ |- _ => rename H into E end; unfold asking in *; open_st s.
  - unfold companion_step, acquire, release, doit_prologue, doit_epilogue in E; simpl in E.
    destruct c; simpl in E; open_step E; exact Ha.
  - unfold do_mmtk_stw_operation_step, acquire, release, notify_all in E; simpl in E.
    destruct v; simpl in E; open_step E; destruct g as [|? []|? []| | | | | ]; simpl in *;
      intuition congruence.
  - unfold gc_step, acquire, release, notify_all in E; simpl in E.
    destruct g as [|e []|e []| | | | | ]; simpl in *; open_step E; intuition congruence.
Qed.

Lemma runs_bounded s n s' :
  inv s → nsteps progress n s s' → inv s' ∧ n ≤ measure s.
Proof.
  intros Hi Hn. destruct (nsteps_measure _ inv measure progress_measure _ _ _ Hn Hi).
  split; [done|lia].
Qed.

Lemma asked_run d n s s' : inv s → nsteps progress n s s' → asked d s → asked d s'.
Proof.
  intros Hi Hn. revert Hi. induction Hn as [|n x y z Hxy _ IH]; intros Hx Ha; [done|].
  apply IH; [by eapply progress_measure|by eapply asked_step].
Qed.

Lemma quiet_run k s s' :
  inv s → nsteps progress k s s' → gpc s = GRun →
  gpc s' = GRun ∧ desired_state s' = desired_state s.
Proof.
  intros Hi Hn. revert Hi. induction Hn as [|k x y z Hxy _ IH]; intros Hx Hg; [done|].
  assert (gpc y = GRun ∧ desired_state y = desired_state x) as [Hy Hd].
  { destruct Hxy as [H|[H|[H|[H|H]]]]; inversion H; subst; clear H.
    4-7: done.
    all: match goal with H : _ = Some _ |- _ => rename H into E end; open_st x; subst.
    - unfold companion_step, acquire, release, doit_prologue, doit_epilogue in E; simpl in E.
      destruct c; simpl in E; by open_step E.
    - unfold do_mmtk_stw_operation_step, acquire, release, notify_all in E; simpl in E.
      destruct v; simpl in E; by open_step E.
    - done. }
  destruct IH as [? ->]; [by eapply progress_measure|done|done].
Qed.

(** C2. No waiting call is lost: from any reachable state in which the GC thread
    is inside [request(d, true)] or [wait_for_reached(d)], the runs of the
    threads are bounded, and every run that cannot go on has returned from the
    call with the state [d] reached.  Every interleaving is covered, so a
    missing [notify_all] or a dropped test of a wait loop would break it. *)
Theorem waits_terminate s d :
  reachable s → asking s = Some d →
  ∃ N, ∀ n s', nsteps progress n s s' →
    n ≤ N ∧ ((¬ ∃ s'', progress s' s'') → gpc s' = GRun ∧ granted s' = Some d).
Proof.
  intros Hi%reachable_inv Ha. exists (measure s). intros n s' Hn.
  destruct (runs_bounded _ _ _ Hi Hn) as [Hi' Hle]. split; [done|]. intros Hstuck.
  destruct (asked_run d _ _ _ Hi Hn) as [Ha'|Hr]; [by left| |done].
  destruct Hstuck. apply progress_enabled; [done|].
  intros Hg. unfold asking in Ha'. by rewrite Hg in Ha'.
Qed.

Lemma waits_terminate_witness :
  ∃ N, ∀ n s', nsteps progress n (after (take 7 stop_run)) s' →
    n ≤ N ∧ ((¬ ∃ s'', progress s' s'') → gpc s' = GRun ∧ granted s' = Some threads_suspended).
Proof.
  apply (waits_terminate (after (take 7 stop_run)) threads_suspended).
  - apply after_reachable. eexists. vm_compute. reflexivity.
  - by vm_compute.
Defined.

(** C34. The world restarts: once [_threads_resumed] is what the GC has asked for
    and it makes no further call, every maximal run ends with the Java threads
    running, no operation pending, and the companion thread back at its wait
    loop, ready for the next request. *)
Theorem world_restarts s :
  reachable s → gpc s = GRun → desired_state s = threads_resumed →
  ∃ N, ∀ n s', nsteps progress n s s' →
    n ≤ N ∧ ((¬ ∃ s'', progress s' s'') →
      java_stopped s' = false ∧ vmop s' = QNone ∧ cpc s' = CWaiting ∧ lock s' = None).
Proof.
  intros Hi%reachable_inv Hg Hd. exists (measure s). intros n s' Hn.
  destruct (runs_bounded _ _ _ Hi Hn) as [Hi' Hle]. split; [done|]. intros Hstuck.
  destruct (quiet_run _ _ _ Hi Hn Hg) as [_ Hd']. rewrite Hd in Hd'.
  destruct (decide (lock s' = None)) as [Hl|Hl]; [|by destruct Hstuck; apply holder_progress].
  assert (cpc s' = CWaiting ∧ vmop s' = QNone) as [Hc Hq].
  { apply dec_stable. intros Hn'. destruct Hstuck. apply free_progress; [done|done| |].
    - destruct (decide (cpc s' = CWaiting)), (decide (vmop s' = QNone)); tauto.
    - intros Hv. apply (inv_v_wait s' Hi') in Hv. congruence. }
  split_and!; try done. apply not_true_is_false. intros Hj.
  apply (inv_java s' Hi'), (inv_running s' Hi') in Hj as [Hq' _]. congruence.
Qed.

Lemma world_restarts_witness :
  ∃ N, ∀ n s', nsteps progress n (after resume_run) s' →
    n ≤ N ∧ ((¬ ∃ s'', progress s' s'') →
      java_stopped s' = false ∧ vmop s' = QNone ∧ cpc s' = CWaiting ∧ lock s' = None).
Proof.
  apply (world_restarts (after resume_run)).
  - apply after_reachable. eexists. vm_compute. reflexivity.
  - by vm_compute.
  - by vm_compute.
Defined.
