(* ===== verification/StartWorld.v ===== *)
(** * Mutators blocking for a collection

    [mmtk_stop_all_mutators], [mmtk_resume_mutators], [mmtk_block_for_gc],
    [mmtk_get_mutators] and [mmtk_number_of_mutators] of [mmtkUpcalls.cpp]: any
    number of mutators and one GC worker share the counter
    [mmtk_start_the_world_count] and the monitor [gc_lock].  Stopping and
    resuming the world is used through the contract [StwSpec], which
    [CompanionSafety] proves of the companion thread.

    The counter is a [size_t]; [gcs] counts the increments, and the variable of
    the source is that number modulo 2^64. *)

From stdpp Require Import base gmap list sets.
From Stdlib Require Import ZArith Lia.
From S2P Require Import Prelude Companion CompanionSafety.

(** ** State *)

(** A mutator.  Inside [mmtk_block_for_gc]: [MLoad] to [MLeave]; [my] is
    [my_count] and [next] is [next_count]. *)
Inductive mutator_pc :=
| MRun                  (* running Java code *)
| MSafepoint            (* blocked at a yieldpoint *)
| MLoad                 (* about to read the counter *)
| MLoaded (my : Z)      (* about to enter the safepoint *)
| MInVM (next : Z)      (* in [ThreadBlockInVM], about to take [gc_lock] *)
| MCheck (next : Z)     (* holds [gc_lock], at the test of the wait loop *)
| MWaiting (next : Z)
| MReacq (next : Z)
| MLeave.               (* released [gc_lock], about to leave [ThreadBlockInVM] *)

#[export] Instance mutator_pc_eq_dec : EqDecision mutator_pc.
Proof. solve_decision. Defined.

(** The GC worker: [WPrologue] to [WVisit] is [mmtk_stop_all_mutators],
    [WEpilogue] to [WNotify] is [mmtk_resume_mutators]. *)
Inductive gc_worker_pc :=
| WIdle
| WPrologue | WAskStop | WAwaitStop | WVisit
| WCollect
| WEpilogue | WInc | WAskResume | WAwaitResume | WNotifyAcquire | WNotify.

Inductive lock_holder := HMutator (i : nat) | HWorker.
#[export] Instance lock_holder_eq_dec : EqDecision lock_holder.
Proof. solve_decision. Defined.

Record sw := SW {
  mutators : list mutator_pc;
  worker : gc_worker_pc;
  world : StwSpec.world;
  gcs : Z;                       (* increments of the counter *)
  gc_lock : option lock_holder;
  code_cache_gc : bool;          (* between CodeCache::gc_prologue and gc_epilogue *)
  oops_marking : bool;           (* between nmethod::oops_do_marking_prologue and epilogue *)
  visited : list nat             (* the threads the closure was invoked for *)
}.

Definition mmtk_start_the_world_count (s : sw) : Z := u64 (gcs s).

Definition set_mutators ms s := SW ms (worker s) (world s) (gcs s) (gc_lock s)
  (code_cache_gc s) (oops_marking s) (visited s).
Definition set_mutator i m s := set_mutators (<[i := m]> (mutators s)) s.
Definition set_worker p s := SW (mutators s) p (world s) (gcs s) (gc_lock s)
  (code_cache_gc s) (oops_marking s) (visited s).
Definition set_world w s := SW (mutators s) (worker s) w (gcs s) (gc_lock s)
  (code_cache_gc s) (oops_marking s) (visited s).
Definition set_gcs c s := SW (mutators s) (worker s) (world s) c (gc_lock s)
  (code_cache_gc s) (oops_marking s) (visited s).
Definition set_gc_lock l s := SW (mutators s) (worker s) (world s) (gcs s) l
  (code_cache_gc s) (oops_marking s) (visited s).
Definition set_code_cache_gc b s := SW (mutators s) (worker s) (world s) (gcs s) (gc_lock s)
  b (oops_marking s) (visited s).
Definition set_oops_marking b s := SW (mutators s) (worker s) (world s) (gcs s) (gc_lock s)
  (code_cache_gc s) b (visited s).
Definition set_visited v s := SW (mutators s) (worker s) (world s) (gcs s) (gc_lock s)
  (code_cache_gc s) (oops_marking s) v.

(** A virtual machine with [n] mutators running. *)
Definition boot (n : nat) : sw :=
  SW (replicate n MRun) WIdle StwSpec.initial 0 None false false [].

(** ** The contract of [request], executably *)

Definition ask (d : stw_state) (w : StwSpec.world) : option StwSpec.world :=
  if decide (StwSpec.target w = d) then None
  else Some (StwSpec.World (StwSpec.stopped w) d None).

Definition observe (d : stw_state) (w : StwSpec.world) : option StwSpec.world :=
  if decide (StwSpec.target w = d ∧ (d = threads_suspended → StwSpec.stopped w = true))
  then Some (StwSpec.World (StwSpec.stopped w) (StwSpec.target w) (Some d)) else None.

(** ** [gc_lock] *)

Definition wake_m (m : mutator_pc) : mutator_pc :=
  match m with MWaiting n => MReacq n | m => m end.

Definition gc_lock_notify_all (s : sw) : sw := set_mutators (wake_m <$> mutators s) s.

Definition lock_gc (h : lock_holder) (s : sw) : option sw :=
  match gc_lock s with
  | None => Some (set_gc_lock (Some h) s)
  | Some _ => None
  end.

Definition unlock_gc (s : sw) : sw := set_gc_lock None s.

(** ** [mmtk_block_for_gc], one step of mutator [i] *)

Definition mmtk_block_for_gc_step (i : nat) (s : sw) : option sw :=
  m ← mutators s !! i;
  match m with
  | MLoad => Some (set_mutator i (MLoaded (mmtk_start_the_world_count s)) s)
  | MLoaded my => Some (set_mutator i (MInVM (u64 (my + 1))) s)
  | MInVM next | MReacq next =>
      s ← lock_gc (HMutator i) s; Some (set_mutator i (MCheck next) s)
  | MCheck next =>
      if decide (mmtk_start_the_world_count s < next)%Z
      then Some (set_mutator i (MWaiting next) (unlock_gc s))
      else Some (set_mutator i MLeave (unlock_gc s))
  | MLeave | MSafepoint =>
      if StwSpec.stopped (world s) then None else Some (set_mutator i MRun s)
  | MRun | MWaiting _ => None
  end.

(** ** The GC worker: [mmtk_stop_all_mutators] and [mmtk_resume_mutators] *)

(** The threads a [JavaThreadIteratorWithHandle] walks over. *)
Definition mmtk_get_mutators (s : sw) : list nat := seq 0 (length (mutators s)).
Definition mmtk_number_of_mutators (s : sw) : nat := length (mutators s).

Definition mmtk_stop_all_mutators_step (s : sw) : option sw :=
  match worker s with
  | WPrologue => Some (set_worker WAskStop (set_code_cache_gc true s))
  | WAskStop => w ← ask threads_suspended (world s); Some (set_worker WAwaitStop (set_world w s))
  | WAwaitStop => w ← observe threads_suspended (world s); Some (set_worker WVisit (set_world w s))
  | WVisit => Some (set_worker WCollect (set_oops_marking true (set_visited (mmtk_get_mutators s) s)))
  | _ => None
  end.

Definition mmtk_resume_mutators_step (s : sw) : option sw :=
  match worker s with
  | WEpilogue => Some (set_worker WInc (set_code_cache_gc false (set_oops_marking false s)))
  | WInc => Some (set_worker WAskResume (set_gcs (gcs s + 1)%Z s))
  | WAskResume => w ← ask threads_resumed (world s); Some (set_worker WAwaitResume (set_world w s))
  | WAwaitResume => w ← observe threads_resumed (world s); Some (set_worker WNotifyAcquire (set_world w s))
  | WNotifyAcquire => s ← lock_gc HWorker s; Some (set_worker WNotify s)
  | WNotify => Some (set_worker WIdle (unlock_gc (gc_lock_notify_all s)))
  | _ => None
  end.

(** ** Safepoints *)

(** The program points at which a mutator does not touch the heap. *)
Definition safe (m : mutator_pc) : bool :=
  match m with MRun | MLoad | MLoaded _ => false | _ => true end.

(** The virtual machine stops the world when every mutator is safe. *)
Definition safepoint_begin (s : sw) : option sw :=
  let w := world s in
  if decide (StwSpec.stopped w = false ∧ Forall (λ m, safe m = true) (mutators s))
  then Some (set_world (StwSpec.World true (StwSpec.target w) (StwSpec.observed w)) s) else None.

Definition safepoint_end (s : sw) : option sw :=
  let w := world s in
  if decide (StwSpec.stopped w = true ∧ StwSpec.observed w ≠ Some threads_suspended)
  then Some (set_world (StwSpec.World false (StwSpec.target w) (StwSpec.observed w)) s) else None.

(** ** Interleaving *)

(** What the threads do by themselves.  The collection ([WCollect]) is
    mmtk-core's and ends with its call of [resume_mutators]. *)
Inductive sw_progress : sw → sw → Prop :=
| p_mutator i s s' : mmtk_block_for_gc_step i s = Some s' →
    (mutators s !! i = Some MSafepoint → StwSpec.target (world s) = threads_resumed) →
    sw_progress s s'
| p_stop s s' : mmtk_stop_all_mutators_step s = Some s' → sw_progress s s'
| p_resume s s' : mmtk_resume_mutators_step s = Some s' → sw_progress s s'
| p_collected s : worker s = WCollect → sw_progress s (set_worker WEpilogue s)
| p_poll i s : mutators s !! i = Some MRun → StwSpec.target (world s) = threads_suspended →
    sw_progress s (set_mutator i MSafepoint s)
| p_begin s s' : safepoint_begin s = Some s' → StwSpec.target (world s) = threads_suspended →
    sw_progress s s'
| p_end s s' : safepoint_end s = Some s' → StwSpec.target (world s) = threads_resumed →
    sw_progress s s'.

(** Every step: also mutators that poll or leave a yieldpoint for another
    reason, calls of [mmtk_block_for_gc], new threads, spurious wake-ups, and
    mmtk-core starting a collection. *)
Inductive sw_step : sw → sw → Prop :=
| s_mutator i s s' : mmtk_block_for_gc_step i s = Some s' → sw_step s s'
| s_stop s s' : mmtk_stop_all_mutators_step s = Some s' → sw_step s s'
| s_resume s s' : mmtk_resume_mutators_step s = Some s' → sw_step s s'
| s_collected s : worker s = WCollect → sw_step s (set_worker WEpilogue s)
| s_poll i s : mutators s !! i = Some MRun → sw_step s (set_mutator i MSafepoint s)
| s_begin s s' : safepoint_begin s = Some s' → sw_step s s'
| s_end s s' : safepoint_end s = Some s' → sw_step s s'
| s_block_for_gc i s : mutators s !! i = Some MRun → sw_step s (set_mutator i MLoad s)
| s_start_gc s : worker s = WIdle → sw_step s (set_worker WPrologue s)
| s_attach s : StwSpec.stopped (world s) = false →
    sw_step s (set_mutators (mutators s ++ [MRun]) s)
| s_spurious i next s : mutators s !! i = Some (MWaiting next) →
    sw_step s (set_mutator i (MReacq next) s).

Definition sw_reachable (s : sw) : Prop := ∃ n, rtc sw_step (boot n) s.

(** The steps use the world only through its contract. *)
Lemma ask_spec d w w' :
  ask d w = Some w' → rtc StwSpec.spec_step w w'.
Proof.
  unfold ask. intros E. case_decide; simplify_eq.
  eapply rtc_l; [apply StwSpec.spec_call|]. apply rtc_once.
  by apply (StwSpec.spec_ask (StwSpec.World _ _ None)).
Qed.

Lemma observe_spec d w w' : observe d w = Some w' → StwSpec.spec_step w w'.
Proof. unfold observe. intros E. case_decide as Hd; simplify_eq.
  by apply StwSpec.spec_observe; apply Hd. Qed.

Lemma safepoint_begin_spec s s' :
  safepoint_begin s = Some s' → StwSpec.spec_step (world s) (world s').
Proof.
  unfold safepoint_begin. intros E. case_decide as Hd; simplify_eq. by apply StwSpec.spec_stop, Hd.
Qed.

Lemma safepoint_end_spec s s' :
  safepoint_end s = Some s' → StwSpec.spec_step (world s) (world s').
Proof.
  unfold safepoint_end. intros E. case_decide as Hd; simplify_eq. by apply StwSpec.spec_start; apply Hd.
Qed.
