(* ===== verification/StartWorldSafety.v ===== *)
(** * Safety of the start-the-world counter

    The invariant of [StartWorld.sw_step]: the counter is read before the
    safepoint, so no collection goes by between the read and the wait; and a
    mutator whose collection is over waits only while the GC worker is on its
    way to [notify_all]. *)

From stdpp Require Import base gmap list sets.
From Stdlib Require Import ZArith Lia.
From S2P Require Import Prelude Companion CompanionSafety StartWorld.

(** ** The invariant *)

(** The worker has called [notify_all] for its last increment, or not made one. *)
Definition notifying (p : gc_worker_pc) : bool :=
  match p with WAskResume | WAwaitResume | WNotifyAcquire | WNotify => true | _ => false end.

(** The world belongs to the collection. *)
Definition holds_world (p : gc_worker_pc) : bool :=
  match p with WVisit | WCollect | WEpilogue | WInc | WAskResume => true | _ => false end.

Definition worker_ok (p : gc_worker_pc) (w : StwSpec.world) : Prop :=
  match p with
  | WIdle | WPrologue | WAskStop | WNotifyAcquire | WNotify =>
      StwSpec.target w = threads_resumed ∧ StwSpec.observed w ≠ Some threads_suspended
  | WAwaitStop => StwSpec.target w = threads_suspended ∧ StwSpec.observed w = None
  | WVisit | WCollect | WEpilogue | WInc | WAskResume =>
      StwSpec.target w = threads_suspended ∧ StwSpec.observed w = Some threads_suspended ∧
      StwSpec.stopped w = true
  | WAwaitResume => StwSpec.target w = threads_resumed ∧ StwSpec.observed w = None
  end.

(** Code-cache and marking prologues are open exactly between the calls that
    open and close them. *)
Definition prologues_ok (p : gc_worker_pc) (code marking : bool) : Prop :=
  match p with
  | WIdle | WPrologue | WInc | WAskResume | WAwaitResume | WNotifyAcquire | WNotify =>
      code = false ∧ marking = false
  | WAskStop | WAwaitStop | WVisit => code = true ∧ marking = false
  | WCollect | WEpilogue => code = true ∧ marking = true
  end.

(** What a mutator inside [mmtk_block_for_gc] knows of the counter. *)
Definition mutator_ok (p : gc_worker_pc) (c : Z) (m : mutator_pc) : Prop :=
  match m with
  | MLoaded my => my = c
  | MInVM next | MCheck next | MReacq next => (1 ≤ next ≤ c + 1)%Z
  | MWaiting next => (1 ≤ next ≤ c + 1)%Z ∧ ((next ≤ c)%Z → notifying p = true)
  | _ => True
  end.

Record sw_inv (s : sw) : Prop := {
  sw_gcs : (0 ≤ gcs s)%Z;
  sw_lock_m i : gc_lock s = Some (HMutator i) ↔ ∃ next, mutators s !! i = Some (MCheck next);
  sw_lock_w : gc_lock s = Some HWorker ↔ worker s = WNotify;
  sw_safe : StwSpec.stopped (world s) = true → Forall (λ m, safe m = true) (mutators s);
  sw_worker : worker_ok (worker s) (world s);
  sw_prologues : prologues_ok (worker s) (code_cache_gc s) (oops_marking s);
  sw_mutators : (gcs s + 1 < 2 ^ 64)%Z → Forall (mutator_ok (worker s) (gcs s)) (mutators s)
}.

(** ** Changing one mutator *)

Lemma lookup_insert_check (ms : list mutator_pc) i m j next :
  is_Some (ms !! i) → (∀ n, m ≠ MCheck n) →
  <[i := m]> ms !! j = Some (MCheck next) ↔ i ≠ j ∧ ms !! j = Some (MCheck next).
Proof.
  intros [x Hx] Hm. split.
  - intros [(-> & ? & ?)|[? ?]]%list_lookup_insert_Some; [exfalso; by eapply Hm|done].
  - intros [Hij Hj]. by rewrite list_lookup_insert_ne.
Qed.

(** A step of mutator [i] that leaves everything but [gc_lock] alone keeps the
    invariant when the new program point fits. *)
Lemma inv_set_mutator s i m m' l :
  sw_inv s → mutators s !! i = Some m →
  (∀ j, l = Some (HMutator j) ↔ ∃ n, <[i := m']> (mutators s) !! j = Some (MCheck n)) →
  (l = Some HWorker ↔ gc_lock s = Some HWorker) →
  (StwSpec.stopped (world s) = true → safe m' = true) →
  ((gcs s + 1 < 2 ^ 64)%Z → mutator_ok (worker s) (gcs s) m → mutator_ok (worker s) (gcs s) m') →
  sw_inv (set_mutator i m' (set_gc_lock l s)).
Proof.
  intros Hi Hm Hl Hw Hs Hok. destruct Hi. split; simpl; try done.
  - by rewrite Hw.
  - intros Ht. apply Forall_insert; auto.
  - intros Hb. apply Forall_insert; [auto|]. apply Hok; [done|].
    by eapply Forall_lookup_1; [apply sw_mutators0|].
Qed.

(** ... a step of a mutator that neither takes nor holds the lock. *)
Lemma inv_move s i m m' :
  sw_inv s → mutators s !! i = Some m →
  (∀ n, m ≠ MCheck n) → (∀ n, m' ≠ MCheck n) →
  (StwSpec.stopped (world s) = true → safe m' = true) →
  ((gcs s + 1 < 2 ^ 64)%Z → mutator_ok (worker s) (gcs s) m → mutator_ok (worker s) (gcs s) m') →
  sw_inv (set_mutator i m' s).
Proof.
  intros Hi Hm Hn Hn' Hs Hok.
  replace (set_mutator i m' s) with (set_mutator i m' (set_gc_lock (gc_lock s) s)) by done.
  eapply inv_set_mutator; try done.
  intros j. rewrite (sw_lock_m s Hi j). setoid_rewrite lookup_insert_check; [|by eexists|done].
  split; [|naive_solver]. intros [n Hj]. exists n. split; [|done].
  intros ->. rewrite Hm in Hj. simplify_eq. by eapply Hn.
Qed.

Lemma inv_boot n : sw_inv (boot n).
Proof.
  assert (∀ i m, replicate n MRun !! i = Some m → m = MRun) as Hr
    by (intros i m [? ?]%lookup_replicate; done).
  split; simpl; try done.
  - split; [done|]. intros [? H%Hr]. done.
  - intros _. apply Forall_forall. intros m [i H]%list_elem_of_lookup. by apply Hr in H as ->.
Qed.

Lemma count_eq s : sw_inv s → (gcs s + 1 < 2 ^ 64)%Z → mmtk_start_the_world_count s = gcs s.
Proof. intros Hi Hb. apply wrap_small. pose proof (sw_gcs s Hi). lia. Qed.

(** Taking and releasing [gc_lock]. *)
Lemma inv_take_lock s i m next :
  sw_inv s → mutators s !! i = Some m → m = MInVM next ∨ m = MReacq next →
  gc_lock s = None → sw_inv (set_mutator i (MCheck next) (set_gc_lock (Some (HMutator i)) s)).
Proof.
  intros Hi Hm Hn Hl. eapply inv_set_mutator; try done.
  - intros j. split.
    + intros [= <-]. exists next. apply list_lookup_insert_eq. by apply lookup_lt_Some in Hm.
    + intros [n [(-> & ? & ?)|[? Hj]]%list_lookup_insert_Some]; [done|].
      assert (gc_lock s = Some (HMutator j)) by (apply (sw_lock_m s Hi); eauto). congruence.
  - rewrite Hl. by split.
  - by destruct Hn as [-> | ->].
Qed.

Lemma inv_release_lock s i next m' :
  sw_inv s → mutators s !! i = Some (MCheck next) → (∀ n, m' ≠ MCheck n) → safe m' = true →
  ((gcs s + 1 < 2 ^ 64)%Z → (1 ≤ next ≤ gcs s + 1)%Z → mutator_ok (worker s) (gcs s) m') →
  sw_inv (set_mutator i m' (set_gc_lock None s)).
Proof.
  intros Hi Hm Hn Hs Hok.
  assert (gc_lock s = Some (HMutator i)) as Hl by (apply (sw_lock_m s Hi); eauto).
  eapply inv_set_mutator; try done.
  - intros j. split; [done|]. intros [n [Hij Hj]%lookup_insert_check]; [|by eexists|done].
    assert (gc_lock s = Some (HMutator j)) by (apply (sw_lock_m s Hi); eauto). congruence.
  - rewrite Hl. by split.
Qed.

(** ** Every step keeps the invariant *)

Lemma stopped_safe s i m :
  sw_inv s → StwSpec.stopped (world s) = true → mutators s !! i = Some m → safe m = true.
Proof. intros Hi Ht Hm. by apply (Forall_lookup_1 _ _ i m (sw_safe s Hi Ht)). Qed.

Lemma mutator_known s i m :
  sw_inv s → (gcs s + 1 < 2 ^ 64)%Z → mutators s !! i = Some m → mutator_ok (worker s) (gcs s) m.
Proof. intros Hi Hb Hm. by apply (Forall_lookup_1 _ _ i m (sw_mutators s Hi Hb)). Qed.

Lemma block_for_gc_step_inv i s s' :
  sw_inv s → mmtk_block_for_gc_step i s = Some s' → sw_inv s'.
Proof.
  intros Hi E. pose proof (sw_gcs s Hi) as Hge. unfold mmtk_block_for_gc_step, lock_gc in E.
  destruct (mutators s !! i) as [m|] eqn:Hm; [|done]; simpl in E.
  destruct m as [| | |my|next|next|next|next|].
  2, 9: destruct (StwSpec.stopped (world s)) eqn:Ht; simplify_eq; eapply inv_move; try done; congruence.
  1: done.
  5: done.
  - simplify_eq. eapply inv_move; try done; simpl.
    + intros Ht. by apply (stopped_safe s i MLoad) in Ht.
    + intros Hb _. by apply count_eq.
  - simplify_eq. eapply inv_move; try done; simpl.
    intros Hb ->. rewrite wrap_small; lia.
  - destruct (gc_lock s) eqn:Hl; simplify_eq/=. eapply inv_take_lock; eauto.
  - case_decide as Hd; simplify_eq/=; (eapply inv_release_lock; [done|done|done|done|]); [|done].
    intros Hb Hn. rewrite count_eq in Hd by done. split; [done|lia].
  - destruct (gc_lock s) eqn:Hl; simplify_eq/=. eapply inv_take_lock; eauto.
Qed.

(** A step of the worker that changes neither the mutators nor the counter. *)
Lemma inv_worker s p w l c k v :
  sw_inv s →
  (∀ i, l = Some (HMutator i) ↔ gc_lock s = Some (HMutator i)) →
  (l = Some HWorker ↔ p = WNotify) →
  StwSpec.stopped w = StwSpec.stopped (world s) →
  worker_ok p w → prologues_ok p c k →
  (notifying (worker s) = true → notifying p = true) →
  sw_inv (SW (mutators s) p w (gcs s) l c k v).
Proof.
  intros Hi Hl Hw Hst Hp Hc Hn. destruct Hi. split; simpl; try done.
  - intros i. by rewrite Hl.
  - by rewrite Hst.
  - intros Hb. eapply Forall_impl; [by apply sw_mutators0|].
    intros []; simpl; try done. naive_solver.
Qed.

(** In particular a step that leaves the lock alone. *)
Lemma inv_worker_free s p0 p w c k v :
  sw_inv s → worker s = p0 → p0 ≠ WNotify → p ≠ WNotify →
  StwSpec.stopped w = StwSpec.stopped (world s) →
  worker_ok p w → prologues_ok p c k →
  (notifying p0 = true → notifying p = true) →
  sw_inv (SW (mutators s) p w (gcs s) (gc_lock s) c k v).
Proof.
  intros Hi <- Hs Hp Hst Ho Hc Hn. apply inv_worker; try done.
  rewrite (sw_lock_w s Hi). by split.
Qed.

Lemma inv_increment s :
  sw_inv s → worker s = WInc → sw_inv (set_worker WAskResume (set_gcs (gcs s + 1)%Z s)).
Proof.
  intros Hi Hw. pose proof (sw_gcs s Hi) as Hge. pose proof (sw_worker s Hi) as Ho.
  rewrite Hw in Ho. destruct Ho as (Ht & Hob & Hst). pose proof (sw_safe s Hi Hst) as Hsafe.
  destruct Hi. rewrite Hw in *. split; simpl; try done.
  - lia.
  - rewrite sw_lock_w0. by split.
  - intros Hb. specialize (sw_mutators0 ltac:(lia)).
    apply Forall_forall. intros m Hm. rewrite Forall_forall in Hsafe, sw_mutators0.
    specialize (Hsafe m Hm). specialize (sw_mutators0 m Hm). destruct m; simpl in *; try done.
    all: intuition lia.
Qed.

Lemma inv_notify s :
  sw_inv s → worker s = WNotify → sw_inv (set_worker WIdle (unlock_gc (gc_lock_notify_all s))).
Proof.
  intros Hi Hw. destruct Hi. rewrite Hw in *.
  assert (gc_lock s = Some HWorker) as Hl by (by apply sw_lock_w0).
  split; simpl; try done.
  - intros i. split; [done|]. intros [next Hn]. rewrite list_lookup_fmap in Hn.
    destruct (mutators s !! i) as [[]|] eqn:E; simplify_eq/=.
    assert (gc_lock s = Some (HMutator i)) by (apply sw_lock_m0; eauto). congruence.
  - intros Hst. apply Forall_fmap. eapply Forall_impl; [by apply sw_safe0|]. by intros [].
  - intros Hb. apply Forall_fmap. eapply Forall_impl; [by apply sw_mutators0|].
    intros []; simpl; intuition.
Qed.

Lemma stop_all_step_inv s s' : sw_inv s → mmtk_stop_all_mutators_step s = Some s' → sw_inv s'.
Proof.
  intros Hi E. pose proof (sw_worker s Hi) as Ho. pose proof (sw_prologues s Hi) as Hc.
  unfold mmtk_stop_all_mutators_step, ask, observe in E.
  destruct (worker s) eqn:Hw; simplify_eq/=; repeat case_decide; simplify_eq/=;
    eapply (inv_worker_free s); eauto; simpl in *; intuition congruence.
Qed.

Lemma resume_step_inv s s' : sw_inv s → mmtk_resume_mutators_step s = Some s' → sw_inv s'.
Proof.
  intros Hi E. pose proof (sw_worker s Hi) as Ho. pose proof (sw_prologues s Hi) as Hc.
  unfold mmtk_resume_mutators_step, ask, observe, lock_gc in E.
  destruct (worker s) eqn:Hw; simplify_eq/=; repeat case_decide; simplify_eq/=.
  all: try (eapply (inv_worker_free s); eauto; simpl in *; by intuition congruence).
  - by apply inv_increment.
  - destruct (gc_lock s) eqn:Hl; simplify_eq/=. apply (inv_worker s); try done; simpl in *.
    intros i. rewrite Hl. by split.
  - by apply inv_notify.
Qed.

Lemma inv_set_world s w :
  sw_inv s → worker_ok (worker s) w →
  (StwSpec.stopped w = true → Forall (λ m, safe m = true) (mutators s)) → sw_inv (set_world w s).
Proof. intros [] Ho Hs. by split. Qed.

Lemma sw_step_inv s s' : sw_inv s → sw_step s s' → sw_inv s'.
Proof.
  intros Hi Hs. destruct Hs as [i s s' E|s s' E|s s' E|s E|i s E|s s' E|s s' E|i s E|s E|s E|i n s E].
  1-3: eauto using block_for_gc_step_inv, stop_all_step_inv, resume_step_inv.
  - pose proof (sw_worker s Hi) as Ho. pose proof (sw_prologues s Hi) as Hc. rewrite E in *.
    eapply (inv_worker_free s); eauto; simpl in *; intuition congruence.
  - by eapply inv_move.
  - unfold safepoint_begin in E. case_decide as Hd; simplify_eq. apply inv_set_world; [done| |by intros _; apply Hd].
    pose proof (sw_worker s Hi) as Ho. destruct (worker s); simpl in *; intuition.
  - unfold safepoint_end in E. case_decide as Hd; simplify_eq. apply inv_set_world; [done| |done].
    pose proof (sw_worker s Hi) as Ho. destruct (worker s); simpl in *; intuition.
  - eapply inv_move; try done. intros Ht. by apply (stopped_safe s i MRun) in Ht.
  - pose proof (sw_worker s Hi) as Ho. pose proof (sw_prologues s Hi) as Hc. rewrite E in *.
    eapply (inv_worker_free s); eauto; simpl in *; intuition congruence.
  - destruct Hi. split; simpl; try done.
    + intros i. rewrite sw_lock_m0. f_equiv. intros next. rewrite lookup_app_Some.
      split; [by left|]. intros [?|[_ Hx]]; [done|]. by apply list_lookup_singleton_Some in Hx as [_ ?].
    + by rewrite E.
    + intros Hb. apply Forall_app. split; [by apply sw_mutators0|by constructor].
  - eapply inv_move; try done. simpl. intuition.
Qed.

Lemma sw_reachable_inv s : sw_reachable s → sw_inv s.
Proof.
  intros [n Hr]. eapply rtc_invariant; [|exact Hr|apply inv_boot]. apply sw_step_inv.
Qed.

(** The threads that [mmtk_stop_all_mutators] visits are still all of them when
    it has returned: no thread starts while the world is stopped. *)
Definition visited_ok (s : sw) : Prop :=
  worker s = WCollect → visited s = mmtk_get_mutators s.

Lemma step_visited s s' : sw_inv s → sw_step s s' → visited_ok s → visited_ok s'.
Proof.
  unfold visited_ok, mmtk_get_mutators. intros Hi Hs Hv.
  destruct Hs as [i s s' E|s s' E|s s' E|s E|i s E|s s' E|s s' E|i s E|s E|s E|i n s E];
    simpl; rewrite ?length_insert; try done.
  - unfold mmtk_block_for_gc_step, lock_gc in E.
    destruct (mutators s !! i) as [[]|]; simplify_eq/=;
      repeat case_match; simplify_eq/=; by rewrite length_insert.
  - unfold mmtk_stop_all_mutators_step, ask, observe in E.
    destruct (worker s) eqn:Hw; simplify_eq/=; repeat case_decide; by simplify_eq/=.
  - unfold mmtk_resume_mutators_step, ask, observe, lock_gc in E.
    destruct (worker s) eqn:Hw; simplify_eq/=; repeat case_match; by simplify_eq/=.
  - unfold safepoint_begin in E. case_decide; by simplify_eq/=.
  - unfold safepoint_end in E. case_decide; by simplify_eq/=.
  - intros Hw. pose proof (sw_worker s Hi) as Ho. rewrite Hw in Ho.
    destruct Ho as (_ & _ & Ho). congruence.
Qed.

Lemma reachable_visited s : sw_reachable s → visited_ok s.
Proof.
  intros [n Hr].
  enough (sw_inv s ∧ visited_ok s) by tauto.
  eapply (rtc_invariant sw_step (λ s, sw_inv s ∧ visited_ok s)); [|exact Hr|].
  - intros ? ? [Hi Hv] Hs. split; [by eapply sw_step_inv|by eapply step_visited].
  - split; [apply inv_boot|done].
Qed.

(** ** Concrete runs *)

Inductive sw_choice :=
| DoMutator (i : nat) | DoStop | DoResume | DoCollected | DoPoll (i : nat)
| DoBegin | DoEnd | DoBlock (i : nat) | DoStartGC.

Definition sw_play (a : sw_choice) (s : sw) : option sw :=
  match a with
  | DoMutator i => mmtk_block_for_gc_step i s
  | DoStop => mmtk_stop_all_mutators_step s
  | DoResume => mmtk_resume_mutators_step s
  | DoCollected => match worker s with WCollect => Some (set_worker WEpilogue s) | _ => None end
  | DoPoll i =>
      match mutators s !! i with Some MRun => Some (set_mutator i MSafepoint s) | _ => None end
  | DoBegin => safepoint_begin s
  | DoEnd => safepoint_end s
  | DoBlock i =>
      match mutators s !! i with Some MRun => Some (set_mutator i MLoad s) | _ => None end
  | DoStartGC => match worker s with WIdle => Some (set_worker WPrologue s) | _ => None end
  end.

Fixpoint sw_run (l : list sw_choice) (s : sw) : option sw :=
  match l with
  | [] => Some s
  | a :: l => s' ← sw_play a s; sw_run l s'
  end.

Lemma sw_play_step a s s' : sw_play a s = Some s' → sw_step s s'.
Proof.
  destruct a; simpl; intros E; eauto using sw_step; repeat case_match; simplify_eq; by constructor.
Qed.

Lemma sw_run_reachable n l s : sw_run l (boot n) = Some s → sw_reachable s.
Proof.
  intros E. exists n. revert E. generalize (boot n) as s0.
  induction l as [|a l IH]; intros s0 E; simpl in E; [by simplify_eq|].
  destruct (sw_play a s0) eqn:E1; simplify_eq/=. eapply rtc_l; eauto using sw_play_step.
Qed.

Definition sw_after (n : nat) (l : list sw_choice) : sw :=
  match sw_run l (boot n) with Some s => s | None => boot n end.

Lemma sw_after_reachable n l : is_Some (sw_run l (boot n)) → sw_reachable (sw_after n l).
Proof. intros [s E]. unfold sw_after. rewrite E. by eapply sw_run_reachable. Qed.

(** Two mutators; mutator 0 triggers a collection and mutator 1 polls. *)
Definition gc_begins : list sw_choice :=
  [DoBlock 0; DoMutator 0; DoStartGC; DoStop; DoStop; DoPoll 1; DoMutator 0;
   DoMutator 0; DoMutator 0; DoBegin; DoStop; DoStop].

Definition gc_counted : list sw_choice :=
  gc_begins ++ [DoCollected; DoResume; DoResume].

(** ** Properties *)

(** The counter is read before the safepoint: a mutator that has read
    [my_count] and has not entered the safepoint yet holds the counter's present
    value, the world is not stopped, and no collection has the world.  So the
    collection it triggered cannot finish before it starts to wait. *)
Theorem counter_read_before_safepoint s i my :
  sw_reachable s → (gcs s + 1 < 2 ^ 64)%Z → mutators s !! i = Some (MLoaded my) →
  my = mmtk_start_the_world_count s ∧ StwSpec.stopped (world s) = false ∧
  holds_world (worker s) = false.
Proof.
  intros Hi%sw_reachable_inv Hb Hm.
  assert (StwSpec.stopped (world s) = false) as Hst.
  { apply not_true_is_false. intros Ht. by apply (stopped_safe s i _ Hi Ht) in Hm. }
  split_and!; [|done|].
  - rewrite count_eq by done. by apply (mutator_known s i _ Hi Hb) in Hm.
  - apply not_true_is_false. intros Hw. pose proof (sw_worker s Hi) as Ho.
    destruct (worker s); try done; simpl in Ho; intuition congruence.
Qed.

Lemma counter_read_before_safepoint_witness :
  mmtk_start_the_world_count (sw_after 2 (take 6 gc_begins)) = 0%Z ∧
  holds_world (worker (sw_after 2 (take 6 gc_begins))) = false.
Proof.
  split; [by vm_compute|].
  apply (counter_read_before_safepoint (sw_after 2 (take 6 gc_begins)) 0 0).
  - apply sw_after_reachable. eexists. vm_compute. reflexivity.
  - vm_compute. reflexivity.
  - vm_compute. reflexivity.
Defined.

(** C5. No wake-up is lost: a mutator that is waiting either waits for a
    collection that has not counted yet, or the GC worker is between the
    increment and its [notify_all]. *)
Theorem no_lost_wakeup s i next :
  sw_reachable s → (gcs s + 1 < 2 ^ 64)%Z → mutators s !! i = Some (MWaiting next) →
  (mmtk_start_the_world_count s < next)%Z ∨ notifying (worker s) = true.
Proof.
  intros Hi%sw_reachable_inv Hb Hm. rewrite count_eq by done.
  apply (mutator_known s i _ Hi Hb) in Hm as [Hn Hw].
  destruct (decide (next ≤ gcs s)%Z); [right; auto|left; lia].
Qed.

Lemma no_lost_wakeup_witness :
  (mmtk_start_the_world_count (sw_after 2 gc_counted) < 1)%Z ∨
  notifying (worker (sw_after 2 gc_counted)) = true.
Proof.
  apply (no_lost_wakeup (sw_after 2 gc_counted) 0 1).
  - apply sw_after_reachable. eexists. vm_compute. reflexivity.
  - vm_compute. reflexivity.
  - vm_compute. reflexivity.
Defined.

(** When [mmtk_stop_all_mutators] has returned, the world is stopped, every
    mutator is at a safe point, the closure has been invoked for each Java
    thread exactly once, as many as [mmtk_number_of_mutators] says, and the
    code-cache and nmethod-marking prologues are open. *)
Theorem stop_all_mutators_returned s :
  sw_reachable s → worker s = WCollect →
  StwSpec.stopped (world s) = true ∧ Forall (λ m, safe m = true) (mutators s) ∧
  NoDup (visited s) ∧ (∀ i, i ∈ visited s ↔ is_Some (mutators s !! i)) ∧
  length (visited s) = mmtk_number_of_mutators s ∧
  code_cache_gc s = true ∧ oops_marking s = true.
Proof.
  intros Hr Hw. pose proof (reachable_visited s Hr Hw) as Hv. apply sw_reachable_inv in Hr as Hi.
  pose proof (sw_worker s Hi) as Ho. pose proof (sw_prologues s Hi) as Hp. rewrite Hw in Ho, Hp.
  destruct Ho as (_ & _ & Hst). rewrite Hv. unfold mmtk_get_mutators, mmtk_number_of_mutators.
  split_and!; try done.
  - by apply sw_safe.
  - apply NoDup_seq.
  - intros i. rewrite elem_of_seq, lookup_lt_is_Some. lia.
  - by rewrite length_seq.
  - apply Hp.
  - apply Hp.
Qed.

Lemma stop_all_mutators_returned_witness :
  visited (sw_after 2 gc_begins) = [0; 1] ∧ StwSpec.stopped (world (sw_after 2 gc_begins)) = true.
Proof.
  split; [by vm_compute|].
  apply (stop_all_mutators_returned (sw_after 2 gc_begins)).
  - apply sw_after_reachable. eexists. vm_compute. reflexivity.
  - by vm_compute.
Defined.
