(* ===== verification/StartWorldLiveness.v ===== *)
(** * Every mutator that blocks for a collection resumes

    Runs of [StartWorld.sw_progress] are bounded, and a run that cannot go on
    has finished the collection and released every mutator from
    [mmtk_block_for_gc]. *)

From stdpp Require Import base gmap list sets.
From Stdlib Require Import ZArith Lia.
From S2P Require Import Prelude Companion CompanionSafety StartWorld StartWorldSafety.

(** ** The measure *)

Definition worker_rank (p : gc_worker_pc) : nat :=
  match p with
  | WIdle => 0 | WNotify => 1 | WNotifyAcquire => 2 | WAwaitResume => 3 | WAskResume => 4
  | WInc => 5 | WEpilogue => 6 | WCollect => 7 | WVisit => 8 | WAwaitStop => 9
  | WAskStop => 10 | WPrologue => 11
  end.

(** How far a mutator is from where it stays while the world is [d]. *)
Definition mutator_rank (d : stw_state) (m : mutator_pc) : nat :=
  match m with
  | MLoad => 9 | MLoaded _ => 8 | MInVM _ => 7 | MReacq _ => 6 | MCheck _ => 5
  | MWaiting _ => 4 | MLeave => 3
  | MRun => match d with threads_suspended => 2 | threads_resumed => 1 end
  | MSafepoint => match d with threads_suspended => 1 | threads_resumed => 2 end
  end.

Definition mutators_rank (d : stw_state) (ms : list mutator_pc) : nat :=
  sum_list_with (mutator_rank d) ms.

Definition world_rank (w : StwSpec.world) : nat :=
  match StwSpec.target w, StwSpec.stopped w with
  | threads_suspended, true | threads_resumed, false => 0
  | _, _ => 1
  end.

Definition sw_measure (s : sw) : nat :=
  (9 * length (mutators s) + 2) * worker_rank (worker s) +
  mutators_rank (StwSpec.target (world s)) (mutators s) + world_rank (world s).

Lemma mutators_rank_bound d ms : mutators_rank d ms ≤ 9 * length ms.
Proof.
  unfold mutators_rank. induction ms as [|m ms IH]; simpl in *; [lia|].
  assert (mutator_rank d m ≤ 9) by (destruct m, d; simpl; lia). lia.
Qed.

Lemma world_rank_bound w : world_rank w ≤ 1.
Proof. unfold world_rank. destruct (StwSpec.target w), (StwSpec.stopped w); lia. Qed.

Lemma mutators_rank_insert d ms i m m' :
  ms !! i = Some m →
  mutators_rank d (<[i := m']> ms) + mutator_rank d m = mutators_rank d ms + mutator_rank d m'.
Proof.
  unfold mutators_rank. revert i. induction ms as [|x ms IH]; intros [|i] Hm; simplify_eq/=; [lia|].
  specialize (IH i Hm). lia.
Qed.

(** A worker step pays for whatever it does to the mutators and the world. *)
Lemma worker_measure s s' :
  length (mutators s') = length (mutators s) →
  worker_rank (worker s') < worker_rank (worker s) → sw_measure s' < sw_measure s.
Proof.
  intros Hl Hr. unfold sw_measure. rewrite Hl.
  pose proof (mutators_rank_bound (StwSpec.target (world s')) (mutators s')) as Hb.
  pose proof (world_rank_bound (world s')). rewrite Hl in Hb. nia.
Qed.

Lemma mutator_measure s i m m' l :
  mutators s !! i = Some m →
  mutator_rank (StwSpec.target (world s)) m' < mutator_rank (StwSpec.target (world s)) m →
  sw_measure (set_mutator i m' (set_gc_lock l s)) < sw_measure s.
Proof.
  intros Hm Hr. unfold sw_measure. simpl. rewrite length_insert.
  pose proof (mutators_rank_insert (StwSpec.target (world s)) (mutators s) i m m' Hm). lia.
Qed.

Lemma mutator_measure' s i m m' :
  mutators s !! i = Some m →
  mutator_rank (StwSpec.target (world s)) m' < mutator_rank (StwSpec.target (world s)) m →
  sw_measure (set_mutator i m' s) < sw_measure s.
Proof. intros Hm Hr. apply (mutator_measure s i m m' (gc_lock s) Hm Hr). Qed.

Lemma progress_step s s' : sw_progress s s' → sw_step s s'.
Proof. destruct 1; eauto using sw_step. Qed.

Lemma sw_progress_measure s s' : sw_inv s → sw_progress s s' → sw_inv s' ∧ sw_measure s' < sw_measure s.
Proof.
  intros Hi Hp. split; [by eapply sw_step_inv; [|apply progress_step]|].
  destruct Hp as [i s s' E Hsp|s s' E|s s' E|s E|i s E Ht|s s' E Ht|s s' E Ht].
  - unfold mmtk_block_for_gc_step, lock_gc in E.
    destruct (mutators s !! i) as [m|] eqn:Hm; [|done].
    destruct m; simplify_eq/=; repeat case_match; simplify_eq/=;
      first [by apply (mutator_measure s i _ _ _ Hm); simpl; lia
            |apply (mutator_measure' s i _ _ Hm); simpl; rewrite ?Hsp by done; try lia].
    destruct (StwSpec.target (world s)); lia.
  - unfold mmtk_stop_all_mutators_step, ask, observe in E.
    destruct (worker s) eqn:Hw; simplify_eq/=; repeat case_decide; simplify_eq/=;
      apply worker_measure; try done; rewrite Hw; simpl; lia.
  - unfold mmtk_resume_mutators_step, ask, observe, lock_gc in E.
    destruct (worker s) eqn:Hw; simplify_eq/=; repeat case_match; simplify_eq/=;
      apply worker_measure; simpl; rewrite ?length_fmap; try done; rewrite Hw; simpl; lia.
  - apply worker_measure; [done|]. rewrite E. simpl. lia.
  - apply (mutator_measure' s i _ _ E). rewrite Ht. simpl. lia.
  - unfold safepoint_begin in E. case_decide as Hd; simplify_eq.
    unfold sw_measure, world_rank; simpl. rewrite Ht. destruct Hd as [-> _]. lia.
  - unfold safepoint_end in E. case_decide as Hd; simplify_eq.
    unfold sw_measure, world_rank; simpl. rewrite Ht. destruct Hd as [-> _]. lia.
Qed.

(** ** A run that cannot go on *)

Definition stuck (s : sw) : Prop := ¬ ∃ s', sw_progress s s'.

(** Where a mutator can stay: running, or waiting for a later collection. *)
Definition settled (c : Z) (m : mutator_pc) : Prop :=
  m = MRun ∨ ∃ next, m = MWaiting next ∧ (c < next)%Z.

Lemma stuck_mutator s i m :
  stuck s → mutators s !! i = Some m →
  mmtk_block_for_gc_step i s = None ∨
  m = MSafepoint ∧ StwSpec.target (world s) = threads_suspended.
Proof.
  intros Hs Hm. destruct (mmtk_block_for_gc_step i s) as [s'|] eqn:E; [|by left]. right.
  destruct (decide (m = MSafepoint ∧ StwSpec.target (world s) = threads_suspended)) as [?|Hn]; [done|].
  destruct Hs. exists s'. apply (p_mutator i); [done|]. rewrite Hm. intros [= ->].
  destruct (StwSpec.target (world s)) eqn:Ht; [by destruct Hn|done].
Qed.

Lemma stuck_unlocked s : sw_inv s → stuck s → gc_lock s = None.
Proof.
  intros Hi Hs. destruct (gc_lock s) as [[i|]|] eqn:Hl; [| |done]; exfalso.
  - apply (sw_lock_m s Hi) in Hl as [next Hm].
    destruct (stuck_mutator s i _ Hs Hm) as [E|[? _]]; [|done].
    unfold mmtk_block_for_gc_step in E. rewrite Hm in E. simpl in E. by case_decide.
  - apply (sw_lock_w s Hi) in Hl. apply Hs. eexists. apply p_resume.
    unfold mmtk_resume_mutators_step. by rewrite Hl.
Qed.

(** While the stop is awaited, some mutator or the safepoint can move. *)
Lemma stuck_not_awaiting s : sw_inv s → stuck s → worker s ≠ WAwaitStop.
Proof.
  intros Hi Hs Hw. pose proof (sw_worker s Hi) as Ho. rewrite Hw in Ho. destruct Ho as [Ht Hob].
  destruct (StwSpec.stopped (world s)) eqn:Hst.
  - apply Hs. eexists. apply p_stop. unfold mmtk_stop_all_mutators_step, observe. rewrite Hw.
    rewrite decide_True by done. done.
  - destruct (decide (Forall (λ m, safe m = true) (mutators s))) as [Hf|Hf].
    + apply Hs. eexists. apply p_begin; [|done]. unfold safepoint_begin. by rewrite decide_True.
    + apply not_Forall_Exists in Hf; [|apply _]. apply Exists_exists in Hf as (m & Hin & Hm).
      apply list_elem_of_lookup in Hin as [i Hi'].
      destruct (stuck_mutator s i m Hs Hi') as [E|[-> _]]; [|by destruct Hm].
      unfold mmtk_block_for_gc_step in E. rewrite Hi' in E.
      destruct m; try done; try (by destruct Hm). apply Hs. eexists. by apply (p_poll i).
Qed.

Lemma stuck_idle s : sw_inv s → stuck s → worker s = WIdle.
Proof.
  intros Hi Hs. pose proof (sw_worker s Hi) as Ho. pose proof (stuck_unlocked s Hi Hs) as Hl.
  pose proof (stuck_not_awaiting s Hi Hs).
  assert (mmtk_stop_all_mutators_step s = None) as E1.
  { apply eq_None_not_Some. intros [s' E]. apply Hs. exists s'. by apply p_stop. }
  assert (mmtk_resume_mutators_step s = None) as E2.
  { apply eq_None_not_Some. intros [s' E]. apply Hs. exists s'. by apply p_resume. }
  assert (worker s ≠ WCollect) by (intros Hw; apply Hs; eexists; by apply p_collected).
  unfold mmtk_stop_all_mutators_step, ask in E1.
  unfold mmtk_resume_mutators_step, ask, observe, lock_gc in E2. rewrite Hl in E2.
  destruct (worker s) eqn:Hw; try done; simpl in *;
    repeat case_decide; simplify_eq/=; intuition congruence.
Qed.

(** A run that cannot go on has finished the collection, the world runs, and
    every mutator runs or waits for a collection to come. *)
Lemma stuck_settled s :
  sw_inv s → (gcs s + 1 < 2 ^ 64)%Z → stuck s →
  worker s = WIdle ∧ StwSpec.stopped (world s) = false ∧ Forall (settled (gcs s)) (mutators s).
Proof.
  intros Hi Hb Hs. pose proof (stuck_idle s Hi Hs) as Hw.
  pose proof (sw_worker s Hi) as Ho. rewrite Hw in Ho. destruct Ho as [Ht Hob].
  assert (StwSpec.stopped (world s) = false) as Hst.
  { apply not_true_is_false. intros Hst. apply Hs. eexists. apply p_end; [|done].
    unfold safepoint_end. by rewrite decide_True. }
  split_and!; [done..|]. apply Forall_lookup_2. intros i m Hm.
  destruct (stuck_mutator s i m Hs Hm) as [E|[_ Ht']]; [|congruence].
  pose proof (mutator_known s i m Hi Hb Hm) as Hk.
  unfold mmtk_block_for_gc_step, lock_gc in E.
  rewrite Hm, Hst, (stuck_unlocked s Hi Hs) in E. unfold settled.
  destruct m as [| | | | |next|next| |]; simplify_eq/=; [by left|by case_decide|].
  right. exists next. split; [done|]. destruct Hk as [_ Hk]. rewrite Hw in Hk.
  destruct (decide (next ≤ gcs s)%Z) as [Hle|]; [by apply Hk in Hle|lia].
Qed.

(** ** What a collection releases *)

(** [mmtk_stop_all_mutators] has been called and the counter not incremented. *)
Definition before_increment (p : gc_worker_pc) : bool :=
  match p with
  | WPrologue | WAskStop | WAwaitStop | WVisit | WCollect | WEpilogue | WInc => true
  | _ => false
  end.

(** A mutator that the increment to [c] releases, if it waits at all. *)
Definition released (c : Z) (m : mutator_pc) : Prop :=
  match m with
  | MLoad | MLoaded _ => False
  | MInVM next | MCheck next | MReacq next | MWaiting next => (next ≤ c)%Z
  | _ => True
  end.

(** The collection that takes the counter from [c] to [c + 1] is under way, or
    has happened and nobody waits for a later one. *)
Definition collecting (c : Z) (s : sw) : Prop :=
  before_increment (worker s) = true ∧ gcs s = c ∨
  before_increment (worker s) = false ∧ gcs s = (c + 1)%Z ∧
  Forall (released (c + 1)) (mutators s).

Lemma collecting_mutator c s i m m' l :
  mutators s !! i = Some m → (released (c + 1) m → released (c + 1) m') →
  collecting c s → collecting c (set_mutator i m' (set_gc_lock l s)).
Proof.
  intros Hm Hok [H|(H1 & H2 & H3)]; [by left|right].
  split_and!; [done..|]. simpl. apply Forall_insert; [done|]. apply Hok.
  by apply (Forall_lookup_1 _ _ i m H3).
Qed.

(** A worker step other than the increment. *)
Lemma collecting_worker c s s' :
  before_increment (worker s') = before_increment (worker s) →
  gcs s' = gcs s → mutators s' = mutators s → collecting c s → collecting c s'.
Proof. unfold collecting. by intros -> -> ->. Qed.

Lemma collecting_increment c s :
  sw_inv s → (c + 2 < 2 ^ 64)%Z → worker s = WInc → collecting c s →
  collecting c (set_worker WAskResume (set_gcs (gcs s + 1)%Z s)).
Proof.
  intros Hi Hb Hw [[_ Hc]|[H _]]; [|by rewrite Hw in H]. right. split_and!; simpl; [done|lia|].
  pose proof (sw_worker s Hi) as Ho. rewrite Hw in Ho. destruct Ho as (_ & _ & Hst).
  apply Forall_lookup_2. intros i m Hm.
  pose proof (stopped_safe s i m Hi Hst Hm) as Hsafe.
  pose proof (mutator_known s i m Hi ltac:(lia) Hm) as Hk.
  destruct m; simpl in *; try done; intuition lia.
Qed.

Lemma collecting_step c s s' :
  sw_inv s → (c + 2 < 2 ^ 64)%Z → sw_progress s s' → collecting c s → collecting c s'.
Proof.
  intros Hi Hb Hp Hc.
  destruct Hp as [i s s' E Hsp|s s' E|s s' E|s E|i s E Ht|s s' E Ht|s s' E Ht].
  - unfold mmtk_block_for_gc_step, lock_gc in E.
    destruct (mutators s !! i) as [m|] eqn:Hm; [|done].
    destruct m; simplify_eq/=; repeat case_match; simplify_eq/=;
      first [apply (collecting_mutator c s i _ _ _ Hm); simpl; tauto
            |apply (collecting_mutator c s i _ _ (gc_lock s) Hm); simpl; tauto].
  - unfold mmtk_stop_all_mutators_step, ask, observe in E.
    destruct (worker s) eqn:Hw; simplify_eq/=; repeat case_decide; simplify_eq/=;
      (eapply collecting_worker; [| | |exact Hc]; [by rewrite Hw|done|done]).
  - unfold mmtk_resume_mutators_step, ask, observe, lock_gc in E.
    destruct (worker s) eqn:Hw; simplify_eq/=; repeat case_match; simplify_eq/=;
      try (by apply collecting_increment);
      try (eapply collecting_worker; [| | |exact Hc]; [by rewrite Hw|done|done]).
    destruct Hc as [[H _]|(_ & H2 & H3)]; [by rewrite Hw in H|right].
    split_and!; [done..|]. simpl. apply Forall_fmap. eapply Forall_impl; [exact H3|]. by intros [].
  - eapply collecting_worker; [| | |exact Hc]; [by rewrite E|done|done].
  - by apply (collecting_mutator c s i _ _ (gc_lock s) E).
  - unfold safepoint_begin in E. case_decide; simplify_eq. by eapply collecting_worker.
  - unfold safepoint_end in E. case_decide; simplify_eq. by eapply collecting_worker.
Qed.

Lemma collecting_run c n s s' :
  sw_inv s → (c + 2 < 2 ^ 64)%Z → nsteps sw_progress n s s' → collecting c s → collecting c s'.
Proof.
  intros Hi Hb Hn. revert Hi. induction Hn as [|n x y z Hxy _ IH]; intros Hx Hc; [done|].
  apply IH; [by eapply sw_progress_measure|by eapply collecting_step].
Qed.

(** C4. A collection releases every mutator that blocks for it: from any
    reachable state in which [mmtk_stop_all_mutators] has been called and the
    counter not yet incremented, the runs are bounded, and every run that cannot
    go on ends with the collection finished, the counter one higher, the world
    running and all mutators running, those in [mmtk_block_for_gc] included. *)
Theorem gc_releases_mutators s :
  sw_reachable s → (gcs s + 2 < 2 ^ 64)%Z → before_increment (worker s) = true →
  ∃ N, ∀ n s', nsteps sw_progress n s s' →
    n ≤ N ∧ (stuck s' →
      worker s' = WIdle ∧ gcs s' = (gcs s + 1)%Z ∧ StwSpec.stopped (world s') = false ∧
      Forall (λ m, m = MRun) (mutators s')).
Proof.
  intros Hi%sw_reachable_inv Hb Hw. exists (sw_measure s). intros n s' Hn.
  destruct (nsteps_measure _ sw_inv sw_measure sw_progress_measure _ _ _ Hn Hi) as [Hi' Hle].
  split; [lia|]. intros Hs.
  assert (collecting (gcs s) s') as Hc by (apply (collecting_run _ n s); try done; by left).
  destruct Hc as [[Hbi _]|(_ & Hg & Hrel)].
  { by rewrite (stuck_idle s' Hi' Hs) in Hbi. }
  destruct (stuck_settled s' Hi' ltac:(lia) Hs) as (Hidle & Hst & Hset).
  split_and!; [done..|]. apply Forall_lookup_2. intros i m Hm.
  apply (Forall_lookup_1 _ _ i m) in Hrel; [|done].
  apply (Forall_lookup_1 _ _ i m) in Hset; [|done].
  destruct Hset as [->|(next & -> & Hlt)]; [done|]. simpl in Hrel. lia.
Qed.

Lemma gc_releases_mutators_witness :
  ∃ N, ∀ n s', nsteps sw_progress n (sw_after 2 gc_begins) s' →
    n ≤ N ∧ (stuck s' →
      worker s' = WIdle ∧ gcs s' = 1%Z ∧ StwSpec.stopped (world s') = false ∧
      Forall (λ m, m = MRun) (mutators s')).
Proof.
  apply (gc_releases_mutators (sw_after 2 gc_begins)).
  - apply sw_after_reachable. eexists. vm_compute. reflexivity.
  - vm_compute. reflexivity.
  - vm_compute. reflexivity.
Defined.
