(* ===== verification/References.v ===== *)
(** * Enqueueing references

    [mmtk_enqueue_references] of [mmtkUpcalls.cpp]: the references mmtk-core has
    processed are linked through their [discovered] fields and put in front of
    the universe's pending list.  The array may name a reference several times.

    Objects are addresses, [NULL] is 0, and the heap maps the address of a field
    to the object it holds; a load or a store where there is no field is
    [Undef]. *)

From stdpp Require Import base gmap list sets.
From Stdlib Require Import ZArith Lia.
From S2P Require Import Prelude.

Section references.
Local Open Scope Z_scope.

(** [java_lang_ref_Reference::discovered_offset]. *)
Variable discovered_offset : Z.

Definition NULL : Z := 0.

Abbreviation heap := (gmap Z Z).
Implicit Types (m : heap) (p e x : Z) (l u : list Z).

(** [HeapAccess<AS_RAW>::oop_load_at] and [oop_store_at]. *)
Definition oop_load_at (m : heap) (base offset : Z) : outcome Z :=
  match m !! (base + offset) with Some v => Ok v | None => Undef end.

Definition oop_store_at (m : heap) (base offset v : Z) : outcome heap :=
  match m !! (base + offset) with
  | Some _ => Ok (<[base + offset := v]> m)
  | None => Undef
  end.

(** [objects[i]]. *)
Definition object_at (objects : list Z) (i : nat) : outcome Z :=
  match objects !! i with Some x => Ok x | None => Undef end.

(** The body of the loop, for one [i]: the heap and [last]. *)
Definition enqueue_one (objects : list Z) (s : heap * Z) (i : nat) : outcome (heap * Z) :=
  let '(m, last) := s in
  reff ← object_at objects i;
  if decide (reff = last) then Ok (m, last)
  else
    old_discovered ← oop_load_at m reff discovered_offset;
    if decide (old_discovered ≠ NULL) then Ok (m, last)
    else
      m ← oop_store_at m last discovered_offset reff;
      Ok (m, reff).

(** The heap and [Universe::_reference_pending_list]. *)
Definition mmtk_enqueue_references (objects : list Z) (len : nat) (s : heap * Z) : outcome (heap * Z) :=
  let '(m, pending_list) := s in
  if decide (len = 0%nat) then Ok (m, pending_list)
  else
    first ← object_at objects 0;
    '(m, last) ← ofold (enqueue_one objects) (m, first) (seq 1 (len - 1));
    let old_first := pending_list in
    m ← oop_store_at m last discovered_offset old_first;
    Ok (m, first).

(** ** Linked lists *)

(** From [p], the [discovered] fields link the objects of [l], and the last of
    them leads to [e]. *)
Fixpoint chain m p l e : Prop :=
  match l with
  | [] => p = e
  | x :: l => p = x ∧ ∃ n, m !! (x + discovered_offset) = Some n ∧ chain m n l e
  end.

(** The elements of a list in the order of their first occurrence. *)
Definition first_occurrences (l : list Z) : list Z :=
  foldl (λ u x, if decide (x ∈ u) then u else u ++ [x]) [] l.

Lemma first_occurrences_snoc l x :
  first_occurrences (l ++ [x]) =
  if decide (x ∈ first_occurrences l) then first_occurrences l else first_occurrences l ++ [x].
Proof. unfold first_occurrences. by rewrite foldl_app. Qed.

Lemma first_occurrences_nodup l : NoDup (first_occurrences l).
Proof.
  induction l as [|x l IH] using rev_ind; [constructor|]. rewrite first_occurrences_snoc.
  case_decide; [done|]. apply NoDup_app. split_and!; [done| |apply NoDup_singleton].
  set_solver.
Qed.

Lemma first_occurrences_elem l y : y ∈ first_occurrences l ↔ y ∈ l.
Proof.
  induction l as [|x l IH] using rev_ind; [done|]. rewrite first_occurrences_snoc.
  case_decide; set_solver.
Qed.

Lemma chain_app m p l1 l2 e :
  chain m p (l1 ++ l2) e ↔ ∃ q, chain m p l1 q ∧ chain m q l2 e.
Proof.
  revert p. induction l1 as [|x l1 IH]; intros p; simpl; [naive_solver|].
  setoid_rewrite IH. naive_solver.
Qed.

(** A chain only depends on the fields of its objects. *)
Lemma chain_frame m m' p l e :
  (∀ x, x ∈ l → m' !! (x + discovered_offset) = m !! (x + discovered_offset)) →
  chain m p l e → chain m' p l e.
Proof.
  revert p. induction l as [|x l IH]; intros p Hm; simpl; [done|].
  intros (-> & n & Hn & Hc). split; [done|]. exists n. split.
  - rewrite Hm; [done|set_solver].
  - apply IH; [|done]. intros y Hy. apply Hm. set_solver.
Qed.

(** Changing the end of a chain. *)
Lemma chain_redirect m p u x e e' :
  NoDup (u ++ [x]) → chain m p (u ++ [x]) e →
  chain (<[x + discovered_offset := e']> m) p (u ++ [x]) e'.
Proof.
  intros Hnd (q & Hu & -> & n & _ & ->)%chain_app. apply chain_app. exists x. split.
  - eapply chain_frame; [|done]. intros y Hy. apply lookup_insert_ne.
    apply NoDup_app in Hnd as (_ & Hnd & _). specialize (Hnd y Hy). intros E.
    assert (x = y) by lia. set_solver.
  - simpl. split; [done|]. exists e'. split; [apply lookup_insert_eq|done].
Qed.

(** An object before the last is linked to an object of the chain. *)
Lemma chain_next m p u x e y :
  chain m p (u ++ [x]) e → y ∈ u →
  ∃ n, m !! (y + discovered_offset) = Some n ∧ n ∈ u ++ [x].
Proof.
  revert p. induction u as [|z u IH]; intros p; simpl; [set_solver|].
  intros (-> & n & Hn & Hc) [->|Hy]%elem_of_cons.
  - exists n. split; [done|]. destruct u as [|w u]; simpl in Hc; destruct Hc as [-> _]; set_solver.
  - destruct (IH n Hc Hy) as (n' & ? & ?). exists n'. split; [done|set_solver].
Qed.

(** ** The loop *)

(** After the elements [pre] of the array: [last] is the last of their first
    occurrences, which are chained from [first]; the other fields are as before. *)
Definition loop_inv (m0 : heap) first pre (s : heap * Z) : Prop :=
  ∃ u, first_occurrences pre = u ++ [s.2] ∧ chain s.1 first (u ++ [s.2]) NULL ∧
       ∀ a, (∀ x, x ∈ u → a ≠ x + discovered_offset) → s.1 !! a = m0 !! a.

Lemma enqueue_one_inv m0 first objects i x pre s :
  objects !! i = Some x → (∀ y, y ∈ x :: pre → y ≠ NULL) →
  m0 !! (x + discovered_offset) = Some NULL →
  loop_inv m0 first pre s →
  ∃ s', enqueue_one objects s i = Ok s' ∧ loop_inv m0 first (pre ++ [x]) s'.
Proof.
  destruct s as [m last]. intros Hi Hnn Hx (u & Hu & Hc & Hf); simpl in *.
  assert (NoDup (u ++ [last])) as Hnd by (rewrite <-Hu; apply first_occurrences_nodup).
  assert (∀ y, y ∈ u ++ [last] → y ≠ NULL) as Hnn'.
  { intros y Hy. apply Hnn. rewrite <-Hu, first_occurrences_elem in Hy. set_solver. }
  unfold loop_inv, enqueue_one, object_at, oop_load_at. rewrite Hi. simpl.
  rewrite first_occurrences_snoc, Hu. destruct (decide (x = last)) as [->|Hl].
  { exists (m, last). split; [done|]. exists u. rewrite decide_True by set_solver. done. }
  destruct (decide (x ∈ u)) as [Hxu|Hxu].
  - destruct (chain_next _ _ _ _ _ _ Hc Hxu) as (n & -> & Hn). simpl.
    rewrite (decide_True (P := n ≠ NULL)) by (by apply Hnn'). exists (m, last). split; [done|]. exists u.
    rewrite decide_True by set_solver. done.
  - assert (m !! (x + discovered_offset) = Some NULL) as Hmx.
    { rewrite Hf; [done|]. intros y Hy E. assert (x = y) by lia. by subst. }
    rewrite Hmx. simpl.
    assert (∃ n, m !! (last + discovered_offset) = Some n) as [n Hn].
    { apply chain_app in Hc as (q & _ & -> & n & Hn & _). eauto. }
    unfold oop_store_at. rewrite Hn. simpl. eexists; split; [done|]. simpl.
    exists (u ++ [last]). rewrite decide_False by set_solver. split; [done|]. split.
    + apply chain_app. exists x. split; [by eapply chain_redirect|]. simpl. split; [done|].
      exists NULL. split; [|done]. rewrite lookup_insert_ne; [done|]. lia.
    + intros a Ha. rewrite lookup_insert_ne by (symmetry; apply Ha; set_solver).
      apply Hf. intros y Hy. apply Ha. set_solver.
Qed.

Lemma enqueue_loop m0 first objects :
  ∀ l pre s,
  objects = pre ++ l →
  (∀ y, y ∈ objects → y ≠ NULL ∧ m0 !! (y + discovered_offset) = Some NULL) →
  loop_inv m0 first pre s →
  ∃ s', ofold (enqueue_one objects) s (seq (length pre) (length l)) = Ok s' ∧
        loop_inv m0 first objects s'.
Proof.
  induction l as [|x l IH]; intros pre s Ho Hob Hl; simpl.
  - exists s. by rewrite Ho, app_nil_r.
  - destruct (enqueue_one_inv m0 first objects (length pre) x pre s) as (s1 & -> & H1);
      [by rewrite Ho, list_lookup_middle| |apply Hob; rewrite Ho; set_solver|done|].
    { intros y Hy. apply Hob. rewrite Ho. set_solver. }
    simpl. replace (S (length pre)) with (length (pre ++ [x])) by (rewrite length_app; simpl; lia).
    apply IH; [|done|done]. by rewrite Ho, <-app_assoc.
Qed.

(** C6. [mmtk_enqueue_references] puts the processed references in front of the
    pending list: the new list is the given references, each exactly once, in
    the order of their first occurrence in the array, followed by the old list,
    ending in [NULL].  No field of any other object changes, and no access is
    undefined. *)
Theorem enqueue_references_spec objects m pending old :
  (∀ y, y ∈ objects → y ≠ NULL ∧ m !! (y + discovered_offset) = Some NULL) →
  chain m pending old NULL → (∀ y, y ∈ objects → y ∉ old) →
  ∃ m' pending',
    mmtk_enqueue_references objects (length objects) (m, pending) = Ok (m', pending') ∧
    chain m' pending' (first_occurrences objects ++ old) NULL ∧
    NoDup (first_occurrences objects) ∧
    (∀ a, (∀ x, x ∈ objects → a ≠ x + discovered_offset) → m' !! a = m !! a).
Proof.
  intros Hob Hold Hdis. unfold mmtk_enqueue_references.
  destruct objects as [|x l]; simpl.
  { exists m, pending. split_and!; try done. constructor. }
  destruct (enqueue_loop m x (x :: l) l [x] (m, x)) as ([m1 last] & E & u & Hu & Hc & Hf);
    [done|done| |].
  { exists []. simpl. destruct (Hob x) as [_ Hx]; [set_solver|].
    split_and!; [done|done|by exists NULL|done]. }
  simpl in E. rewrite Nat.sub_0_r, E. simpl in *.
  assert (NoDup (u ++ [last])) as Hnd by (rewrite <-Hu; apply first_occurrences_nodup).
  assert (∀ y, y ∈ u ++ [last] → y ∈ x :: l) as Hin
    by (intros y; by rewrite <-Hu, first_occurrences_elem).
  assert (∃ n, m1 !! (last + discovered_offset) = Some n) as [n Hn].
  { apply chain_app in Hc as (q & _ & -> & n & Hn & _). eauto. }
  unfold oop_store_at. rewrite Hn. simpl. do 2 eexists. split; [done|]. rewrite Hu. split_and!.
  - apply chain_app. exists pending. split; [by eapply chain_redirect|].
    eapply chain_frame; [|done]. intros y Hy.
    assert (∀ z, z ∈ u ++ [last] → z ≠ y) as Hne by (intros z Hz ->; by apply (Hdis y), Hy; apply Hin).
    rewrite lookup_insert_ne by (specialize (Hne last ltac:(set_solver)); lia).
    apply Hf. intros z Hz E'. apply (Hne z); [set_solver|lia].
  - done.
  - intros a Ha. rewrite lookup_insert_ne by (symmetry; apply Ha, Hin; set_solver).
    apply Hf. intros z Hz. apply Ha, Hin. set_solver.
Qed.

End references.

(** Two references, one of them named twice, and one pending already. *)
Lemma enqueue_references_spec_witness :
  let m : gmap Z Z := {[ 108%Z := 0%Z; 208%Z := 0%Z; 308%Z := 0%Z ]} in
  ∃ m' p', mmtk_enqueue_references 8 [100; 200; 100; 200]%Z 4 (m, 300%Z) = Ok (m', p') ∧
    chain 8 m' p' [100; 200; 300]%Z NULL.
Proof.
  destruct (enqueue_references_spec 8 [100; 200; 100; 200]%Z
    {[ 108%Z := 0%Z; 208%Z := 0%Z; 308%Z := 0%Z ]} 300 [300%Z])
    as (m' & p' & E & Hc & _).
  - intros y Hy. assert (y = 100%Z ∨ y = 200%Z) as [-> | ->] by set_solver;
      split; [discriminate|by vm_compute|discriminate|by vm_compute].
  - split; [reflexivity|]. exists 0%Z. split; [by vm_compute|reflexivity].
  - intros y Hy. assert (y = 100%Z ∨ y = 200%Z) as [-> | ->] by set_solver; set_solver.
  - exists m', p'. split; [exact E|exact Hc].
Defined.
