(* ===== verification/Slots.v ===== *)
(** * Slots

    [OpenJDKSlot] of [mmtk/src/slots.rs], the type in which the binding hands
    root and field addresses to mmtk-core, on x86_64.  With compressed oops, a
    slot with bit 63 clear holds a 32-bit compressed reference, and a slot with
    bit 63 set is the address of a full reference.  Memory is a total function
    from addresses to bytes. *)

From stdpp Require Import base numbers list.
From Stdlib Require Import ZArith Lia.
From S2P Require Import Prelude.

Local Open Scope Z_scope.

(** ** Byte-addressed memory *)

Definition mem := Z → Z.

(** The [n]-byte little-endian word at [a]. *)
Fixpoint read (n : nat) (m : mem) (a : Z) : Z :=
  match n with
  | O => 0
  | S n => Z.lor (u8 (m a)) (Z.shiftl (read n m (a + 1)) 8)
  end.

Definition write (n : nat) (m : mem) (a v : Z) : mem :=
  λ x, if decide (a ≤ x < a + Z.of_nat n) then u8 (Z.shiftr v (8 * (x - a))) else m x.

Lemma read_ext n m m' a :
  (∀ x, a ≤ x < a + Z.of_nat n → m x = m' x) → read n m a = read n m' a.
Proof.
  revert a. induction n as [|n IH]; intros a Hm; simpl; [done|].
  rewrite (Hm a) by lia. f_equal. f_equal. apply IH. intros x Hx. apply Hm. lia.
Qed.

Lemma lor_byte v w : 0 ≤ w → Z.lor (wrap 8 v) (Z.shiftl (wrap w (Z.shiftr v 8)) 8) = wrap (w + 8) v.
Proof.
  intros Hw. apply Z.bits_inj'. intros k Hk.
  rewrite Z.lor_spec, Z.shiftl_spec, !wrap_testbit by lia.
  case_bool_decide as H1; simpl.
  - rewrite (Z.testbit_neg_r _ (k - 8)) by lia. rewrite andb_false_r, orb_false_r.
    by rewrite bool_decide_eq_true_2 by lia.
  - rewrite Z.shiftr_spec by lia. replace (k - 8 + 8) with k by lia.
    f_equal. apply bool_decide_ext. lia.
Qed.

(** Reading back what was written. *)
Lemma read_write n m a v : read n (write n m a v) a = wrap (8 * Z.of_nat n) v.
Proof.
  revert m a v. induction n as [|n IH]; intros m a v; [symmetry; apply Z.mod_1_r|].
  simpl read. unfold write at 1. rewrite decide_True by lia.
  rewrite (read_ext n _ (write n m (a + 1) (Z.shiftr v 8))).
  - rewrite IH, wrap_wrap, Z.sub_diag, Z.mul_0_r, Z.shiftr_0_r, lor_byte by lia.
    f_equal. lia.
  - intros x Hx. unfold write. rewrite !decide_True by lia.
    rewrite Z.shiftr_shiftr by lia. f_equal. f_equal. lia.
Qed.

(** Writes elsewhere are not seen. *)
Lemma write_frame n m a v x : x < a ∨ a + Z.of_nat n ≤ x → write n m a v x = m x.
Proof. intros. unfold write. by rewrite decide_False by lia. Qed.

(** ... in particular by reads of other words. *)
Lemma read_write_ne n k m a b v :
  a + Z.of_nat k ≤ b ∨ b + Z.of_nat n ≤ a → read n (write k m a v) b = read n m b.
Proof. intros Hd. apply read_ext. intros x Hx. apply write_frame. lia. Qed.

Lemma read_range n m a : 0 ≤ read n m a < 2 ^ (8 * Z.of_nat n).
Proof.
  revert a. induction n as [|n IH]; intros a; [simpl; lia|]. cbn [read].
  specialize (IH (a + 1)). set (r := read n m (a + 1)) in *.
  replace r with (wrap (8 * Z.of_nat n) r) by (by apply wrap_small).
  replace (Z.lor _ _) with (wrap (8 * Z.of_nat (S n)) (Z.lor (u8 (m a)) (Z.shiftl r 8))).
  { apply wrap_bound. lia. }
  apply Z.bits_inj'. intros i Hi.
  rewrite wrap_testbit, !Z.lor_spec, !Z.shiftl_spec, !wrap_testbit by lia.
  destruct (decide (i < 8 * Z.of_nat (S n))).
  - rewrite (bool_decide_eq_true_2 (i < 8 * Z.of_nat (S n))) by done. simpl.
    destruct (decide (i < 8)).
    + rewrite !(Z.testbit_neg_r _ (i - 8)) by lia. by rewrite andb_false_r.
    + by rewrite (bool_decide_eq_true_2 (i - 8 < _)) by lia.
  - rewrite !bool_decide_eq_false_2 by lia. done.
Qed.

(** ** Compressed references *)

(** [BASE] and [SHIFT]. *)
Record oop_encoding := OopEncoding { BASE : Z; SHIFT : Z }.

Definition initialize_compressed_oops_base_and_shift (heap_start heap_end : Z) : oop_encoding :=
  if decide (heap_end ≤ Z.shiftl 4 30) then OopEncoding 0 0
  else if decide (heap_end ≤ Z.shiftl 32 30) then OopEncoding 0 3
  else OopEncoding (heap_start - 4096) 3.

Section slots.
Variable enc : oop_encoding.
(** The const generic [COMPRESSED]. *)
Variable COMPRESSED : bool.

Definition compress (o : Z) : Z := u32 (Z.shiftr (o - BASE enc) (SHIFT enc)).

Definition decompress (v : Z) : option Z :=
  if decide (v = 0) then None else Some (u64 (BASE enc + u64 (Z.shiftl v (SHIFT enc)))).

(** ** Slots *)

Definition MASK : Z := Z.shiftl 1 63.

Definition is_compressed (addr : Z) : bool := bool_decide (Z.land addr MASK = 0).

Definition untagged_address (addr : Z) : Z := Z.shiftr (u64 (Z.shiftl addr 1)) 1.

(** [ObjectReference::from_raw_address]. *)
Definition from_raw_address (a : Z) : option Z := if decide (a = 0) then None else Some a.

Definition slot_load (m : mem) (addr : Z) : option Z :=
  if COMPRESSED then
    if is_compressed addr then decompress (read 4 m (untagged_address addr))
    else from_raw_address (read 8 m (untagged_address addr))
  else from_raw_address (read 8 m addr).

Definition slot_store (m : mem) (addr object : Z) : mem :=
  if COMPRESSED then
    if is_compressed addr then write 4 m (untagged_address addr) (compress object)
    else write 8 m (untagged_address addr) object
  else write 8 m addr object.

Definition store_null (m : mem) (addr : Z) : mem :=
  if COMPRESSED then
    if is_compressed addr then write 4 m (untagged_address addr) 0
    else write 8 m (untagged_address addr) 0
  else write 8 m addr 0.

(** The range of bytes a slot stands for. *)
Definition slot_address (addr : Z) : Z := if COMPRESSED then untagged_address addr else addr.
Definition slot_bytes (addr : Z) : nat :=
  if COMPRESSED then if is_compressed addr then 4%nat else 8%nat else 8%nat.

(** ** The tag bit *)

Lemma mask_testbit k : 0 ≤ k → Z.testbit MASK k = bool_decide (k = 63).
Proof.
  intros Hk. unfold MASK. rewrite Z.shiftl_1_l, Z.pow2_bits_eqb by lia.
  case_bool_decide as E; [by apply Z.eqb_eq|apply Z.eqb_neq; congruence].
Qed.

Lemma testbit_63 p : 0 ≤ p < 2 ^ 63 → Z.testbit p 63 = false.
Proof. intros Hp. rewrite <-(Z.mod_small p (2 ^ 63)) by lia. by apply Z.mod_pow2_bits_high. Qed.

Lemma is_compressed_testbit a : is_compressed a = negb (Z.testbit a 63).
Proof.
  unfold is_compressed. case_bool_decide as E.
  - apply (f_equal (λ z, Z.testbit z 63)) in E.
    rewrite Z.land_spec, mask_testbit, Z.testbit_0_l in E by lia.
    rewrite bool_decide_eq_true_2, andb_true_r in E by done. by rewrite E.
  - destruct (Z.testbit a 63) eqn:Ea; [done|]. destruct E. apply Z.bits_inj'. intros k Hk.
    rewrite Z.land_spec, mask_testbit, Z.testbit_0_l by lia.
    case_bool_decide; [by subst; rewrite Ea|by rewrite andb_false_r].
Qed.

Lemma untagged_testbit a k :
  0 ≤ k → Z.testbit (untagged_address a) k = (bool_decide (k < 63) && Z.testbit a k)%bool.
Proof.
  intros Hk. unfold untagged_address.
  rewrite Z.shiftr_spec, wrap_testbit, Z.shiftl_spec by lia.
  replace (k + 1 - 1) with k by lia. f_equal. apply bool_decide_ext. lia.
Qed.

(** Untagging gives the address back, tagged or not. *)
Lemma untagged_plain p : 0 ≤ p < 2 ^ 63 → untagged_address p = p.
Proof.
  intros Hp. apply Z.bits_inj'. intros k Hk. rewrite untagged_testbit by done.
  case_bool_decide; [done|]. simpl. rewrite <-(Z.mod_small p (2 ^ 63)) by lia.
  by rewrite Z.mod_pow2_bits_high by lia.
Qed.

Lemma untagged_tagged p : 0 ≤ p < 2 ^ 63 → untagged_address (Z.lor p MASK) = p.
Proof.
  intros Hp. rewrite <-(untagged_plain p) at 2 by done. apply Z.bits_inj'. intros k Hk.
  rewrite !untagged_testbit, Z.lor_spec, mask_testbit by done.
  repeat case_bool_decide; simpl; try done; [lia|by rewrite orb_false_r].
Qed.

Lemma tagged_not_compressed p : is_compressed (Z.lor p MASK) = false.
Proof. rewrite is_compressed_testbit, Z.lor_spec, mask_testbit by lia. by rewrite orb_true_r. Qed.

Lemma plain_compressed p : 0 ≤ p < 2 ^ 63 → is_compressed p = true.
Proof. intros. by rewrite is_compressed_testbit, testbit_63. Qed.

(** ** Encoding *)

(** An address the encoding can represent. *)
Definition encodable (o : Z) : Prop :=
  0 ≤ SHIFT enc ∧ 0 ≤ BASE enc ∧ o < 2 ^ 64 ∧ (o - BASE enc) mod 2 ^ SHIFT enc = 0 ∧
  0 < Z.shiftr (o - BASE enc) (SHIFT enc) < 2 ^ 32.

Lemma decompress_compress o : encodable o → decompress (compress o) = Some o.
Proof.
  intros (Hs & Hb & Ho & Hm & Hr). unfold decompress, compress.
  rewrite (wrap_small 32) by lia. rewrite decide_False by lia. f_equal.
  assert (Z.shiftl (Z.shiftr (o - BASE enc) (SHIFT enc)) (SHIFT enc) = o - BASE enc) as E.
  { rewrite Z.shiftl_mul_pow2, Z.shiftr_div_pow2 by done.
    pose proof (Z.div_mod (o - BASE enc) (2 ^ SHIFT enc) ltac:(lia)). lia. }
  assert (0 < o - BASE enc) as Hpos.
  { rewrite Z.shiftr_div_pow2 in Hr by done.
    destruct (decide (0 < o - BASE enc)); [done|].
    assert ((o - BASE enc) / 2 ^ SHIFT enc ≤ 0); [|lia].
    apply Z.div_le_upper_bound; [apply Z.pow_pos_nonneg; lia|lia]. }
  rewrite E, (wrap_small 64 (o - _)) by lia. rewrite wrap_small by lia. lia.
Qed.

(** A slot that has been stored to loads the stored reference, whether the
    slot is a compressed field or root, a tagged full-width root, or a slot of a
    heap without compressed oops; and only the bytes of the slot change. *)
Theorem slot_store_load m addr object :
  0 < object < 2 ^ 64 → (COMPRESSED = true → encodable object) →
  slot_load (slot_store m addr object) addr = Some object ∧
  ∀ x, x < slot_address addr ∨ slot_address addr + Z.of_nat (slot_bytes addr) ≤ x →
    slot_store m addr object x = m x.
Proof.
  intros Ho He. unfold slot_load, slot_store, slot_address, slot_bytes, from_raw_address.
  destruct COMPRESSED; [destruct (is_compressed addr)|]; (split; [|by intros; apply write_frame]).
  - rewrite read_write. unfold compress. rewrite wrap_wrap. by apply decompress_compress, He.
  - rewrite read_write, wrap_small by (simpl; lia). by rewrite decide_False by lia.
  - rewrite read_write, wrap_small by (simpl; lia). by rewrite decide_False by lia.
Qed.

(** A slot that has been cleared by [store_null] loads no reference. *)
Theorem slot_store_null m addr : slot_load (store_null m addr) addr = None.
Proof.
  unfold slot_load, store_null, from_raw_address.
  destruct COMPRESSED; [destruct (is_compressed addr)|]; by rewrite read_write.
Qed.

End slots.

(** The base and shift that are chosen for a heap encode every aligned
    object of it, as long as a heap that ends above 32 GiB spans less than
    32 GiB together with the page below it. *)
Lemma heap_objects_encodable heap_start heap_end o :
  4096 ≤ heap_start → heap_start ≤ o < heap_end → heap_end ≤ 2 ^ 63 →
  heap_start mod 8 = 0 → o mod 8 = 0 →
  (2 ^ 35 < heap_end → heap_end - heap_start + 4096 ≤ 2 ^ 35) →
  let enc := initialize_compressed_oops_base_and_shift heap_start heap_end in
  decompress enc (compress enc o) = Some o.
Proof.
  intros Hs Ho He Hs8 Ho8 Hsz. apply decompress_compress.
  unfold encodable, initialize_compressed_oops_base_and_shift.
  change (Z.shiftl 4 30) with (2 ^ 32). change (Z.shiftl 32 30) with (2 ^ 35).
  assert (∀ x, 0 ≤ x < 2 ^ 35 → x / 8 < 2 ^ 32) as Hd
    by (intros x Hx; apply Z.div_lt_upper_bound; lia).
  case_decide as H1; [|case_decide as H2]; simpl;
    rewrite ?Z.shiftr_div_pow2, ?Z.sub_0_r by lia.
  - rewrite Z.div_1_r, Z.mod_1_r. lia.
  - change (2 ^ 3) with 8. specialize (Hd o ltac:(lia)).
    pose proof (Z.div_str_pos o 8 ltac:(lia)). lia.
  - change (2 ^ 3) with 8. specialize (Hd (o - (heap_start - 4096)) ltac:(lia)).
    pose proof (Z.div_str_pos (o - (heap_start - 4096)) 8 ltac:(lia)).
    assert ((o - (heap_start - 4096)) mod 8 = 0); [|lia].
    replace (o - (heap_start - 4096)) with (o - heap_start + 512 * 8) by lia.
    rewrite Z.mod_add by lia. rewrite Zminus_mod, Ho8, Hs8. done.
Qed.

(** ** The heap of compressed references

    [set_compressed_pointer_vm_layout] of [lib.rs] places it. *)

Record vm_layout := VMLayout { heap_start : Z; heap_end : Z }.

(** [conversions::chunk_align_down] and [chunk_align_up] of mmtk-core, whose
    chunks divide 1 GiB. *)
Class ChunkAlign := {
  chunk_align_down : Z → Z;
  chunk_align_up : Z → Z;
  chunk_align_down_aligned a : a mod 2 ^ 30 = 0 → chunk_align_down a = a;
  chunk_align_up_aligned a : a mod 2 ^ 30 = 0 → chunk_align_up a = a
}.

Section vm_layout.
Context `{ChunkAlign}.

Definition set_compressed_pointer_vm_layout (max_heap_size : Z) : outcome vm_layout :=
  guarantee (bool_decide (max_heap_size ≤ Z.shiftl 32 30));;
  let start := 1073741824 in
  let end_ :=
    if decide (start + max_heap_size ≤ Z.shiftl 4 30) then Z.shiftl 4 30
    else if decide (start + max_heap_size ≤ Z.shiftl 32 30) then Z.shiftl 32 30
    else 1073741824 + Z.shiftl 32 30 in
  Ok (VMLayout (chunk_align_down start) (chunk_align_up end_)).

(** The layouts there are. *)
Lemma vm_layout_cases max_heap_size l :
  set_compressed_pointer_vm_layout max_heap_size = Ok l →
  heap_start l = 2 ^ 30 ∧
  ((max_heap_size ≤ 3 * 2 ^ 30 ∧ heap_end l = 2 ^ 32) ∨
   (max_heap_size ≤ 31 * 2 ^ 30 ∧ heap_end l = 2 ^ 35) ∨
   (31 * 2 ^ 30 < max_heap_size ≤ 32 * 2 ^ 30 ∧ heap_end l = 33 * 2 ^ 30)).
Proof.
  unfold set_compressed_pointer_vm_layout.
  change (Z.shiftl 32 30) with (2 ^ 35). change (Z.shiftl 4 30) with (2 ^ 32).
  change 1073741824 with (2 ^ 30).
  case_bool_decide; simpl; [|done]. intros [= <-]. simpl.
  rewrite chunk_align_down_aligned by done. split; [done|].
  repeat case_decide; rewrite chunk_align_up_aligned by done;
    [left|right; left|right; right]; (split; [lia|reflexivity]).
Qed.

(** The last page above a base that is a page below the heap. *)
Lemma last_page_not_encodable o :
  33 * 2 ^ 30 - 4096 ≤ o < 33 * 2 ^ 30 →
  let enc := initialize_compressed_oops_base_and_shift (2 ^ 30) (33 * 2 ^ 30) in
  decompress enc (compress enc o) ≠ Some o.
Proof.
  intros Ho enc. change enc with (OopEncoding (2 ^ 30 - 4096) 3). unfold compress, decompress. simpl.
  rewrite Z.shiftr_div_pow2 by lia. change (2 ^ 3) with 8.
  set (k := (o - (2 ^ 30 - 4096)) / 8).
  assert (2 ^ 32 ≤ k < 2 ^ 32 + 512) as Hk.
  { subst k. split; [apply Z.div_le_lower_bound|apply Z.div_lt_upper_bound]; lia. }
  assert (u32 k = k - 2 ^ 32) as ->.
  { unfold wrap. symmetry. apply (Z.mod_unique _ _ 1); lia. }
  case_decide; [done|]. rewrite Z.shiftl_mul_pow2 by lia. change (2 ^ 3) with 8.
  rewrite (wrap_small 64 ((k - 2 ^ 32) * 8)), wrap_small by lia. intros [= E]. lia.
Qed.

(** C40. The encoding that goes with a layout represents every aligned object of
    the heap, except those of the last page when the heap ends above 32 GiB: the
    base is a page below the heap then, and 32 bits do not reach the end. *)
Theorem vm_layout_encodes max_heap_size l o :
  set_compressed_pointer_vm_layout max_heap_size = Ok l →
  heap_start l ≤ o < heap_end l → o mod 8 = 0 →
  let enc := initialize_compressed_oops_base_and_shift (heap_start l) (heap_end l) in
  decompress enc (compress enc o) = Some o ↔
  max_heap_size ≤ 31 * 2 ^ 30 ∨ o < heap_end l - 4096.
Proof.
  intros Hl Ho Ho8 enc. subst enc.
  destruct (vm_layout_cases _ _ Hl) as [Hs [[Hm He]|[[Hm He]|[Hm He]]]]; rewrite Hs, He in *.
  1,2: split; [lia|intros _]; apply heap_objects_encodable; done || lia.
  split.
  - intros Hd. right. destruct (decide (o < 33 * 2 ^ 30 - 4096)) as [|Hlt]; [done|exfalso].
    revert Hd. apply last_page_not_encodable; lia.
  - intros [|Hlt]; [lia|].
    change (initialize_compressed_oops_base_and_shift (2 ^ 30) (33 * 2 ^ 30))
      with (initialize_compressed_oops_base_and_shift (2 ^ 30) (33 * 2 ^ 30 - 4096)).
    apply heap_objects_encodable; done || lia.
Qed.

End vm_layout.

Lemma slot_store_load_witness :
  slot_load (OopEncoding 0 3) true
    (slot_store (OopEncoding 0 3) true (λ _, 0) 4096 1073741824) 4096 = Some 1073741824.
Proof.
  apply (slot_store_load (OopEncoding 0 3) true (λ _, 0) 4096 1073741824); [lia|].
  intros _. vm_compute. intuition discriminate.
Defined.

(** Chunks of 4 MiB, mmtk-core's. *)
#[local] Instance chunks_4M : ChunkAlign.
Proof.
  refine {| chunk_align_down a := a / 2 ^ 22 * 2 ^ 22;
            chunk_align_up a := (a + (2 ^ 22 - 1)) / 2 ^ 22 * 2 ^ 22 |};
  change (2 ^ 30) with (256 * 2 ^ 22); change (2 ^ 22) with 4194304; intros a Ha; Z.div_mod_to_equations; lia.
Defined.

Lemma vm_layout_encodes_witness :
  ∃ l, set_compressed_pointer_vm_layout (32 * 2 ^ 30) = Ok l ∧
    let enc := initialize_compressed_oops_base_and_shift (heap_start l) (heap_end l) in
    decompress enc (compress enc (2 ^ 34)) = Some (2 ^ 34) ∧
    decompress enc (compress enc (33 * 2 ^ 30 - 8)) ≠ Some (33 * 2 ^ 30 - 8).
Proof.
  eexists. split; [vm_compute; reflexivity|]. set (l := VMLayout _ _).
  pose proof (λ o, vm_layout_encodes (32 * 2 ^ 30) l o eq_refl) as H. cbv zeta in *.
  split.
  - apply H; [subst l; simpl; lia|reflexivity|right; subst l; simpl; lia].
  - intros E. apply H in E; [|subst l; simpl; lia|reflexivity].
    subst l. simpl in E. lia.
Defined.
