(* ===== verification/SlotRanges.v ===== *)
(** * Ranges of slots

    [OpenJDKSlotRange] of [mmtk/src/slots.rs]: the slots of an array, their
    iteration and the copy of one range to another, which may overlap it. *)

From stdpp Require Import base numbers list.
From Stdlib Require Import ZArith Lia.
From S2P Require Import Prelude Slots.

Local Open Scope Z_scope.

(** [std::ptr::copy] of [n] bytes: as if through a buffer. *)
Definition ptr_copy (src tgt n : Z) (m : mem) : mem :=
  λ x, if decide (tgt ≤ x < tgt + n) then m (src + (x - tgt)) else m x.

Record slot_range := SlotRange { start_ : Z; end_ : Z }.

Section slot_ranges.
Variable enc : oop_encoding.
Variable COMPRESSED : bool.
(** [Range::<Address>::copy] of mmtk-core: source, target, bytes. *)
Variable address_range_copy : Z → Z → Z → mem → mem.
Hypothesis address_range_copy_words : ∀ src tgt n m,
  n mod 8 = 0 → address_range_copy src tgt n m = ptr_copy src tgt n m.

Definition LOG_BYTES_IN_SLOT : Z := if COMPRESSED then 2 else 3.
Definition BYTES_IN_SLOT : Z := Z.shiftl 1 LOG_BYTES_IN_SLOT.

Definition bytes (r : slot_range) : Z := end_ r - start_ r.

(** [OpenJDKSlotRangeIterator]: the cursor moves to the limit. *)
Definition next (cursor limit : Z) : option (Z * Z) :=
  if decide (limit ≤ cursor) then None else Some (cursor, cursor + BYTES_IN_SLOT).

(** The slots it yields before it stops, for at most [fuel] calls. *)
Fixpoint iterate_slots (fuel : nat) (cursor limit : Z) : list Z :=
  match fuel, next cursor limit with
  | S fuel, Some (slot, cursor) => slot :: iterate_slots fuel cursor limit
  | _, _ => []
  end.

(** One call more than there are slots is enough. *)
Definition iter_slots (r : slot_range) : list Z :=
  iterate_slots (S (Z.to_nat (bytes r / BYTES_IN_SLOT))) (start_ r) (end_ r).

Definition copy (src tgt : slot_range) (m : mem) : mem :=
  if COMPRESSED
  then let words := Z.shiftr (bytes tgt) 2 in ptr_copy (start_ src) (start_ tgt) (4 * words) m
  else address_range_copy (start_ src) (start_ tgt) (bytes tgt) m.

(** ** The slots of a range *)

Definition slots (start n : Z) : list Z := (λ i, start + i * BYTES_IN_SLOT) <$> seqZ 0 n.

Lemma bytes_in_slot : BYTES_IN_SLOT = if COMPRESSED then 4 else 8.
Proof. unfold BYTES_IN_SLOT, LOG_BYTES_IN_SLOT. by destruct COMPRESSED. Qed.

Lemma iterate_slots_ok k : ∀ fuel cursor,
  (k < fuel)%nat →
  iterate_slots fuel cursor (cursor + Z.of_nat k * BYTES_IN_SLOT) = slots cursor (Z.of_nat k).
Proof.
  pose proof bytes_in_slot as Hb. assert (0 < BYTES_IN_SLOT) as Hp by (destruct COMPRESSED; lia).
  induction k as [|k IH]; intros [|fuel] cursor Hf; try lia; simpl; unfold next.
  - by rewrite decide_True by lia.
  - rewrite decide_False by nia. unfold slots. rewrite seqZ_cons by lia. simpl. f_equal; [lia|].
    replace (cursor + Z.of_nat (S k) * BYTES_IN_SLOT)
      with ((cursor + BYTES_IN_SLOT) + Z.of_nat k * BYTES_IN_SLOT) by lia.
    rewrite IH by lia. unfold slots. replace (Z.pred (Z.of_nat (S k))) with (Z.of_nat k) by lia.
    change (Z.succ 0) with (1 + 0). rewrite <-(fmap_add_seqZ 1 0 (Z.of_nat k)), <-list_fmap_compose.
    apply list_fmap_ext. intros _ x _. simpl. lia.
Qed.

(** The iterator stops, having yielded every slot of the range once. *)
Lemma iter_slots_ok start n :
  0 ≤ n → iter_slots (SlotRange start (start + n * BYTES_IN_SLOT)) = slots start n.
Proof.
  intros Hn. pose proof bytes_in_slot as Hb. unfold iter_slots, bytes. cbn [start_ end_].
  replace (start + n * BYTES_IN_SLOT - start) with (n * BYTES_IN_SLOT) by lia.
  rewrite Z.div_mul by (destruct COMPRESSED; lia).
  replace n with (Z.of_nat (Z.to_nat n)) at 2 3 by lia. apply iterate_slots_ok. lia.
Qed.

(** ** Copying *)

Lemma read_ptr_copy k src tgt n m i :
  0 ≤ i → i + Z.of_nat k ≤ n → read k (ptr_copy src tgt n m) (tgt + i) = read k m (src + i).
Proof.
  intros Hi Hn. revert i Hi Hn. induction k as [|k IH]; intros i Hi Hn; [done|]. cbn [read].
  unfold ptr_copy at 1. rewrite decide_True by lia. f_equal; [f_equal; f_equal; lia|].
  f_equal. replace (tgt + i + 1) with (tgt + (i + 1)) by lia.
  replace (src + i + 1) with (src + (i + 1)) by lia. apply IH; lia.
Qed.

(** [copy] moves [n] slots of an array: afterwards each slot of the target loads
    what the slot of the source with its index has loaded before, also when the
    ranges overlap, and nothing else has changed. *)
Lemma copy_slots src tgt n m :
  0 ≤ n → 0 ≤ src → 0 ≤ tgt →
  src + n * BYTES_IN_SLOT ≤ 2 ^ 63 → tgt + n * BYTES_IN_SLOT ≤ 2 ^ 63 →
  let m' := copy (SlotRange src (src + n * BYTES_IN_SLOT)) (SlotRange tgt (tgt + n * BYTES_IN_SLOT)) m in
  (∀ i, 0 ≤ i < n →
     slot_load enc COMPRESSED m' (tgt + i * BYTES_IN_SLOT) =
     slot_load enc COMPRESSED m (src + i * BYTES_IN_SLOT)) ∧
  (∀ x, x < tgt ∨ tgt + n * BYTES_IN_SLOT ≤ x → m' x = m x).
Proof.
  intros Hn Hs Ht Hs63 Ht63. pose proof bytes_in_slot as Hb. cbv zeta.
  assert (copy (SlotRange src (src + n * BYTES_IN_SLOT)) (SlotRange tgt (tgt + n * BYTES_IN_SLOT)) m =
          ptr_copy src tgt (n * BYTES_IN_SLOT) m) as ->.
  { unfold copy, bytes. cbn [start_ end_]. replace (tgt + n * BYTES_IN_SLOT - tgt) with (n * BYTES_IN_SLOT) by lia.
    rewrite Hb. destruct COMPRESSED.
    - rewrite Z.shiftr_div_pow2 by lia. change (2 ^ 2) with 4. rewrite Z.div_mul by lia. f_equal. lia.
    - by rewrite address_range_copy_words by (apply Z.mod_mul; lia). }
  split.
  - intros i Hi. unfold slot_load. rewrite Hb in *. destruct COMPRESSED.
    + rewrite !plain_compressed, !untagged_plain by lia. by rewrite read_ptr_copy by (simpl; lia).
    + by rewrite read_ptr_copy by (simpl; lia).
  - intros x Hx. unfold ptr_copy. by rewrite decide_False by lia.
Qed.

End slot_ranges.
