(* ===== verification/ObjectScan.v ===== *)
(** * Scanning objects

    [object_scanning.rs] and the part of [abi.rs] it uses: which slots of an
    object hold references, from the metadata of its class in HotSpot's memory,
    and the size of an object.  The same memory as in [Slots] holds objects and
    metadata. *)

From Stdlib Require Import List.
From stdpp Require Import base numbers list sets.
From Stdlib Require Import ZArith Lia.
From S2P Require Import Prelude Slots SlotRanges.

Local Open Scope Z_scope.

(** ** Metadata *)

Inductive KlassID := Instance | InstanceRef | InstanceMirror | InstanceClassLoader | TypeArray | ObjArray.

#[export] Instance KlassID_eq_dec : EqDecision KlassID.
Proof. solve_decision. Defined.

(** The discriminants, as [repr(i32)] numbers them. *)
Definition klass_id_of (n : Z) : option KlassID :=
  match n with
  | 0 => Some Instance | 1 => Some InstanceRef | 2 => Some InstanceMirror
  | 3 => Some InstanceClassLoader | 4 => Some TypeArray | 5 => Some ObjArray
  | _ => None
  end.

Inductive ReferenceType := NoReference | Other | Soft | Weak | Final | Phantom.

Inductive BasicType := T_LONG | T_DOUBLE | T_OBJECT | T_OTHER.

(** The fields of a [Klass], and of an [InstanceKlass], that are read. *)
Record Klass := MkKlass {
  layout_helper : Z;
  id : Z;
  vtable_len : Z;
  itable_len : Z;
  nonstatic_oop_map_size : Z;
  reference_type : ReferenceType
}.

(** A visit of a slot, or a reference handed to mmtk-core's reference processor. *)
Inductive scan_event :=
| visit_slot (slot : Z)
| add_soft_candidate (reference : Z)
| add_weak_candidate (reference : Z)
| add_phantom_candidate (reference : Z).

Section object_scan.
Variable COMPRESSED : bool.
Variable COMPRESSED_KLASS_BASE COMPRESSED_KLASS_SHIFT : Z.
(** The [Klass] at an address, and [size_of::<InstanceKlass>()]. *)
Variable klass_at : Z → Klass.
Variable size_of_InstanceKlass : Z.
(** What the upcalls answer: the offsets of the fields of [java.lang.Class] and
    [java.lang.ref.Reference], and HotSpot's size of an object. *)
Variable offset_of_static_fields static_oop_field_count_offset : Z.
Variable referent_offset discovered_offset : Z.
Variable get_object_size : mem → Z → Z.
Variable no_reference_types : bool.

Abbreviation BYTES := (BYTES_IN_SLOT COMPRESSED).

Definition i32_at (m : mem) (a : Z) : Z := sign 32 (read 4 m a).

Definition get_field_address (oop offset : Z) : Z := u64 (oop + offset).

(** [OopDesc::klass]: the address of the class. *)
Definition klass_address (m : mem) (oop : Z) : Z :=
  if COMPRESSED then u64 (COMPRESSED_KLASS_BASE + u64 (Z.shiftl (read 4 m (oop + 8)) COMPRESSED_KLASS_SHIFT))
  else read 8 m (oop + 8).
Definition klass (m : mem) (oop : Z) : Klass := klass_at (klass_address m oop).

(** [InstanceKlass::nonstatic_oop_maps]: after the class come its vtable and its
    itable, and then the blocks, an offset and a count each. *)
Definition start_of_vtable (k : Z) : Z := k + size_of_InstanceKlass / 8 * 8.
Definition start_of_itable (k : Z) : Z := start_of_vtable k + 8 * vtable_len (klass_at k).
Definition nonstatic_oop_map_count (k : Z) : Z :=
  nonstatic_oop_map_size (klass_at k) / Z.shiftr 8 3.
Definition nonstatic_oop_maps (m : mem) (k : Z) : list (Z * Z) :=
  let start := start_of_itable k + 8 * itable_len (klass_at k) in
  (λ i, (i32_at m (start + 8 * i), read 4 m (start + 8 * i + 4))) <$> seqZ 0 (nonstatic_oop_map_count k).

(** ** Arrays *)

Definition raw_align_up (n align : Z) : Z := (n + align - 1) / align * align.

Definition length_offset : Z := if COMPRESSED then 8 + 4 else 8 + 8.
Definition element_type_should_be_aligned (ty : BasicType) : bool :=
  match ty with T_DOUBLE | T_LONG => true | _ => false end.
(** In words. *)
Definition header_size (ty : BasicType) : Z :=
  let typesize_in_bytes := raw_align_up (length_offset + 4) 8 in
  if element_type_should_be_aligned ty then raw_align_up (typesize_in_bytes / 8) 8
  else typesize_in_bytes / 8.
Definition array_length (m : mem) (oop : Z) : Z := i32_at m (oop + length_offset).
Definition array_base (oop : Z) (ty : BasicType) : Z := oop + header_size ty * 8.

(** [ArrayOopDesc::slice]. *)
Definition array_slice (m : mem) (oop : Z) (ty : BasicType) : slot_range :=
  let base := array_base oop ty in
  SlotRange base (base + Z.shiftl (array_length m oop) (LOG_BYTES_IN_SLOT COMPRESSED)).

(** ** Sizes *)

Definition layout_helper_needs_slow_path (lh : Z) : bool := bool_decide (Z.land lh 1 ≠ 0).
Definition layout_helper_log2_element_size (lh : Z) : Z := Z.land (Z.shiftr lh 0) 63.
Definition layout_helper_header_size (lh : Z) : Z := Z.land (Z.shiftr lh 16) 255.

(** [OopDesc::size]. *)
Definition size (m : mem) (oop : Z) : Z :=
  let lh := layout_helper (klass m oop) in
  if decide (0 < lh) then
    if layout_helper_needs_slow_path lh then get_object_size m oop else lh
  else if decide (lh < 0) then
    let size_in_bytes :=
      Z.shiftl (array_length m oop) (layout_helper_log2_element_size lh) + layout_helper_header_size lh in
    Z.land (u64 (size_in_bytes + 7)) (u64 (Z.lnot 7))
  else get_object_size m oop.

(** ** [oop_iterate] *)

(** A block of references: [i] counts up. *)
Definition visit_range (start count : Z) : list scan_event :=
  (λ i, visit_slot (u64 (start + i * BYTES))) <$> seqZ 0 count.

(** [OopMapBlock::oop_iterate] and [InstanceKlass::oop_iterate]. *)
Definition oop_map_iterate (oop : Z) (map : Z * Z) : list scan_event :=
  visit_range (get_field_address oop map.1) map.2.
Definition instance_iterate (m : mem) (oop : Z) : list scan_event :=
  nonstatic_oop_maps m (klass_address m oop) ≫= oop_map_iterate oop.

(** [slice::from_raw_parts] with a negative length is undefined. *)
Definition visit_slice (start count : Z) : outcome (list scan_event) :=
  if decide (count < 0) then Undef else Ok (visit_range start count).

Definition mirror_iterate (m : mem) (oop : Z) : outcome (list scan_event) :=
  statics ← visit_slice (oop + offset_of_static_fields)
              (i32_at m (get_field_address oop static_oop_field_count_offset));
  Ok (instance_iterate m oop ++ statics).

Definition process_ref_as_strong (oop : Z) : list scan_event :=
  [visit_slot (get_field_address oop referent_offset)].

Definition ref_iterate (m : mem) (oop : Z) : outcome (list scan_event) :=
  let events := instance_iterate m oop ++ [visit_slot (get_field_address oop discovered_offset)] in
  if negb no_reference_types then
    match reference_type (klass m oop) with
    | NoReference => Fatal
    | Weak => Ok (events ++ [add_weak_candidate oop])
    | Soft => Ok (events ++ [add_soft_candidate oop])
    | Phantom => Ok (events ++ [add_phantom_candidate oop])
    | Final | Other => Ok (events ++ process_ref_as_strong oop)
    end
  else Ok (events ++ process_ref_as_strong oop).

Definition obj_array_iterate (m : mem) (oop : Z) : outcome (list scan_event) :=
  visit_slice (array_base oop T_OBJECT) (array_length m oop).

Definition oop_iterate (m : mem) (oop : Z) : outcome (list scan_event) :=
  match klass_id_of (id (klass m oop)) with
  | None => Fatal
  | Some Instance | Some InstanceClassLoader => Ok (instance_iterate m oop)
  | Some InstanceMirror => mirror_iterate m oop
  | Some ObjArray => obj_array_iterate m oop
  | Some TypeArray => Ok []
  | Some InstanceRef => ref_iterate m oop
  end.

(** ** What a scan must visit *)

(** The blocks of references of an object, an offset and a count each. *)
Definition maps (m : mem) (oop : Z) : list (Z * Z) := nonstatic_oop_maps m (klass_address m oop).

Definition strong_referent (m : mem) (oop : Z) : bool :=
  no_reference_types || match reference_type (klass m oop) with Final | Other => true | _ => false end.

Definition fields (kind : KlassID) (m : mem) (oop : Z) : list (Z * Z) :=
  match kind with
  | Instance | InstanceClassLoader => maps m oop
  | InstanceMirror =>
      maps m oop ++ [(offset_of_static_fields, i32_at m (oop + static_oop_field_count_offset))]
  | InstanceRef =>
      maps m oop ++ [(discovered_offset, 1)] ++ if strong_referent m oop then [(referent_offset, 1)] else []
  | ObjArray => [(header_size T_OBJECT * 8, array_length m oop)]
  | TypeArray => []
  end.

(** A block lies inside an object of [n] bytes, behind the mark word. *)
Definition inside (n : Z) (r : Z * Z) : Prop := 8 ≤ r.1 ∧ 0 ≤ r.2 ∧ r.1 + r.2 * BYTES ≤ n.
Definition apart (r1 r2 : Z * Z) : Prop :=
  r1.1 + r1.2 * BYTES ≤ r2.1 ∨ r2.1 + r2.2 * BYTES ≤ r1.1.

(** HotSpot's layout helper of arrays of references: a tag in the upper two bits,
    the size of the header, the element type and the logarithm of the element
    size. *)
Definition obj_array_layout_helper : Z :=
  sign 32 (2 ^ 31 + header_size T_OBJECT * 8 * 2 ^ 16 + 12 * 2 ^ 8 + LOG_BYTES_IN_SLOT COMPRESSED).

(** What HotSpot guarantees of an object and its class. *)
Record object_ok (kind : KlassID) (m : mem) (oop : Z) : Prop := {
  ok_kind : klass_id_of (id (klass m oop)) = Some kind;
  ok_address : 0 ≤ oop ∧ oop + size m oop ≤ 2 ^ 63;
  ok_reference : kind = InstanceRef → reference_type (klass m oop) ≠ NoReference;
  ok_mirror : kind = InstanceMirror → 0 ≤ static_oop_field_count_offset ∧
    oop + static_oop_field_count_offset < 2 ^ 64 ∧ 0 ≤ i32_at m (oop + static_oop_field_count_offset);
  ok_fields : kind ≠ ObjArray → Forall (inside (size m oop)) (fields kind m oop) ∧
    ForallOrdPairs apart (fields kind m oop);
  ok_array : kind = ObjArray → 0 ≤ array_length m oop ∧
    layout_helper (klass m oop) = obj_array_layout_helper
}.

Definition visited (es : list scan_event) : list Z :=
  omap (λ e, match e with visit_slot s => Some s | _ => None end) es.
Definition candidates (es : list scan_event) : list Z :=
  omap (λ e, match e with
             | add_soft_candidate r | add_weak_candidate r | add_phantom_candidate r => Some r
             | visit_slot _ => None
             end) es.

Lemma visited_app es1 es2 : visited (es1 ++ es2) = visited es1 ++ visited es2.
Proof. apply omap_app. Qed.
Lemma candidates_app es1 es2 : candidates (es1 ++ es2) = candidates es1 ++ candidates es2.
Proof. apply omap_app. Qed.

Lemma bytes_bounds : 4 ≤ BYTES ≤ 8.
Proof. rewrite bytes_in_slot. destruct COMPRESSED; lia. Qed.

Lemma visits_map (f : Z → scan_event) (g : Z → Z) l :
  (∀ i, i ∈ l → f i = visit_slot (g i)) → visited (f <$> l) = g <$> l ∧ candidates (f <$> l) = [].
Proof.
  induction l as [|x l IH]; intros Hf; [done|]. destruct IH as [H1 H2]; [set_solver|].
  rewrite !fmap_cons, Hf by set_solver. split; [exact (f_equal (cons (g x)) H1)|exact H2].
Qed.

(** The words of a block do not wrap around. *)
Lemma visit_range_ok n oop r :
  0 ≤ oop → oop + n ≤ 2 ^ 63 → inside n r →
  visited (visit_range (oop + r.1) r.2) = slots COMPRESSED (oop + r.1) r.2 ∧
  candidates (visit_range (oop + r.1) r.2) = [].
Proof.
  intros Ho Hn (H1 & H2 & H3). pose proof bytes_bounds as Hb. apply visits_map.
  intros i Hi%elem_of_seqZ. f_equal. apply wrap_small. nia.
Qed.

Lemma field_address_ok n oop r :
  0 ≤ oop → oop + n ≤ 2 ^ 63 → inside n r → get_field_address oop r.1 = oop + r.1.
Proof. intros Ho Hn (H1 & H2 & H3). pose proof bytes_bounds. apply wrap_small. nia. Qed.

(** A sequence of blocks. *)
Lemma blocks_ok n oop rs :
  0 ≤ oop → oop + n ≤ 2 ^ 63 → Forall (inside n) rs →
  visited (rs ≫= oop_map_iterate oop) = (rs ≫= λ r, slots COMPRESSED (oop + r.1) r.2) ∧
  candidates (rs ≫= oop_map_iterate oop) = [].
Proof.
  intros Ho Hn Hrs. induction Hrs as [|r rs Hr _ [IH1 IH2]]; [done|].
  rewrite !bind_cons, visited_app, candidates_app, IH1, IH2. unfold oop_map_iterate at 1 2.
  rewrite (field_address_ok n) by done. destruct (visit_range_ok n oop r Ho Hn Hr) as [-> ->]. done.
Qed.

Lemma elem_of_slots a n x :
  x ∈ slots COMPRESSED a n ↔ ∃ i, 0 ≤ i < n ∧ x = a + i * BYTES.
Proof.
  unfold slots. rewrite list_elem_of_fmap. setoid_rewrite elem_of_seqZ.
  split; intros (i & ? & ?); exists i; (split; [|]; lia || done).
Qed.

(** Blocks that are inside an object and apart have different slots, all inside
    the object. *)
Lemma blocks_inside n oop rs :
  Forall (inside n) rs →
  Forall (λ s, oop + 8 ≤ s ∧ s + BYTES ≤ oop + n) (rs ≫= λ r, slots COMPRESSED (oop + r.1) r.2).
Proof.
  pose proof bytes_bounds as Hb. intros Hrs. induction Hrs as [|r rs (H1 & H2 & H3) _ IH]; [constructor|].
  rewrite bind_cons. apply Forall_app. split; [|done]. apply Forall_forall.
  intros x (i & Hi & ->)%elem_of_slots. nia.
Qed.

Lemma blocks_nodup oop rs :
  ForallOrdPairs apart rs → NoDup (rs ≫= λ r, slots COMPRESSED (oop + r.1) r.2).
Proof.
  pose proof bytes_bounds as Hb. intros Hrs. induction Hrs as [|r rs Hr _ IH]; [constructor|].
  rewrite bind_cons. apply NoDup_app. split_and!; [| |done].
  - unfold slots. apply NoDup_fmap_2; [|apply NoDup_seqZ]. intros i j. nia.
  - intros x (i & Hi & ->)%elem_of_slots (r' & Hx & Hin)%list_elem_of_bind.
    apply elem_of_slots in Hx as (j & Hj & Hx). rewrite Forall_forall in Hr.
    specialize (Hr r' Hin). unfold apart in Hr. nia.
Qed.

(** ** Arrays of references *)

Lemma header_size_object : header_size T_OBJECT * 8 = if COMPRESSED then 16 else 24.
Proof. unfold header_size, length_offset. by destruct COMPRESSED. Qed.

(** The size that the layout helper gives is that of the header and the elements,
    rounded up to words: the two ways to the header agree. *)
Lemma obj_array_size m oop :
  layout_helper (klass m oop) = obj_array_layout_helper → 0 ≤ array_length m oop →
  size m oop = (header_size T_OBJECT * 8 + array_length m oop * BYTES + 7) / 8 * 8.
Proof.
  intros Hlh Hn. unfold size. rewrite Hlh. set (n := array_length m oop) in *.
  assert (n < 2 ^ 31) as Hn31.
  { subst n. unfold array_length, i32_at, sign. case_decide; pose proof (wrap_bound 32 (read 4 m (oop + length_offset)) ltac:(lia)); lia. }
  assert (obj_array_layout_helper < 0 ∧ layout_helper_log2_element_size obj_array_layout_helper = LOG_BYTES_IN_SLOT COMPRESSED ∧
          layout_helper_header_size obj_array_layout_helper = header_size T_OBJECT * 8) as (H1 & H2 & H3).
  { unfold obj_array_layout_helper. rewrite header_size_object. unfold LOG_BYTES_IN_SLOT.
    by destruct COMPRESSED; vm_compute. }
  rewrite decide_False by lia. rewrite decide_True by done. rewrite H2, H3.
  rewrite Z.shiftl_mul_pow2 by (unfold LOG_BYTES_IN_SLOT; destruct COMPRESSED; lia).
  replace (2 ^ LOG_BYTES_IN_SLOT COMPRESSED) with BYTES
    by (rewrite bytes_in_slot; unfold LOG_BYTES_IN_SLOT; by destruct COMPRESSED).
  pose proof bytes_bounds as Hb. rewrite header_size_object.
  rewrite wrap_small by (destruct COMPRESSED; nia).
  rewrite land_not_7 by (destruct COMPRESSED; nia). f_equal. f_equal. lia.
Qed.

(** Every block of references is inside the object, apart from the others. *)
Lemma fields_ok kind m oop :
  object_ok kind m oop →
  Forall (inside (size m oop)) (fields kind m oop) ∧ ForallOrdPairs apart (fields kind m oop).
Proof.
  intros [_ _ _ _ Hf Ha]. destruct (decide (kind = ObjArray)) as [->|Hk]; [|by apply Hf].
  destruct Ha as [Hn Hlh]; [done|]. pose proof bytes_bounds as Hb. split.
  - constructor; [|done]. unfold inside. simpl. rewrite (obj_array_size _ _ Hlh Hn), header_size_object.
    split_and!; [destruct COMPRESSED; lia|done|]. set (z := _ + _ * BYTES).
    pose proof (Z.div_mod (z + 7) 8 ltac:(lia)). pose proof (Z.mod_pos_bound (z + 7) 8 ltac:(lia)). lia.
  - repeat constructor.
Qed.

(** The blocks are visited in order, and the referent of a reference is either
    visited as well or left to mmtk-core. *)
Lemma oop_iterate_blocks kind m oop :
  object_ok kind m oop →
  ∃ es, oop_iterate m oop = Ok es ∧
    visited es = (fields kind m oop ≫= λ r, slots COMPRESSED (oop + r.1) r.2) ∧
    candidates es = if decide (kind = InstanceRef ∧ strong_referent m oop = false) then [oop] else [].
Proof.
  intros Hok. pose proof (fields_ok _ _ _ Hok) as [Hin _].
  destruct Hok as [Hk [Ho Hs] Href Hmir _ Harr]. unfold oop_iterate. rewrite Hk.
  assert (∀ rs, Forall (inside (size m oop)) rs →
    visited (rs ≫= oop_map_iterate oop) = (rs ≫= λ r, slots COMPRESSED (oop + r.1) r.2) ∧
    candidates (rs ≫= oop_map_iterate oop) = []) as Hrs by (intros; by apply (blocks_ok (size m oop))).
  destruct kind; simpl in Hin.
  - exists (maps m oop ≫= oop_map_iterate oop). split; [done|]. by apply Hrs.
  - apply Forall_app in Hin as [Hm Hin]. pose proof (Hrs _ Hm) as [V1 V2].
    apply Forall_cons_1 in Hin as [Hd Hin].
    pose proof (field_address_ok _ _ _ Ho Hs Hd) as Ed. simpl in Ed.
    unfold ref_iterate. change (instance_iterate m oop) with (maps m oop ≫= oop_map_iterate oop).
    rewrite Ed. cbn [fields]. rewrite !bind_app, <-V1. unfold strong_referent, process_ref_as_strong in *.
    destruct (reference_type (klass m oop)) eqn:Er, no_reference_types; simpl in *;
      try (by destruct Href);
      try (apply Forall_cons_1 in Hin as [Hr _]; pose proof (field_address_ok _ _ _ Ho Hs Hr) as Er'; simpl in Er'; rewrite Er');
      (eexists; split; [done|]); rewrite !visited_app, !candidates_app, V2; cbn [mbind list_bind app fst snd];
      rewrite <-?app_assoc; change (Z.of_nat 0 + 0) with 0; rewrite ?Z.mul_0_l, ?Z.add_0_r; by split.
  - apply Forall_app in Hin as [Hm Hin]. apply Forall_cons_1 in Hin as [Hst _].
    pose proof (Hrs _ Hm) as [V1 V2]. destruct Hmir as (H0 & H1 & H2); [done|].
    destruct (visit_range_ok _ _ _ Ho Hs Hst) as [V3 V4]. simpl in V3, V4.
    unfold mirror_iterate, visit_slice, get_field_address. rewrite (wrap_small 64 (oop + _)) by lia.
    rewrite decide_False by lia. eexists. split; [done|]. cbn [fields].
    change (instance_iterate m oop) with (maps m oop ≫= oop_map_iterate oop).
    rewrite visited_app, candidates_app, V1, V2, V3, V4, bind_app. split; [|by rewrite decide_False by naive_solver].
    simpl. by rewrite app_nil_r.
  - exists (maps m oop ≫= oop_map_iterate oop). split; [done|]. by apply Hrs.
  - exists []. done.
  - apply Forall_cons_1 in Hin as [Ha _]. destruct Harr as [Hn _]; [done|].
    destruct (visit_range_ok _ _ _ Ho Hs Ha) as [V3 V4]. simpl in V3, V4.
    unfold obj_array_iterate, visit_slice, array_base. rewrite decide_False by lia.
    eexists. split; [done|]. rewrite V3, V4. simpl. rewrite app_nil_r. done.
Qed.

End object_scan.

(** For arrays of [long] and [double] the number of words of the header is
    rounded up to a multiple of eight, as if it counted bytes.  The binding asks
    only for arrays of references. *)
Lemma header_size_long : header_size true T_LONG = 8 ∧ header_size false T_LONG = 8.
Proof. done. Qed.

(** ** A concrete heap

    An array of three references at 4096 and a weak reference with one more field
    at 8192; their classes are at 800 and 1600. *)
Definition some_klass (k : Z) : Klass :=
  if decide (k = 800) then MkKlass (obj_array_layout_helper true) 5 0 0 0 NoReference
  else MkKlass 32 1 0 0 1 Weak.

Definition some_heap : mem :=
  write 4 (write 4 (write 4 (write 4 (write 4 (λ _, 0)
    4104 100) 4108 3) 8200 200) 1664 12) 1668 1.
