(* ===== verification/ObjectLayout.v ===== *)
(** * Objects as HotSpot lays them out

    What [object_scanning.rs] finds in an object, against HotSpot's layout of
    objects and classes, which is described here without the functions that read
    it: an object is its header and a sequence of fields, and a class is followed by
    its vtable, its itable and its oop maps.  A scan finds exactly the fields that
    hold references ([ObjectScan]). *)

From stdpp Require Import base numbers list sets.
From Stdlib Require Import ZArith Lia.
From S2P Require Import Prelude Slots SlotRanges ObjectScan.

Local Open Scope Z_scope.

#[local] Arguments read : simpl never.

Section object_layout.
Variable COMPRESSED : bool.
Variable COMPRESSED_KLASS_BASE COMPRESSED_KLASS_SHIFT : Z.
Variable klass_at : Z → Klass.
Variable size_of_InstanceKlass : Z.
Variable offset_of_static_fields static_oop_field_count_offset : Z.
Variable referent_offset discovered_offset : Z.
Variable get_object_size : mem → Z → Z.
Variable no_reference_types : bool.

Abbreviation klass_address := (klass_address COMPRESSED COMPRESSED_KLASS_BASE COMPRESSED_KLASS_SHIFT).
Abbreviation klass := (klass COMPRESSED COMPRESSED_KLASS_BASE COMPRESSED_KLASS_SHIFT klass_at).
Abbreviation size := (size COMPRESSED COMPRESSED_KLASS_BASE COMPRESSED_KLASS_SHIFT klass_at get_object_size).
Abbreviation oop_iterate := (oop_iterate COMPRESSED COMPRESSED_KLASS_BASE COMPRESSED_KLASS_SHIFT klass_at
  size_of_InstanceKlass offset_of_static_fields static_oop_field_count_offset referent_offset discovered_offset
  no_reference_types).
Abbreviation instance_iterate := (instance_iterate COMPRESSED COMPRESSED_KLASS_BASE COMPRESSED_KLASS_SHIFT klass_at
  size_of_InstanceKlass).

(** ** The layout of objects *)

(** The bytes of an object after its header: references, and primitive values or
    padding. *)
Inductive field := Reference | Bytes (n : Z).

(** The bytes of a reference. *)
Definition word : Z := if COMPRESSED then 4 else 8.
Definition field_size (f : field) : Z := match f with Reference => word | Bytes n => n end.
Definition total (l : list field) : Z := foldr (λ f n, field_size f + n) 0 l.

(** The offsets of the references in fields that start at offset [o]. *)
Fixpoint reference_fields (o : Z) (l : list field) : list Z :=
  match l with
  | [] => []
  | f :: l => match f with Reference => [o] | Bytes _ => [] end ++ reference_fields (o + field_size f) l
  end.

(** The mark word is followed by the class pointer, which is narrow if references
    are. *)
Definition header : Z := 8 + word.

(** ** The layout of classes *)

(** What follows an [InstanceKlass], a word each. *)
Inductive entry := VtableEntry (w : Z) | ItableEntry (w : Z) | OopMap (offset count : Z).

Definition entry_at (m : mem) (a : Z) (e : entry) : Prop :=
  match e with
  | VtableEntry w | ItableEntry w => read 8 m a = w
  | OopMap offset count => i32_at m a = offset ∧ read 4 m (a + 4) = count
  end.
Fixpoint entries_at (m : mem) (a : Z) (l : list entry) : Prop :=
  match l with [] => True | e :: l => entry_at m a e ∧ entries_at m (a + 8) l end.

Record class_laid_out (m : mem) (k : Z) (vtable itable : list Z) (blocks : list (Z * Z)) : Prop := {
  cl_vtable : vtable_len (klass_at k) = Z.of_nat (length vtable);
  cl_itable : itable_len (klass_at k) = Z.of_nat (length itable);
  cl_blocks : nonstatic_oop_map_size (klass_at k) = Z.of_nat (length blocks);
  cl_whole_words : (8 | size_of_InstanceKlass);
  cl_entries : entries_at m (k + size_of_InstanceKlass)
    ((VtableEntry <$> vtable) ++ (ItableEntry <$> itable) ++ ((λ b, OopMap b.1 b.2) <$> blocks))
}.

(** The references that a block stands for. *)
Definition block_fields (b : Z * Z) : list Z := (λ i, b.1 + i * word) <$> seqZ 0 b.2.

(** HotSpot's [Klass::_id]. *)
Definition klass_number (kind : KlassID) : Z :=
  match kind with
  | Instance => 0 | InstanceRef => 1 | InstanceMirror => 2 | InstanceClassLoader => 3 | TypeArray => 4 | ObjArray => 5
  end.

(** [Klass::_layout_helper] of arrays: a tag in the upper two bits, the bytes of
    the header, the number of the element type and the logarithm of its size. *)
Definition array_layout_helper (tag hdr etype log2 : Z) : Z :=
  sign 32 (tag * 2 ^ 30 + hdr * 2 ^ 16 + etype * 2 ^ 8 + log2).

(** The bytes between the class pointer and the elements: the length, and padding. *)
Definition array_prefix : Z := if COMPRESSED then 4 else 8.

(** The references of an instance that no oop map describes. *)
Definition other_references (kind : KlassID) (m : mem) (oop : Z) : list Z :=
  match kind with
  | InstanceRef => [referent_offset; discovered_offset]
  | InstanceMirror => block_fields (offset_of_static_fields, i32_at m (oop + static_oop_field_count_offset))
  | _ => []
  end.

Definition is_array (kind : KlassID) : bool := match kind with TypeArray | ObjArray => true | _ => false end.

(** The object at [oop] is of the class at [k], which is of the kind [kind], and its
    bytes are [layout]. *)
Record laid_out (kind : KlassID) (m : mem) (oop k : Z) (layout : list field) : Prop := {
  lo_class : if COMPRESSED then k = COMPRESSED_KLASS_BASE + read 4 m (oop + 8) * 2 ^ COMPRESSED_KLASS_SHIFT
             else k = read 8 m (oop + 8);
  lo_class_address : 0 ≤ COMPRESSED_KLASS_BASE ∧ 0 ≤ COMPRESSED_KLASS_SHIFT ∧ 0 ≤ k < 2 ^ 64;
  lo_kind : id (klass_at k) = klass_number kind;
  lo_address : 0 ≤ oop ∧ oop + header + total layout ≤ 2 ^ 63;
  lo_sizes : Forall (λ f, 0 ≤ field_size f) layout;
  lo_whole_words : (8 | header + total layout);
  (* an instance: its size, in the class or by HotSpot's own computation; the oop
     maps of its class *)
  lo_instance : is_array kind = false →
    (let lh := layout_helper (klass_at k) in
     lh = header + total layout ∨
     (lh = 0 ∨ 0 < lh ∧ Z.odd lh = true) ∧ get_object_size m oop = header + total layout) ∧
    ∃ vtable itable blocks, class_laid_out m k vtable itable blocks ∧
      reference_fields header layout ≡ₚ (blocks ≫= block_fields) ++ other_references kind m oop;
  lo_reference : kind = InstanceRef → reference_type (klass_at k) ≠ NoReference;
  lo_mirror : kind = InstanceMirror → 0 ≤ static_oop_field_count_offset ∧
    oop + static_oop_field_count_offset < 2 ^ 64 ∧ 0 ≤ i32_at m (oop + static_oop_field_count_offset);
  (* an array of references: the length after the class pointer, the elements, and
     padding *)
  lo_obj_array : kind = ObjArray → ∃ p, 0 ≤ i32_at m (oop + header) ∧ 0 ≤ p < 8 ∧
    layout_helper (klass_at k) =
      array_layout_helper 2 (header + array_prefix) 12 (if COMPRESSED then 2 else 3) ∧
    layout = Bytes array_prefix :: replicate (Z.to_nat (i32_at m (oop + header))) Reference ++ [Bytes p];
  (* an array of primitive values of type [etype], from [T_BOOLEAN] to [T_LONG], of
     which the lower two bits are the logarithm of the size *)
  lo_type_array : kind = TypeArray → ∃ etype p, 4 ≤ etype ≤ 11 ∧ 0 ≤ i32_at m (oop + header) ∧ 0 ≤ p < 8 ∧
    layout_helper (klass_at k) = array_layout_helper 3 (header + array_prefix) etype (etype mod 4) ∧
    layout = [Bytes array_prefix; Bytes (i32_at m (oop + header) * 2 ^ (etype mod 4)); Bytes p]
}.

(** What a scan hands to the reference processor. *)
Definition handed (es : list scan_event) : list scan_event :=
  omap (λ e, match e with visit_slot _ => None | _ => Some e end) es.

(** A [Reference] that is processed by its strength. *)
Definition processed (kind : KlassID) (k oop : Z) : list scan_event :=
  match kind with
  | InstanceRef =>
      if no_reference_types then [] else
      match reference_type (klass_at k) with
      | Soft => [add_soft_candidate oop]
      | Weak => [add_weak_candidate oop]
      | Phantom => [add_phantom_candidate oop]
      | _ => []
      end
  | _ => []
  end.


(** ** Reading the layout *)

Lemma word_bounds : 4 ≤ word ≤ 8 ∧ BYTES_IN_SLOT COMPRESSED = word.
Proof. rewrite bytes_in_slot. unfold word. destruct COMPRESSED; lia. Qed.

(** The class pointer leads to the class. *)
Lemma laid_klass kind m oop k layout : laid_out kind m oop k layout → klass_address m oop = k.
Proof.
  intros [Hc (Hb & Hs & Hk) _ _ _ _ _ _ _ _ _]. unfold ObjectScan.klass_address. destruct COMPRESSED; [|done].
  rewrite Z.shiftl_mul_pow2 by done. set (n := read 4 m (oop + 8)) in *.
  assert (0 ≤ n * 2 ^ COMPRESSED_KLASS_SHIFT) as Hn.
  { apply Z.mul_nonneg_nonneg; [apply read_range|apply Z.pow_nonneg; lia]. }
  rewrite (wrap_small 64 (n * _)) by lia. rewrite wrap_small by lia. done.
Qed.

Lemma entries_at_app m a l1 l2 :
  entries_at m a (l1 ++ l2) → entries_at m (a + 8 * Z.of_nat (length l1)) l2.
Proof.
  revert a. induction l1 as [|e l1 IH]; intros a; cbn [app entries_at length].
  - by rewrite Z.mul_0_r, Z.add_0_r.
  - intros [_ Hl]. replace (a + 8 * Z.of_nat (S (length l1))) with (a + 8 + 8 * Z.of_nat (length l1)) by lia. by apply IH.
Qed.

Lemma entries_read m blocks a :
  entries_at m a ((λ b, OopMap b.1 b.2) <$> blocks) →
  (λ i, (i32_at m (a + 8 * i), read 4 m (a + 8 * i + 4))) <$> seqZ 0 (Z.of_nat (length blocks)) = blocks.
Proof.
  intros He. apply list_eq. intros i. rewrite list_lookup_fmap.
  destruct (decide (i < length blocks)%nat) as [Hi|Hi].
  - rewrite lookup_seqZ_lt by lia. destruct (lookup_lt_is_Some_2 blocks i Hi) as [[x c] E]. rewrite E. cbn.
    rewrite <-(take_drop_middle _ _ _ E), fmap_app in He. apply entries_at_app in He.
    rewrite length_fmap, length_take_le, fmap_cons in He by lia. destruct He as [[E1 E2] _]. cbn [fst snd] in E1, E2.
    by rewrite Z.add_0_l, E1, E2.
  - rewrite lookup_seqZ_ge by lia. symmetry. apply lookup_ge_None_2. lia.
Qed.

(** The blocks are found behind the vtable and the itable. *)
Lemma laid_maps m k vtable itable blocks :
  class_laid_out m k vtable itable blocks → nonstatic_oop_maps klass_at size_of_InstanceKlass m k = blocks.
Proof.
  intros [Hv Hi Hb [q Hq] He]. apply entries_at_app, entries_at_app in He. rewrite !length_fmap in He.
  unfold nonstatic_oop_maps, nonstatic_oop_map_count, start_of_itable, start_of_vtable.
  change (Z.shiftr 8 3) with 1. rewrite Z.div_1_r, Hv, Hi, Hb, Hq, Z.div_mul, <-Hq by done. by apply entries_read.
Qed.

(** ** Fields one after the other *)

Lemma total_cons f l : total (f :: l) = field_size f + total l.
Proof. done. Qed.

Lemma total_app l1 l2 : total (l1 ++ l2) = total l1 + total l2.
Proof. induction l1 as [|f l1 IH]; [done|]. cbn [app]. rewrite !total_cons, IH. lia. Qed.

Lemma total_references n : total (replicate n Reference) = Z.of_nat n * word.
Proof. induction n as [|n IH]; [done|]. rewrite replicate_S, total_cons, IH. cbn [field_size]. lia. Qed.

Lemma total_nonneg l : Forall (λ f, 0 ≤ field_size f) l → 0 ≤ total l.
Proof. induction 1 as [|f l Hf _ IH]; [done|]. rewrite total_cons. lia. Qed.

Lemma fields_bounds l o x :
  Forall (λ f, 0 ≤ field_size f) l → x ∈ reference_fields o l → o ≤ x ∧ x + word ≤ o + total l.
Proof.
  intros Hl. revert o. induction Hl as [|f l Hf Hl IH]; intros o; cbn [reference_fields]; [by intros ?%elem_of_nil|].
  pose proof (total_nonneg l Hl) as Ht.
  rewrite elem_of_app, total_cons. intros [Hx|Hx%IH]; [|lia].
  destruct f; [|by apply elem_of_nil in Hx]. apply list_elem_of_singleton in Hx as ->. cbn [field_size] in *. lia.
Qed.

Lemma fields_nodup l o : Forall (λ f, 0 ≤ field_size f) l → NoDup (reference_fields o l).
Proof.
  intros Hl. revert o. induction Hl as [|f l Hf Hl IH]; intros o; cbn [reference_fields]; [constructor|].
  destruct f; cbn [app]; [|apply IH]. constructor; [|apply IH]. intros Hx. apply fields_bounds in Hx; [|done].
  pose proof word_bounds. cbn [field_size] in Hx. lia.
Qed.

(** ** The scan *)

Lemma visited_block oop b :
  0 ≤ oop → Forall (λ x, 0 ≤ x ∧ oop + x < 2 ^ 64) (block_fields b) →
  visited (oop_map_iterate COMPRESSED oop b) = Z.add oop <$> block_fields b ∧
  visited (visit_range COMPRESSED (oop + b.1) b.2) = Z.add oop <$> block_fields b.
Proof.
  intros Ho Hb. rewrite Forall_forall in Hb. pose proof word_bounds as [_ Ew].
  assert (∀ a, (∀ i, u64 (a + i * word) = u64 (oop + b.1 + i * word)) →
    visited (visit_range COMPRESSED a b.2) = Z.add oop <$> block_fields b) as Hv.
  { intros a Ha. unfold visit_range. rewrite Ew.
    destruct (visits_map klass_at get_object_size (λ i, visit_slot (u64 (a + i * word))) (λ i, oop + (b.1 + i * word)) (seqZ 0 b.2)) as [-> _].
    - intros i Hi. f_equal. rewrite Ha, Z.add_assoc. apply wrap_small.
      specialize (Hb (b.1 + i * word)). cbn beta in Hb. rewrite <-Z.add_assoc.
      assert (b.1 + i * word ∈ block_fields b) as Hin by (apply list_elem_of_fmap; eauto). specialize (Hb Hin). lia.
    - unfold block_fields. by rewrite <-list_fmap_compose. }
  split; [|by apply Hv]. apply Hv. intros i. unfold get_field_address, wrap. by rewrite Zplus_mod_idemp_l.
Qed.

Lemma visited_blocks oop blocks :
  0 ≤ oop → Forall (λ x, 0 ≤ x ∧ oop + x < 2 ^ 64) (blocks ≫= block_fields) →
  visited (blocks ≫= oop_map_iterate COMPRESSED oop) = Z.add oop <$> (blocks ≫= block_fields).
Proof.
  intros Ho. induction blocks as [|b bs IH]; [done|]. rewrite !bind_cons. intros [Hb Hbs]%Forall_app.
  rewrite visited_app, fmap_app, IH by done. f_equal. by apply visited_block.
Qed.

Lemma handed_app es1 es2 : handed (es1 ++ es2) = handed es1 ++ handed es2.
Proof. apply omap_app. Qed.

Lemma handed_visits (f : Z → Z) l : handed ((λ i, visit_slot (f i)) <$> l) = [].
Proof. induction l as [|x l IH]; [done|]. by rewrite fmap_cons. Qed.

Lemma handed_blocks oop blocks : handed (blocks ≫= oop_map_iterate COMPRESSED oop) = [].
Proof.
  induction blocks as [|b bs IH]; [done|]. rewrite bind_cons, handed_app, IH, app_nil_r. apply handed_visits.
Qed.

(** ** Sizes *)

Lemma array_length_at m oop : array_length COMPRESSED m oop = i32_at m (oop + header).
Proof. unfold array_length, length_offset, header, word. by destruct COMPRESSED. Qed.

Lemma i32_bound m a : i32_at m a < 2 ^ 31.
Proof.
  unfold i32_at, sign. case_decide; pose proof (wrap_bound 32 (read 4 m a) ltac:(lia)); lia.
Qed.

(** HotSpot's layout helpers of arrays, taken apart. *)
Lemma array_helper_parts tag hdr etype log2 :
  tag = 2 ∨ tag = 3 → hdr = 16 ∨ hdr = 24 → 4 ≤ etype ≤ 12 → 0 ≤ log2 ≤ 3 →
  let lh := array_layout_helper tag hdr etype log2 in
  lh < 0 ∧ layout_helper_log2_element_size lh = log2 ∧ layout_helper_header_size lh = hdr.
Proof.
  intros Ht Hh He Hl.
  assert (etype ∈ seqZ 4 9 ∧ log2 ∈ seqZ 0 4) as [He' Hl'] by (rewrite !elem_of_seqZ; lia).
  assert (forallb (λ t, forallb (λ h, forallb (λ e, forallb (λ l,
    let lh := array_layout_helper t h e l in
    (lh <? 0) && (layout_helper_log2_element_size lh =? l) && (layout_helper_header_size lh =? h))
    (seqZ 0 4)) (seqZ 4 9)) [16; 24]) [2; 3] = true) as H by (vm_compute; reflexivity).
  apply list_elem_of_In in He', Hl'.
  rewrite forallb_forall in H. specialize (H tag ltac:(cbn; lia)). rewrite forallb_forall in H.
  specialize (H hdr ltac:(cbn; lia)). rewrite forallb_forall in H. specialize (H etype He').
  rewrite forallb_forall in H. specialize (H log2 Hl'). cbv zeta in H. apply andb_true_iff in H as [[H1 H2]%andb_true_iff H3].
  split_and!; [by apply Z.ltb_lt|by apply Z.eqb_eq|by apply Z.eqb_eq].
Qed.

Lemma laid_array_size m oop k tag etype log2 p :
  klass_address m oop = k → tag = 2 ∨ tag = 3 → 4 ≤ etype ≤ 12 → 0 ≤ log2 ≤ 3 →
  layout_helper (klass_at k) = array_layout_helper tag (header + array_prefix) etype log2 →
  0 ≤ i32_at m (oop + header) → 0 ≤ p < 8 →
  let n := header + array_prefix + i32_at m (oop + header) * 2 ^ log2 + p in
  (8 | n) → size m oop = n.
Proof.
  intros Ek Ht He Hl Hlh Hn Hp n [q Hq]. unfold ObjectScan.size, ObjectScan.klass. rewrite Ek, Hlh, array_length_at.
  assert (header + array_prefix = 16 ∨ header + array_prefix = 24) as Hh
    by (unfold header, array_prefix, word; destruct COMPRESSED; auto).
  destruct (array_helper_parts tag (header + array_prefix) etype log2 Ht Hh He Hl) as (H1 & H2 & H3).
  rewrite decide_False by lia. rewrite decide_True by done. rewrite H2, H3, Z.shiftl_mul_pow2 by lia.
  pose proof (i32_bound m (oop + header)). set (len := i32_at m (oop + header)) in *.
  assert (1 ≤ 2 ^ log2 ≤ 8) as Hw.
  { change 1 with (2 ^ 0). change 8 with (2 ^ 3). split; apply Z.pow_le_mono_r; lia. }
  rewrite wrap_small by nia. rewrite land_not_7 by nia. subst n. Z.div_mod_to_equations. lia.
Qed.

Lemma laid_size kind m oop k layout : laid_out kind m oop k layout → size m oop = header + total layout.
Proof.
  intros Hlo. pose proof (laid_klass _ _ _ _ _ Hlo) as Ek. destruct Hlo as [_ _ _ [Ho Hs] Hsz Hw Hi _ _ Hoa Hta].
  destruct (is_array kind) eqn:Ea.
  - destruct kind; try done.
    + destruct Hta as (etype & p & He & Hn & Hp & Hlh & ->); [done|].
      rewrite !total_cons in *. cbn [total foldr field_size] in *. pose proof (Z.mod_pos_bound etype 4 ltac:(lia)).
      rewrite !Z.add_0_r, !Z.add_assoc in *. apply (laid_array_size m oop k 3 etype); auto; lia.
    + destruct Hoa as (p & Hn & Hp & Hlh & ->); [done|].
      rewrite !total_cons, !total_app, !total_references, Z2Nat.id in * by done. cbn [total foldr field_size] in *.
      replace word with (2 ^ (if COMPRESSED then 2 else 3)) in * by (unfold word; by destruct COMPRESSED).
      rewrite !Z.add_0_r, !Z.add_assoc in *.
      apply (laid_array_size m oop k 2 12); auto; try lia. destruct COMPRESSED; lia.
  - destruct (Hi eq_refl) as [Hlh _]. cbv zeta in Hlh. unfold ObjectScan.size, ObjectScan.klass. rewrite Ek.
    set (lh := layout_helper (klass_at k)) in *. unfold layout_helper_needs_slow_path.
    assert (Z.land lh 1 = lh mod 2) as -> by (change 1 with (Z.ones 1); by rewrite Z.land_ones).
    rewrite Zmod_odd.
    assert (0 < header) by (unfold header, word; destruct COMPRESSED; lia).
    pose proof (total_nonneg _ Hsz) as Ht.
    destruct Hlh as [E|[[E|[E1 E2]] E3]].
    + rewrite decide_True by lia. replace (Z.odd lh) with false; [done|].
      rewrite E. destruct Hw as [q ->]. by rewrite Z.odd_mul, andb_false_r.
    + by rewrite !decide_False by lia.
    + by rewrite decide_True, E2 by done.
Qed.

(** ** A scan finds the references *)

Lemma laid_ranges kind m oop k layout x :
  laid_out kind m oop k layout → x ∈ reference_fields header layout →
  0 ≤ x ∧ oop + x < 2 ^ 64 ∧ header ≤ x ∧ x + word ≤ header + total layout.
Proof.
  intros [_ _ _ [Ho Hs] Hsz _ _ _ _ _ _] Hx. apply fields_bounds in Hx; [|done]. pose proof word_bounds.
  assert (0 < header) by (unfold header; lia). lia.
Qed.

(** The oop maps of an instance. *)
Lemma instance_visited kind m oop k layout :
  laid_out kind m oop k layout → is_array kind = false →
  handed (instance_iterate m oop) = [] ∧
  visited (instance_iterate m oop) ++ (Z.add oop <$> other_references kind m oop) ≡ₚ
    Z.add oop <$> reference_fields header layout ∧
  ∀ x, x ∈ other_references kind m oop → 0 ≤ x ∧ oop + x < 2 ^ 64.
Proof.
  intros Hlo Ha. pose proof (laid_klass _ _ _ _ _ Hlo) as Ek.
  destruct (lo_instance _ _ _ _ _ Hlo Ha) as [_ (vt & it & blocks & Hc & Hp)].
  unfold ObjectScan.instance_iterate. rewrite Ek, (laid_maps _ _ _ _ _ Hc). split; [apply handed_blocks|].
  assert (∀ x, x ∈ (blocks ≫= block_fields) ++ other_references kind m oop → 0 ≤ x ∧ oop + x < 2 ^ 64) as Hr.
  { intros x Hx. rewrite <-Hp in Hx. by destruct (laid_ranges _ _ _ _ _ x Hlo Hx) as (? & ? & _). }
  split; [|intros x Hx; apply Hr, elem_of_app; by right].
  rewrite Hp, fmap_app, visited_blocks; [done|apply Hlo|]. apply Forall_forall. intros x Hx. apply Hr, elem_of_app. by left.
Qed.

Lemma ref_visited m oop k layout :
  laid_out InstanceRef m oop k layout →
  ∃ es, oop_iterate m oop = Ok es ∧ handed es = processed InstanceRef k oop ∧
    visited es ++ ((λ _, oop + referent_offset) <$> handed es) ≡ₚ Z.add oop <$> reference_fields header layout.
Proof.
  intros Hlo. pose proof (laid_klass _ _ _ _ _ Hlo) as Ek. destruct (instance_visited _ _ _ _ _ Hlo eq_refl) as (Hh & Hp & Hr).
  assert (get_field_address oop discovered_offset = oop + discovered_offset ∧
          get_field_address oop referent_offset = oop + referent_offset) as [Ed Er].
  { destruct (Hr discovered_offset) as [? ?]; [by right; left|]. destruct (Hr referent_offset) as [? ?]; [by left|].
    pose proof (lo_address _ _ _ _ _ Hlo). unfold get_field_address. by rewrite !wrap_small by lia. }
  pose proof (lo_reference _ _ _ _ _ Hlo eq_refl) as Hn.
  unfold ObjectScan.oop_iterate, ref_iterate, process_ref_as_strong, ObjectScan.klass in *.
  rewrite Ek, (lo_kind _ _ _ _ _ Hlo), Ed, Er. cbn [klass_number klass_id_of processed].
  cbn [other_references fmap list_fmap] in Hp.
  destruct no_reference_types, (reference_type (klass_at k)); cbn [negb]; try done; (eexists; split; [done|]);
    rewrite !handed_app, !visited_app, Hh; (split; [done|]); rewrite <-Hp; cbn; solve_Permutation.
Qed.

Lemma mirror_visited m oop k layout :
  laid_out InstanceMirror m oop k layout →
  ∃ es, oop_iterate m oop = Ok es ∧ handed es = [] ∧
    visited es ≡ₚ Z.add oop <$> reference_fields header layout.
Proof.
  intros Hlo. pose proof (laid_klass _ _ _ _ _ Hlo) as Ek. destruct (instance_visited _ _ _ _ _ Hlo eq_refl) as (Hh & Hp & Hr).
  destruct (lo_mirror _ _ _ _ _ Hlo eq_refl) as (H0 & H1 & H2). pose proof (lo_address _ _ _ _ _ Hlo).
  unfold ObjectScan.oop_iterate, mirror_iterate, visit_slice, ObjectScan.klass, get_field_address.
  rewrite Ek, (lo_kind _ _ _ _ _ Hlo), (wrap_small 64 (oop + static_oop_field_count_offset)) by lia. cbn [klass_number klass_id_of].
  rewrite decide_False by lia. eexists. split; [done|]. rewrite handed_app, visited_app, Hh. split; [apply handed_visits|].
  rewrite <-Hp. apply Permutation_app; [done|]. cbn [other_references] in *.
  destruct (visited_block oop (offset_of_static_fields, i32_at m (oop + static_oop_field_count_offset))) as [_ Hv];
    [lia|by apply Forall_forall|]. cbn [fst snd] in Hv. by rewrite Hv.
Qed.

Lemma obj_array_fields o n p :
  reference_fields o (Bytes array_prefix :: replicate n Reference ++ [Bytes p]) =
  block_fields (o + array_prefix, Z.of_nat n).
Proof.
  cbn [reference_fields field_size app]. unfold block_fields. cbn [fst snd]. generalize (o + array_prefix). clear o.
  induction n as [|n IH]; intros o; [done|]. rewrite replicate_S. cbn [app reference_fields field_size].
  rewrite IH, Nat2Z.inj_succ, (seqZ_cons 0 (Z.succ _)), Z.pred_succ by lia. change (Z.succ 0) with (1 + 0).
  rewrite <-(fmap_add_seqZ 1 0).
  rewrite fmap_cons, <-list_fmap_compose, Z.mul_0_l, Z.add_0_r. f_equal. apply list_fmap_ext. intros i x _. cbn. lia.
Qed.

Lemma array_visited m oop k layout :
  laid_out ObjArray m oop k layout →
  ∃ es, oop_iterate m oop = Ok es ∧ handed es = [] ∧ visited es = Z.add oop <$> reference_fields header layout.
Proof.
  intros Hlo. pose proof (laid_klass _ _ _ _ _ Hlo) as Ek. pose proof (lo_address _ _ _ _ _ Hlo) as Ho.
  destruct (lo_obj_array _ _ _ _ _ Hlo eq_refl) as (p & Hn & Hp & _ & El).
  assert (reference_fields header layout = block_fields (header + array_prefix, i32_at m (oop + header))) as Ef
    by (by rewrite El, obj_array_fields, Z2Nat.id).
  unfold ObjectScan.oop_iterate, obj_array_iterate, visit_slice, ObjectScan.klass.
  rewrite Ek, (lo_kind _ _ _ _ _ Hlo), array_length_at, decide_False by lia. cbn [klass_number klass_id_of].
  assert (array_base COMPRESSED oop T_OBJECT = oop + (header + array_prefix)) as ->.
  { unfold array_base. rewrite header_size_object. unfold header, array_prefix, word. by destruct COMPRESSED. }
  eexists. split; [done|]. split; [apply handed_visits|]. rewrite Ef.
  apply (visited_block oop (header + array_prefix, i32_at m (oop + header))); [lia|].
  apply Forall_forall. intros x Hx. rewrite <-Ef in Hx. by destruct (laid_ranges _ _ _ _ _ x Hlo Hx) as (? & ? & _).
Qed.

Lemma scan_laid_out kind m oop k layout :
  laid_out kind m oop k layout →
  ∃ es, oop_iterate m oop = Ok es ∧ size m oop = header + total layout ∧ handed es = processed kind k oop ∧
    visited es ++ ((λ _, oop + referent_offset) <$> handed es) ≡ₚ Z.add oop <$> reference_fields header layout ∧
    NoDup (visited es) ∧
    Forall (λ s, oop + header ≤ s ∧ s + word ≤ oop + size m oop) (visited es).
Proof.
  intros Hlo. pose proof (laid_klass _ _ _ _ _ Hlo) as Ek. pose proof (laid_size _ _ _ _ _ Hlo) as Es.
  assert (∃ es, oop_iterate m oop = Ok es ∧ handed es = processed kind k oop ∧
    visited es ++ ((λ _, oop + referent_offset) <$> handed es) ≡ₚ Z.add oop <$> reference_fields header layout)
    as (es & E & Hh & Hv).
  { destruct kind; try (by apply ref_visited).
    1, 3: destruct (instance_visited _ _ _ _ _ Hlo eq_refl) as (Hh & Hp & _); unfold ObjectScan.oop_iterate, ObjectScan.klass;
      rewrite Ek, (lo_kind _ _ _ _ _ Hlo); eexists; (split; [done|]); rewrite Hh; by split.
    - destruct (mirror_visited _ _ _ _ Hlo) as (es & E & Hh & Hv). exists es. rewrite Hh. cbn. by rewrite app_nil_r.
    - exists []. unfold ObjectScan.oop_iterate, ObjectScan.klass. rewrite Ek, (lo_kind _ _ _ _ _ Hlo).
      destruct (lo_type_array _ _ _ _ _ Hlo eq_refl) as (? & ? & _ & _ & _ & _ & ->). done.
    - destruct (array_visited _ _ _ _ Hlo) as (es & E & Hh & Hv). exists es. rewrite Hh. cbn. by rewrite app_nil_r, Hv. }
  exists es. split_and!; try done.
  - assert (NoDup (visited es ++ ((λ _, oop + referent_offset) <$> handed es))) as Hd; [|by apply NoDup_app in Hd as [? _]].
    rewrite Hv. apply NoDup_fmap_2; [intros x y; lia|]. apply fields_nodup, (lo_sizes _ _ _ _ _ Hlo).
  - apply Forall_forall. intros s Hs.
    assert (s ∈ Z.add oop <$> reference_fields header layout) as Hin by (rewrite <-Hv; apply elem_of_app; by left).
    apply list_elem_of_fmap in Hin as (x & -> & Hx). destruct (laid_ranges _ _ _ _ _ x Hlo Hx). lia.
Qed.

(** C19. A scan finds the references of an object: for an object that HotSpot has
    laid out, of any kind, it ends without failure; each field that holds a reference
    is visited once, and nothing else, where the oop maps are behind the vtable and
    the itable of the class; only the referent of a soft, weak or phantom reference,
    when there are any, is not visited, and the [Reference] is handed to mmtk-core
    as what it is, once.  The size that the binding computes is that of the
    layout, and every slot is inside. *)
Theorem object_scan_exact kind m oop k layout :
  laid_out kind m oop k layout →
  ∃ es, oop_iterate m oop = Ok es ∧ size m oop = header + total layout ∧ handed es = processed kind k oop ∧
    visited es ++ ((λ _, oop + referent_offset) <$> handed es) ≡ₚ Z.add oop <$> reference_fields header layout ∧
    NoDup (visited es) ∧
    Forall (λ s, oop + header ≤ s ∧ s + word ≤ oop + size m oop) (visited es).
Proof. apply scan_laid_out. Qed.

End object_layout.

(** ** A concrete heap

    An array of three references at 4096 and a weak reference with one more field at
    8192; the class of the latter, at 1600, has an entry in its vtable and two in its
    itable. *)

Definition laid_klass_at (k : Z) : Klass :=
  if decide (k = 800) then MkKlass (array_layout_helper 2 16 12 2) 5 0 0 0 NoReference
  else MkKlass 32 1 1 2 1 Weak.

Definition laid_heap : mem :=
  write 4 (write 4 (write 4 (write 4 (write 4 (write 8 (λ _, 0)
    1664 77) 4104 100) 4108 3) 8200 200) 1688 12) 1692 1.

Abbreviation laid_scan := (oop_iterate true 0 3 laid_klass_at 64 0 0 16 20 false laid_heap).
Abbreviation laid_heap_out := (laid_out true 0 3 laid_klass_at 64 0 0 16 20 (λ _ _, 0)).

Lemma laid_array : laid_heap_out ObjArray laid_heap 4096 800 [Bytes 4; Reference; Reference; Reference; Bytes 4].
Proof.
  split; try discriminate.
  - vm_compute. reflexivity.
  - vm_compute. split_and!; (discriminate || reflexivity).
  - reflexivity.
  - vm_compute. split; discriminate.
  - repeat constructor; discriminate.
  - by exists 4.
  - intros _. exists 4. assert (i32_at laid_heap (4096 + header true) = 3) as -> by (vm_compute; reflexivity).
    split_and!; (lia || reflexivity).
Qed.

Lemma laid_reference : laid_heap_out InstanceRef laid_heap 8192 1600 [Reference; Reference; Reference; Bytes 8].
Proof.
  split; try discriminate.
  - vm_compute. reflexivity.
  - vm_compute. split_and!; (discriminate || reflexivity).
  - reflexivity.
  - vm_compute. split; discriminate.
  - repeat constructor; discriminate.
  - by exists 4.
  - intros _. split; [by left|]. exists [77], [0; 0], [(12, 1)]. split.
    + split; try reflexivity; [by exists 8|]. cbn [fmap list_fmap app entries_at entry_at fst snd].
      split_and!; vm_compute; reflexivity.
    + change (reference_fields true (header true) [Reference; Reference; Reference; Bytes 8]) with [12; 16; 20].
      change ([(12, 1)] ≫= block_fields true) with [12]. reflexivity.
Qed.

Lemma object_scan_exact_witness :
  ∃ es1 es2, laid_scan 4096 = Ok es1 ∧ visited es1 ≡ₚ [4112; 4116; 4120] ∧
    laid_scan 8192 = Ok es2 ∧ visited es2 ++ [8208] ≡ₚ [8204; 8208; 8212] ∧ handed es2 = [add_weak_candidate 8192].
Proof.
  destruct (object_scan_exact true 0 3 laid_klass_at 64 0 0 16 20 (λ _ _, 0) false _ _ _ _ _ laid_array)
    as (es1 & E1 & _ & H1 & P1 & _).
  destruct (object_scan_exact true 0 3 laid_klass_at 64 0 0 16 20 (λ _ _, 0) false _ _ _ _ _ laid_reference)
    as (es2 & E2 & _ & H2 & P2 & _).
  exists es1, es2. split; [exact E1|]. split.
  - rewrite H1 in P1. cbn in P1. rewrite app_nil_r in P1. exact P1.
  - split; [exact E2|]. rewrite H2 in P2. split; [exact P2|exact H2].
Defined.
