(* ===== verification/ObjectModel.v ===== *)
(** * Moving objects

    [object_model.rs] and [reference_glue.rs]: how the collector copies an
    object to a place it has allocated ([copy]) or slides it to a lower address
    ([copy_to]), the size and alignment it asks for, and the referent of a
    [java.lang.ref.Reference]. *)

From stdpp Require Import base numbers list sets.
From Stdlib Require Import ZArith Lia.
From S2P Require Import Prelude Slots SlotRanges ObjectScan.

Local Open Scope Z_scope.

(** ** Contents of memory

    The [n] bytes at [b] of [m'] are those at [a] of [m]. *)
Definition same_bytes (n : Z) (m : mem) (a : Z) (m' : mem) (b : Z) : Prop :=
  ∀ i, 0 ≤ i < n → u8 (m' (b + i)) = u8 (m (a + i)).

Lemma read_same k n m a m' b i :
  same_bytes n m a m' b → 0 ≤ i → i + Z.of_nat k ≤ n → read k m' (b + i) = read k m (a + i).
Proof.
  intros Hs. revert i. induction k as [|k IH]; intros i Hi Hn; [done|]. cbn [read].
  rewrite (Hs i) by lia. do 2 f_equal. rewrite <-!Z.add_assoc. apply IH; lia.
Qed.

Lemma same_bytes_trans n m1 a m2 b m3 c :
  same_bytes n m1 a m2 b → same_bytes n m2 b m3 c → same_bytes n m1 a m3 c.
Proof. intros H1 H2 i Hi. by rewrite H2, H1. Qed.

Lemma same_bytes_eq n m m' a : (∀ x, a ≤ x < a + n → u8 (m' x) = u8 (m x)) → same_bytes n m a m' a.
Proof. intros Hm i Hi. apply Hm. lia. Qed.

Lemma same_bytes_le n n' m a m' b : n' ≤ n → same_bytes n m a m' b → same_bytes n' m a m' b.
Proof. intros Hn Hs i Hi. apply Hs. lia. Qed.

Lemma Forall2_impl_in {A B} (P Q : A → B → Prop) l k :
  Forall2 P l k → (∀ x y, x ∈ l → P x y → Q x y) → Forall2 Q l k.
Proof. induction 1; intros HQ; constructor; set_solver. Qed.

(** ** mmtk-core's side of a copy

    [W] is what the copy context of a collector thread keeps: which parts of the
    memory are in use, how many bytes are reserved for copies, and the metadata
    that [post_copy] writes. *)
Class CopyContext (W : Type) := {
  alloc_copy : W → Z → Z → Z → Z → Z → W * Z;
  post_copy : W → Z → Z → Z → W;
  (** The regions in use, a start and a number of bytes each. *)
  taken : W → list (Z * Z);
  copy_reserve : W → Z
}.

Definition regions_apart (r1 r2 : Z * Z) : Prop := r1.1 + r1.2 ≤ r2.1 ∨ r2.1 + r2.2 ≤ r1.1.

(** While the reserve lasts, [alloc_copy] returns aligned memory that was free,
    for objects of whole words; [post_copy] takes no memory. *)
Class CopyContextLaws (W : Type) `{CopyContext W} := {
  alloc_copy_place w from bytes semantics :
    0 < bytes → bytes mod 8 = 0 → bytes ≤ copy_reserve w →
    let r := alloc_copy w from bytes 8 0 semantics in
    0 < r.2 ∧ r.2 + bytes ≤ 2 ^ 63 ∧ r.2 mod 8 = 0 ∧
    Forall (regions_apart (r.2, bytes)) (taken w) ∧
    taken r.1 = (r.2, bytes) :: taken w ∧ copy_reserve w - bytes ≤ copy_reserve r.1;
  post_copy_taken w obj bytes semantics : taken (post_copy w obj bytes semantics) = taken w;
  post_copy_reserve w obj bytes semantics :
    copy_reserve (post_copy w obj bytes semantics) = copy_reserve w
}.

Section object_model.
Context {W : Type} `{CopyContext W}.
Variable debug_assertions : bool.
Variable enc : oop_encoding.
Variable COMPRESSED : bool.
Variable COMPRESSED_KLASS_BASE COMPRESSED_KLASS_SHIFT : Z.
Variable klass_at : Z → Klass.
Variable size_of_InstanceKlass : Z.
Variable offset_of_static_fields static_oop_field_count_offset : Z.
Variable referent_offset discovered_offset : Z.
Variable get_object_size : mem → Z → Z.
Variable no_reference_types : bool.
(** [fill_alignment_gap] of mmtk-core: from the first address up to the second. *)
Variable fill_alignment_gap : Z → Z → mem → mem.

Abbreviation size := (size COMPRESSED COMPRESSED_KLASS_BASE COMPRESSED_KLASS_SHIFT klass_at get_object_size).
Abbreviation klass := (klass COMPRESSED COMPRESSED_KLASS_BASE COMPRESSED_KLASS_SHIFT klass_at).
Abbreviation klass_address := (klass_address COMPRESSED COMPRESSED_KLASS_BASE COMPRESSED_KLASS_SHIFT).
Abbreviation object_ok := (object_ok COMPRESSED COMPRESSED_KLASS_BASE COMPRESSED_KLASS_SHIFT klass_at
  size_of_InstanceKlass offset_of_static_fields static_oop_field_count_offset referent_offset
  discovered_offset get_object_size no_reference_types).
Abbreviation oop_iterate := (oop_iterate COMPRESSED COMPRESSED_KLASS_BASE COMPRESSED_KLASS_SHIFT klass_at
  size_of_InstanceKlass offset_of_static_fields static_oop_field_count_offset referent_offset
  discovered_offset no_reference_types).
Abbreviation fields := (fields COMPRESSED COMPRESSED_KLASS_BASE COMPRESSED_KLASS_SHIFT klass_at
  size_of_InstanceKlass offset_of_static_fields static_oop_field_count_offset referent_offset
  discovered_offset no_reference_types).

(** ** [VMObjectModel] *)

(** [std::ptr::copy_nonoverlapping]: undefined for ranges that overlap. *)
Definition copy_nonoverlapping (src dst n : Z) (m : mem) : outcome mem :=
  if decide (src + n ≤ dst ∨ dst + n ≤ src) then Ok (ptr_copy src dst n m) else Undef.

Definition get_current_size (m : mem) (object : Z) : Z := size m object.
Definition get_size_when_copied (m : mem) (object : Z) : Z := get_current_size m object.
Definition get_align_when_copied (object : Z) : Z := 8.
Definition get_align_offset_when_copied (object : Z) : Z := 0.
Definition ref_to_object_start (object : Z) : Z := object.
Definition ref_to_header (object : Z) : Z := object.
Definition get_reference_when_copied_to (from to : Z) : Z := to.

Definition copy (from semantics : Z) (w : W) (m : mem) : outcome (Z * W * mem) :=
  let bytes := size m from in
  let '(w, dst) := alloc_copy w from bytes 8 0 semantics in
  (if debug_assertions then guarantee (bool_decide (dst ≠ 0)) else Ok tt);;
  m ← copy_nonoverlapping from dst bytes m;
  Ok (dst, post_copy w dst bytes semantics, m).

(** The loop of [copy_to], from index [i] on for [n] more bytes. *)
Fixpoint copy_bytes (src dst i : Z) (n : nat) (m : mem) : mem :=
  match n with
  | O => m
  | S n => copy_bytes src dst (i + 1) n (write 1 m (dst + i) (read 1 m (src + i)))
  end.

(** The result is where the copy ends. *)
Definition copy_to (from to region : Z) (m : mem) : Z * mem :=
  let need_copy := bool_decide (from ≠ to) in
  let bytes := size m from in
  let m := if need_copy then copy_bytes from to 0 (Z.to_nat bytes) m else m in
  let start := ref_to_object_start to in
  let m := if decide (region ≠ 0) then fill_alignment_gap region start m else m in
  (start + bytes, m).

Definition is_object_sane (m : mem) (object : Z) : bool :=
  bool_decide (0 ≤ id (klass m object) < 6).

(** ** [VMReferenceGlue] *)

Definition referent_address (oop : Z) : Z := get_field_address oop referent_offset.
Definition discovered_address (oop : Z) : Z := get_field_address oop discovered_offset.
Definition set_referent (m : mem) (reff referent : Z) : mem :=
  slot_store enc COMPRESSED m (referent_address reff) referent.
Definition get_referent (m : mem) (object : Z) : option Z :=
  slot_load enc COMPRESSED m (referent_address object).
Definition clear_referent (m : mem) (new_reference : Z) : mem :=
  store_null COMPRESSED m (referent_address new_reference).

(** ** An object in two places *)

(** What HotSpot's own size of an object depends on: its contents. *)
Hypothesis get_object_size_contents : ∀ m a m' b,
  same_bytes (get_object_size m a) m a m' b → get_object_size m' b = get_object_size m a.

(** An object fills whole words and has room for its header. *)
Definition header_fits (m : mem) (oop : Z) : Prop :=
  size m oop mod 8 = 0 ∧ 16 ≤ size m oop ∧ (layout_helper (klass m oop) < 0 → length_offset COMPRESSED + 4 ≤ size m oop).

(** The contents at another place are an object of the same class. *)
Lemma klass_address_same n m a m' b :
  16 ≤ n → same_bytes n m a m' b → klass_address m' b = klass_address m a.
Proof.
  intros Hn Hs. unfold klass_address. destruct COMPRESSED.
  - by rewrite (read_same 4 n m a m' b 8) by (done || simpl; lia).
  - by rewrite (read_same 8 n m a m' b 8) by (done || simpl; lia).
Qed.

Lemma klass_same n m a m' b : 16 ≤ n → same_bytes n m a m' b → klass m' b = klass m a.
Proof. intros Hn Hs. unfold ObjectScan.klass. by rewrite (klass_address_same n m a m' b). Qed.

Lemma array_length_same n m a m' b :
  length_offset COMPRESSED + 4 ≤ n → same_bytes n m a m' b →
  array_length COMPRESSED m' b = array_length COMPRESSED m a.
Proof.
  intros Hn Hs. unfold array_length, i32_at.
  rewrite (read_same 4 n m a m' b) by (done || (unfold length_offset in *; destruct COMPRESSED; simpl; lia)). done.
Qed.

(** ... and of the same size. *)
Lemma size_same m a m' b :
  header_fits m a → same_bytes (size m a) m a m' b → size m' b = size m a.
Proof.
  intros (_ & H16 & Hl) Hs. pose proof (klass_same _ _ _ _ _ H16 Hs) as Hk.
  unfold ObjectScan.size in *. rewrite Hk. repeat case_decide; [case_match| |]; try done.
  - by apply get_object_size_contents.
  - rewrite (array_length_same _ _ _ _ _ (Hl ltac:(done)) Hs). done.
  - by apply get_object_size_contents.
Qed.

Lemma header_fits_same m a m' b :
  header_fits m a → same_bytes (size m a) m a m' b → header_fits m' b.
Proof.
  intros Hh Hs. pose proof (size_same _ _ _ _ Hh Hs) as E. destruct Hh as (H8 & H16 & Hl).
  unfold header_fits. rewrite E, (klass_same _ _ _ _ _ H16 Hs). done.
Qed.

(** The blocks of references of a class are found where no byte has changed. *)
Definition map_region (k : Z) : Z * Z :=
  (start_of_itable klass_at size_of_InstanceKlass k + 8 * itable_len (klass_at k),
   8 * nonstatic_oop_map_count klass_at k).

Lemma maps_frame m m' k :
  same_bytes (map_region k).2 m (map_region k).1 m' (map_region k).1 →
  nonstatic_oop_maps klass_at size_of_InstanceKlass m' k = nonstatic_oop_maps klass_at size_of_InstanceKlass m k.
Proof.
  intros Hs. unfold nonstatic_oop_maps, map_region in *. simpl in Hs. set (start := _ + 8 * itable_len _) in *.
  apply list_fmap_ext. intros _ i Hi%list_elem_of_lookup_2%elem_of_seqZ. unfold i32_at.
  rewrite <-!Z.add_assoc.
  by rewrite (read_same 4 _ _ _ _ _ (8 * i) Hs), (read_same 4 _ _ _ _ _ (8 * i + 4) Hs) by (simpl; lia).
Qed.

(** An object that was laid out correctly still is, at its new place. *)
Lemma object_ok_same kind m a m' b :
  object_ok kind m a → header_fits m a → same_bytes (size m a) m a m' b →
  0 ≤ b → b + size m a ≤ 2 ^ 63 →
  (kind = InstanceMirror → static_oop_field_count_offset + 4 ≤ size m a) →
  same_bytes (map_region (klass_address m a)).2 m (map_region (klass_address m a)).1 m' (map_region (klass_address m a)).1 →
  object_ok kind m' b ∧ fields kind m' b = fields kind m a.
Proof.
  intros [Hk [Ha1 Ha2] Href Hmir Hf Harr] Hh Hs Hb1 Hb2 Hst Hmap.
  pose proof (size_same _ _ _ _ Hh Hs) as Esz. destruct Hh as (H8 & H16 & Hl).
  pose proof (klass_same _ _ _ _ _ H16 Hs) as Ek.
  assert (kind = InstanceMirror →
    i32_at m' (b + static_oop_field_count_offset) = i32_at m (a + static_oop_field_count_offset)) as Em.
  { intros Hm. unfold i32_at. specialize (Hst Hm). destruct (Hmir Hm) as (? & _).
    by rewrite (read_same 4 _ _ _ _ _ _ Hs) by (simpl; lia). }
  assert (kind = ObjArray → array_length COMPRESSED m' b = array_length COMPRESSED m a) as El.
  { intros Hm. destruct (Harr Hm) as [_ Hlh]. apply (array_length_same (size m a)); [|done]. apply Hl.
    rewrite Hlh. by destruct COMPRESSED. }
  assert (fields kind m' b = fields kind m a) as Ef.
  { unfold ObjectScan.fields, strong_referent, maps. rewrite (klass_address_same _ _ _ _ _ H16 Hs).
    rewrite (maps_frame _ _ _ Hmap), Ek. destruct kind; try done; [by rewrite Em|by rewrite El]. }
  split; [|done]. split; rewrite ?Esz, ?Ek, ?Ef; try done.
  - intros Hm. specialize (Hst Hm). rewrite (Em Hm). destruct (Hmir Hm) as (? & ? & ?).
    split_and!; [done| |done]. change (2 ^ 64) with (2 ^ 63 + 2 ^ 63). lia.
  - intros Hm. rewrite (El Hm). by apply Harr.
Qed.

(** ... and it refers to the same objects. *)
Lemma slots_move a b rs :
  (rs ≫= λ r, slots COMPRESSED (b + r.1) r.2) =
  (λ s, s + (b - a)) <$> (rs ≫= λ r, slots COMPRESSED (a + r.1) r.2).
Proof.
  induction rs as [|r rs IH]; [done|]. rewrite !bind_cons, fmap_app, IH. f_equal. unfold slots.
  rewrite <-list_fmap_compose. apply list_fmap_ext. intros _ i _. simpl. lia.
Qed.

Lemma slot_load_same n m a m' b s :
  same_bytes n m a m' b → 0 ≤ a → 0 ≤ b → a + n ≤ 2 ^ 63 → b + n ≤ 2 ^ 63 →
  a ≤ s → s + BYTES_IN_SLOT COMPRESSED ≤ a + n →
  slot_load enc COMPRESSED m' (s + (b - a)) = slot_load enc COMPRESSED m s.
Proof.
  intros Hs Ha Hb Ha2 Hb2 H1 H2. rewrite bytes_in_slot in H2.
  assert (∀ k, Z.of_nat k = (if COMPRESSED then 4 else 8) → read k m' (s + (b - a)) = read k m s) as E.
  { intros k Hk. replace (s + (b - a)) with (b + (s - a)) by lia.
    replace s with (a + (s - a)) at 2 by lia. apply (read_same k n); [done|lia|lia]. }
  unfold slot_load. destruct COMPRESSED.
  - rewrite !plain_compressed, !untagged_plain by lia. by rewrite (E 4%nat).
  - by rewrite (E 8%nat).
Qed.

Lemma scan_same kind m a m' b :
  object_ok kind m a → object_ok kind m' b → fields kind m' b = fields kind m a →
  same_bytes (size m a) m a m' b → b + size m a ≤ 2 ^ 63 →
  ∃ es es', oop_iterate m a = Ok es ∧ oop_iterate m' b = Ok es' ∧
    visited es' = (λ s, s + (b - a)) <$> visited es ∧
    Forall (λ s, slot_load enc COMPRESSED m' (s + (b - a)) = slot_load enc COMPRESSED m s) (visited es).
Proof.
  intros Ha Hb Ef Hs Hb2. destruct (oop_iterate_blocks _ _ _ _ _ _ _ _ _ _ _ _ _ _ Ha) as (es & E & V & _).
  destruct (oop_iterate_blocks _ _ _ _ _ _ _ _ _ _ _ _ _ _ Hb) as (es' & E' & V' & _).
  exists es, es'. split_and!; [done|done| |].
  - by rewrite V', V, Ef, (slots_move a b).
  - rewrite V. destruct (fields_ok _ _ _ _ _ _ _ _ _ _ _ _ _ _ Ha) as [Hin _].
    eapply Forall_impl; [apply blocks_inside, Hin|]. intros s [H1 H2]. cbv beta in *.
    destruct Ha as [_ [? ?] _ _ _ _], Hb as [_ [? ?] _ _ _ _].
    apply (slot_load_same (size m a)); done || lia.
Qed.

(** ** [copy] *)

Lemma ptr_copy_same src dst n m : same_bytes n m src (ptr_copy src dst n m) dst.
Proof. intros i Hi. unfold ptr_copy. rewrite decide_True by lia. do 2 f_equal. lia. Qed.

Lemma ptr_copy_frame src dst n m r :
  regions_apart (dst, n) r → same_bytes r.2 m r.1 (ptr_copy src dst n m) r.1.
Proof.
  intros Hr. apply same_bytes_eq. intros x Hx. unfold ptr_copy. unfold regions_apart in Hr. simpl in Hr.
  by rewrite decide_False by lia.
Qed.

Context `{!CopyContextLaws W}.

(** An object in memory that is taken is copied to memory that was free. *)
Lemma copy_ok from semantics w m :
  header_fits m from → (from, size m from) ∈ taken w → size m from ≤ copy_reserve w →
  ∃ to w', copy from semantics w m = Ok (to, w', ptr_copy from to (size m from) m) ∧
    0 < to ∧ to + size m from ≤ 2 ^ 63 ∧ to mod 8 = 0 ∧
    Forall (regions_apart (to, size m from)) (taken w) ∧ taken w' = (to, size m from) :: taken w ∧
    copy_reserve w - size m from ≤ copy_reserve w'.
Proof.
  intros (H8 & H16 & _) Ht Hres. unfold copy.
  pose proof (alloc_copy_place w from (size m from) semantics ltac:(lia) H8 Hres) as Hp.
  destruct (alloc_copy w from (size m from) 8 0 semantics) as [w1 to]. simpl in Hp.
  destruct Hp as (H1 & H2 & H3 & H4 & H5 & H6). exists to, (post_copy w1 to (size m from) semantics).
  assert ((if debug_assertions then guarantee (bool_decide (to ≠ 0)) else Ok tt) = Ok tt) as ->.
  { destruct debug_assertions; [|done]. by rewrite bool_decide_eq_true_2 by lia. }
  rewrite post_copy_taken, post_copy_reserve. split_and!; try done. simpl.
  unfold copy_nonoverlapping. rewrite decide_True; [done|].
  rewrite Forall_forall in H4. specialize (H4 _ Ht). unfold regions_apart in H4. simpl in H4. lia.
Qed.

(** C15. Copying an object gives the same object at the new place: the copy ends
    without undefined behaviour in aligned memory that was free, nothing else
    changes; the copy has the bytes, the class and the size of the original; it is
    again an object that scanning accepts, and a scan of the copy visits the slots
    of the original, moved, with the references they held. *)
Theorem copied_object_same kind from semantics w m :
  object_ok kind m from → header_fits m from →
  (kind = InstanceMirror → static_oop_field_count_offset + 4 ≤ size m from) →
  (from, size m from) ∈ taken w → map_region (klass_address m from) ∈ taken w →
  size m from ≤ copy_reserve w →
  ∃ to w' m', copy from semantics w m = Ok (to, w', m') ∧ to mod 8 = 0 ∧
    Forall (λ r, same_bytes r.2 m r.1 m' r.1) (taken w) ∧
    same_bytes (size m from) m from m' to ∧
    klass m' to = klass m from ∧ size m' to = size m from ∧ object_ok kind m' to ∧
    ∃ es es', oop_iterate m from = Ok es ∧ oop_iterate m' to = Ok es' ∧
      visited es' = (λ s, s + (to - from)) <$> visited es ∧
      Forall (λ s, slot_load enc COMPRESSED m' (s + (to - from)) = slot_load enc COMPRESSED m s) (visited es).
Proof.
  intros Hok Hh Hmir Ht Hmap Hres.
  destruct (copy_ok from semantics w m Hh Ht Hres) as (to & w' & E & H1 & H2 & H3 & H4 & H5 & _).
  exists to, w', (ptr_copy from to (size m from) m). set (m' := ptr_copy _ _ _ _) in *.
  assert (same_bytes (size m from) m from m' to) as Hs by apply ptr_copy_same.
  assert (∀ r, r ∈ taken w → same_bytes r.2 m r.1 m' r.1) as Hfr.
  { intros r Hr. apply ptr_copy_frame. rewrite Forall_forall in H4. by apply H4. }
  destruct (object_ok_same kind m from m' to) as [Hok' Ef]; try (done || lia); [by apply Hfr|].
  split_and!; try done.
  - by apply Forall_forall.
  - apply (klass_same (size m from)); [by destruct Hh as (_ & ? & _)|done].
  - by apply size_same.
  - by apply (scan_same kind).
Qed.

(** *** Evacuation

    The collector copies objects one after the other. *)
Fixpoint evacuate (semantics : Z) (l : list Z) (w : W) (m : mem) : outcome (list Z * W * mem) :=
  match l with
  | [] => Ok ([], w, m)
  | from :: l =>
      '(to, w, m) ← copy from semantics w m;
      '(tos, w, m) ← evacuate semantics l w m;
      Ok (to :: tos, w, m)
  end.

Lemma unmoved m m' from :
  header_fits m from → same_bytes (size m from) m from m' from → size m' from = size m from ∧ header_fits m' from.
Proof. intros Hh Hs. split; [by apply size_same|by apply (header_fits_same m from)]. Qed.

Lemma sizes_nonneg m l : Forall (header_fits m) l → 0 ≤ foldr (λ from n, size m from + n) 0 l.
Proof. induction 1 as [|from l (_ & ? & _) _ IH]; simpl; lia. Qed.

Lemma foldr_sizes m m' l :
  Forall (λ from, size m' from = size m from) l →
  foldr (λ from n, size m' from + n) 0 l = foldr (λ from n, size m from + n) 0 l.
Proof. induction 1 as [|from l E _ IH]; simpl; [done|]. by rewrite E, IH. Qed.

(** C17. While the reserve is large enough, evacuating any list of objects succeeds; at the
    end every object has a copy with its bytes, the originals and everything else
    in use are as before, and the copies overlap neither each other nor what was
    in use. *)
Theorem evacuation_preserves semantics l w m :
  Forall (λ from, header_fits m from ∧ (from, size m from) ∈ taken w) l →
  foldr (λ from n, size m from + n) 0 l ≤ copy_reserve w →
  ∃ tos w' m', evacuate semantics l w m = Ok (tos, w', m') ∧
    Forall2 (λ from to, same_bytes (size m from) m from m' to) l tos ∧
    (∀ r, r ∈ taken w → same_bytes r.2 m r.1 m' r.1) ∧
    taken w' = reverse (zip tos (size m <$> l)) ++ taken w ∧
    ForallOrdPairs regions_apart (zip tos (size m <$> l)) ∧
    Forall (λ r, Forall (regions_apart r) (taken w)) (zip tos (size m <$> l)).
Proof.
  revert w m. induction l as [|from l IH]; intros w m Hl Hres.
  { exists [], w, m. split_and!; (done || constructor). }
  apply Forall_cons in Hl as [[Hh Ht] Hl]. simpl in *.
  assert (0 ≤ foldr (λ from n, size m from + n) 0 l) as Hp by (apply sizes_nonneg; by eapply Forall_impl; [exact Hl|intros ? []]).
  destruct (copy_ok from semantics w m Hh Ht ltac:(lia)) as (to & w1 & -> & _ & _ & _ & Hap & Hw1 & Hr1). simpl.
  set (m1 := ptr_copy _ _ _ _). set (n := size m from) in *.
  assert (∀ r, r ∈ taken w → same_bytes r.2 m r.1 m1 r.1) as Hfr.
  { intros r Hr. apply ptr_copy_frame. rewrite Forall_forall in Hap. by apply Hap. }
  assert (Forall (λ f, size m1 f = size m f ∧ header_fits m1 f ∧ same_bytes (size m f) m f m1 f) l) as Hl1.
  { eapply Forall_impl; [exact Hl|]. intros f [Hf Hin]. specialize (Hfr _ Hin).
    by destruct (unmoved m m1 f Hf Hfr). }
  destruct (IH w1 m1) as (tos & w' & m' & -> & Hc & Hr & Hw' & Hd & Ho).
  { rewrite Hw1. rewrite Forall_forall in *. intros f Hf. destruct (Hl1 f Hf) as (-> & Hh1 & _).
    split; [done|]. apply elem_of_cons. right. by apply Hl. }
  { rewrite (foldr_sizes m m1); [lia|]. eapply Forall_impl; [exact Hl1|]. by intros f [? _]. }
  assert (size m1 <$> l = size m <$> l) as Es.
  { apply list_fmap_ext. intros i f Hf%list_elem_of_lookup_2. rewrite Forall_forall in Hl1. by apply Hl1. }
  rewrite Es, Hw1 in *. exists (to :: tos), w', m'. simpl. split_and!.
  - done.
  - constructor.
    + apply (same_bytes_trans _ _ _ m1 to); [apply ptr_copy_same|]. apply (Hr (to, n)). left.
    + apply (Forall2_impl_in _ _ _ _ Hc). intros f t Hf Hb. rewrite Forall_forall in Hl1.
      destruct (Hl1 f Hf) as (Ef & _ & Hs). rewrite Ef in Hb. by apply (same_bytes_trans _ _ _ m1 f).
  - intros r Hin. apply (same_bytes_trans _ _ _ m1 r.1); [by apply Hfr|]. apply Hr. by right.
  - rewrite Hw', reverse_cons, <-app_assoc. done.
  - constructor; [|done]. eapply Forall_impl; [exact Ho|]. intros r [Hra _]%Forall_cons. unfold regions_apart in *. lia.
  - constructor; [done|]. eapply Forall_impl; [exact Ho|]. by intros r [_ ?]%Forall_cons.
Qed.

(** ** [copy_to] *)

(** The loop goes upwards: it copies as through a buffer if the target is below
    the source, or behind its end. *)
Lemma copy_bytes_ok src dst n : ∀ i m,
  dst ≤ src ∨ src + Z.of_nat n ≤ dst →
  let m' := copy_bytes src dst i n m in
  (∀ j, i ≤ j < i + Z.of_nat n → u8 (m' (dst + j)) = u8 (m (src + j))) ∧
  (∀ x, x < dst + i ∨ dst + i + Z.of_nat n ≤ x → m' x = m x).
Proof.
  induction n as [|n IH]; intros i m Hd; cbn [copy_bytes]; [split; [lia|done]|].
  set (m1 := write 1 m (dst + i) (read 1 m (src + i))).
  destruct (IH (i + 1) m1) as [IH1 IH2]; [lia|].
  assert (u8 (m1 (dst + i)) = u8 (m (src + i))) as E1.
  { unfold m1, write. rewrite decide_True by lia. cbn [read].
    by rewrite Z.sub_diag, Z.mul_0_r, Z.shiftr_0_r, Z.shiftl_0_l, Z.lor_0_r, !wrap_wrap. }
  split.
  - intros j Hj. destruct (decide (j = i)) as [->|Hne].
    + by rewrite IH2 by lia.
    + rewrite IH1 by lia. f_equal. apply write_frame. lia.
  - intros x Hx. rewrite IH2 by lia. apply write_frame. lia.
Qed.

(** What [copy_to] does when nothing is to be filled: where it goes down or the
    two places are apart, it moves the object. *)
Lemma copy_to_ok from to m :
  0 ≤ size m from → to ≤ from ∨ from + size m from ≤ to →
  let '(end_, m') := copy_to from to 0 m in
  end_ = to + size m from ∧ same_bytes (size m from) m from m' to ∧
  (∀ x, x < to ∨ to + size m from ≤ x → m' x = m x).
Proof.
  intros Hn Hd. unfold copy_to, ref_to_object_start. rewrite decide_False by lia.
  split; [done|]. destruct (decide (from = to)) as [->|Hne].
  - rewrite bool_decide_eq_false_2 by auto. by split.
  - rewrite bool_decide_eq_true_2 by done.
    destruct (copy_bytes_ok from to (Z.to_nat (size m from)) 0 m) as [H1 H2]; [lia|].
    rewrite Z2Nat.id in H1, H2 by done. split.
    + intros i Hi. apply H1. lia.
    + intros x Hx. apply H2. lia.
Qed.

(** *** Compaction

    A compacting collector slides the objects in the order of their addresses;
    the results are where each object ends. *)
Fixpoint slide_all (l : list (Z * Z)) (m : mem) : list Z * mem :=
  match l with
  | [] => ([], m)
  | (from, to) :: l =>
      let '(end_, m) := copy_to from to 0 m in
      let '(ends, m) := slide_all l m in (end_ :: ends, m)
  end.

(** The places the objects go to lie one behind the other, from [lo] on, each not
    above its object. *)
Fixpoint sliding (m : mem) (lo : Z) (l : list (Z * Z)) : Prop :=
  match l with
  | [] => True
  | (from, to) :: l =>
      lo ≤ to ∧ to ≤ from ∧ header_fits m from ∧ sliding m (to + size m from) l
  end.

Lemma slide_all_ok l : ∀ m lo m0,
  (∀ x, lo ≤ x → u8 (m x) = u8 (m0 x)) → sliding m0 lo l →
  let '(ends, m') := slide_all l m in
  ends = (λ p, p.2 + size m0 p.1) <$> l ∧
  Forall (λ p, same_bytes (size m0 p.1) m0 p.1 m' p.2) l ∧
  (∀ x, x < lo ∨ Forall (λ p, x < p.2 ∨ p.2 + size m0 p.1 ≤ x) l → u8 (m' x) = u8 (m x)).
Proof.
  induction l as [|[from to] l IH]; intros m lo m0 Hm Hl; cbn [slide_all]; [done|].
  destruct Hl as (H1 & H2 & Hh & Hl). pose proof Hh as (_ & H16 & _).
  assert (same_bytes (size m0 from) m0 from m from) as Hs by (apply same_bytes_eq; intros; apply Hm; lia).
  pose proof (size_same _ _ _ _ Hh Hs) as En.
  pose proof (copy_to_ok from to m ltac:(lia) ltac:(lia)) as Hc. destruct (copy_to from to 0 m) as [e m1].
  rewrite En in Hc. destruct Hc as (-> & Hc & Hf).
  specialize (IH m1 (to + size m0 from) m0).
  destruct (slide_all l m1) as [ends m'].
  destruct IH as (-> & IH1 & IH2); [|done|].
  { intros x Hx. rewrite Hf by lia. apply Hm. lia. }
  split_and!; [done| |].
  - constructor; [|done]. apply (same_bytes_trans _ _ _ m from); [done|]. intros i Hi. cbn [fst snd] in *.
    rewrite IH2 by (left; lia). by apply Hc.
  - intros x [Hx|[Hx Hr]%Forall_cons].
    + rewrite IH2 by (left; lia). by rewrite Hf by lia.
    + rewrite IH2 by (by right). by rewrite Hf by (simpl in Hx; lia).
Qed.

(** C16. Compaction moves every object whole: when the objects are slid downwards
    in the order of their addresses, over each other and over the places that
    earlier objects have left, then at the end each new place holds the bytes that
    its object had at the start, the ends that [copy_to] returned are the ends of
    the moved objects, which have their sizes, and no byte outside the new places
    has changed. *)
Theorem compaction_preserves lo l m :
  sliding m lo l →
  let '(ends, m') := slide_all l m in
  ends = (λ p, p.2 + size m p.1) <$> l ∧
  Forall (λ p, same_bytes (size m p.1) m p.1 m' p.2 ∧ size m' p.2 = size m p.1 ∧ klass m' p.2 = klass m p.1) l ∧
  (∀ x, Forall (λ p, x < p.2 ∨ p.2 + size m p.1 ≤ x) l → u8 (m' x) = u8 (m x)).
Proof.
  intros Hl. assert (Forall (λ p, header_fits m p.1) l) as Hh.
  { clear -Hl. revert lo Hl. induction l as [|[from to] l IH]; intros lo Hl; constructor;
      destruct Hl as (_ & _ & ? & Hl); [done|by eapply IH]. }
  pose proof (slide_all_ok l m lo m (λ _ _, eq_refl) Hl) as H0.
  destruct (slide_all l m) as [ends m']. destruct H0 as (-> & H1 & H2). split_and!; [done| |auto].
  rewrite Forall_forall in *. intros p Hp. specialize (H1 p Hp). specialize (Hh p Hp).
  split_and!; [done|by apply size_same|]. apply (klass_same (size m p.1)); [by destruct Hh as (_ & ? & _)|done].
Qed.

(** ** Sanity and referents *)

(** [is_object_sane] refuses exactly the class ids on which a scan would panic. *)
Lemma is_object_sane_spec m object :
  is_object_sane m object = bool_decide (is_Some (klass_id_of (id (klass m object)))).
Proof.
  unfold is_object_sane. apply bool_decide_ext. set (n := id _). split.
  - intros Hn. assert (n = 0 ∨ n = 1 ∨ n = 2 ∨ n = 3 ∨ n = 4 ∨ n = 5) as Hc by lia.
    destruct Hc as [->|[->|[->|[->|[->| ->]]]]]; eexists; done.
  - intros [k Hk]. destruct n as [|p|p]; [lia| |done].
    do 3 (destruct p as [p|p|]; simpl in Hk; try done; try lia).
Qed.

Lemma insane_scan_fatal m object : is_object_sane m object = false → oop_iterate m object = Fatal.
Proof.
  rewrite is_object_sane_spec. intros Hs%bool_decide_eq_false_1. unfold ObjectScan.oop_iterate.
  destruct (klass_id_of _); [|done]. by destruct Hs.
Qed.

(** The referent is what was last set, and none after it was cleared. *)
Lemma referent_set_get m reff r :
  0 ≤ referent_address reff < 2 ^ 63 → 0 < r < 2 ^ 64 → (COMPRESSED = true → encodable enc r) →
  get_referent (set_referent m reff r) reff = Some r ∧ get_referent (clear_referent m reff) reff = None.
Proof.
  intros Ha Hr He. unfold get_referent, set_referent, clear_referent, slot_load, slot_store, store_null.
  destruct COMPRESSED.
  - rewrite !plain_compressed, !untagged_plain, !read_write by done. split; [|done].
    change (8 * Z.of_nat 4) with 32. unfold compress. rewrite wrap_wrap.
    by apply (decompress_compress enc), He.
  - rewrite !read_write. change (8 * Z.of_nat 8) with 64. unfold from_raw_address.
    rewrite !wrap_small by word_range. by rewrite decide_False by lia.
Qed.

End object_model.

(** ** A concrete copy context

    Copies go behind everything in use. *)
Definition top (w : list (Z * Z)) : Z := raw_align_up (foldr (λ r t, Z.max (r.1 + r.2) t) 8 w) 8.

#[local] Instance bump_context : CopyContext (list (Z * Z)) := {
  alloc_copy w _ bytes _ _ _ := ((top w, bytes) :: w, top w);
  post_copy w _ _ _ := w;
  taken w := w;
  copy_reserve w := 2 ^ 62 - top w
}.

Lemma raw_align_up_8 z : 0 ≤ z → z ≤ raw_align_up z 8 < z + 8 ∧ raw_align_up z 8 mod 8 = 0.
Proof.
  intros Hz. unfold raw_align_up. pose proof (Z.div_mod (z + 8 - 1) 8 ltac:(lia)).
  pose proof (Z.mod_pos_bound (z + 8 - 1) 8 ltac:(lia)). split; [lia|]. by apply Z.mod_mul.
Qed.

Lemma top_bounds w :
  8 ≤ foldr (λ r t, Z.max (r.1 + r.2) t) 8 w ≤ top w ∧ top w mod 8 = 0 ∧ Forall (λ r, r.1 + r.2 ≤ top w) w.
Proof.
  unfold top. assert (8 ≤ foldr (λ r t, Z.max (r.1 + r.2) t) 8 w) as H8.
  { induction w as [|r w IH]; simpl; lia. }
  destruct (raw_align_up_8 (foldr (λ r t, Z.max (r.1 + r.2) t) 8 w)) as [[H1 _] H2]; [lia|].
  split_and!; [done..|]. assert (Forall (λ r, r.1 + r.2 ≤ foldr (λ r t, Z.max (r.1 + r.2) t) 8 w) w) as Hf.
  { clear. induction w as [|r w IH]; constructor; simpl; [lia|]. eapply Forall_impl; [exact IH|]. simpl. lia. }
  eapply Forall_impl; [exact Hf|]. simpl. lia.
Qed.

#[local] Instance bump_context_laws : CopyContextLaws (list (Z * Z)).
Proof.
  split; simpl; [|done..]. intros w from bytes _ Hb H8 Hr. destruct (top_bounds w) as ([H1 H2] & H3 & H4).
  assert (top ((top w, bytes) :: w) = top w + bytes) as Et.
  { unfold top at 1. simpl. rewrite Z.max_l by lia. unfold raw_align_up.
    rewrite Z.mod_eq in H8, H3 by lia.
    replace (top w + bytes + 8 - 1) with (7 + (top w / 8 + bytes / 8) * 8) by lia.
    rewrite Z.div_add by lia. change (7 / 8) with 0. lia. }
  change (2 ^ 63) with (2 ^ 62 + 2 ^ 62). rewrite Et. split_and!; try done; try lia.
  eapply Forall_impl; [exact H4|]. unfold regions_apart. simpl. lia.
Qed.

(** The two objects of [some_heap] and the oop map of the second. *)
Definition some_context : list (Z * Z) := [(4096, 32); (8192, 32); (1664, 8)].

Lemma copied_object_same_witness :
  ∃ w' m' es', copy true true 0 3 some_klass (λ _ _, 0) 8192 0 some_context some_heap = Ok (8224, w', m') ∧
    oop_iterate true 0 3 some_klass 64 0 0 16 20 false m' 8224 = Ok es' ∧ visited es' = [8236; 8244].
Proof.
  destruct (copied_object_same true (OopEncoding 0 3) true 0 3 some_klass 64 0 0 16 20 (λ _ _, 0) false
    (λ _ _ _ _ _, eq_refl) InstanceRef 8192 0 some_context some_heap)
    as (to & w' & m' & E & _ & _ & _ & _ & _ & _ & es & es' & Ee & Ee' & V & _).
  - split; [reflexivity|vm_compute; split; discriminate|intros _; vm_compute; discriminate|intros [=]| |intros [=]].
    intros _.
    assert (fields true 0 3 some_klass 64 0 0 16 20 false InstanceRef some_heap 8192 = [(12, 1); (20, 1)]) as ->
      by (vm_compute; reflexivity).
    assert (size true 0 3 some_klass (λ _ _, 0) some_heap 8192 = 32) as -> by (vm_compute; reflexivity).
    split; [repeat constructor; simpl; vm_compute; discriminate|].
    repeat constructor. vm_compute. discriminate.
  - split_and!; [reflexivity|vm_compute; discriminate|intros H; by vm_compute in H].
  - intros [=].
  - right. left.
  - right. right. left.
  - vm_compute. discriminate.
  - assert (to = 8224) as ->.
    { unfold copy, copy_nonoverlapping in E. simpl alloc_copy in E. cbn [fst snd] in E.
      change (top some_context) with 8224 in E.
      assert (size true 0 3 some_klass (λ _ _, 0) some_heap 8192 = 32) as Es by (vm_compute; reflexivity).
      rewrite Es in E. rewrite decide_True in E by lia. simpl in E. congruence. }
    exists w', m', es'. split_and!; [exact E|exact Ee'|]. rewrite V.
    assert (oop_iterate true 0 3 some_klass 64 0 0 16 20 false some_heap 8192 =
      Ok [visit_slot 8204; visit_slot 8212; add_weak_candidate 8192]) as E2 by (vm_compute; reflexivity).
    rewrite E2 in Ee. injection Ee as <-. reflexivity.
Defined.

Lemma some_sizes o : o = 4096 ∨ o = 8192 → size true 0 3 some_klass (λ _ _, 0) some_heap o = 32.
Proof. intros [-> | ->]; vm_compute; reflexivity. Qed.

Lemma some_header_fits o : o = 4096 ∨ o = 8192 → header_fits true 0 3 some_klass (λ _ _, 0) some_heap o.
Proof.
  intros Ho. unfold header_fits. rewrite some_sizes by done.
  split_and!; [done|done|]. intros _. vm_compute. discriminate.
Qed.

Lemma evacuation_preserves_witness :
  ∃ to1 to2 w' m',
    evacuate true true 0 3 some_klass (λ _ _, 0) 0 [8192; 4096] some_context some_heap = Ok ([to1; to2], w', m') ∧
    same_bytes 32 some_heap 8192 m' to1 ∧ same_bytes 32 some_heap 4096 m' to2 ∧
    same_bytes 32 some_heap 4096 m' 4096 ∧ (to1 + 32 ≤ to2 ∨ to2 + 32 ≤ to1).
Proof.
  destruct (evacuation_preserves true true 0 3 some_klass (λ _ _, 0) (λ _ _ _ _ _, eq_refl) 0
    [8192; 4096] some_context some_heap) as (tos & w' & m' & E & Hc & Hr & _ & Hd & _).
  - repeat apply Forall_cons_2; [..|constructor]; rewrite some_sizes by lia;
      (split; [apply some_header_fits; lia|simpl; unfold some_context; set_solver]).
  - simpl. rewrite !some_sizes by lia. vm_compute. discriminate.
  - inversion Hc as [|? to1 ? tos1 H1 Hc1]; subst. inversion Hc1 as [|? to2 ? tos2 H2 Hc2]; subst.
    inversion Hc2; subst. rewrite some_sizes in H1, H2 by lia.
    exists to1, to2, w', m'. split_and!; [exact E|exact H1|exact H2| |].
    + apply (Hr (4096, 32)). left.
    + simpl in Hd. rewrite !some_sizes in Hd by lia. inversion Hd as [|? ? Hap _]; subst.
      apply Forall_cons in Hap as [Hap _]. exact Hap.
Defined.

(** Two objects slid down, the second over the place of the first. *)
Lemma compaction_preserves_witness :
  let '(ends, m') := slide_all true 0 3 some_klass (λ _ _, 0) (λ _ _ m, m) [(4096, 4080); (8192, 4112)] some_heap in
  ends = [4112; 4144] ∧ same_bytes 32 some_heap 4096 m' 4080 ∧ same_bytes 32 some_heap 8192 m' 4112.
Proof.
  pose proof (compaction_preserves true 0 3 some_klass (λ _ _, 0) (λ _ _ m, m) (λ _ _ _ _ _, eq_refl)
    4080 [(4096, 4080); (8192, 4112)] some_heap) as H.
  destruct (slide_all _ _ _ _ _ _ _ _) as [ends m']. destruct H as (E & Hs & _).
  - simpl. rewrite !some_sizes by lia. split_and!; try lia; try apply some_header_fits; lia.
  - rewrite E. simpl. rewrite !some_sizes by lia. split; [reflexivity|].
    apply Forall_cons in Hs as [[H1 _] Hs]. apply Forall_cons in Hs as [[H2 _] _].
    simpl in H1, H2. rewrite some_sizes in H1, H2 by lia. split; [exact H1|exact H2].
Defined.

(** Sliding upwards onto itself would not move an object: the loop reads what it
    has written. *)
Lemma copy_up_smears :
  read 1 (copy_bytes 0 1 0 2 (write 1 (write 1 (λ _, 0) 0 7) 1 9)) 2 = 7.
Proof. reflexivity. Qed.
