(* ===== verification/Roots.v ===== *)
(** * Reporting roots

    [MMTkRootsClosure] of [mmtkRootsClosure.hpp], against the functions it
    calls: [report_slots_and_renew_buffer] ([mmtk/src/scanning.rs]) behind the
    [SlotsClosure], and [release_buffer] ([mmtk/src/api.rs]).  A buffer is a
    [Vec] whose ownership passes from Rust to the closure and back; the heap of
    buffers records which are alive, so using one after it has been handed
    back, writing past its end, reporting an element never written, or giving a
    wrong capacity back is [Undef]. *)

From stdpp Require Import base gmap list sets.
From Stdlib Require Import ZArith Lia.
From S2P Require Import Prelude Slots.

Local Open Scope Z_scope.

(** ** Buffers and packets *)

(** The elements of a buffer; those never written are [None].  The length is
    the capacity. *)
Definition buffer := list (option Z).

Record rust := Rust {
  buffers : gmap Z buffer;       (* the live buffers, by address *)
  fresh : Z;                     (* the next address to allocate at *)
  packets : list (list Z)        (* create_process_roots_work calls, in order *)
}.

Record NewBuffer := MkNewBuffer { buf : Z; cap : nat }.

Section roots.
(** [mmtk::scheduler::EDGES_WORK_BUFFER_SIZE] is mmtk-core's;
    [Vec::with_capacity] may give more. *)
Variable WORK_PACKET_CAPACITY : nat.
Variable vec_capacity : Z → nat.
Hypothesis capacity_pos : (0 < WORK_PACKET_CAPACITY)%nat.
Hypothesis vec_with_capacity : ∀ a, (WORK_PACKET_CAPACITY ≤ vec_capacity a)%nat.

(** [Vec::from_raw_parts(ptr, length, capacity)], which takes the buffer. *)
Definition from_raw_parts (r : rust) (ptr : Z) (length capacity : nat) : outcome (list Z * rust) :=
  match buffers r !! ptr with
  | Some b =>
      if decide (capacity = List.length b ∧ (length ≤ capacity)%nat) then
        match mapM id (take length b) with
        | Some l => Ok (l, Rust (delete ptr (buffers r)) (fresh r) (packets r))
        | None => Undef
        end
      else Undef
  | None => Undef
  end.

Definition report_slots_and_renew_buffer (r : rust) (ptr : Z) (length capacity : nat)
    : outcome (NewBuffer * rust) :=
  r ← (if decide (ptr = 0) then Ok r
       else '(l, r) ← from_raw_parts r ptr length capacity;
            Ok (Rust (buffers r) (fresh r) (packets r ++ [l])));
  let p := fresh r in
  Ok (MkNewBuffer p (vec_capacity p),
      Rust (<[p := replicate (vec_capacity p) None]> (buffers r)) (p + 1) (packets r)).

Definition release_buffer (r : rust) (ptr : Z) (length capacity : nat) : outcome rust :=
  '(_, r) ← from_raw_parts r ptr length capacity; Ok r.

(** ** The closure *)

Record MMTkRootsClosure := Closure {
  _buffer : Z;
  _cap : nat;
  _cursor : nat;
  rust_side : rust
}.

Definition construct (r : rust) : outcome MMTkRootsClosure :=
  '(b, r) ← report_slots_and_renew_buffer r 0 0 0;
  Ok (Closure (buf b) (cap b) 0 r).

Definition flush (c : MMTkRootsClosure) : outcome MMTkRootsClosure :=
  if decide (0 < _cursor c)%nat then
    '(b, r) ← report_slots_and_renew_buffer (rust_side c) (_buffer c) (_cursor c) (_cap c);
    Ok (Closure (buf b) (cap b) 0 r)
  else Ok c.

(** [_buffer[_cursor++] = p]. *)
Definition push (c : MMTkRootsClosure) (p : Z) : outcome MMTkRootsClosure :=
  let r := rust_side c in
  match buffers r !! _buffer c with
  | Some b =>
      if decide (_cursor c < length b)%nat then
        Ok (Closure (_buffer c) (_cap c) (S (_cursor c))
             (Rust (<[_buffer c := <[_cursor c := Some p]> b]> (buffers r)) (fresh r) (packets r)))
      else Undef
  | None => Undef
  end.

(** A root: its address, and whether it is a [narrowOop*]. *)
Record root := Root { location : Z; narrow : bool }.

Variable UseCompressedOops : bool.
(** [RawAccess<>::oop_load]: the contents of a root, 0 for null. *)
Variable oop_load : root → Z.

Definition tag_bit : Z := Z.shiftl 1 63.

Definition tagged (x : root) : Z :=
  if UseCompressedOops && negb (narrow x) then Z.lor (location x) tag_bit else location x.

Definition do_oop_work (c : MMTkRootsClosure) (x : root) : outcome MMTkRootsClosure :=
  let heap_oop := oop_load x in
  if decide (heap_oop ≠ 0) then
    p ← (if UseCompressedOops && negb (narrow x) then
           guarantee (bool_decide (Z.land (location x) tag_bit = 0));;
           Ok (Z.lor (location x) tag_bit)
         else Ok (location x));
    c ← push c p;
    if decide (_cap c ≤ _cursor c)%nat then flush c else Ok c
  else Ok c.

Definition destruct_closure (c : MMTkRootsClosure) : outcome rust :=
  c ← (if decide (0 < _cursor c)%nat then flush c else Ok c);
  if decide (_buffer c ≠ 0)
  then release_buffer (rust_side c) (_buffer c) (_cursor c) (_cap c)
  else Ok (rust_side c).

(** The life of a closure: the [mmtk_scan_..._roots] functions construct one,
    a HotSpot iterator calls [do_oop] for each root, and it is destroyed. *)
Definition mmtk_scan_roots (r : rust) (roots : list root) : outcome rust :=
  c ← construct r;
  c ← ofold do_oop_work c roots;
  destruct_closure c.

(** ** The invariant *)

(** The roots that have a reference, as reported. *)
Definition reported (roots : list root) : list Z :=
  tagged <$> filter (λ x, oop_load x ≠ 0) roots.

(** Fresh addresses are not null and not in use. *)
Definition rust_ok (r : rust) : Prop :=
  0 < fresh r ∧ ∀ a b, buffers r !! a = Some b → 0 < a < fresh r.

(** The closure has its own buffer [b] besides those of [bs]; [pending] is what
    it has written to it. *)
Record closure_ok (bs : gmap Z buffer) (pending : list Z) (c : MMTkRootsClosure) : Prop := {
  ok_rust : rust_ok (rust_side c);
  ok_buffers : ∃ rest, buffers (rust_side c) = <[_buffer c := (Some <$> pending) ++ rest]> bs ∧
                 length ((Some <$> pending) ++ rest) = _cap c;
  ok_own : bs !! _buffer c = None;
  ok_ptr : 0 < _buffer c;
  ok_cursor : _cursor c = length pending;
  ok_room : (length pending < _cap c)%nat
}.

Lemma mapM_id_some (l : list Z) : mapM id (Some <$> l) = Some l.
Proof. induction l as [|x l IH]; [done|]. rewrite fmap_cons. cbn [mapM]. by rewrite IH. Qed.

(** Handing the written part of the buffer back. *)
Lemma from_raw_parts_ok bs r a l rest :
  buffers r = <[a := (Some <$> l) ++ rest]> bs → bs !! a = None →
  from_raw_parts r a (length l) (length ((Some <$> l) ++ rest)) =
  Ok (l, Rust bs (fresh r) (packets r)).
Proof.
  intros Hb Ha. unfold from_raw_parts. rewrite Hb, lookup_insert_eq.
  rewrite decide_True; [|by rewrite length_app, length_fmap; auto with lia].
  rewrite take_app_length' by (by rewrite length_fmap). rewrite mapM_id_some.
  by rewrite delete_insert_id.
Qed.

(** A new buffer. *)
Lemma renew_ok bs r :
  0 < fresh r → (∀ a b, bs !! a = Some b → 0 < a < fresh r) → buffers r = bs →
  let p := fresh r in
  closure_ok bs [] (Closure p (vec_capacity p) 0
    (Rust (<[p := replicate (vec_capacity p) None]> (buffers r)) (p + 1) (packets r))).
Proof.
  intros Hf Hbs Hb. split; simpl; try done.
  - split; simpl; [lia|]. intros a b [[<- _]|[_ H]]%lookup_insert_Some; [lia|].
    rewrite Hb in H. apply Hbs in H. lia.
  - exists (replicate (vec_capacity (fresh r)) None). rewrite Hb. split; [done|].
    by rewrite length_replicate.
  - destruct (bs !! fresh r) eqn:E; [|done]. apply Hbs in E. lia.
  - specialize (vec_with_capacity (fresh r)). lia.
Qed.

Lemma construct_ok r :
  rust_ok r → ∃ c, construct r = Ok c ∧ closure_ok (buffers r) [] c ∧
    packets (rust_side c) = packets r.
Proof.
  intros [Hf Hb]. unfold construct, report_slots_and_renew_buffer. rewrite decide_True by done.
  simpl. eexists; split; [done|]. split; [by apply renew_ok|done].
Qed.

Lemma ok_bs bs l c a b : closure_ok bs l c → bs !! a = Some b → 0 < a < fresh (rust_side c).
Proof.
  intros [[_ Hr] (rest & Hb & _) Ho _ _ _] Ha. apply (Hr a b). rewrite Hb.
  rewrite lookup_insert_ne; [done|]. congruence.
Qed.

(** [flush] reports the pending elements and takes a new buffer; the closure may
    be full at that point. *)
Lemma flush_ok bs l c rest :
  rust_ok (rust_side c) → buffers (rust_side c) = <[_buffer c := (Some <$> l) ++ rest]> bs →
  length ((Some <$> l) ++ rest) = _cap c → bs !! _buffer c = None → 0 < _buffer c →
  _cursor c = length l → l ≠ [] →
  ∃ c', flush c = Ok c' ∧ closure_ok bs [] c' ∧
    packets (rust_side c') = packets (rust_side c) ++ [l].
Proof.
  intros [Hf Hr] Hb Hc Ho Hp Hcur Hl. unfold flush.
  rewrite decide_True by (rewrite Hcur; destruct l; simpl; [done|lia]).
  unfold report_slots_and_renew_buffer. rewrite decide_False by lia.
  rewrite <-Hc, Hcur, (from_raw_parts_ok bs) by done. simpl.
  eexists; split; [done|]. split; [|done].
  apply (renew_ok bs (Rust bs (fresh (rust_side c)) (packets (rust_side c) ++ [l])));
    simpl; [done| |done].
  intros a b Ha. apply (Hr a b). rewrite Hb. rewrite lookup_insert_ne; [done|]. congruence.
Qed.

Lemma push_ok bs l c p :
  closure_ok bs l c → ∃ c' rest, push c p = Ok c' ∧
    rust_ok (rust_side c') ∧
    buffers (rust_side c') = <[_buffer c' := (Some <$> (l ++ [p])) ++ rest]> bs ∧
    length ((Some <$> (l ++ [p])) ++ rest) = _cap c' ∧ _buffer c' = _buffer c ∧
    _cursor c' = length (l ++ [p]) ∧ packets (rust_side c') = packets (rust_side c).
Proof.
  intros [[Hf Hr] (rest & Hb & Hlen) Ho Hp Hcur Hroom]. unfold push.
  rewrite Hb, lookup_insert_eq, Hcur, Hlen, decide_True by done.
  destruct rest as [|x rest]; [rewrite app_nil_r, length_fmap in Hlen; lia|].
  eexists _, rest. split; [done|]. simpl.
  assert (<[length l := Some p]> ((Some <$> l) ++ x :: rest) = (Some <$> (l ++ [p])) ++ rest) as ->.
  { replace (length l) with (length (Some <$> l) + 0)%nat by (rewrite length_fmap; lia).
    rewrite insert_app_r. simpl. by rewrite fmap_app, <-app_assoc. }
  rewrite insert_insert_eq, !length_app, !length_fmap, !length_app in *. simpl in *.
  split_and!; try done; try lia. split; [done|]. simpl. intros a b [[<- _]|[Hne Ha]]%lookup_insert_Some.
  - apply (Hr _ ((Some <$> l) ++ x :: rest)). by rewrite Hb, lookup_insert_eq.
  - apply (Hr a b). by rewrite Hb, lookup_insert_ne.
Qed.

(** Root locations are user-space addresses. *)
Definition root_ok (x : root) : Prop := 0 ≤ location x < 2 ^ 63.

(** Tagging such a root does not fail. *)
Lemma tag_root x :
  root_ok x →
  (if UseCompressedOops && negb (narrow x) then
     guarantee (bool_decide (Z.land (location x) tag_bit = 0));;
     Ok (Z.lor (location x) tag_bit)
   else Ok (location x)) = Ok (tagged x).
Proof.
  intros Hx. unfold tagged. destruct (UseCompressedOops && negb (narrow x)); [|done].
  pose proof (plain_compressed (location x) Hx) as Hp. unfold is_compressed, MASK in Hp.
  unfold tag_bit. by rewrite Hp.
Qed.

Lemma do_oop_work_ok bs l c x :
  closure_ok bs l c → root_ok x →
  ∃ c' l' qs, do_oop_work c x = Ok c' ∧ closure_ok bs l' c' ∧
    packets (rust_side c') = packets (rust_side c) ++ qs ∧ Forall (λ q, q ≠ []) qs ∧
    concat qs ++ l' = l ++ (if decide (oop_load x ≠ 0) then [tagged x] else []).
Proof.
  intros Hc Hx. unfold do_oop_work. destruct (decide (oop_load x ≠ 0)) as [Hn|Hn].
  2: { exists c, l, []. rewrite !app_nil_r. by split_and!. }
  rewrite tag_root by done.
  simpl. destruct (push_ok bs l c (tagged x) Hc) as (c1 & rest & -> & H1 & H2 & H3 & H4 & H5 & H6).
  simpl. pose proof (ok_own _ _ _ Hc). pose proof (ok_ptr _ _ _ Hc).
  rewrite <-H4 in *. destruct (decide (_cap c1 ≤ _cursor c1)%nat) as [Hle|Hle].
  - destruct (flush_ok bs (l ++ [tagged x]) c1 rest) as (c2 & -> & H8 & H9); try done.
    { by destruct l. }
    exists c2, [], [l ++ [tagged x]]. rewrite H9, H6. split_and!; try done.
    + constructor; [by destruct l|done].
    + simpl. by rewrite !app_nil_r.
  - exists c1, (l ++ [tagged x]), []. split_and!; try done.
    + split; try done; [by exists rest|]. lia.
    + by rewrite H6, app_nil_r.
Qed.

Lemma do_oops_ok bs roots : ∀ l c,
  closure_ok bs l c → Forall root_ok roots →
  ∃ c' l' qs, ofold do_oop_work c roots = Ok c' ∧ closure_ok bs l' c' ∧
    packets (rust_side c') = packets (rust_side c) ++ qs ∧ Forall (λ q, q ≠ []) qs ∧
    concat qs ++ l' = l ++ reported roots.
Proof.
  induction roots as [|x roots IH]; intros l c Hc Hr; simpl.
  { exists c, l, []. rewrite !app_nil_r. by split_and!. }
  apply Forall_cons in Hr as [Hx Hr].
  destruct (do_oop_work_ok bs l c x Hc Hx) as (c1 & l1 & q1 & -> & H1 & H2 & H3 & H4). simpl.
  destruct (IH l1 c1 H1 Hr) as (c2 & l2 & q2 & -> & H5 & H6 & H7 & H8).
  exists c2, l2, (q1 ++ q2). split_and!; try done.
  - by rewrite H6, H2, app_assoc.
  - by apply Forall_app.
  - rewrite concat_app, <-app_assoc, H8, app_assoc, H4, <-app_assoc. f_equal.
    unfold reported. rewrite filter_cons. by destruct (decide (oop_load x ≠ 0)).
Qed.

(** The destructor reports what is left and gives the buffer back. *)
Lemma destruct_ok bs l c :
  closure_ok bs l c →
  ∃ r qs, destruct_closure c = Ok r ∧ buffers r = bs ∧ packets r = packets (rust_side c) ++ qs ∧
    Forall (λ q, q ≠ []) qs ∧ concat qs = l ∧ rust_ok r.
Proof.
  intros Hc. unfold destruct_closure.
  assert (∃ c' qs, (if decide (0 < _cursor c)%nat then flush c else Ok c) = Ok c' ∧
    closure_ok bs [] c' ∧ packets (rust_side c') = packets (rust_side c) ++ qs ∧
    Forall (λ q, q ≠ []) qs ∧ concat qs = l) as (c' & qs & -> & H1 & H2 & H3 & H4).
  { pose proof (ok_cursor _ _ _ Hc) as Hcur. destruct (decide (0 < _cursor c)%nat).
    - destruct Hc as [Hr (rest & Hb & Hlen) Ho Hp _ _].
      assert (l ≠ []) by (intros ->; simpl in Hcur; lia).
      destruct (flush_ok bs l c rest) as (c' & -> & H1 & H2); try done.
      exists c', [l]. rewrite H2. split_and!; try done; [by repeat constructor|apply app_nil_r].
    - assert (l = []) as -> by (destruct l; simpl in *; [done|lia]).
      exists c, []. by rewrite app_nil_r. }
  simpl. destruct H1 as [Hr (rest & Hb & Hlen) Ho Hp Hcur' _].
  rewrite decide_True by lia. unfold release_buffer.
  rewrite <-Hlen, Hcur', (from_raw_parts_ok bs) by done. simpl.
  eexists _, qs. split_and!; try done. split; [apply Hr|]. simpl. intros a b Ha.
  apply (proj2 Hr a b). rewrite Hb. by rewrite lookup_insert_ne by congruence.
Qed.

(** Every root that holds a reference is reported exactly once, in the order it
    was visited, and nothing else is.  Every buffer access is inside a live
    buffer, and the buffers alive afterwards are those alive before. *)
Lemma roots_reported_once r roots :
  rust_ok r → Forall root_ok roots →
  ∃ r' qs, mmtk_scan_roots r roots = Ok r' ∧ buffers r' = buffers r ∧
    packets r' = packets r ++ qs ∧ concat qs = reported roots ∧ Forall (λ q, q ≠ []) qs ∧
    rust_ok r'.
Proof.
  intros Hr Hroots. unfold mmtk_scan_roots.
  destruct (construct_ok r Hr) as (c & -> & Hc & Hp). simpl.
  destruct (do_oops_ok _ roots [] c Hc Hroots) as (c1 & l & q1 & -> & H1 & H2 & H3 & H4). simpl.
  destruct (destruct_ok _ _ _ H1) as (r' & q2 & -> & H5 & H6 & H7 & H8 & H9).
  exists r', (q1 ++ q2). split_and!; [done|done| | | |done].
  - by rewrite H6, H2, Hp, app_assoc.
  - by rewrite concat_app, H8, H4.
  - by apply Forall_app.
Qed.

(** The tag survives the language boundary: [slots.rs] recovers from a
    reported word the location of the root, and reads it with the width of the
    pointer HotSpot visited.  A full-width root whose address already has bit 63
    set stops the machine. *)
Theorem tagged_root_decodes x :
  (UseCompressedOops = false → narrow x = false) →
  (root_ok x →
   slot_address UseCompressedOops (tagged x) = location x ∧
   slot_bytes UseCompressedOops (tagged x) = if narrow x then 4%nat else 8%nat) ∧
  (∀ c, UseCompressedOops = true → narrow x = false → oop_load x ≠ 0 →
     Z.testbit (location x) 63 = true → do_oop_work c x = Fatal).
Proof.
  intros Hn. split.
  - intros Hx. unfold slot_address, slot_bytes, tagged, tag_bit. destruct UseCompressedOops; simpl.
    + destruct (narrow x); simpl.
      * by rewrite untagged_plain, plain_compressed.
      * by rewrite untagged_tagged, tagged_not_compressed.
    + by rewrite Hn.
  - intros c Hu Hw Ho Hb. unfold do_oop_work. destruct (decide (oop_load x ≠ 0)) as [_|[]]; [|done]. rewrite Hu, Hw. cbn [negb andb].
    pose proof (is_compressed_testbit (location x)) as Hc. rewrite Hb in Hc.
    unfold is_compressed, MASK in Hc. unfold tag_bit. by rewrite Hc.
Qed.

(** What Rust loads from a reported word. *)
Lemma tagged_root_loads enc m x :
  root_ok x → (UseCompressedOops = false → narrow x = false) → 0 ≤ SHIFT enc →
  oop_load x = read (if narrow x then 4 else 8) m (location x) → oop_load x ≠ 0 →
  slot_load enc UseCompressedOops m (tagged x) =
    Some (if narrow x then u64 (BASE enc + oop_load x * 2 ^ SHIFT enc) else oop_load x).
Proof.
  intros Hx Hn Hs Hv H0. unfold slot_load, tagged, from_raw_address. destruct UseCompressedOops; cbn [andb].
  - destruct (narrow x); cbn [negb].
    + rewrite plain_compressed, untagged_plain, <-Hv by done. unfold decompress. rewrite decide_False by done.
      rewrite Z.shiftl_mul_pow2 by done. unfold wrap. by rewrite Zplus_mod_idemp_r.
    + unfold tag_bit. fold MASK. by rewrite tagged_not_compressed, untagged_tagged, <-Hv, decide_False by done.
  - rewrite Hn in * by done. by rewrite <-Hv, decide_False.
Qed.

(** C38. Roots arrive as what they are: the references that Rust loads through the
    words that the closure has sent it, in one or several packets, are those that
    HotSpot's roots hold, in order, compressed and full-width ones alike, each once
    and without the nulls; all buffers have been given back. *)
Theorem roots_received enc m r roots :
  rust_ok r → 0 ≤ SHIFT enc →
  Forall (λ x, root_ok x ∧ (UseCompressedOops = false → narrow x = false) ∧
               oop_load x = read (if narrow x then 4 else 8) m (location x)) roots →
  ∃ r' qs, mmtk_scan_roots r roots = Ok r' ∧ packets r' = packets r ++ qs ∧ buffers r' = buffers r ∧
    slot_load enc UseCompressedOops m <$> concat qs =
      (λ x, Some (if narrow x then u64 (BASE enc + oop_load x * 2 ^ SHIFT enc) else oop_load x)) <$>
      filter (λ x, oop_load x ≠ 0) roots.
Proof.
  intros Hr Hs Hroots. destruct (roots_reported_once r roots) as (r' & qs & E & Hb & Hp & Hq & _); [done| |].
  { eapply Forall_impl; [exact Hroots|]. by intros x []. }
  exists r', qs. split_and!; try done. rewrite Hq. unfold reported. rewrite <-list_fmap_compose.
  apply list_fmap_ext. intros _ x Hx%list_elem_of_lookup_2%list_elem_of_filter. destruct Hx as [H0 Hx].
  rewrite Forall_forall in Hroots. destruct (Hroots x Hx) as (? & ? & ?). by apply tagged_root_loads.
Qed.

End roots.

Lemma tagged_root_decodes_witness :
  slot_address true (tagged true (Root 4096 false)) = 4096 ∧
  slot_bytes true (tagged true (Root 4096 false)) = 8%nat.
Proof.
  apply (tagged_root_decodes (λ _, 2%nat) true (λ _, 7) (Root 4096 false)).
  - discriminate.
  - unfold root_ok. simpl. lia.
Defined.

(** A full-width root at 4096, a narrow one at 8192 and one that holds null. *)
Definition root_memory : mem := write 8 (write 4 (λ _, 0) 8192 5) 4096 1048576.
Definition some_roots : list root := [Root 4096 false; Root 8192 true; Root 12288 true].

Lemma roots_received_witness :
  ∃ r' qs, mmtk_scan_roots (λ _, 2%nat) true (λ x, read (if narrow x then 4 else 8) root_memory (location x))
      (Rust ∅ 1 []) some_roots = Ok r' ∧ packets r' = qs ∧
    slot_load (OopEncoding 65536 3) true root_memory <$> concat qs = [Some 1048576; Some 65576].
Proof.
  destruct (roots_received 2 (λ _, 2%nat) ltac:(lia) ltac:(intros; simpl; lia) true
    (λ x, read (if narrow x then 4 else 8) root_memory (location x)) (OopEncoding 65536 3) root_memory (Rust ∅ 1 [])
    some_roots) as (r' & qs & E & Hp & _ & Hq).
  - split; [reflexivity|]. intros a b Ha. discriminate Ha.
  - discriminate.
  - repeat (apply Forall_cons; split); [..|apply Forall_nil; done];
      (split; [unfold root_ok; simpl; lia|split; [discriminate|reflexivity]]).
  - exists r', qs. split; [exact E|]. split; [exact Hp|]. rewrite Hq. vm_compute. reflexivity.
Defined.
