(* ===== verification/CodeRoots.v ===== *)
(** * References in compiled code

    The remembered set of the code cache: [MMTkHeap::register_nmethod] and
    [unregister_nmethod] ([mmtkHeap.cpp]) report the slots of compiled methods to
    the two global tables of the Rust side ([api.rs], [lib.rs]), and the work
    packet [ScanCodeCacheRoots] ([gc_work.rs]) reads them in a collection. *)

From stdpp Require Import base gmap list.
From Stdlib Require Import ZArith Lia.
From S2P Require Import Prelude Slots Roots.

Local Open Scope Z_scope.

(** The order in which a Rust [HashMap] iterates, or drains, is its own. *)
Class HashMapOrder := {
  iterate : gmap Z (list Z) → list (Z * list Z);
  iterate_perm m : iterate m ≡ₚ map_to_list m
}.

Section code_roots.
Context {order : HashMapOrder}.
Variable UseCompressedOops : bool.
(** [EDGES_WORK_BUFFER_SIZE] of mmtk-core. *)
Variable WORK_PACKET_CAPACITY : nat.
Hypothesis capacity_pos : (0 < WORK_PACKET_CAPACITY)%nat.

(** ** State and operations *)

(** [NMETHOD_SLOTS] is thread-local; an nmethod is known by its address. *)
Record code_cache := CodeCache {
  NMETHOD_SLOTS : gmap nat (list Z);
  NURSERY_CODE_CACHE_ROOTS : gmap Z (list Z);
  MATURE_CODE_CACHE_ROOTS : gmap Z (list Z)
}.

Definition slots_of (s : code_cache) (t : nat) : list Z := default [] (NMETHOD_SLOTS s !! t).

Definition mmtk_add_nmethod_oop (t : nat) (addr : Z) (s : code_cache) : code_cache :=
  CodeCache (<[t := slots_of s t ++ [addr]]> (NMETHOD_SLOTS s))
    (NURSERY_CODE_CACHE_ROOTS s) (MATURE_CODE_CACHE_ROOTS s).

Definition mmtk_register_nmethod (t : nat) (nm : Z) (s : code_cache) : code_cache :=
  if decide (slots_of s t = []) then s
  else CodeCache (<[t := []]> (NMETHOD_SLOTS s))
         (<[nm := slots_of s t]> (NURSERY_CODE_CACHE_ROOTS s)) (MATURE_CODE_CACHE_ROOTS s).

(** The two tables have a lock each, taken one after the other.  The packet that
    reads both runs while the world is stopped, between calls of this function, so
    it sees both removals or none: removing from both is one step. *)
Definition mmtk_unregister_nmethod (nm : Z) (s : code_cache) : code_cache :=
  CodeCache (NMETHOD_SLOTS s)
    (delete nm (NURSERY_CODE_CACHE_ROOTS s)) (delete nm (MATURE_CODE_CACHE_ROOTS s)).

(** [MMTkRegisterNMethodOopClosure::do_oop]: the tag tells the Rust side that the
    slot is not compressed. *)
Definition nmethod_do_oop_work (t : nat) (p : root) (s : code_cache) : outcome code_cache :=
  if UseCompressedOops && negb (narrow p) then
    guarantee (bool_decide (Z.land (location p) tag_bit = 0));;
    Ok (mmtk_add_nmethod_oop t (Z.lor (location p) tag_bit) s)
  else Ok (mmtk_add_nmethod_oop t (location p) s).

(** [MMTkHeap::register_nmethod] of a thread that runs alone; [oops] is what
    [nm->oops_do] visits. *)
Definition register_nmethod (t : nat) (nm : Z) (oops : list root) (s : code_cache)
    : outcome code_cache :=
  s ← ofold (λ s p, nmethod_do_oop_work t p s) s oops;
  Ok (mmtk_register_nmethod t nm s).

Definition unregister_nmethod (nm : Z) (s : code_cache) : code_cache :=
  mmtk_unregister_nmethod nm s.

(** [add_roots]: the slots buffered so far, and the packets created. *)
Definition add_root (b : list Z * list (list Z)) (root : Z) : list Z * list (list Z) :=
  let slots := b.1 ++ [root] in
  if decide (WORK_PACKET_CAPACITY ≤ length slots)%nat then ([], b.2 ++ [slots])
  else (slots, b.2).

Definition add_roots (b : list Z * list (list Z)) (roots : list Z) : list Z * list (list Z) :=
  foldl add_root b roots.

(** [ScanCodeCacheRoots::do_work]: the new state, and the packets. *)
Definition scan_code_cache_roots (is_current_gc_nursery : bool) (s : code_cache)
    : code_cache * list (list Z) :=
  let b := if is_current_gc_nursery then ([], [])
           else foldl add_roots ([], []) (snd <$> iterate (MATURE_CODE_CACHE_ROOTS s)) in
  let '(b, mature) :=
    foldl (λ '(b, mature) '(key, roots), (add_roots b roots, <[key := roots]> mature))
      (b, MATURE_CODE_CACHE_ROOTS s) (iterate (NURSERY_CODE_CACHE_ROOTS s)) in
  (CodeCache (NMETHOD_SLOTS s) ∅ mature,
   if decide (b.1 = []) then b.2 else b.2 ++ [b.1]).

(** ** Interleavings

    Threads register nmethods side by side, one [do_oop] at a time; the tables
    are behind locks, so each call of the Rust side is one step. *)

Inductive code_event :=
| Begin (t : nat) (nm : Z) (oops : list root)
| Visit (t : nat)
| Register (t : nat)
| Unregister (nm : Z)
| Collect (is_current_gc_nursery : bool) (reports : list (list Z)).

(** [calls]: what each thread inside [register_nmethod] has still to visit. *)
Record machine := Machine { cache : code_cache; calls : gmap nat (Z * list root) }.

Inductive code_step : machine → code_event → machine → Prop :=
| step_begin s cs t nm oops :
    cs !! t = None → Forall root_ok oops →
    code_step (Machine s cs) (Begin t nm oops) (Machine s (<[t := (nm, oops)]> cs))
| step_visit s s' cs t nm p oops :
    cs !! t = Some (nm, p :: oops) → nmethod_do_oop_work t p s = Ok s' →
    code_step (Machine s cs) (Visit t) (Machine s' (<[t := (nm, oops)]> cs))
| step_register s cs t nm :
    cs !! t = Some (nm, []) →
    code_step (Machine s cs) (Register t) (Machine (mmtk_register_nmethod t nm s) (delete t cs))
| step_unregister s cs nm :
    code_step (Machine s cs) (Unregister nm) (Machine (unregister_nmethod nm s) cs)
| step_collect s s' cs nursery_gc reports :
    scan_code_cache_roots nursery_gc s = (s', reports) →
    code_step (Machine s cs) (Collect nursery_gc reports) (Machine s' cs).

(** ** What it promises

    [live] has, for every registered nmethod, the slots of each registration
    since it was last unregistered, the latest first; [young] those registered
    since the last collection.  Registering a method without slots does not
    count. *)
Record registry := Registry {
  live : gmap Z (list (list Z));
  young : gset Z;
  begun : gmap nat (Z * list Z)
}.

(** The slots a collection must report. *)
Definition latest (r : registry) (nursery_gc : bool) : gmap Z (list Z) :=
  map_imap (λ nm regs, if decide (nursery_gc = true ∧ nm ∉ young r) then None else head regs)
    (live r).

Definition all_slots (m : gmap Z (list Z)) : list Z := map_to_list m ≫= snd.

Definition packet_ok (q : list Z) : Prop := (0 < length q ≤ WORK_PACKET_CAPACITY)%nat.

Inductive registry_step : registry → code_event → registry → Prop :=
| spec_begin r t nm oops :
    begun r !! t = None →
    registry_step r (Begin t nm oops)
      (Registry (live r) (young r) (<[t := (nm, tagged UseCompressedOops <$> oops)]> (begun r)))
| spec_visit r t : is_Some (begun r !! t) → registry_step r (Visit t) r
| spec_register r t nm slots :
    begun r !! t = Some (nm, slots) → slots ≠ [] →
    registry_step r (Register t)
      (Registry (<[nm := slots :: default [] (live r !! nm)]> (live r)) ({[nm]} ∪ young r)
         (delete t (begun r)))
| spec_register_none r t nm :
    begun r !! t = Some (nm, []) →
    registry_step r (Register t) (Registry (live r) (young r) (delete t (begun r)))
| spec_unregister r nm :
    registry_step r (Unregister nm)
      (Registry (delete nm (live r)) (young r ∖ {[nm]}) (begun r))
| spec_collect r nursery_gc reports :
    Forall packet_ok reports →
    all_slots (latest r nursery_gc) ⊆+ concat reports →
    (∀ a, a ∈ concat reports → ∃ nm regs, live r !! nm = Some regs ∧ a ∈ concat regs) →
    registry_step r (Collect nursery_gc reports) (Registry (live r) ∅ (begun r)).

(** ** What a collection reports *)

Definition pending (b : list Z * list (list Z)) : list Z := concat b.2 ++ b.1.

Definition buffer_ok (b : list Z * list (list Z)) : Prop :=
  Forall packet_ok b.2 ∧ (length b.1 < WORK_PACKET_CAPACITY)%nat.

Lemma add_roots_ok b roots :
  buffer_ok b → buffer_ok (add_roots b roots) ∧ pending (add_roots b roots) = pending b ++ roots.
Proof.
  revert b. induction roots as [|x roots IH]; intros [slots qs] [Hq Hl]; simpl in *.
  { by rewrite app_nil_r. }
  destruct (IH (add_root (slots, qs) x)) as [IH1 IH2].
  - unfold add_root, buffer_ok. simpl. case_decide as Hd; simpl; split; try done; try lia.
    apply Forall_app. split; [done|]. constructor; [|done]. red. rewrite length_app in *. simpl in *. lia.
  - change (add_roots (slots, qs) (x :: roots)) with (add_roots (add_root (slots, qs) x) roots).
    split; [done|]. rewrite IH2. unfold add_root, pending. simpl.
    case_decide; simpl; rewrite ?concat_app; simpl; by rewrite ?app_nil_r, <-?app_assoc.
Qed.

Lemma fold_roots_ok b (l : list (Z * list Z)) :
  buffer_ok b →
  buffer_ok (foldl add_roots b (snd <$> l)) ∧
  pending (foldl add_roots b (snd <$> l)) = pending b ++ (l ≫= snd).
Proof.
  revert b. induction l as [|[k x] l IH]; intros b Hb; [by rewrite app_nil_r|].
  destruct (add_roots_ok b x Hb) as [H1 H2]. destruct (IH _ H1) as [H3 H4].
  rewrite fmap_cons, bind_cons. cbn [foldl snd].
  split; [done|]. by rewrite H4, H2, <-app_assoc.
Qed.

Lemma fold_pair b (m : gmap Z (list Z)) (l : list (Z * list Z)) :
  foldl (λ '(b, mature) '(key, roots), (add_roots b roots, <[key := roots]> mature)) (b, m) l =
  (foldl add_roots b (snd <$> l), foldl (λ m '(key, roots), <[key := roots]> m) m l).
Proof. revert b m. induction l as [|[k x] l IH]; intros b m; simpl; [done|apply IH]. Qed.

Lemma fold_insert (l : list (Z * list Z)) (m : gmap Z (list Z)) :
  NoDup l.*1 → foldl (λ m '(key, roots), <[key := roots]> m) m l = list_to_map l ∪ m.
Proof.
  revert m. induction l as [|[k x] l IH]; intros m Hl; simpl.
  { by rewrite (left_id_L ∅ (∪)). }
  inversion_clear Hl as [|?? Hk Hl']. rewrite IH by done.
  rewrite <-insert_union_r by (by apply not_elem_of_list_to_map_1). by rewrite insert_union_l.
Qed.

Lemma iterate_map (n m : gmap Z (list Z)) :
  foldl (λ m '(key, roots), <[key := roots]> m) m (iterate n) = n ∪ m.
Proof.
  pose proof (iterate_perm n) as Hp.
  assert (NoDup (iterate n).*1) as Hn by (rewrite Hp; apply NoDup_fst_map_to_list).
  rewrite fold_insert by done. f_equal.
  rewrite (list_to_map_proper _ (map_to_list n)) by done. apply list_to_map_to_list.
Qed.

(** The state and the reports of a collection. *)
Lemma scan_ok nursery_gc s :
  ∃ reports,
  scan_code_cache_roots nursery_gc s =
    (CodeCache (NMETHOD_SLOTS s) ∅ (NURSERY_CODE_CACHE_ROOTS s ∪ MATURE_CODE_CACHE_ROOTS s), reports) ∧
  Forall packet_ok reports ∧
  concat reports ≡ₚ (if nursery_gc then [] else all_slots (MATURE_CODE_CACHE_ROOTS s)) ++
                    all_slots (NURSERY_CODE_CACHE_ROOTS s).
Proof.
  unfold scan_code_cache_roots. rewrite fold_pair, iterate_map.
  set (b0 := if nursery_gc then ([], []) else _).
  assert (buffer_ok b0 ∧ pending b0 ≡ₚ if nursery_gc then [] else all_slots (MATURE_CODE_CACHE_ROOTS s))
    as [Hb Hp].
  { assert (buffer_ok ([], [])) as H0 by (by split). subst b0. destruct nursery_gc; [done|].
    destruct (fold_roots_ok ([], []) (iterate (MATURE_CODE_CACHE_ROOTS s)) H0) as [H1 H2].
    split; [done|]. rewrite H2. simpl. unfold all_slots. by rewrite (iterate_perm _). }
  destruct (fold_roots_ok b0 (iterate (NURSERY_CODE_CACHE_ROOTS s)) Hb) as [[H1 H2] H3].
  set (b := foldl add_roots b0 _) in *. eexists. split; [done|].
  assert (pending b ≡ₚ (if nursery_gc then [] else all_slots (MATURE_CODE_CACHE_ROOTS s)) ++
                       all_slots (NURSERY_CODE_CACHE_ROOTS s)) as Hb'.
  { rewrite H3, Hp. unfold all_slots. by rewrite (iterate_perm (NURSERY_CODE_CACHE_ROOTS s)). }
  rewrite <-Hb'. unfold pending. case_decide as Hd.
  - rewrite Hd, app_nil_r. done.
  - rewrite concat_app. simpl. rewrite app_nil_r. split; [|done].
    apply Forall_app. split; [done|]. constructor; [|done]. red. destruct b as [[|] ?]; simpl in *; [done|lia].
Qed.

(** ** The tables hold the registry *)

Record represents (m : machine) (r : registry) : Prop := {
  rep_nursery : NURSERY_CODE_CACHE_ROOTS (cache m) = latest r true;
  rep_all : NURSERY_CODE_CACHE_ROOTS (cache m) ∪ MATURE_CODE_CACHE_ROOTS (cache m) = latest r false;
  rep_mature nm l : MATURE_CODE_CACHE_ROOTS (cache m) !! nm = Some l →
    ∃ regs, live r !! nm = Some regs ∧ l ∈ regs;
  rep_live nm regs : live r !! nm = Some regs → regs ≠ [];
  rep_calls t : begun r !! t =
    (λ c, (c.1, slots_of (cache m) t ++ (tagged UseCompressedOops <$> c.2))) <$> calls m !! t;
  rep_idle t : calls m !! t = None → slots_of (cache m) t = [];
  rep_roots t nm oops : calls m !! t = Some (nm, oops) → Forall root_ok oops
}.

Lemma latest_lookup r g nm :
  latest r g !! nm =
  if decide (g = true ∧ nm ∉ young r) then None else live r !! nm ≫= head.
Proof.
  unfold latest. rewrite map_lookup_imap. destruct (live r !! nm); simpl; by case_decide.
Qed.

Lemma latest_register r nm slots b g :
  latest (Registry (<[nm := slots :: default [] (live r !! nm)]> (live r)) ({[nm]} ∪ young r) b) g =
  <[nm := slots]> (latest r g).
Proof.
  apply map_eq. intros k. rewrite latest_lookup. simpl. destruct (decide (k = nm)) as [->|Hk].
  - rewrite !lookup_insert_eq, decide_False by set_solver. done.
  - rewrite !lookup_insert_ne, latest_lookup by done.
    by rewrite (decide_ext _ (g = true ∧ k ∉ young r)) by set_solver.
Qed.

Lemma latest_unregister r nm b g :
  latest (Registry (delete nm (live r)) (young r ∖ {[nm]}) b) g = delete nm (latest r g).
Proof.
  apply map_eq. intros k. rewrite latest_lookup. simpl. destruct (decide (k = nm)) as [->|Hk].
  - rewrite !lookup_delete_eq. by case_decide.
  - rewrite !lookup_delete_ne, latest_lookup by done.
    by rewrite (decide_ext _ (g = true ∧ k ∉ young r)) by set_solver.
Qed.

Lemma latest_collect r b : latest (Registry (live r) ∅ b) true = ∅.
Proof.
  apply map_eq. intros k. rewrite latest_lookup, lookup_empty, decide_True; [done|set_solver].
Qed.

Lemma slots_of_add t t' a s :
  slots_of (mmtk_add_nmethod_oop t a s) t' =
  if decide (t = t') then slots_of s t ++ [a] else slots_of s t'.
Proof.
  unfold mmtk_add_nmethod_oop, slots_of at 1. simpl. case_decide as Hd.
  - subst. by rewrite lookup_insert_eq.
  - by rewrite lookup_insert_ne.
Qed.

(** Visiting a root of a user-space location does not fail. *)
Lemma visit_ok t p s :
  root_ok p → nmethod_do_oop_work t p s = Ok (mmtk_add_nmethod_oop t (tagged UseCompressedOops p) s).
Proof.
  intros Hp. pose proof (tag_root UseCompressedOops p Hp) as Ht. unfold nmethod_do_oop_work.
  destruct (UseCompressedOops && negb (narrow p)) eqn:Hb.
  - destruct (bool_decide _); [|done]. simpl in *. by injection Ht as ->.
  - by injection Ht as <-.
Qed.

Lemma all_slots_union (m1 m2 : gmap Z (list Z)) :
  all_slots (m1 ∪ m2) ⊆+ all_slots m2 ++ all_slots m1.
Proof.
  unfold all_slots. rewrite <-bind_app. apply bind_submseteq. apply NoDup_submseteq.
  - apply NoDup_map_to_list.
  - intros [k x]. rewrite elem_of_app, !elem_of_map_to_list, lookup_union_Some_raw. tauto.
Qed.

Lemma all_slots_lookup (m : gmap Z (list Z)) a :
  a ∈ all_slots m → ∃ nm l, m !! nm = Some l ∧ a ∈ l.
Proof.
  unfold all_slots. intros ([nm l] & Ha & Hm)%list_elem_of_bind. exists nm, l.
  by rewrite elem_of_map_to_list in Hm.
Qed.

(** *** One lemma per step *)

Lemma represents_begin s cs r t nm oops :
  represents (Machine s cs) r → cs !! t = None → Forall root_ok oops →
  begun r !! t = None ∧
  represents (Machine s (<[t := (nm, oops)]> cs))
    (Registry (live r) (young r) (<[t := (nm, tagged UseCompressedOops <$> oops)]> (begun r))).
Proof.
  intros [H1 H2 H3 H4 H5 H6 H7] Ht Ho. simpl in *. split; [by rewrite H5, Ht|].
  split; simpl; try done.
  - intros k. destruct (decide (k = t)) as [->|Hk].
    + rewrite !lookup_insert_eq. simpl. by rewrite H6.
    + by rewrite !lookup_insert_ne.
  - intros k Hk. apply lookup_insert_None in Hk as [Hk _]. auto.
  - intros k n l [[-> [= -> ->]]|[_ Hl]]%lookup_insert_Some; eauto.
Qed.

Lemma represents_visit s s' cs r t nm p oops :
  represents (Machine s cs) r → cs !! t = Some (nm, p :: oops) → nmethod_do_oop_work t p s = Ok s' →
  is_Some (begun r !! t) ∧ represents (Machine s' (<[t := (nm, oops)]> cs)) r.
Proof.
  intros [H1 H2 H3 H4 H5 H6 H7] Ht Hs. simpl in *.
  pose proof (H7 _ _ _ Ht) as [Hp Ho]%Forall_cons_1. rewrite visit_ok in Hs by done.
  injection Hs as <-. split; [by rewrite H5, Ht|]. split; simpl; try done.
  - intros k. rewrite H5, slots_of_add. destruct (decide (t = k)) as [<-|Hk].
    + rewrite lookup_insert_eq, Ht. simpl. by rewrite <-app_assoc.
    + by rewrite lookup_insert_ne.
  - intros k Hk. apply lookup_insert_None in Hk as [Hk Hne].
    rewrite slots_of_add, decide_False by done. auto.
  - intros k n l [[-> [= -> ->]]|[_ Hl]]%lookup_insert_Some; eauto.
Qed.

Lemma represents_register s cs r t nm :
  represents (Machine s cs) r → cs !! t = Some (nm, []) →
  ∃ r', registry_step r (Register t) r' ∧
    represents (Machine (mmtk_register_nmethod t nm s) (delete t cs)) r'.
Proof.
  intros [H1 H2 H3 H4 H5 H6 H7] Ht. simpl in *.
  assert (begun r !! t = Some (nm, slots_of s t)) as Hb by (by rewrite H5, Ht; simpl; rewrite app_nil_r).
  assert (∀ k n l, delete t cs !! k = Some (n, l) → Forall root_ok l) as H7'.
  { intros k n l [_ Hl]%lookup_delete_Some. eauto. }
  unfold mmtk_register_nmethod. case_decide as Hd.
  - rewrite Hd in Hb. eexists. split; [exact (spec_register_none _ _ _ Hb)|]. split; simpl; try done.
    + intros k. destruct (decide (k = t)) as [->|Hk]; [by rewrite !lookup_delete_eq|].
      by rewrite !lookup_delete_ne.
    + intros k [->|Hk]%lookup_delete_None; auto.
  - eexists. split; [exact (spec_register _ _ _ _ Hb Hd)|].
    split; cbn [cache calls live begun NURSERY_CODE_CACHE_ROOTS MATURE_CODE_CACHE_ROOTS]; try done.
    + by rewrite latest_register, H1.
    + by rewrite latest_register, <-insert_union_l, H2.
    + intros k l Hl. destruct (H3 k l Hl) as (regs & Hr & Hin).
      destruct (decide (k = nm)) as [->|Hk].
      * rewrite lookup_insert_eq, Hr. eexists. split; [done|]. simpl. set_solver.
      * rewrite lookup_insert_ne by done. eauto.
    + intros k regs [[_ <-]|[_ Hr]]%lookup_insert_Some; eauto.
    + intros k. unfold slots_of. simpl. destruct (decide (k = t)) as [->|Hk].
      * by rewrite !lookup_delete_eq.
      * rewrite !lookup_delete_ne, lookup_insert_ne by done. apply H5.
    + intros k Hk. unfold slots_of. simpl. destruct (decide (k = t)) as [->|Hne].
      * by rewrite lookup_insert_eq.
      * rewrite lookup_insert_ne by done. apply H6. by rewrite lookup_delete_ne in Hk by done.
Qed.

Lemma represents_unregister s cs r nm :
  represents (Machine s cs) r →
  represents (Machine (unregister_nmethod nm s) cs)
    (Registry (delete nm (live r)) (young r ∖ {[nm]}) (begun r)).
Proof.
  intros [H1 H2 H3 H4 H5 H6 H7]. split; simpl in *; try done.
  - by rewrite latest_unregister, H1.
  - by rewrite latest_unregister, <-delete_union, H2.
  - intros k l [Hk Hl]%lookup_delete_Some. rewrite lookup_delete_ne by done. auto.
  - intros k regs [_ Hr]%lookup_delete_Some. eauto.
Qed.

Lemma represents_collect s s' cs r nursery_gc reports :
  represents (Machine s cs) r → scan_code_cache_roots nursery_gc s = (s', reports) →
  registry_step r (Collect nursery_gc reports) (Registry (live r) ∅ (begun r)) ∧
  represents (Machine s' cs) (Registry (live r) ∅ (begun r)).
Proof.
  intros [H1 H2 H3 H4 H5 H6 H7] Hs. simpl in *.
  destruct (scan_ok nursery_gc s) as (q & Hq & Hok & Hp). rewrite Hs in Hq. injection Hq as -> <-.
  assert (∀ nm l, NURSERY_CODE_CACHE_ROOTS s !! nm = Some l →
            ∃ regs, live r !! nm = Some regs ∧ l ∈ regs) as Hn.
  { intros nm l. rewrite H1, latest_lookup. case_decide; [done|].
    destruct (live r !! nm) as [[|x regs]|]; simpl; intros [=]. subst.
    eexists. split; [done|]. set_solver. }
  split; [apply spec_collect|split]; simpl; try done.
  - rewrite Hp. destruct nursery_gc; simpl; [by rewrite H1|]. rewrite <-H2. apply all_slots_union.
  - intros a Ha. rewrite Hp in Ha.
    assert (∃ nm regs l, live r !! nm = Some regs ∧ l ∈ regs ∧ a ∈ l) as (nm & regs & l & ? & ? & ?).
    { apply elem_of_app in Ha as [Ha|Ha]; [destruct nursery_gc; [by apply not_elem_of_nil in Ha|]|];
        destruct (all_slots_lookup _ _ Ha) as (nm & l & Hl & Hin);
        [destruct (H3 nm l Hl) as (regs & ? & ?)|destruct (Hn nm l Hl) as (regs & ? & ?)];
        exists nm, regs, l; by split_and!. }
    exists nm, regs. split; [done|]. apply list_elem_of_In, in_concat. exists l.
    by rewrite <-!list_elem_of_In.
  - by rewrite latest_collect.
  - rewrite (left_id_L ∅ (∪)), H2. apply map_eq. intros k. rewrite !latest_lookup.
    by rewrite !decide_False by (intros [? _]; done).
  - intros nm l [Hl|[_ Hl]]%lookup_union_Some_raw; eauto.
Qed.

Lemma represents_step m r e m' :
  represents m r → code_step m e m' → ∃ r', registry_step r e r' ∧ represents m' r'.
Proof.
  intros Hr Hs. revert Hr. destruct Hs as [s cs t nm oops Ht Ho|s s' cs t nm p oops Ht Hv|s cs t nm Ht|s cs nm|s s' cs g q Hc]; intros Hr.
  - destruct (represents_begin _ _ _ _ nm _ Hr Ht Ho). eexists. by split; [constructor|].
  - destruct (represents_visit _ _ _ _ _ _ _ _ Hr Ht Hv). exists r. by split; [constructor|].
  - by apply (represents_register _ _ _ _ _ Hr).
  - eexists. split; [constructor|by apply represents_unregister].
  - eexists. by apply (represents_collect _ _ _ _ _ _ Hr).
Qed.

Definition no_code : machine := Machine (CodeCache ∅ ∅ ∅) ∅.
Definition no_registry : registry := Registry ∅ ∅ ∅.

Lemma represents_initial : represents no_code no_registry.
Proof. split; simpl; try done. Qed.

(** A registration that nothing interrupts. *)
Lemma register_nmethod_steps t nm oops s cs s' :
  cs !! t = None → Forall root_ok oops → register_nmethod t nm oops s = Ok s' →
  lsteps code_step (Machine s cs) (Begin t nm oops :: ((λ _, Visit t) <$> oops) ++ [Register t])
    (Machine s' cs).
Proof.
  intros Ht Ho Hs. econstructor; [by constructor|].
  unfold register_nmethod in Hs. replace cs with (delete t (<[t := (nm, [])]> cs)) at 2
    by (by rewrite delete_insert_eq, delete_id).
  clear Ho. revert s Hs. induction oops as [|p oops IH]; intros s Hs; simpl in *.
  - injection Hs as <-. econstructor; [|constructor]. constructor. by rewrite lookup_insert_eq.
  - destruct (nmethod_do_oop_work t p s) as [s1| |] eqn:Hv; simpl in Hs; try done.
    econstructor; [by eapply step_visit; [apply lookup_insert_eq|]|].
    rewrite insert_insert_eq. by apply IH.
Qed.

(** C8. The code cache implements the registry: in every interleaving of threads
    that register and unregister nmethods, and of collections, a full collection
    reports, in packets that are not empty and not above the capacity, all slots
    of the latest registration of every registered nmethod, a nursery collection
    those registered since the collection before, and neither reports a slot that
    no registration of a registered nmethod gave.  Nor does a registration stop
    the machine. *)
Theorem code_cache_refines_registry es m :
  lsteps code_step no_code es m →
  (∃ r, lsteps registry_step no_registry es r) ∧
  (∀ t nm p oops, calls m !! t = Some (nm, p :: oops) →
     ∃ s', nmethod_do_oop_work t p (cache m) = Ok s').
Proof.
  intros Hr. destruct (lsteps_simulation _ registry_step represents represents_step _ _ _ Hr no_registry
    represents_initial) as (r & Hq & Hm).
  split; [by exists r|]. intros t nm p oops Ht.
  pose proof (rep_roots _ _ Hm _ _ _ Ht) as [Hp _]%Forall_cons_1. eexists. by apply visit_ok.
Qed.

End code_roots.

(** Iteration in the order of the keys' encoding. *)
#[local] Instance key_order : HashMapOrder :=
  {| iterate := map_to_list; iterate_perm m := Permutation_refl (map_to_list m) |}.

(** Two threads register nmethods 100 and 200 side by side; a nursery collection
    finds the second registered; the first is registered twice; a full collection
    follows, and another once 200 is unregistered. *)
Definition code_run : list code_event :=
  [Begin 1 100 [Root 4096 false; Root 4100 true]; Begin 2 200 [Root 8192 false];
   Visit 1; Visit 2; Visit 1; Register 2;
   Collect true [[2 ^ 63 + 8192]];
   Register 1; Begin 1 100 [Root 4100 true]; Visit 1; Register 1;
   Collect false [[2 ^ 63 + 8192; 4100]];
   Unregister 200;
   Collect true []; Collect false [[4100]]; Begin 1 100 [Root 0 false]].

#[local] Ltac code_step_tac :=
  lazymatch goal with
  | |- code_step _ _ _ (Begin _ _ _) _ =>
      eapply step_begin; [vm_compute; reflexivity
        |rewrite ?Forall_cons, Forall_nil; unfold root_ok; cbn [location]; lia]
  | |- code_step _ _ _ (Visit _) _ => 
      eapply step_visit; [vm_compute; reflexivity|vm_compute; reflexivity]
  | |- code_step _ _ _ (Register _) _ => eapply step_register; vm_compute; reflexivity
  | |- code_step _ _ _ (Unregister _) _ => apply step_unregister
  | |- code_step _ _ _ (Collect _ _) _ => eapply step_collect; vm_compute; reflexivity
  end.

Lemma code_cache_refines_registry_witness :
  ∃ m, lsteps (code_step true 2) no_code code_run m ∧
    (∃ r, lsteps (registry_step true 2) no_registry code_run r) ∧
    (∃ s', nmethod_do_oop_work true 1 (Root 0 false) (cache m) = Ok s').
Proof.
  assert (∃ m, lsteps (code_step true 2) no_code code_run m ∧
            calls m !! 1%nat = Some (100, [Root 0 false])) as (m & Hr & Hm).
  { eexists. split.
    - unfold code_run.
      repeat (eapply lsteps_cons; [code_step_tac|]).
      constructor.
    - vm_compute. reflexivity. }
  exists m. split; [exact Hr|].
  destruct (code_cache_refines_registry true 2 ltac:(lia) code_run m Hr) as [H1 H2].
  split; [exact H1|]. exact (H2 1%nat 100 (Root 0 false) [] Hm).
Defined.
