(* ===== verification/RootSources.v ===== *)
(** * The roots of a collection

    Which roots a collection scans, from the work packets of the Rust side
    ([scan_vm_specific_roots] of [scanning.rs], the packets of [gc_work.rs])
    through the table of upcalls ([OpenJDK_Upcalls] of [lib.rs] and [mmtk.h],
    [mmtk_upcalls] of [mmtkUpcalls.cpp]) to the [scan_..._roots] functions of
    [mmtkHeap.cpp] and the iterators of HotSpot; against [MMTkHeap::scan_roots],
    which walks all roots with one closure. *)

From stdpp Require Import base gmap list.
From Stdlib Require Import ZArith Lia.
From S2P Require Import Prelude Slots Roots CodeRoots.

Local Open Scope Z_scope.

(** ** The table of upcalls

    Rust declares the fields of the structure in this order. *)

Module Upcall.
Inductive field :=
  | stop_all_mutators | resume_mutators | spawn_gc_thread | block_for_gc | out_of_memory
  | get_mutators | scan_object | dump_object | get_object_size | get_mmtk_mutator
  | is_mutator | harness_begin | harness_end | compute_klass_mem_layout_checksum
  | offset_of_static_fields | static_oop_field_count_offset | referent_offset
  | discovered_offset | dump_object_string | scan_roots_in_all_mutator_threads
  | scan_roots_in_mutator_thread | scan_universe_roots | scan_jni_handle_roots
  | scan_object_synchronizer_roots | scan_management_roots | scan_jvmti_export_roots
  | scan_aot_loader_roots | scan_system_dictionary_roots | scan_code_cache_roots
  | scan_string_table_roots | scan_class_loader_data_graph_roots
  | scan_weak_processor_roots | scan_vm_thread_roots | number_of_mutators
  | schedule_finalizer | prepare_for_roots_re_scanning | enqueue_references.

#[global] Instance field_eq_dec : EqDecision field.
Proof. solve_decision. Defined.

Definition OpenJDK_Upcalls : list field := [
  stop_all_mutators; resume_mutators; spawn_gc_thread; block_for_gc; out_of_memory;
  get_mutators; scan_object; dump_object; get_object_size; get_mmtk_mutator; is_mutator;
  harness_begin; harness_end; compute_klass_mem_layout_checksum;
  offset_of_static_fields; static_oop_field_count_offset; referent_offset;
  discovered_offset; dump_object_string; scan_roots_in_all_mutator_threads;
  scan_roots_in_mutator_thread; scan_universe_roots; scan_jni_handle_roots;
  scan_object_synchronizer_roots; scan_management_roots; scan_jvmti_export_roots;
  scan_aot_loader_roots; scan_system_dictionary_roots; scan_code_cache_roots;
  scan_string_table_roots; scan_class_loader_data_graph_roots;
  scan_weak_processor_roots; scan_vm_thread_roots; number_of_mutators;
  schedule_finalizer; prepare_for_roots_re_scanning; enqueue_references].
End Upcall.

(** C++ fills the structure with these functions, by position. *)

Module Cpp.
Inductive function :=
  | mmtk_stop_all_mutators | mmtk_resume_mutators | mmtk_spawn_gc_thread
  | mmtk_block_for_gc | mmtk_out_of_memory | mmtk_get_mutators | mmtk_scan_object
  | mmtk_dump_object | mmtk_get_object_size | mmtk_get_mmtk_mutator | mmtk_is_mutator
  | mmtk_harness_begin | mmtk_harness_end | compute_klass_mem_layout_checksum
  | offset_of_static_fields | static_oop_field_count_offset
  | referent_offset | discovered_offset | dump_object_string
  | mmtk_scan_roots_in_all_mutator_threads | mmtk_scan_roots_in_mutator_thread
  | mmtk_scan_universe_roots | mmtk_scan_jni_handle_roots
  | mmtk_scan_object_synchronizer_roots | mmtk_scan_management_roots
  | mmtk_scan_jvmti_export_roots | mmtk_scan_aot_loader_roots
  | mmtk_scan_system_dictionary_roots | mmtk_scan_code_cache_roots
  | mmtk_scan_string_table_roots | mmtk_scan_class_loader_data_graph_roots
  | mmtk_scan_weak_processor_roots | mmtk_scan_vm_thread_roots | mmtk_number_of_mutators
  | mmtk_schedule_finalizer | mmtk_prepare_for_roots_re_scanning
  | mmtk_enqueue_references.

Definition mmtk_upcalls : list function := [
  mmtk_stop_all_mutators; mmtk_resume_mutators; mmtk_spawn_gc_thread; mmtk_block_for_gc;
  mmtk_out_of_memory; mmtk_get_mutators; mmtk_scan_object; mmtk_dump_object;
  mmtk_get_object_size; mmtk_get_mmtk_mutator; mmtk_is_mutator; mmtk_harness_begin;
  mmtk_harness_end; compute_klass_mem_layout_checksum; offset_of_static_fields;
  static_oop_field_count_offset; referent_offset; discovered_offset;
  dump_object_string; mmtk_scan_roots_in_all_mutator_threads;
  mmtk_scan_roots_in_mutator_thread; mmtk_scan_universe_roots;
  mmtk_scan_jni_handle_roots; mmtk_scan_object_synchronizer_roots;
  mmtk_scan_management_roots; mmtk_scan_jvmti_export_roots; mmtk_scan_aot_loader_roots;
  mmtk_scan_system_dictionary_roots; mmtk_scan_code_cache_roots;
  mmtk_scan_string_table_roots; mmtk_scan_class_loader_data_graph_roots;
  mmtk_scan_weak_processor_roots; mmtk_scan_vm_thread_roots; mmtk_number_of_mutators;
  mmtk_schedule_finalizer; mmtk_prepare_for_roots_re_scanning; mmtk_enqueue_references].
End Cpp.

(** A call through [UPCALLS]: the function at the offset Rust gives the field. *)
Definition upcall (f : Upcall.field) : option Cpp.function :=
  '(i, _) ← list_find (f =.) Upcall.OpenJDK_Upcalls; Cpp.mmtk_upcalls !! i.

(** The function a field is meant for. *)
Definition intended (f : Upcall.field) : Cpp.function :=
  match f with
  | Upcall.stop_all_mutators => Cpp.mmtk_stop_all_mutators
  | Upcall.resume_mutators => Cpp.mmtk_resume_mutators
  | Upcall.spawn_gc_thread => Cpp.mmtk_spawn_gc_thread
  | Upcall.block_for_gc => Cpp.mmtk_block_for_gc
  | Upcall.out_of_memory => Cpp.mmtk_out_of_memory
  | Upcall.get_mutators => Cpp.mmtk_get_mutators
  | Upcall.scan_object => Cpp.mmtk_scan_object
  | Upcall.dump_object => Cpp.mmtk_dump_object
  | Upcall.get_object_size => Cpp.mmtk_get_object_size
  | Upcall.get_mmtk_mutator => Cpp.mmtk_get_mmtk_mutator
  | Upcall.is_mutator => Cpp.mmtk_is_mutator
  | Upcall.harness_begin => Cpp.mmtk_harness_begin
  | Upcall.harness_end => Cpp.mmtk_harness_end
  | Upcall.compute_klass_mem_layout_checksum => Cpp.compute_klass_mem_layout_checksum
  | Upcall.offset_of_static_fields => Cpp.offset_of_static_fields
  | Upcall.static_oop_field_count_offset => Cpp.static_oop_field_count_offset
  | Upcall.referent_offset => Cpp.referent_offset
  | Upcall.discovered_offset => Cpp.discovered_offset
  | Upcall.dump_object_string => Cpp.dump_object_string
  | Upcall.scan_roots_in_all_mutator_threads => Cpp.mmtk_scan_roots_in_all_mutator_threads
  | Upcall.scan_roots_in_mutator_thread => Cpp.mmtk_scan_roots_in_mutator_thread
  | Upcall.scan_universe_roots => Cpp.mmtk_scan_universe_roots
  | Upcall.scan_jni_handle_roots => Cpp.mmtk_scan_jni_handle_roots
  | Upcall.scan_object_synchronizer_roots => Cpp.mmtk_scan_object_synchronizer_roots
  | Upcall.scan_management_roots => Cpp.mmtk_scan_management_roots
  | Upcall.scan_jvmti_export_roots => Cpp.mmtk_scan_jvmti_export_roots
  | Upcall.scan_aot_loader_roots => Cpp.mmtk_scan_aot_loader_roots
  | Upcall.scan_system_dictionary_roots => Cpp.mmtk_scan_system_dictionary_roots
  | Upcall.scan_code_cache_roots => Cpp.mmtk_scan_code_cache_roots
  | Upcall.scan_string_table_roots => Cpp.mmtk_scan_string_table_roots
  | Upcall.scan_class_loader_data_graph_roots => Cpp.mmtk_scan_class_loader_data_graph_roots
  | Upcall.scan_weak_processor_roots => Cpp.mmtk_scan_weak_processor_roots
  | Upcall.scan_vm_thread_roots => Cpp.mmtk_scan_vm_thread_roots
  | Upcall.number_of_mutators => Cpp.mmtk_number_of_mutators
  | Upcall.schedule_finalizer => Cpp.mmtk_schedule_finalizer
  | Upcall.prepare_for_roots_re_scanning => Cpp.mmtk_prepare_for_roots_re_scanning
  | Upcall.enqueue_references => Cpp.mmtk_enqueue_references
  end.

(** The two sides agree on every field. *)
Lemma upcalls_agree f : upcall f = Some (intended f).
Proof. by destruct f. Qed.

(** ** HotSpot's iterators *)

Inductive iterator :=
| Universe | JNIHandles | ObjectSynchronizer | Management | JvmtiExport | AOTLoader
| SystemDictionary | CodeCacheBlobs | StringTable | ClassLoaderDataGraph | WeakProcessor
| VMThread | JavaThread (t : nat) | Threads.

(** What they visit.  [Threads::possibly_parallel_oops_do] goes through the Java
    threads and then the VM thread, and [AOTLoader::oops_do] visits nothing
    unless [UseAOT] is set. *)
Class HotSpotRoots := {
  java_threads : list nat;
  UseAOT : bool;
  oops_do : iterator → list root;
  oops_do_threads : oops_do Threads = (java_threads ≫= λ t, oops_do (JavaThread t)) ++ oops_do VMThread;
  oops_do_aot : UseAOT = false → oops_do AOTLoader = []
}.

Section root_sources.
Context `{HotSpotRoots} {order : HashMapOrder}.
Variable EDGES_WORK_BUFFER_SIZE : nat.
(** [Vec::with_capacity] gives at least what it is asked for. *)
Variable vec_capacity : Z → nat.
Hypothesis capacity_pos : (0 < EDGES_WORK_BUFFER_SIZE)%nat.
Hypothesis vec_with_capacity : ∀ a, (EDGES_WORK_BUFFER_SIZE ≤ vec_capacity a)%nat.
Variable UseCompressedOops : bool.
Variable oop_load : root → Z.

(** The functions of [mmtkHeap.cpp], behind the upcalls that make a closure and
    call them. *)
Definition heap_scan (f : Cpp.function) (tls : nat) : option iterator :=
  match f with
  | Cpp.mmtk_scan_universe_roots => Some Universe
  | Cpp.mmtk_scan_jni_handle_roots => Some JNIHandles
  | Cpp.mmtk_scan_object_synchronizer_roots => Some ObjectSynchronizer
  | Cpp.mmtk_scan_management_roots => Some Management
  | Cpp.mmtk_scan_jvmti_export_roots => Some JvmtiExport
  | Cpp.mmtk_scan_aot_loader_roots => Some AOTLoader
  | Cpp.mmtk_scan_system_dictionary_roots => Some SystemDictionary
  | Cpp.mmtk_scan_code_cache_roots => Some CodeCacheBlobs
  | Cpp.mmtk_scan_string_table_roots => Some StringTable
  | Cpp.mmtk_scan_class_loader_data_graph_roots => Some ClassLoaderDataGraph
  | Cpp.mmtk_scan_weak_processor_roots => Some WeakProcessor
  | Cpp.mmtk_scan_vm_thread_roots => Some VMThread
  | Cpp.mmtk_scan_roots_in_all_mutator_threads => Some Threads
  | Cpp.mmtk_scan_roots_in_mutator_thread => Some (JavaThread tls)
  | _ => None
  end.

(** [MMTkHeap::scan_roots]: the iterators that get the closure, apart from the
    code blobs, which get a closure of their own. *)
Definition scan_roots : list iterator :=
  [ClassLoaderDataGraph; Threads; Universe; JNIHandles; ObjectSynchronizer; Management; JvmtiExport] ++
  (if UseAOT then [AOTLoader] else []) ++
  [SystemDictionary; StringTable; WeakProcessor].

(** ** Work packets *)

Inductive work :=
| ScanMutatorRoots (tls : nat)
| ScanRoots (func_name : Upcall.field)
| ScanCodeCacheRoots.

(** [scan_vm_specific_roots]. *)
Definition scan_vm_specific_roots : list work :=
  [ScanRoots Upcall.scan_universe_roots; ScanRoots Upcall.scan_jni_handle_roots;
   ScanRoots Upcall.scan_object_synchronizer_roots; ScanRoots Upcall.scan_management_roots;
   ScanRoots Upcall.scan_jvmti_export_roots; ScanRoots Upcall.scan_aot_loader_roots;
   ScanRoots Upcall.scan_system_dictionary_roots; ScanCodeCacheRoots;
   ScanRoots Upcall.scan_string_table_roots; ScanRoots Upcall.scan_class_loader_data_graph_roots;
   ScanRoots Upcall.scan_weak_processor_roots; ScanRoots Upcall.scan_vm_thread_roots].

(** What a worker does for a packet: the state is the Rust side's buffers and the
    packets it has created, and the code cache. *)
Definition scan_through (f : Upcall.field) (tls : nat) (r : rust) : outcome rust :=
  match f' ← upcall f; heap_scan f' tls with
  | Some it => mmtk_scan_roots vec_capacity UseCompressedOops oop_load r (oops_do it)
  | None => Undef
  end.

Definition do_work (nursery_gc : bool) (s : rust * code_cache) (w : work) : outcome (rust * code_cache) :=
  let '(r, cc) := s in
  match w with
  | ScanMutatorRoots tls => r ← scan_through Upcall.scan_roots_in_mutator_thread tls r; Ok (r, cc)
  | ScanRoots f => r ← scan_through f 0 r; Ok (r, cc)
  | ScanCodeCacheRoots =>
      let '(cc, slots) := scan_code_cache_roots EDGES_WORK_BUFFER_SIZE nursery_gc cc in
      Ok (Rust (buffers r) (fresh r) (packets r ++ slots), cc)
  end.

(** ** Every root, once *)

(** The iterators a packet that goes through the table visits. *)
Definition visited (w : work) : list iterator :=
  match w with
  | ScanMutatorRoots tls => [JavaThread tls]
  | ScanRoots f => match f' ← upcall f; heap_scan f' 0 with Some it => [it] | None => [] end
  | ScanCodeCacheRoots => []
  end.

(** The packets that reach a root iterator. *)
Definition scans (w : work) : Prop :=
  match w with ScanRoots f => visited (ScanRoots f) ≠ [] | ScanMutatorRoots _ => True | ScanCodeCacheRoots => False end.

Abbreviation reported := (reported UseCompressedOops oop_load).

Lemma reported_app l1 l2 : reported (l1 ++ l2) = reported l1 ++ reported l2.
Proof. unfold Roots.reported. by rewrite filter_app, fmap_app. Qed.

#[global] Instance reported_perm : Proper ((≡ₚ) ==> (≡ₚ)) reported.
Proof. intros l1 l2 Hl. unfold Roots.reported. by rewrite Hl. Qed.

Hypothesis roots_ok : ∀ it, Forall root_ok (oops_do it).

Lemma scan_through_ok f tls r it :
  (f' ← upcall f; heap_scan f' tls) = Some it → rust_ok r →
  ∃ r' qs, scan_through f tls r = Ok r' ∧ buffers r' = buffers r ∧ packets r' = packets r ++ qs ∧
    concat qs = reported (oops_do it) ∧ Forall (λ q, q ≠ []) qs ∧ rust_ok r'.
Proof.
  intros Hf Hr. unfold scan_through. rewrite Hf.
  by apply (roots_reported_once EDGES_WORK_BUFFER_SIZE vec_capacity).
Qed.

Lemma do_work_ok g r cc w :
  scans w → rust_ok r →
  ∃ r' qs, do_work g (r, cc) w = Ok (r', cc) ∧ buffers r' = buffers r ∧
    packets r' = packets r ++ qs ∧ concat qs = reported (visited w ≫= oops_do) ∧
    Forall (λ q, q ≠ []) qs ∧ rust_ok r'.
Proof.
  intros Hw Hr. destruct w as [tls|f|]; [| |done]; simpl in *.
  - destruct (scan_through_ok Upcall.scan_roots_in_mutator_thread tls r (JavaThread tls) eq_refl Hr)
      as (r' & qs & -> & H1).
    exists r', qs. rewrite app_nil_r. by split.
  - destruct (f' ← upcall f; heap_scan f' 0) as [it|] eqn:E; [|done].
    destruct (scan_through_ok f 0 r it E Hr) as (r' & qs & -> & H1).
    exists r', qs. simpl. rewrite app_nil_r. by split.
Qed.

Lemma run_ok g ws : ∀ r cc,
  Forall scans ws → rust_ok r →
  ∃ r' qs, ofold (do_work g) (r, cc) ws = Ok (r', cc) ∧ buffers r' = buffers r ∧
    packets r' = packets r ++ qs ∧ concat qs = reported ((ws ≫= visited) ≫= oops_do) ∧
    Forall (λ q, q ≠ []) qs ∧ rust_ok r'.
Proof.
  induction ws as [|w ws IH]; intros r cc Hs Hr.
  { exists r, []. rewrite app_nil_r. by split_and!. }
  apply Forall_cons_1 in Hs as [Hw Hs].
  destruct (do_work_ok g r cc w Hw Hr) as (r1 & q1 & E1 & B1 & P1 & C1 & N1 & R1).
  destruct (IH r1 cc Hs R1) as (r2 & q2 & E2 & B2 & P2 & C2 & N2 & R2).
  exists r2, (q1 ++ q2). cbn [ofold]. rewrite E1. cbn [mbind outcome_bind].
  rewrite bind_cons, bind_app, reported_app, concat_app, C1, C2, P2, P1, B2, app_assoc.
  split_and!; try done. by apply Forall_app.
Qed.

(** The packets of a collection: one for every Java thread, and those of the VM. *)
Definition root_packets : list work := (ScanMutatorRoots <$> java_threads) ++ scan_vm_specific_roots.

Lemma vm_packets_visit :
  scan_vm_specific_roots ≫= visited =
  [Universe; JNIHandles; ObjectSynchronizer; Management; JvmtiExport; AOTLoader; SystemDictionary;
   StringTable; ClassLoaderDataGraph; WeakProcessor; VMThread].
Proof. reflexivity. Qed.

(** Together they visit what [scan_roots] visits. *)
Lemma packets_visit_scan_roots : (root_packets ≫= visited) ≫= oops_do ≡ₚ scan_roots ≫= oops_do.
Proof.
  unfold root_packets. rewrite bind_app, vm_packets_visit, bind_app.
  assert (((ScanMutatorRoots <$> java_threads) ≫= visited) ≫= oops_do =
          java_threads ≫= λ t, oops_do (JavaThread t)) as ->.
  { induction java_threads as [|x l IH]; [done|]. rewrite fmap_cons, bind_cons, bind_app, IH. simpl. by rewrite app_nil_r. }
  set (T := java_threads ≫= _). unfold scan_roots. rewrite !bind_app. simpl.
  rewrite oops_do_threads. fold T. pose proof oops_do_aot as Ha.
  destruct UseAOT; [clear Ha|rewrite Ha by done]; simpl; rewrite ?app_nil_r; solve_Permutation.
Qed.

Lemma root_packets_split :
  ∃ rest, root_packets ≡ₚ ScanCodeCacheRoots :: rest ∧ Forall scans rest.
Proof.
  exists ((ScanMutatorRoots <$> java_threads) ++ take 7 scan_vm_specific_roots ++ drop 8 scan_vm_specific_roots).
  split.
  - unfold root_packets. simpl. rewrite <-Permutation_middle. solve_Permutation.
  - apply Forall_app. split.
    + induction java_threads; simpl; by constructor.
    + repeat constructor; done.
Qed.

(** C7. A collection scans every root of the virtual machine exactly once: in
    whatever order the workers run the packets, one for each Java thread and those
    of [scan_vm_specific_roots], the packets lead through the table of upcalls to
    HotSpot's iterators, and mmtk-core is given, tagged, exactly the non-null
    roots that [MMTkHeap::scan_roots] would visit, besides what the code cache
    reports; each of its work packets is non-empty, every buffer access is inside
    a live buffer, and the buffers alive afterwards are those alive before. *)
Theorem collection_scans_all_roots g r cc ws :
  rust_ok r → ws ≡ₚ root_packets →
  ∃ r' cc' qs code, ofold (do_work g) (r, cc) ws = Ok (r', cc') ∧
    scan_code_cache_roots EDGES_WORK_BUFFER_SIZE g cc = (cc', code) ∧
    buffers r' = buffers r ∧ packets r' = packets r ++ qs ∧ Forall (λ q, q ≠ []) qs ∧
    concat qs ≡ₚ reported (scan_roots ≫= oops_do) ++ concat code.
Proof.
  intros Hr Hws. destruct root_packets_split as (rest & Hsplit & Hrest).
  destruct (list_elem_of_split ws ScanCodeCacheRoots) as (l1 & l2 & ->).
  { rewrite Hws, Hsplit. set_solver. }
  assert (Forall scans (l1 ++ l2)) as [Hl1 Hl2]%Forall_app.
  { rewrite <-Permutation_middle, Hsplit in Hws. apply Permutation_cons_inv in Hws. by rewrite Hws. }
  destruct (run_ok g l1 r cc Hl1 Hr) as (r1 & q1 & E1 & B1 & P1 & C1 & N1 & R1).
  destruct (scan_ok EDGES_WORK_BUFFER_SIZE capacity_pos g cc) as (code & Hcode & Hok & _).
  set (cc' := CodeCache _ _ _) in Hcode.
  destruct (run_ok g l2 (Rust (buffers r1) (fresh r1) (packets r1 ++ code)) cc' Hl2 R1)
    as (r2 & q2 & E2 & B2 & P2 & C2 & N2 & R2).
  exists r2, cc', (q1 ++ code ++ q2), code. rewrite ofold_app, E1. cbn [mbind outcome_bind ofold do_work].
  rewrite Hcode. cbn [mbind outcome_bind]. rewrite E2. split_and!; try done.
  - by rewrite B2, B1.
  - rewrite P2. simpl. by rewrite P1, <-!app_assoc.
  - rewrite !Forall_app. split_and!; try done. apply (Forall_impl _ _ _ Hok).
    intros q [Hq _] ->. simpl in Hq. lia.
  - rewrite !concat_app, C1, C2, (Permutation_app_comm (concat code)), app_assoc, <-reported_app.
    f_equiv. apply reported_perm. rewrite <-bind_app.
    rewrite <-packets_visit_scan_roots, <-Hws, !bind_app. done.
Qed.

End root_sources.

(** Two Java threads, ahead-of-time code off, and a code cache with one nmethod
    registered since the last collection; the workers take the packets from the
    end. *)
Definition some_oops (it : iterator) : list root :=
  match it with
  | JavaThread 1 => [Root 4096 false; Root 4104 false]
  | JavaThread 2 => [Root 8192 false]
  | Universe => [Root 16384 true]
  | VMThread => [Root 4112 false]
  | Threads => [Root 4096 false; Root 4104 false; Root 8192 false; Root 4112 false]
  | _ => []
  end.

#[local] Instance some_roots : HotSpotRoots.
Proof. by refine {| java_threads := [1; 2]%nat; UseAOT := false; oops_do := some_oops |}. Defined.

Definition some_load (x : root) : Z := if decide (location x = 4104) then 0 else 7.
Definition some_code : code_cache := CodeCache ∅ {[100 := [12288]]} {[200 := [20480]]}.

Lemma collection_scans_all_roots_witness :
  ∃ r' cc', ofold (do_work (order := key_order) 2 (λ _, 2%nat) true some_load true) (Rust ∅ 1 [], some_code)
    (reverse root_packets) = Ok (r', cc') ∧
    concat (packets r') ≡ₚ [2 ^ 63 + 4096; 2 ^ 63 + 8192; 2 ^ 63 + 4112; 16384; 12288].
Proof.
  destruct (collection_scans_all_roots (order := key_order) 2 (λ _, 2%nat) ltac:(lia) ltac:(intros; simpl; lia)
    true some_load) with (g := true) (r := Rust ∅ 1 []) (cc := some_code) (ws := reverse root_packets)
    as (r' & cc' & qs & code & E & Hc & _ & Hp & _ & Hq).
  - intros it. destruct it as [| | | | | | | | | | | |[|[|[|t]]]|]; repeat constructor; simpl; lia.
  - split; [simpl; lia|]. intros a b Ha. discriminate Ha.
  - apply reverse_Permutation.
  - exists r', cc'. split; [exact E|]. rewrite Hp. simpl. rewrite Hq.
    vm_compute in Hc. injection Hc as _ <-. vm_compute (reported _ _ _). simpl. done.
Defined.
