(* ===== verification/Layout.v ===== *)
(** * Memory layout of the mutator

    The structures of [mmtkMutator.hpp], which mirror mmtk-core's, with the
    layout the System V x86-64 ABI gives them, and
    [get_tlab_top_and_end_offsets] of [mmtkBarrierSet.cpp], which every
    allocation fast path uses to find the cursor and the limit of an allocator
    inside the thread. *)

From stdpp Require Import base numbers list strings.
From Stdlib Require Import ZArith Lia.
From S2P Require Import Prelude.

Local Open Scope Z_scope.

(** ** C types and their layout *)

Inductive ctype :=
| CPtr                                  (* void*, uintptr_t, size_t, and Rust's references *)
| CInt                                  (* 32 bits *)
| CShort                                (* 16 bits *)
| CByte                                 (* uint8_t, char, bool *)
| CArray (n : nat) (t : ctype)
| CStruct (fields : list (string * ctype)).

Definition align_up (z a : Z) : Z := (z + a - 1) / a * a.

Fixpoint alignof (t : ctype) : Z :=
  match t with
  | CPtr => 8
  | CInt => 4
  | CShort => 2
  | CByte => 1
  | CArray _ t => alignof t
  | CStruct fs => (fix go fs := match fs with [] => 1 | (_, t) :: fs => Z.max (alignof t) (go fs) end) fs
  end.

(** [sizeof]: the fields one after the other, each at its alignment, and the
    whole padded to the alignment of the structure. *)
Fixpoint sizeof (t : ctype) : Z :=
  match t with
  | CPtr => 8
  | CInt => 4
  | CShort => 2
  | CByte => 1
  | CArray n t => Z.of_nat n * sizeof t
  | CStruct fs =>
      align_up
        ((fix go fs o := match fs with
           | [] => o
           | (_, t) :: fs => go fs (align_up o (alignof t) + sizeof t) end) fs 0)
        (alignof (CStruct fs))
  end.

(** [byte_offset_of(fields, name)]. *)
Fixpoint field_offset (fs : list (string * ctype)) (name : string) (o : Z) : option Z :=
  match fs with
  | [] => None
  | (n, t) :: fs =>
      let o := align_up o (alignof t) in
      if decide (n = name) then Some o else field_offset fs name (o + sizeof t)
  end.

Definition byte_offset_of (t : ctype) (name : string) : Z :=
  match t with CStruct fs => default 0 (field_offset fs name 0) | _ => 0 end.

(** *** What holds of every layout *)

Fixpoint field_type (fs : list (string * ctype)) (name : string) : option ctype :=
  match fs with
  | [] => None
  | (n, t) :: fs => if decide (n = name) then Some t else field_type fs name
  end.

(** Where the last field ends, without the padding of the structure. *)
Fixpoint fields_end (fs : list (string * ctype)) (o : Z) : Z :=
  match fs with
  | [] => o
  | (_, t) :: fs => fields_end fs (align_up o (alignof t) + sizeof t)
  end.

(** Induction over a type and the types of its fields. *)
Lemma ctype_nested_ind (P : ctype → Prop) :
  P CPtr → P CInt → P CShort → P CByte → (∀ n t, P t → P (CArray n t)) →
  (∀ fs, Forall (λ f, P f.2) fs → P (CStruct fs)) → ∀ t, P t.
Proof.
  intros Hp Hi Hs Hb Ha Hf. fix IH 1. intros [| | | |n t|fs]; [done..| |].
  - apply Ha, IH.
  - apply Hf. induction fs as [|[n t] fs IHfs]; constructor; [apply IH|done].
Qed.

Lemma align_up_ok z a : 0 < a → z ≤ align_up z a < z + a ∧ (a | align_up z a).
Proof.
  intros Ha. unfold align_up.
  pose proof (Z.div_mod (z + a - 1) a ltac:(lia)). pose proof (Z.mod_pos_bound (z + a - 1) a Ha).
  split; [lia|]. by apply Z.divide_factor_r.
Qed.

Lemma divide_8_max a b : (a | 8) → (b | 8) → 0 < a → 0 < b → (Z.max a b | 8).
Proof. intros. by destruct (Z.max_spec a b) as [[_ ->]|[_ ->]]. Qed.

(** Every alignment is a power of two up to eight. *)
Lemma alignof_ok t : 1 ≤ alignof t ∧ (alignof t | 8).
Proof.
  induction t as [| | | |k t IH|fs IH] using ctype_nested_ind;
    [by split; [|apply Z.mod_divide]..|done|].
  simpl. induction IH as [|[n t] fs [Ht1 Ht2] _ [IH1 IH2]]; [by split; [|apply Z.mod_divide]|].
  simpl in *. split; [lia|]. apply divide_8_max; (done || lia).
Qed.

Lemma sizeof_struct fs : sizeof (CStruct fs) = align_up (fields_end fs 0) (alignof (CStruct fs)).
Proof. done. Qed.

Lemma fields_end_mono fs o : Forall (λ f, 0 ≤ sizeof f.2) fs → o ≤ fields_end fs o.
Proof.
  intros Hfs. revert o. induction Hfs as [|[n t] fs Ht _ IH]; intros o; simpl in *; [done|].
  pose proof (alignof_ok t) as [Ha _]. destruct (align_up_ok o (alignof t)); [lia|].
  specialize (IH (align_up o (alignof t) + sizeof t)). lia.
Qed.

Lemma sizeof_nonneg t : 0 ≤ sizeof t.
Proof.
  induction t as [| | | |k t IH|fs IH] using ctype_nested_ind; [done..|simpl; lia|].
  rewrite sizeof_struct. pose proof (alignof_ok (CStruct fs)) as [Ha _].
  destruct (align_up_ok (fields_end fs 0) (alignof (CStruct fs))) as [H _]; [lia|].
  pose proof (fields_end_mono fs 0 IH). lia.
Qed.

Lemma fields_end_le fs o : o ≤ fields_end fs o.
Proof. apply fields_end_mono, Forall_forall. intros. apply sizeof_nonneg. Qed.

(** A field is at its alignment, behind the fields before it and before the end. *)
Lemma field_offset_ok fs name o p t :
  field_offset fs name o = Some p → field_type fs name = Some t →
  o ≤ p ∧ (alignof t | p) ∧ p + sizeof t ≤ fields_end fs o.
Proof.
  revert o. induction fs as [|[n u] fs IH]; intros o; simpl; [done|].
  pose proof (alignof_ok u) as [Ha _]. destruct (align_up_ok o (alignof u)) as [H1 H2]; [lia|].
  pose proof (sizeof_nonneg u). case_decide.
  - intros [= <-] [= ->]. split_and!; [lia|done|apply fields_end_le].
  - intros Hp Ht. destruct (IH _ Hp Ht) as (? & ? & ?). split_and!; (done || lia).
Qed.

Lemma fields_disjoint fs n1 n2 o p1 p2 t1 t2 :
  n1 ≠ n2 →
  field_offset fs n1 o = Some p1 → field_type fs n1 = Some t1 →
  field_offset fs n2 o = Some p2 → field_type fs n2 = Some t2 →
  p1 + sizeof t1 ≤ p2 ∨ p2 + sizeof t2 ≤ p1.
Proof.
  intros Hn. revert o. induction fs as [|[n u] fs IH]; intros o; simpl; [done|].
  destruct (decide (n = n1)) as [E1|_], (decide (n = n2)) as [E2|_]; [congruence|..].
  - intros [= <-] [= ->] Hp Ht. destruct (field_offset_ok _ _ _ _ _ Hp Ht) as (? & _). by left.
  - intros Hp Ht [= <-] [= ->]. destruct (field_offset_ok _ _ _ _ _ Hp Ht) as (? & _). by right.
  - apply IH.
Qed.

Lemma field_inside fs name p t :
  field_offset fs name 0 = Some p → field_type fs name = Some t →
  0 ≤ p ∧ (alignof t | p) ∧ p + sizeof t ≤ sizeof (CStruct fs).
Proof.
  intros Hp Ht. destruct (field_offset_ok _ _ _ _ _ Hp Ht) as (? & ? & ?). rewrite sizeof_struct.
  pose proof (alignof_ok (CStruct fs)) as [Ha _].
  destruct (align_up_ok (fields_end fs 0) (alignof (CStruct fs))) as [He _]; [lia|].
  split_and!; (done || lia).
Qed.

(** ** The structures of the mutator *)

Section structures.
Local Open Scope string_scope.

Definition RustDynPtr := CStruct [("data", CPtr); ("vtable", CPtr)].

Definition MAX_BUMP_ALLOCATORS : nat := 6.
Definition MAX_LARGE_OBJECT_ALLOCATORS : nat := 2.
Definition MAX_MALLOC_ALLOCATORS : nat := 1.
Definition MAX_IMMIX_ALLOCATORS : nat := 2.
Definition MAX_FREE_LIST_ALLOCATORS : nat := 2.
Definition MAX_MARK_COMPACT_ALLOCATORS : nat := 1.

Definition BumpAllocator := CStruct
  [("tls", CPtr); ("cursor", CPtr); ("limit", CPtr); ("space", RustDynPtr); ("context", CPtr)].

Definition LargeObjectAllocator := CStruct [("tls", CPtr); ("space", CPtr); ("context", CPtr)].

Definition ImmixAllocator := CStruct
  [("tls", CPtr); ("cursor", CPtr); ("limit", CPtr); ("immix_space", CPtr); ("context", CPtr);
   ("hot", CByte); ("copy", CByte); ("large_cursor", CPtr); ("large_limit", CPtr);
   ("request_for_large", CByte); ("_align", CArray 7 CByte); ("line_opt_tag", CByte);
   ("line_opt", CPtr)].

Definition FreeListAllocator := CStruct
  [("tls", CPtr); ("space", CPtr); ("context", CPtr); ("available_blocks", CPtr);
   ("available_blocks_stress", CPtr); ("unswept_blocks", CPtr); ("consumed_blocks", CPtr)].

Definition MallocAllocator := CStruct [("tls", CPtr); ("space", CPtr); ("context", CPtr)].

Definition MarkCompactAllocator := CStruct [("bump_allocator", BumpAllocator)].

Definition Allocators := CStruct
  [("bump_pointer", CArray MAX_BUMP_ALLOCATORS BumpAllocator);
   ("large_object", CArray MAX_LARGE_OBJECT_ALLOCATORS LargeObjectAllocator);
   ("malloc", CArray MAX_MALLOC_ALLOCATORS MallocAllocator);
   ("immix", CArray MAX_IMMIX_ALLOCATORS ImmixAllocator);
   ("free_list", CArray MAX_FREE_LIST_ALLOCATORS FreeListAllocator);
   ("markcompact", CArray MAX_MARK_COMPACT_ALLOCATORS MarkCompactAllocator)].

Definition MutatorConfig := CStruct
  [("allocator_mapping", CPtr); ("space_mapping", CPtr);
   ("prepare_func", RustDynPtr); ("release_func", RustDynPtr)].

Definition MMTkMutatorContext := CStruct
  [("allocators", Allocators); ("barrier", RustDynPtr); ("mutator_tls", CPtr);
   ("plan", RustDynPtr); ("config", MutatorConfig)].

End structures.

Arguments byte_offset_of _ _%_string.

(** ** Offsets of an allocator's cursor and limit *)

(** [AllocatorSelector]: two bytes. *)
Record AllocatorSelector := Selector { tag : Z; index : Z }.

Definition TAG_BUMP_POINTER : Z := 0.
Definition TAG_LARGE_OBJECT : Z := 1.
Definition TAG_MALLOC : Z := 2.
Definition TAG_IMMIX : Z := 3.
Definition TAG_MARK_COMPACT : Z := 4.
Definition TAG_FREE_LIST : Z := 5.

Record MMTkAllocatorOffsets := Offsets { tlab_top_offset : Z; tlab_end_offset : Z }.

(** [mutator_offset] is [JavaThread::third_party_heap_mutator_offset()].  The
    offsets are [int]s. *)
Definition get_tlab_top_and_end_offsets (mutator_offset : Z) (selector : AllocatorSelector)
    : outcome MMTkAllocatorOffsets :=
  let allocators_base_offset := i32 (mutator_offset + byte_offset_of MMTkMutatorContext "allocators") in
  if decide (tag selector = TAG_IMMIX) then
    let allocator_base_offset := i32 (allocators_base_offset
      + byte_offset_of Allocators "immix" + index selector * sizeof ImmixAllocator) in
    Ok (Offsets (i32 (allocator_base_offset + byte_offset_of ImmixAllocator "cursor"))
                (i32 (allocator_base_offset + byte_offset_of ImmixAllocator "limit")))
  else if decide (tag selector = TAG_BUMP_POINTER) then
    let allocator_base_offset := i32 (allocators_base_offset
      + byte_offset_of Allocators "bump_pointer" + index selector * sizeof BumpAllocator) in
    Ok (Offsets (i32 (allocator_base_offset + byte_offset_of BumpAllocator "cursor"))
                (i32 (allocator_base_offset + byte_offset_of BumpAllocator "limit")))
  else if decide (tag selector = TAG_MARK_COMPACT) then
    let allocator_base_offset := i32 (allocators_base_offset
      + byte_offset_of Allocators "markcompact" + index selector * sizeof MarkCompactAllocator
      + byte_offset_of MarkCompactAllocator "bump_allocator") in
    Ok (Offsets (i32 (allocator_base_offset + byte_offset_of BumpAllocator "cursor"))
                (i32 (allocator_base_offset + byte_offset_of BumpAllocator "limit")))
  else Fatal.

(** ** Properties *)

(** The selectors the fast paths support, for allocators that exist. *)
Definition fastpath_selector (s : AllocatorSelector) : Prop :=
  0 ≤ index s ∧
  (tag s = TAG_BUMP_POINTER ∧ index s < Z.of_nat MAX_BUMP_ALLOCATORS ∨
   tag s = TAG_IMMIX ∧ index s < Z.of_nat MAX_IMMIX_ALLOCATORS ∨
   tag s = TAG_MARK_COMPACT ∧ index s < Z.of_nat MAX_MARK_COMPACT_ALLOCATORS).

(** Where the cursor of a selector is inside the mutator, in bytes. *)
Definition cursor_position (s : AllocatorSelector) : Z :=
  if decide (tag s = TAG_IMMIX) then 368 + 88 * index s
  else if decide (tag s = TAG_BUMP_POINTER) then 8 + 48 * index s
  else 656 + 48 * index s.

Lemma i32_small z : 0 ≤ z < 2 ^ 31 → i32 z = z.
Proof. intros. apply sign_small; [lia|]. by change (2 ^ (32 - 1)) with (2 ^ 31). Qed.

Lemma offsets_eq mo s :
  0 ≤ mo < 2 ^ 30 → fastpath_selector s →
  get_tlab_top_and_end_offsets mo s =
  Ok (Offsets (mo + cursor_position s) (mo + cursor_position s + 8)).
Proof.
  intros Hm [Hi Hs]. unfold get_tlab_top_and_end_offsets, cursor_position.
  change (byte_offset_of MMTkMutatorContext "allocators") with 0.
  change (byte_offset_of Allocators "immix") with 360.
  change (byte_offset_of Allocators "bump_pointer") with 0.
  change (byte_offset_of Allocators "markcompact") with 648.
  change (byte_offset_of MarkCompactAllocator "bump_allocator") with 0.
  change (sizeof ImmixAllocator) with 88.
  change (sizeof BumpAllocator) with 48. change (sizeof MarkCompactAllocator) with 48.
  change (byte_offset_of ImmixAllocator "cursor") with 8.
  change (byte_offset_of ImmixAllocator "limit") with 16.
  change (byte_offset_of BumpAllocator "cursor") with 8.
  change (byte_offset_of BumpAllocator "limit") with 16.
  unfold MAX_BUMP_ALLOCATORS, MAX_IMMIX_ALLOCATORS, MAX_MARK_COMPACT_ALLOCATORS in Hs.
  change (2 ^ 30) with 1073741824 in Hm.
  destruct Hs as [[Ht Hn]|[[Ht Hn]|[Ht Hn]]]; rewrite Ht; simpl;
    repeat match goal with
    | |- context [sign 32 ?z] =>
        lazymatch z with
        | context [sign _ _] => fail
        | _ => rewrite (i32_small z) by (change (2 ^ 31) with 2147483648; lia)
        end
    end; f_equal; f_equal; lia.
Qed.

(** *** Places in a structure *)

(** A step of a C expression: a member, or an element of an array. *)
Inductive access := Member (name : string) | Element (i : Z).

(** The offset and the type of the place that a path leads to. *)
Fixpoint place (t : ctype) (path : list access) : option (Z * ctype) :=
  match path with
  | [] => Some (0, t)
  | Member name :: path =>
      match t with
      | CStruct fs =>
          o ← field_offset fs name 0; u ← field_type fs name;
          '(o', v) ← place u path; Some (o + o', v)
      | _ => None
      end
  | Element i :: path =>
      match t with
      | CArray n u =>
          if decide (0 ≤ i < Z.of_nat n) then '(o', v) ← place u path; Some (i * sizeof u + o', v) else None
      | _ => None
      end
  end.

(** The allocator that mmtk-core means by a selector: [allocators.bump_pointer[i]],
    [allocators.immix[i]], [allocators.markcompact[i].bump_allocator]. *)
Definition selected_allocator (s : AllocatorSelector) : list access :=
  Member "allocators" ::
  if decide (tag s = TAG_BUMP_POINTER) then [Member "bump_pointer"; Element (index s)]
  else if decide (tag s = TAG_IMMIX) then [Member "immix"; Element (index s)]
  else [Member "markcompact"; Element (index s); Member "bump_allocator"].

Lemma selected_place s :
  fastpath_selector s →
  place MMTkMutatorContext (selected_allocator s ++ [Member "cursor"]) = Some (cursor_position s, CPtr) ∧
  place MMTkMutatorContext (selected_allocator s ++ [Member "limit"]) = Some (cursor_position s + 8, CPtr).
Proof.
  destruct s as [t i]. intros [Hi Hs]. cbn [tag index] in *.
  unfold MAX_BUMP_ALLOCATORS, MAX_IMMIX_ALLOCATORS, MAX_MARK_COMPACT_ALLOCATORS in Hs.
  destruct Hs as [[-> Hn]|[[-> Hn]|[-> Hn]]].
  - assert (i = 0 ∨ i = 1 ∨ i = 2 ∨ i = 3 ∨ i = 4 ∨ i = 5) as Hc by lia.
    repeat (destruct Hc as [-> | Hc]; [by split; vm_compute|]). subst. by split; vm_compute.
  - assert (i = 0 ∨ i = 1) as [-> | ->] by lia; by split; vm_compute.
  - assert (i = 0) as -> by lia. by split; vm_compute.
Qed.

Lemma cursor_position_ok s : fastpath_selector s → 0 ≤ cursor_position s ≤ 656 ∧ cursor_position s mod 8 = 0.
Proof.
  intros [Hi Hs]. unfold cursor_position.
  unfold MAX_BUMP_ALLOCATORS, MAX_IMMIX_ALLOCATORS, MAX_MARK_COMPACT_ALLOCATORS in Hs.
  destruct Hs as [[-> Hn]|[[-> Hn]|[-> Hn]]]; simpl; (split; [lia|]).
  - replace (8 + 48 * index s) with ((1 + 6 * index s) * 8) by lia. by apply Z.mod_mul.
  - replace (368 + 88 * index s) with ((46 + 11 * index s) * 8) by lia. by apply Z.mod_mul.
  - replace (656 + 48 * index s) with ((82 + 6 * index s) * 8) by lia. by apply Z.mod_mul.
Qed.

Lemma cursor_positions_apart s s' :
  fastpath_selector s → fastpath_selector s' → s' ≠ s →
  cursor_position s' + 16 ≤ cursor_position s ∨ cursor_position s + 16 ≤ cursor_position s'.
Proof.
  intros Hs Hs' Hne. destruct s as [t i], s' as [t' i'], Hs as [Hi Hs], Hs' as [Hi' Hs']; simpl in *.
  unfold cursor_position, MAX_BUMP_ALLOCATORS, MAX_IMMIX_ALLOCATORS, MAX_MARK_COMPACT_ALLOCATORS in *.
  assert (t ≠ t' ∨ i ≠ i') as Hd by (destruct (decide (t = t')); [right; congruence|by left]).
  destruct Hs as [[-> Hn]|[[-> Hn]|[-> Hn]]], Hs' as [[-> Hn']|[[-> Hn']|[-> Hn']]];
    simpl; try lia; (destruct Hd; [done|]); try lia.
Qed.

(** C35. For every allocator the fast paths support, the two offsets are those of
    its members [cursor] and [limit], found through the structures of the mutator:
    pointers, at [8 + 48 i], [368 + 88 i] and [656 + 48 i] bytes for bump-pointer,
    Immix and mark-compact allocators; they are aligned words inside the thread's
    mutator, the limit directly follows the cursor, and no two allocators share a
    word. *)
Theorem tlab_offsets_sound mo s :
  0 ≤ mo < 2 ^ 30 → fastpath_selector s →
  ∃ o, get_tlab_top_and_end_offsets mo s = Ok o ∧
    place MMTkMutatorContext (selected_allocator s ++ [Member "cursor"]) = Some (tlab_top_offset o - mo, CPtr) ∧
    place MMTkMutatorContext (selected_allocator s ++ [Member "limit"]) = Some (tlab_end_offset o - mo, CPtr) ∧
    tlab_top_offset o = mo + cursor_position s ∧
    mo ≤ tlab_top_offset o ∧ tlab_end_offset o = tlab_top_offset o + 8 ∧
    tlab_end_offset o + 8 ≤ mo + sizeof MMTkMutatorContext ∧
    (tlab_top_offset o - mo) mod 8 = 0 ∧
    (∀ s' o', fastpath_selector s' → get_tlab_top_and_end_offsets mo s' = Ok o' → s' ≠ s →
       tlab_top_offset o' + 16 ≤ tlab_top_offset o ∨ tlab_top_offset o + 16 ≤ tlab_top_offset o').
Proof.
  intros Hm Hs. rewrite offsets_eq by done. eexists; split; [done|]. cbn [tlab_top_offset tlab_end_offset].
  destruct (selected_place s Hs) as [-> ->]. destruct (cursor_position_ok s Hs) as [Hb Hmod].
  change (sizeof MMTkMutatorContext) with 784.
  split_and!; [do 2 f_equal; lia|do 2 f_equal; lia|done|lia|lia|lia| |].
  - by replace (mo + cursor_position s - mo) with (cursor_position s) by lia.
  - intros s' o' Hs'. rewrite offsets_eq by done. intros [= <-] Hne. cbn [tlab_top_offset].
    destruct (cursor_positions_apart s s' Hs Hs' Hne); lia.
Qed.

Lemma tlab_offsets_sound_witness :
  ∃ o, get_tlab_top_and_end_offsets 1000 (Selector TAG_IMMIX 1) = Ok o ∧
    tlab_top_offset o = 1456 ∧ tlab_end_offset o = tlab_top_offset o + 8.
Proof.
  destruct (tlab_offsets_sound 1000 (Selector TAG_IMMIX 1)) as (o & E & _ & _ & Ht & _ & H & _).
  - lia.
  - split; [simpl; lia|]. right. left. split; [reflexivity|reflexivity].
  - exists o. split; [exact E|]. split; [rewrite Ht; reflexivity|exact H].
Defined.

(** No fast path exists for the other allocators: asking for their offsets
    stops the machine, whatever the index. *)
Theorem other_selectors_fatal mo s :
  tag s ≠ TAG_IMMIX → tag s ≠ TAG_BUMP_POINTER → tag s ≠ TAG_MARK_COMPACT →
  get_tlab_top_and_end_offsets mo s = Fatal.
Proof. intros. unfold get_tlab_top_and_end_offsets. by rewrite !decide_False. Qed.

Lemma other_selectors_fatal_witness :
  get_tlab_top_and_end_offsets 0 (Selector TAG_FREE_LIST 0) = Fatal.
Proof. by apply (other_selectors_fatal 0 (Selector TAG_FREE_LIST 0)). Defined.
