(* ===== verification/Abi.v ===== *)
(** * Class metadata

    The structures of [mmtk/src/abi.rs], which mirror HotSpot's classes so that
    the collector can read them in memory without a call, with the layout
    [repr(C)] gives them; the fields that scanning reads ([ObjectScan.Klass]), at
    the places where HotSpot has them; and the comparison with HotSpot's own layout, [validate_memory_layouts] and
    the upcall [compute_klass_mem_layout_checksum] of [mmtkUpcalls.cpp]. *)

From stdpp Require Import base numbers list strings.
From Stdlib Require Import ZArith Lia.
From S2P Require Import Prelude Slots SlotRanges ObjectScan ObjectLayout Layout.

Local Open Scope Z_scope.

(** ** The structures *)

Section structures.
Local Open Scope string_scope.
(** [cfg(debug_assertions)]: two fields exist in debug builds only. *)
Variable debug_assertions : bool.

Definition cfg (fields : list (string * ctype)) : list (string * ctype) :=
  if debug_assertions then fields else [].

Definition Klass := CStruct (
  [("vptr", CPtr)] ++ cfg [("valid", CInt)] ++
  [("layout_helper", CInt); ("id", CInt); ("super_check_offset", CInt); ("name", CPtr);
   ("secondary_super_cache", CPtr); ("secondary_supers", CPtr); ("primary_supers", CArray 8 CPtr);
   ("java_mirror", CPtr); ("super_", CPtr); ("subklass", CPtr); ("next_sibling", CPtr);
   ("next_link", CPtr); ("class_loader_data", CPtr); ("modifier_flags", CInt);
   ("access_flags", CInt); ("trace_id", CPtr); ("last_biased_lock_bulk_revocation_time", CPtr);
   ("prototype_header", CPtr); ("biased_lock_revocation_count", CInt); ("vtable_len", CInt);
   ("shared_class_path_index", CShort)]).

Definition InstanceKlass := CStruct (
  [("klass", Klass); ("annotations", CPtr); ("package_entry", CPtr); ("array_klasses", CPtr);
   ("constants", CPtr); ("inner_classes", CPtr); ("nest_members", CPtr); ("nest_host_index", CShort);
   ("nest_host", CPtr); ("source_debug_extension", CPtr); ("array_name", CPtr);
   ("nonstatic_field_size", CInt); ("static_field_size", CInt); ("generic_signature_index", CShort);
   ("source_file_name_index", CShort); ("static_oop_field_count", CShort);
   ("java_fields_count", CShort); ("nonstatic_oop_map_size", CInt); ("itable_len", CInt);
   ("is_marked_dependent", CByte); ("is_being_redefined", CByte); ("misc_flags", CShort);
   ("minor_version", CShort); ("major_version", CShort); ("init_thread", CPtr);
   ("oop_map_cache", CPtr); ("jni_ids", CPtr); ("methods_jmethod_ids", CPtr); ("dep_context", CPtr);
   ("osr_nmethods_head", CPtr); ("breakpoints", CPtr); ("previous_versions", CPtr);
   ("cached_class_file", CPtr); ("idnum_allocated_count", CShort); ("init_state", CByte);
   ("reference_type", CByte); ("this_class_index", CShort); ("jvmti_cached_class_field_map", CPtr)] ++
  cfg [("verify_count", CInt)] ++
  [("methods", CPtr); ("default_methods", CPtr); ("local_interfaces", CPtr);
   ("transitive_interfaces", CPtr); ("method_ordering", CPtr); ("default_vtable_indices", CPtr);
   ("fields", CPtr)]).

Definition InstanceMirrorKlass := CStruct [("instance_klass", InstanceKlass)].
Definition InstanceClassLoaderKlass := CStruct [("instance_klass", InstanceKlass)].
Definition InstanceRefKlass := CStruct [("instance_klass", InstanceKlass)].

Definition ArrayKlass := CStruct
  [("klass", Klass); ("dimension", CInt); ("higher_dimension", CPtr); ("lower_dimension", CPtr)].
Definition ObjArrayKlass := CStruct
  [("array_klass", ArrayKlass); ("element_klass", CPtr); ("bottom_klass", CPtr)].
Definition TypeArrayKlass := CStruct [("array_klass", ArrayKlass); ("max_length", CInt)].

(** The union of a class pointer and a narrow one has the size of the former. *)
Definition OopDesc := CStruct [("mark", CPtr); ("klass", CPtr)].
Definition OopMapBlock := CStruct [("offset", CInt); ("count", CInt)].

(** ** Reading a class *)

(** The discriminants, as [repr(u8)] numbers them. *)
Definition reference_type_of (n : Z) : option ReferenceType :=
  match n with
  | 0 => Some NoReference | 1 => Some Other | 2 => Some Soft
  | 3 => Some Weak | 4 => Some Final | 5 => Some Phantom
  | _ => None
  end.

Definition field_address (t : ctype) (k : Z) (name : string) : Z := k + byte_offset_of t name.

(** What scanning reads of the class at [k]; a byte that is no [ReferenceType]
    is undefined behaviour. *)
Definition read_klass (m : mem) (k : Z) : outcome ObjectScan.Klass :=
  match reference_type_of (read 1 m (field_address InstanceKlass k "reference_type")) with
  | None => Undef
  | Some rt => Ok {|
      layout_helper := i32_at m (field_address Klass k "layout_helper");
      id := i32_at m (field_address Klass k "id");
      vtable_len := i32_at m (field_address Klass k "vtable_len");
      itable_len := i32_at m (field_address InstanceKlass k "itable_len");
      nonstatic_oop_map_size := i32_at m (field_address InstanceKlass k "nonstatic_oop_map_size");
      reference_type := rt |}
  end.

(** ** The comparison with HotSpot *)

(** The sizes of seven structures, in bytes. *)
Record klass_sizes := KlassSizes {
  Klass_size : Z; InstanceKlass_size : Z; InstanceRefKlass_size : Z; InstanceMirrorKlass_size : Z;
  InstanceClassLoaderKlass_size : Z; TypeArrayKlass_size : Z; ObjArrayKlass_size : Z
}.

(** The upcall: [v] has HotSpot's sizes. *)
Definition compute_klass_mem_layout_checksum (v : klass_sizes) : Z :=
  Z.lxor (Z.lxor (Z.lxor (Z.lxor (Z.lxor (Z.lxor (Klass_size v)
    (InstanceKlass_size v))
    (InstanceRefKlass_size v))
    (InstanceMirrorKlass_size v))
    (InstanceClassLoaderKlass_size v))
    (TypeArrayKlass_size v))
    (ObjArrayKlass_size v).

Definition binding_checksum : Z :=
  Z.lxor (Z.lxor (Z.lxor (Z.lxor (Z.lxor (Z.lxor (sizeof Klass)
    (sizeof InstanceKlass))
    (sizeof InstanceRefKlass))
    (sizeof InstanceMirrorKlass))
    (sizeof InstanceClassLoaderKlass))
    (sizeof TypeArrayKlass))
    (sizeof ObjArrayKlass).

(** [assert_eq!] panics. *)
Definition validate_memory_layouts (vm_checksum : Z) : outcome unit :=
  guarantee (bool_decide (vm_checksum = binding_checksum)).

End structures.

Arguments field_address _ _ _%_string.

(** ** Where HotSpot's fields are *)

(** Each class structure starts with its [Klass], and an instance class with its
    [InstanceKlass], as the casts of the binding assume. *)
Lemma casts_sound debug :
  byte_offset_of (InstanceKlass debug) "klass" = 0 ∧ byte_offset_of (ArrayKlass debug) "klass" = 0 ∧
  byte_offset_of (ObjArrayKlass debug) "array_klass" = 0 ∧ byte_offset_of (TypeArrayKlass debug) "array_klass" = 0 ∧
  Forall (λ t, byte_offset_of t "instance_klass" = 0)
    [InstanceMirrorKlass debug; InstanceClassLoaderKlass debug; InstanceRefKlass debug].
Proof. by destruct debug; repeat constructor. Qed.

(** Where the six fields are. *)
Lemma class_offsets debug :
  (byte_offset_of (Klass debug) "layout_helper" = if debug then 12 else 8) ∧
  (byte_offset_of (Klass debug) "id" = if debug then 16 else 12) ∧
  byte_offset_of (Klass debug) "vtable_len" = 196 ∧
  byte_offset_of (InstanceKlass debug) "nonstatic_oop_map_size" = 304 ∧
  byte_offset_of (InstanceKlass debug) "itable_len" = 308 ∧
  byte_offset_of (InstanceKlass debug) "reference_type" = 395.
Proof. by destruct debug. Qed.

Lemma instance_klass_size debug : sizeof (InstanceKlass debug) = if debug then 472 else 464.
Proof. by destruct debug. Qed.

(** The numbers of HotSpot's [ReferenceType]. *)
Definition reference_type_code (rt : ReferenceType) : Z :=
  match rt with NoReference => 0 | Other => 1 | Soft => 2 | Weak => 3 | Final => 4 | Phantom => 5 end.

(** A class of HotSpot in memory, in a debug and in a release build: [_layout_helper],
    [_id], [_vtable_len], [_nonstatic_oop_map_size], [_itable_len] and
    [_reference_type]. *)
Record class_in_memory (debug : bool) (m : mem) (k : Z) (c : ObjectScan.Klass) : Prop := {
  at_layout_helper : i32_at m (k + if debug then 12 else 8) = layout_helper c;
  at_id : i32_at m (k + if debug then 16 else 12) = id c;
  at_vtable_len : i32_at m (k + 196) = vtable_len c;
  at_oop_map_size : i32_at m (k + 304) = nonstatic_oop_map_size c;
  at_itable_len : i32_at m (k + 308) = itable_len c;
  at_reference_type : read 1 m (k + 395) = reference_type_code (reference_type c)
}.

Lemma read_klass_in_memory debug m k c : class_in_memory debug m k c → read_klass debug m k = Ok c.
Proof.
  intros [H1 H2 H3 H4 H5 H6]. unfold read_klass, field_address.
  destruct (class_offsets debug) as (-> & -> & -> & -> & -> & ->). rewrite H1, H2, H3, H4, H5, H6.
  by destruct c as [? ? ? ? ? []].
Qed.

(** ** Scanning from the bytes of a class *)

(** The class that the collector sees at [k]. *)
Definition klass_of_memory (debug : bool) (m : mem) (k : Z) : ObjectScan.Klass :=
  match read_klass debug m k with Ok c => c | _ => MkKlass 0 (-1) 0 0 0 NoReference end.

Section scanning.
Variables debug COMPRESSED no_reference_types : bool.
Variables COMPRESSED_KLASS_BASE COMPRESSED_KLASS_SHIFT : Z.
Variables offset_of_static_fields static_oop_field_count_offset referent_offset discovered_offset : Z.
Variable get_object_size : mem → Z → Z.

Abbreviation laid_out_as klasses size := (laid_out COMPRESSED COMPRESSED_KLASS_BASE COMPRESSED_KLASS_SHIFT klasses size
  offset_of_static_fields static_oop_field_count_offset referent_offset discovered_offset get_object_size).

Lemma laid_out_same_class klasses1 klasses2 size kind m oop k layout :
  klasses1 k = klasses2 k → laid_out_as klasses1 size kind m oop k layout → laid_out_as klasses2 size kind m oop k layout.
Proof.
  intros E [H1 H2 H3 H4 H5 H6 H7 H8 H9 H10 H11]. rewrite E in *. split; try done.
  intros Ha. destruct (H7 Ha) as [Hs (vt & it & bs & [C1 C2 C3 C4 C5] & Hp)]. split; [done|].
  exists vt, it, bs. split; [|done]. rewrite E in *. by split.
Qed.

(** C39. The mirrored structures lead a scan to the references: where HotSpot has
    the six fields of a class at their places in memory, in a debug or a release
    build, and its vtable, itable and oop maps behind the 472 or 464 bytes of an
    [InstanceKlass], a collector that reads the class through the binding's
    structures finds the references of an object of that class, each once, and its
    size. *)
Theorem scan_from_class_bytes kind m oop k c layout :
  class_in_memory debug m k c →
  laid_out_as (λ _, c) (if debug then 472 else 464) kind m oop k layout →
  let classes := klass_of_memory debug m in
  ∃ es,
    oop_iterate COMPRESSED COMPRESSED_KLASS_BASE COMPRESSED_KLASS_SHIFT classes (sizeof (InstanceKlass debug))
      offset_of_static_fields static_oop_field_count_offset referent_offset discovered_offset no_reference_types
      m oop = Ok es ∧
    size COMPRESSED COMPRESSED_KLASS_BASE COMPRESSED_KLASS_SHIFT classes get_object_size m oop =
      header COMPRESSED + total COMPRESSED layout ∧
    visited es ++ ((λ _, oop + referent_offset) <$> handed es) ≡ₚ
      Z.add oop <$> reference_fields COMPRESSED (header COMPRESSED) layout ∧
    NoDup (visited es).
Proof.
  intros Hc Hlo classes. assert (classes k = c) as Ek.
  { unfold classes, klass_of_memory. by rewrite (read_klass_in_memory debug m k c Hc). }
  destruct (scan_laid_out COMPRESSED COMPRESSED_KLASS_BASE COMPRESSED_KLASS_SHIFT classes (sizeof (InstanceKlass debug))
    offset_of_static_fields static_oop_field_count_offset referent_offset discovered_offset get_object_size
    no_reference_types kind m oop k layout) as (es & E & Es & _ & Hv & Hd & _).
  - rewrite instance_klass_size. eapply laid_out_same_class; [|exact Hlo]. by rewrite Ek.
  - by exists es.
Qed.

End scanning.

(** A weak reference at 8192, whose class is at 1600 in a release build, with one
    entry in its vtable and two in its itable. *)
Definition class_bytes : mem :=
  write 4 (write 4 (write 4 (write 4 (write 4 (write 4 (write 1 (write 4 (write 4 (λ _, 0)
    1608 32) 1612 1) 1995 3) 1796 1) 1904 1) 1908 2) 2088 12) 2092 1) 8200 200.

Lemma scan_from_class_bytes_witness :
  ∃ es, oop_iterate true 0 3 (klass_of_memory false class_bytes) (sizeof (InstanceKlass false)) 0 0 16 20 false
      class_bytes 8192 = Ok es ∧
    visited es ++ ((λ _, 8208) <$> handed es) ≡ₚ [8204; 8208; 8212].
Proof.
  destruct (scan_from_class_bytes false true false 0 3 0 0 16 20 (λ _ _, 0) InstanceRef class_bytes 8192 1600
    (MkKlass 32 1 1 2 1 Weak) [Reference; Reference; Reference; Bytes 8]) as (es & E & _ & P & _).
  - split; vm_compute; reflexivity.
  - split; try discriminate.
    + vm_compute. reflexivity.
    + vm_compute. split_and!; (discriminate || reflexivity).
    + reflexivity.
    + vm_compute. split; discriminate.
    + repeat constructor; discriminate.
    + by exists 4.
    + intros _. split; [by left|]. exists [0], [0; 0], [(12, 1)]. split.
      * split; try reflexivity; [by exists 58|]. cbn [fmap list_fmap app entries_at entry_at fst snd].
        split_and!; vm_compute; reflexivity.
      * change (reference_fields true (header true) [Reference; Reference; Reference; Bytes 8]) with [12; 16; 20].
        change ([(12, 1)] ≫= block_fields true) with [12]. reflexivity.
  - exists es. split; [exact E|exact P].
Defined.

(** The offsets that [ObjectScan] uses for the class of an object and the length
    of an array, and its start of the vtable. *)
Lemma scan_offsets debug COMPRESSED klass_at k :
  byte_offset_of OopDesc "klass" = 8 ∧
  length_offset COMPRESSED = byte_offset_of OopDesc "klass" + (if COMPRESSED then sizeof CInt else sizeof CPtr) ∧
  start_of_vtable (sizeof (InstanceKlass debug)) k = k + sizeof (InstanceKlass debug) ∧
  start_of_itable klass_at (sizeof (InstanceKlass debug)) k =
    k + sizeof (InstanceKlass debug) + 8 * vtable_len (klass_at k) ∧
  byte_offset_of OopMapBlock "offset" = 0 ∧ byte_offset_of OopMapBlock "count" = 4.
Proof. by destruct debug, COMPRESSED. Qed.

(** ** What the comparison finds *)

Definition sizes_list (v : klass_sizes) : list Z :=
  [Klass_size v; InstanceKlass_size v; InstanceRefKlass_size v; InstanceMirrorKlass_size v;
   InstanceClassLoaderKlass_size v; TypeArrayKlass_size v; ObjArrayKlass_size v].

Definition binding_sizes (debug : bool) : klass_sizes :=
  KlassSizes (sizeof (Klass debug)) (sizeof (InstanceKlass debug)) (sizeof (InstanceRefKlass debug))
    (sizeof (InstanceMirrorKlass debug)) (sizeof (InstanceClassLoaderKlass debug))
    (sizeof (TypeArrayKlass debug)) (sizeof (ObjArrayKlass debug)).

(** All classes of instances with the same size [n]: HotSpot's subclasses of
    [InstanceKlass] add no field to it. *)
Definition with_instance_size (n : Z) (v : klass_sizes) : klass_sizes :=
  KlassSizes (Klass_size v) n n n n (TypeArrayKlass_size v) (ObjArrayKlass_size v).

Lemma checksum_fold v : compute_klass_mem_layout_checksum v = foldr Z.lxor 0 (sizes_list v).
Proof. unfold compute_klass_mem_layout_checksum. simpl. by rewrite Z.lxor_0_r, !Z.lxor_assoc. Qed.

Lemma binding_checksum_eq debug :
  binding_checksum debug = compute_klass_mem_layout_checksum (binding_sizes debug).
Proof.
  unfold binding_checksum, compute_klass_mem_layout_checksum, binding_sizes.
  cbn [Klass_size InstanceKlass_size InstanceRefKlass_size InstanceMirrorKlass_size
    InstanceClassLoaderKlass_size TypeArrayKlass_size ObjArrayKlass_size]. reflexivity.
Qed.

Lemma validate_iff debug v :
  validate_memory_layouts debug (compute_klass_mem_layout_checksum v) = Ok tt ↔
  foldr Z.lxor 0 (sizes_list v) = foldr Z.lxor 0 (sizes_list (binding_sizes debug)).
Proof.
  rewrite <-!checksum_fold, <-binding_checksum_eq. unfold validate_memory_layouts.
  destruct (decide (compute_klass_mem_layout_checksum v = binding_checksum debug)) as [E|E].
  - by rewrite bool_decide_eq_true_2.
  - by rewrite bool_decide_eq_false_2.
Qed.

Lemma validate_cases debug c : validate_memory_layouts debug c = Ok tt ∨ validate_memory_layouts debug c = Fatal.
Proof. unfold validate_memory_layouts. case_bool_decide; auto. Qed.

(** Changing one number changes the checksum. *)
Lemma lxor_insert l i x y :
  l !! i = Some x → foldr Z.lxor 0 (<[i := y]> l) = foldr Z.lxor 0 l → y = x.
Proof.
  revert i. induction l as [|z l IH]; intros [|i]; simpl; [done..| |].
  - intros [= ->] E. apply (f_equal (λ w, Z.lxor w (foldr Z.lxor 0 l))) in E.
    by rewrite !Z.lxor_assoc, Z.lxor_nilpotent, !Z.lxor_0_r in E.
  - intros Hi E. apply (f_equal (Z.lxor z)) in E.
    rewrite <-!Z.lxor_assoc, Z.lxor_nilpotent, !Z.lxor_0_l in E. by apply (IH i).
Qed.

(** C37. The comparison accepts a virtual machine with the binding's sizes, and it
    stops the machine as soon as exactly one of the seven sizes is different. *)
Theorem layout_check_one_mismatch debug v i n x :
  sizes_list (binding_sizes debug) !! i = Some x → sizes_list v = <[i := n]> (sizes_list (binding_sizes debug)) →
  validate_memory_layouts debug (compute_klass_mem_layout_checksum v) = if decide (n = x) then Ok tt else Fatal.
Proof.
  intros Hi Hv. case_decide as Hn.
  - apply validate_iff. by rewrite Hv, Hn, list_insert_id.
  - destruct (validate_cases debug (compute_klass_mem_layout_checksum v)) as [H|]; [|done].
    apply validate_iff in H. rewrite Hv in H. by apply (lxor_insert _ _ _ _ Hi) in H.
Qed.

(** A virtual machine whose [TypeArrayKlass] has no [_max_length]. *)
Lemma layout_check_one_mismatch_witness :
  validate_memory_layouts false (compute_klass_mem_layout_checksum (KlassSizes 208 464 464 464 464 232 248)) = Fatal.
Proof.
  pose proof (layout_check_one_mismatch false (KlassSizes 208 464 464 464 464 232 248) 5 232 240) as H.
  rewrite decide_False in H by lia. apply H; reflexivity.
Defined.

(** The comparison does not see the size of [InstanceKlass]: the subclasses
    have the same size, and four equal numbers cancel in the checksum.  So it
    accepts every size of instance classes if the array classes are right,
    although the vtable, and behind it the oop maps, are found from that size; and
    a debug build of the binding accepts a release build of HotSpot and the other
    way round, although every [layout_helper] is then read four bytes off. *)
Theorem layout_check_blind debug n v :
  validate_memory_layouts debug (compute_klass_mem_layout_checksum (with_instance_size n v)) =
  validate_memory_layouts debug (compute_klass_mem_layout_checksum (with_instance_size 0 v)) ∧
  validate_memory_layouts debug (compute_klass_mem_layout_checksum (with_instance_size n (binding_sizes debug))) = Ok tt ∧
  validate_memory_layouts debug (compute_klass_mem_layout_checksum (binding_sizes (negb debug))) = Ok tt ∧
  byte_offset_of (Klass debug) "layout_helper" ≠ byte_offset_of (Klass (negb debug)) "layout_helper" ∧
  sizeof (InstanceKlass debug) ≠ sizeof (InstanceKlass (negb debug)).
Proof.
  assert (∀ w, compute_klass_mem_layout_checksum (with_instance_size n w) =
               compute_klass_mem_layout_checksum (with_instance_size 0 w)) as E.
  { intros w. rewrite !checksum_fold. simpl. f_equal. rewrite !Z.lxor_0_l.
    rewrite <-(Z.lxor_assoc n), Z.lxor_nilpotent, Z.lxor_0_l.
    by rewrite <-(Z.lxor_assoc n), Z.lxor_nilpotent, Z.lxor_0_l. }
  rewrite !E. split; [reflexivity|].
  destruct debug; split_and!; vm_compute; (reflexivity || discriminate).
Qed.
