(* ===== verification/Mutator.v ===== *)
(** * Mutators and slow-path allocation

    [mmtkMutator.cpp], and the thread callbacks of [mmtkBarrierSet.cpp].  The
    functions of mmtk-core they call ([bind_mutator], [alloc], [post_alloc],
    [flush_mutator], [destroy_mutator]) are the operations of [MutatorCore];
    what the binding owes them is stated with the account mmtk-core keeps of
    objects that are allocated and not yet initialised by [post_alloc]. *)

From stdpp Require Import base numbers list.
From Stdlib Require Import ZArith Lia.
From S2P Require Import Prelude Layout.

Local Open Scope Z_scope.

Inductive Allocator :=
| AllocatorDefault | AllocatorImmortal | AllocatorLos | AllocatorCode | AllocatorReadOnly.
#[export] Instance Allocator_eq_dec : EqDecision Allocator.
Proof. solve_decision. Defined.

(** The value passed to mmtk-core. *)
Definition allocator_number (a : Allocator) : Z :=
  match a with
  | AllocatorDefault => 0 | AllocatorImmortal => 1 | AllocatorLos => 2 | AllocatorCode => 3
  | AllocatorReadOnly => 4
  end.

Definition HeapWordSize : Z := 8.

(** ** mmtk-core *)

(** A request: the object, its size, and the allocator it was asked from. *)
Definition request : Type := Z * Z * Z.

(** Mutators are addresses.  [uninitialised] is the account of the objects that
    [alloc] has returned and [post_alloc] has not been called for; the laws are
    the documented protocol of the two functions. *)
Class MutatorCore (C : Type) := {
  core_bind : C → Z → outcome (Z * C);
  core_alloc : C → Z → Z → Z → Z → Z → Z * C;     (* mutator size align offset allocator *)
  core_post_alloc : C → Z → Z → Z → Z → C;         (* mutator object bytes allocator *)
  core_flush : C → Z → C;
  core_destroy : C → Z → C;
  core_gc_initialized : C → bool;
  FREE_LIST_ALLOCATOR_SIZE : Z;
  uninitialised : C → list request;
  live_mutators : C → list Z;
  unflushed : C → list Z;
  alloc_account c m b al off a :
    let '(o, c') := core_alloc c m b al off a in
    uninitialised c' = if decide (o = 0) then uninitialised c else (o, b, a) :: uninitialised c;
  post_alloc_account c m o b a l :
    uninitialised c = (o, b, a) :: l → uninitialised (core_post_alloc c m o b a) = l;
  flush_account c m : unflushed (core_flush c m) = filter (λ x, x ≠ m) (unflushed c);
  flush_live c m : live_mutators (core_flush c m) = live_mutators c;
  destroy_account c m : unflushed (core_destroy c m) = unflushed c;
  destroy_live c m : live_mutators (core_destroy c m) = filter (λ x, x ≠ m) (live_mutators c)
}.

Section mutator.
Context {C : Type} `{MutatorCore C}.
(** [max_non_los_default_alloc_bytes], cached from mmtk-core. *)
Variable max_non_los_default_alloc_bytes : Z.

Definition bind (c : C) (current : Z) : outcome (Z * C) :=
  guarantee (bool_decide (FREE_LIST_ALLOCATOR_SIZE = sizeof FreeListAllocator));;
  core_bind c current.

Definition is_ready_to_bind (c : C) : bool := core_gc_initialized c.

Definition alloc (c : C) (this bytes : Z) (allocator : Allocator) : Z * C :=
  let allocator :=
    if decide (max_non_los_default_alloc_bytes ≤ bytes) then AllocatorLos else allocator in
  let '(o, c) := core_alloc c this bytes HeapWordSize 0 (allocator_number allocator) in
  if decide (o ≠ 0) then (o, core_post_alloc c this o bytes (allocator_number allocator))
  else (o, c).

(** [MMTkHeap::mem_allocate] and [mem_allocate_nonmove]: a size in words. *)
Definition mem_allocate (c : C) (this size : Z) : Z * C :=
  alloc c this (u64 (Z.shiftl size 3)) AllocatorDefault.
Definition mem_allocate_nonmove (c : C) (this size : Z) : Z * C :=
  alloc c this (u64 (Z.shiftl size 3)) AllocatorLos.

Definition flush (c : C) (this : Z) : C := core_flush c this.
Definition destroy (c : C) (this : Z) : C := core_destroy c this.

(** [MMTkBarrierSet::on_thread_destroy], [on_thread_attach], [on_thread_detach]. *)
Definition on_thread_destroy (c : C) (thread : Z) : C := destroy (flush c thread) thread.
Definition on_thread_attach (c : C) (thread : Z) : C := flush c thread.
Definition on_thread_detach (c : C) (thread : Z) : C := flush c thread.

(** A run of allocations, returning the objects. *)
Fixpoint allocs (c : C) (this : Z) (rs : list (Z * Allocator)) : list Z * C :=
  match rs with
  | [] => ([], c)
  | (bytes, a) :: rs =>
      let '(o, c) := alloc c this bytes a in
      let '(os, c) := allocs c this rs in (o :: os, c)
  end.

Lemma alloc_initialises c this bytes a o c' :
  alloc c this bytes a = (o, c') → uninitialised c' = uninitialised c.
Proof.
  unfold alloc. set (n := allocator_number _). intros E.
  pose proof (alloc_account c this bytes HeapWordSize 0 n) as Ha.
  destruct (core_alloc c this bytes HeapWordSize 0 n) as [o1 c1].
  destruct (decide (o1 = 0)) as [->|Hn]; simpl in E.
  - by simplify_eq.
  - rewrite decide_True in E by done. simplify_eq. by eapply post_alloc_account.
Qed.

(** [MMTkMutatorContext::alloc] leaves no object uninitialised: after any
    run of allocations, some of which may fail, mmtk-core has had [post_alloc]
    for exactly the objects it returned, with the size and the allocator they
    were allocated with, and a failed allocation has had none. *)
Theorem allocs_initialised c this rs os c' :
  allocs c this rs = (os, c') →
  uninitialised c' = uninitialised c ∧ length os = length rs.
Proof.
  revert c os c'. induction rs as [|[bytes a] rs IH]; intros c os c' E; simpl in E.
  { by simplify_eq. }
  destruct (alloc c this bytes a) as [o c1] eqn:E1.
  destruct (allocs c1 this rs) as [os1 c2] eqn:E2. simplify_eq.
  destruct (IH _ _ _ E2) as [-> Hl]. split; [by eapply alloc_initialises|simpl; lia].
Qed.

(** Large objects go to the large-object space whatever allocator was asked
    for; smaller ones to the allocator asked for. *)
Lemma alloc_allocator c this bytes a :
  (alloc c this bytes a).1 =
  (core_alloc c this bytes 8 0
     (if decide (max_non_los_default_alloc_bytes ≤ bytes) then 2 else allocator_number a)).1.
Proof.
  unfold alloc, HeapWordSize. destruct (decide (_ ≤ bytes)); simpl;
    by destruct (core_alloc _ _ _ _ _ _) as [o c1]; case_decide.
Qed.

(** A request of [size] words asks mmtk-core for [8 * size] bytes, as long as they
    can be counted; beyond that the shift wraps around. *)
Lemma mem_allocate_bytes c this size :
  0 ≤ size → mem_allocate c this size = alloc c this (8 * (size mod 2 ^ 61)) AllocatorDefault.
Proof.
  intros Hs. unfold mem_allocate, wrap. rewrite Z.shiftl_mul_pow2 by lia. f_equal.
  change (2 ^ 64) with (2 ^ 61 * 2 ^ 3). rewrite Z.mul_mod_distr_r by lia. lia.
Qed.

(** Binding stops the machine unless mmtk-core and C++ agree on the size of the
    free-list allocator. *)
Lemma bind_checks_layout c t :
  bind c t = if decide (FREE_LIST_ALLOCATOR_SIZE = 56) then core_bind c t else Fatal.
Proof. unfold bind. change (sizeof FreeListAllocator) with 56. by repeat case_decide || case_bool_decide. Qed.

(** A destroyed thread's mutator is flushed first, and then gone. *)
Lemma on_thread_destroy_ok c t :
  (t ∉ unflushed (on_thread_destroy c t)) ∧ (t ∉ live_mutators (on_thread_destroy c t)).
Proof.
  unfold on_thread_destroy, destroy, flush. rewrite destroy_account, flush_account, destroy_live.
  split; intros [? _]%list_elem_of_filter; done.
Qed.

End mutator.

(** ** A concrete mmtk-core *)

(** Bump allocation up to a limit; the account is kept as the laws say. *)
Record toy_core := Toy { next : Z; limit : Z; account : list request; muts : list Z; dirty : list Z }.

#[export] Instance toy_mutator_core : MutatorCore toy_core.
Proof.
  refine {|
    core_bind c t := Ok (t, Toy (next c) (limit c) (account c) (t :: muts c) (dirty c));
    core_alloc c m b al off a :=
      if decide (next c + b ≤ limit c ∧ next c ≠ 0)
      then (next c, Toy (next c + b) (limit c) ((next c, b, a) :: account c) (muts c) (dirty c))
      else (0, c);
    core_post_alloc c m o b a := Toy (next c) (limit c) (tail (account c)) (muts c) (dirty c);
    core_flush c m := Toy (next c) (limit c) (account c) (muts c) (filter (λ x, x ≠ m) (dirty c));
    core_destroy c m := Toy (next c) (limit c) (account c) (filter (λ x, x ≠ m) (muts c)) (dirty c);
    core_gc_initialized c := true;
    FREE_LIST_ALLOCATOR_SIZE := 56;
    uninitialised := account; live_mutators := muts; unflushed := dirty
  |}; try done.
  - intros c m b al off a. case_decide as Hd; simpl; [|done]. rewrite decide_False; [done|apply Hd].
  - intros c m o b a l Hc. simpl. by rewrite Hc.
Defined.

Lemma allocs_initialised_witness :
  let r := allocs 1000 (Toy 4096 8192 [] [] []) 1 [(24, AllocatorDefault); (2000, AllocatorDefault); (9000, AllocatorCode)] in
  r.1 = [4096; 4120; 0] ∧ uninitialised r.2 = [].
Proof.
  split; [vm_compute; reflexivity|].
  refine (proj1 (allocs_initialised 1000 (Toy 4096 8192 [] [] []) 1
    [(24, AllocatorDefault); (2000, AllocatorDefault); (9000, AllocatorCode)] [4096; 4120; 0] _ _)).
  vm_compute. reflexivity.
Defined.
