(* ===== verification/Barrier.v ===== *)
(** * Write barriers: the runtime

    [MMTkBarrierSetRuntime] and [MMTkBarrierSet::AccessBarrier]
    ([mmtkBarrierSet.hpp], [mmtkBarrierSet.cpp]) and the runtime halves of the
    barriers ([barriers/mmtkNoBarrier.hpp], [mmtkObjectBarrier.cpp/.hpp],
    [mmtkSATBBarrier.cpp/.hpp]).  A runtime is a record of its virtual
    functions.  mmtk-core and HotSpot's raw accesses are the interfaces
    [BarrierCore] and [RawAccess]. *)

From stdpp Require Import base numbers list strings.
From Stdlib Require Import ZArith Lia.
From S2P Require Import Prelude Slots.

Local Open Scope Z_scope.

(** Reference slots hold object addresses; 0 is null. *)
Definition oop_heap := Z → Z.

(** ** Side metadata: one bit per 8 bytes *)

(** [(uint8_t* ) (base + (addr >> 6))] and [(addr >> 3) & 0b111], on [intptr_t]. *)
Definition meta_addr (base addr : Z) : Z := base + Z.shiftr (i64 addr) 6.
Definition meta_shift (addr : Z) : Z := Z.land (Z.shiftr (i64 addr) 3) 7.

(** [((byte_val >> shift) & 1) == 1]. *)
Definition meta_bit (base : Z) (m : mem) (addr : Z) : bool :=
  let byte_val := u8 (m (meta_addr base addr)) in
  bool_decide (Z.land (Z.shiftr byte_val (meta_shift addr)) 1 = 1).

(** Addresses of objects: user space, aligned. *)
Definition object (a : Z) : Prop := 0 ≤ a < 2 ^ 63 ∧ a mod 8 = 0.

Lemma i64_small a : 0 ≤ a < 2 ^ 63 → i64 a = a.
Proof. intros. apply sign_small; [lia|]. by change (2 ^ (64 - 1)) with (2 ^ 63). Qed.

Lemma meta_shift_range a : 0 ≤ meta_shift a < 8.
Proof. apply land_7_bound. Qed.

Lemma meta_bit_testbit base m a :
  meta_bit base m a = Z.testbit (m (meta_addr base a)) (meta_shift a).
Proof.
  unfold meta_bit. pose proof (meta_shift_range a). rewrite shiftr_land_1 by lia.
  rewrite wrap_testbit by lia. rewrite (bool_decide_eq_true_2 (meta_shift a < 8)) by lia. simpl.
  by destruct (Z.testbit _ _).
Qed.

(** Different objects have different bits. *)
Lemma meta_injective base a b :
  object a → object b → meta_addr base a = meta_addr base b → meta_shift a = meta_shift b → a = b.
Proof.
  intros [Ha Ha8] [Hb Hb8]. unfold meta_addr, meta_shift. rewrite !i64_small by done.
  rewrite !land_7_mod, !Z.shiftr_div_pow2 by lia. change (2 ^ 6) with 64. change (2 ^ 3) with 8.
  intros H1 H2.
  pose proof (Z.div_mod a 8 ltac:(lia)). pose proof (Z.div_mod b 8 ltac:(lia)).
  assert (∀ x, x / 64 = x / 8 / 8) as Hd by (intros x; by rewrite Z.div_div by lia).
  rewrite !Hd in H1.
  pose proof (Z.div_mod (a / 8) 8 ltac:(lia)). pose proof (Z.div_mod (b / 8) 8 ltac:(lia)). lia.
Qed.

(** The same address as the emitted code computes it. *)
Lemma meta_effective base obj :
  0 ≤ base ∧ base + 2 ^ 57 < 2 ^ 64 → 0 ≤ obj < 2 ^ 63 →
  u64 (u64 base + Z.shiftl (Z.shiftr obj 6) 0 + 0) = meta_addr base obj.
Proof.
  intros Hb Ho. unfold meta_addr. rewrite i64_small by done.
  rewrite Z.shiftl_0_r, Z.add_0_r. rewrite (wrap_small 64 base) by lia.
  apply wrap_small. rewrite Z.shiftr_div_pow2 by lia.
  assert (0 ≤ obj / 2 ^ 6 < 2 ^ 57); [|lia].
  split; [apply Z.div_pos; lia|apply Z.div_lt_upper_bound; [lia|]].
  change (2 ^ 6 * 2 ^ 57) with (2 ^ 63). apply Ho.
Qed.

(** A byte that has been loaded into a register, whatever its upper bits. *)
Lemma byte_bit (m : mem) a k :
  0 ≤ k < 8 → Z.testbit (read 1 m a) k = Z.testbit (m a) k.
Proof.
  intros Hk. cbn [read]. rewrite Z.shiftl_0_l, Z.lor_0_r, wrap_testbit by lia.
  by rewrite bool_decide_eq_true_2 by lia.
Qed.

Lemma low_byte v (m : mem) a k :
  0 ≤ k < 8 → Z.testbit (Z.lor (Z.ldiff v 255) (read 1 m a)) k = Z.testbit (m a) k.
Proof.
  intros Hk. rewrite Z.lor_spec, Z.ldiff_spec, byte_bit by done.
  change 255 with (Z.ones 8). rewrite Z.ones_spec_low by lia. by rewrite andb_false_r.
Qed.

(** ** mmtk-core *)

(** The functions of mmtk-core that the barriers call, on its state; those that
    look at fields are given the heap. *)
Class BarrierCore (C : Type) := {
  side_metadata : C → mem;
  GLOBAL_SIDE_METADATA_VM_BASE_ADDRESS : Z;
  CONCURRENT_MARKING_ACTIVE : C → Z;
  mmtk_object_reference_write_pre : C → oop_heap → Z → Z → Z → C;      (* src slot target *)
  mmtk_object_reference_write_post : C → oop_heap → Z → Z → Z → C;
  mmtk_object_reference_write_slow : C → oop_heap → Z → Z → Z → C;
  mmtk_array_copy_pre : C → oop_heap → Z → Z → Z → C;                  (* src dst count *)
  mmtk_array_copy_post : C → oop_heap → Z → Z → Z → C;
  mmtk_load_reference : C → oop_heap → Z → C;
  mmtk_object_probable_write : C → oop_heap → Z → C
}.

(** ** Decorators *)

Record DecoratorSet := Decorators {
  ON_STRONG_OOP_REF : bool;
  ON_WEAK_OOP_REF : bool;
  ON_PHANTOM_OOP_REF : bool;
  ON_UNKNOWN_OOP_REF : bool;
  AS_NO_KEEPALIVE : bool;
  IN_HEAP : bool;
  IS_NOT_NULL : bool;
  IS_DEST_UNINITIALIZED : bool;
  ARRAYCOPY_CHECKCAST : bool;
  ARRAYCOPY_DISJOINT : bool;
  MO_UNORDERED : bool;
  C1_NEEDS_PATCHING : bool;
  C2_MISMATCHED : bool;
  C1_WRITE_ACCESS : bool;
  IS_ARRAY : bool
}.

(** ** Barrier runtimes *)

Record MMTkBarrierSetRuntime (C : Type) := Runtime {
  object_reference_write_pre : C → oop_heap → Z → Z → Z → C;
  object_reference_write_post : C → oop_heap → Z → Z → Z → C;
  object_reference_array_copy_pre : C → oop_heap → Z → Z → Z → C;
  object_reference_array_copy_post : C → oop_heap → Z → Z → Z → C;
  load_reference : C → oop_heap → DecoratorSet → Z → C;
  object_probable_write : C → oop_heap → Z → C
}.
Arguments Runtime {C}.
Arguments object_reference_write_pre {C}.
Arguments object_reference_write_post {C}.
Arguments object_reference_array_copy_pre {C}.
Arguments object_reference_array_copy_post {C}.
Arguments load_reference {C}.
Arguments object_probable_write {C}.

Section runtimes.
Context {C : Type} `{BarrierCore C}.
Variable mmtk_enable_barrier_fastpath : bool.

(** The calls from fast paths into mmtk-core. *)
Definition object_reference_write_pre_call := mmtk_object_reference_write_pre (C := C).
Definition object_reference_write_post_call := mmtk_object_reference_write_post (C := C).
Definition object_reference_write_slow_call := mmtk_object_reference_write_slow (C := C).
Definition object_reference_array_copy_pre_call := mmtk_array_copy_pre (C := C).
Definition object_reference_array_copy_post_call := mmtk_array_copy_post (C := C).
Definition load_reference_call := mmtk_load_reference (C := C).

(** The functions of the base class do nothing: [NoBarrier]. *)
Definition MMTkNoBarrierSetRuntime : MMTkBarrierSetRuntime C :=
  Runtime (λ c _ _ _ _, c) (λ c _ _ _ _, c) (λ c _ _ _ _, c) (λ c _ _ _ _, c)
    (λ c _ _ _, c) (λ c _ _, c).

(** The unlog bit of an object. *)
Definition unlogged (c : C) (src : Z) : bool :=
  meta_bit GLOBAL_SIDE_METADATA_VM_BASE_ADDRESS (side_metadata c) src.

Definition MMTkObjectBarrierSetRuntime : MMTkBarrierSetRuntime C := {|
  object_reference_write_pre := λ c _ _ _ _, c;
  object_reference_write_post := λ c h src slot target,
    if mmtk_enable_barrier_fastpath then
      if unlogged c src then object_reference_write_slow_call c h src slot target else c
    else object_reference_write_post_call c h src slot target;
  object_reference_array_copy_pre := λ c _ _ _ _, c;
  object_reference_array_copy_post := λ c h src dst count,
    object_reference_array_copy_post_call c h src dst count;
  load_reference := λ c _ _ _, c;
  object_probable_write := λ c h new_obj,
    if mmtk_enable_barrier_fastpath then
      if unlogged c new_obj then mmtk_object_probable_write c h new_obj else c
    else mmtk_object_probable_write c h new_obj
|}.

Definition MMTkSATBBarrierSetRuntime : MMTkBarrierSetRuntime C := {|
  object_reference_write_pre := λ c h src slot target,
    if mmtk_enable_barrier_fastpath then
      if unlogged c src then object_reference_write_slow_call c h src slot target else c
    else object_reference_write_pre_call c h src slot target;
  object_reference_write_post := λ c _ _ _ _, c;
  object_reference_array_copy_pre := λ c h src dst count,
    if decide (count = 0) then c else mmtk_array_copy_pre c h src dst count;
  object_reference_array_copy_post := λ c _ _ _ _, c;
  load_reference := λ c h _ value,
    if decide (CONCURRENT_MARKING_ACTIVE c = 1 ∧ value ≠ 0) then mmtk_load_reference c h value else c;
  object_probable_write := λ c _ _, c
|}.

(** The barrier of mmtk-core's plan ([BarrierSelector]), and the name by which
    [mmtk_active_barrier] of [api.rs] gives it: for a barrier the binding has no name
    for, that panics. *)
Inductive active_barrier := NoBarrier | ObjectBarrier | SATBBarrier | OtherBarrier.

Definition mmtk_active_barrier (barrier : active_barrier) : outcome string :=
  match barrier with
  | NoBarrier => Ok "NoBarrier"%string
  | ObjectBarrier => Ok "ObjectBarrier"%string
  | SATBBarrier => Ok "SATBBarrier"%string
  | OtherBarrier => Fatal
  end.

(** The comparisons of [get_selected_barrier]. *)
Definition barrier_named {A} (no object satb : A) (barrier : string) : outcome A :=
  if String.eqb barrier "NoBarrier" then Ok no
  else if String.eqb barrier "ObjectBarrier" then Ok object
  else if String.eqb barrier "SATBBarrier" then Ok satb
  else Fatal.

(** The runtime of [get_selected_barrier()]. *)
Definition get_selected_barrier (barrier : active_barrier) : outcome (MMTkBarrierSetRuntime C) :=
  name ← mmtk_active_barrier barrier;
  barrier_named MMTkNoBarrierSetRuntime MMTkObjectBarrierSetRuntime MMTkSATBBarrierSetRuntime name.

End runtimes.

(** ** HotSpot's raw accesses *)

(** The raw accesses of [BarrierSet::AccessBarrier], with the slots they write.
    [slot_size] is the size of a reference in the heap, and
    [obj_offset_to_raw] is [arrayOopDesc::obj_offset_to_raw]. *)
Class RawAccess := {
  slot_size : Z;
  raw_load : oop_heap → Z → Z → Z;                           (* base offset *)
  raw_store : oop_heap → Z → Z → Z → oop_heap;               (* base offset value *)
  raw_cmpxchg : oop_heap → Z → Z → Z → Z → Z * oop_heap;     (* new base offset compare *)
  raw_xchg : oop_heap → Z → Z → Z → Z * oop_heap;            (* new base offset *)
  raw_arraycopy : oop_heap → Z → Z → Z → bool * oop_heap;    (* src dst length *)
  obj_offset_to_raw : Z → Z → Z → Z;
  slot_size_pos : 0 < slot_size;
  raw_store_frame h base offset v s : s ≠ base + offset → raw_store h base offset v s = h s;
  raw_cmpxchg_frame h n base offset c s : s ≠ base + offset → (raw_cmpxchg h n base offset c).2 s = h s;
  raw_xchg_frame h n base offset s : s ≠ base + offset → (raw_xchg h n base offset).2 s = h s;
  raw_arraycopy_frame h src dst n s :
    (∀ i, 0 ≤ i < n → s ≠ dst + i * slot_size) → (raw_arraycopy h src dst n).2 s = h s
}.

(** ** [MMTkBarrierSet::AccessBarrier] *)

Section access.
Context {C : Type} `{BarrierCore C} `{RawAccess}.
Variable runtime : MMTkBarrierSetRuntime C.

Implicit Types (c : C) (h : oop_heap).

Definition needs_enqueue (decorators : DecoratorSet) : bool :=
  negb (AS_NO_KEEPALIVE decorators) && negb (ON_STRONG_OOP_REF decorators).

Definition oop_load_in_heap_at (decorators : DecoratorSet) c h (base offset : Z) : Z * C :=
  let value := raw_load h base offset in
  if needs_enqueue decorators && bool_decide (value ≠ 0)
  then (value, load_reference runtime c h decorators value) else (value, c).

(** [Raw::oop_load(addr)]: the root at [addr] holds [raw_load h addr 0]. *)
Definition oop_load_not_in_heap (decorators : DecoratorSet) c h (addr : Z) : Z * C :=
  let value := raw_load h addr 0 in
  if needs_enqueue decorators && bool_decide (value ≠ 0)
  then (value, load_reference runtime c h decorators value) else (value, c).

Definition oop_store_in_heap_at c h (base offset value : Z) : C * oop_heap :=
  let c := object_reference_write_pre runtime c h base (base + offset) value in
  let h := raw_store h base offset value in
  let c := object_reference_write_post runtime c h base (base + offset) value in
  (c, h).

Definition oop_atomic_cmpxchg_in_heap_at c h (new_value base offset compare_value : Z)
    : Z * (C * oop_heap) :=
  let c := object_reference_write_pre runtime c h base (base + offset) new_value in
  let '(result, h) := raw_cmpxchg h new_value base offset compare_value in
  let c := object_reference_write_post runtime c h base (base + offset) new_value in
  (result, (c, h)).

Definition oop_atomic_xchg_in_heap_at c h (new_value base offset : Z) : Z * (C * oop_heap) :=
  let c := object_reference_write_pre runtime c h base (base + offset) new_value in
  let '(result, h) := raw_xchg h new_value base offset in
  let c := object_reference_write_post runtime c h base (base + offset) new_value in
  (result, (c, h)).

Definition oop_arraycopy_in_heap c h (src_obj src_offset_in_bytes src_raw
    dst_obj dst_offset_in_bytes dst_raw length : Z) : bool * (C * oop_heap) :=
  let src := obj_offset_to_raw src_obj src_offset_in_bytes src_raw in
  let dst := obj_offset_to_raw dst_obj dst_offset_in_bytes dst_raw in
  let c := object_reference_array_copy_pre runtime c h src dst length in
  let '(result, h) := raw_arraycopy h src dst length in
  let c := object_reference_array_copy_post runtime c h src dst length in
  (result, (c, h)).

(** The accesses to a slot in the heap whose object is not known: [UNREACHABLE]. *)
Definition oop_load_in_heap (addr : Z) : outcome Z := guarantee false;; Ok 0.
Definition oop_store_in_heap (addr value : Z) : outcome unit := guarantee false.
Definition oop_atomic_cmpxchg_in_heap (new_value addr compare_value : Z) : outcome Z :=
  guarantee false;; Ok 0.
Definition oop_atomic_xchg_in_heap (new_value addr : Z) : outcome Z := guarantee false;; Ok 0.

(** ** Sequences of accesses *)

Inductive access :=
| Load (decorators : DecoratorSet) (base offset : Z)
| Store (base offset value : Z)
| CmpXchg (new_value base offset compare_value : Z)
| Xchg (new_value base offset : Z)
| ArrayCopy (src_obj src_offset dst_obj dst_offset length : Z).

Definition perform (s : C * oop_heap) (a : access) : C * oop_heap :=
  let '(c, h) := s in
  match a with
  | Load d base offset => ((oop_load_in_heap_at d c h base offset).2, h)
  | Store base offset value => oop_store_in_heap_at c h base offset value
  | CmpXchg n base offset cmp => (oop_atomic_cmpxchg_in_heap_at c h n base offset cmp).2
  | Xchg n base offset => (oop_atomic_xchg_in_heap_at c h n base offset).2
  | ArrayCopy so si d_o di len => (oop_arraycopy_in_heap c h so si 0 d_o di 0 len).2
  end.

Definition performs (s : C * oop_heap) (l : list access) : C * oop_heap := foldl perform s l.

End access.

(** The objects a sequence of accesses writes to field by field, and the
    regions it copies to, in order. *)
Definition written (a : access) : list Z :=
  match a with
  | Store base _ _ | CmpXchg _ base _ _ | Xchg _ base _ => [base]
  | _ => []
  end.

Definition copied `{RawAccess} (a : access) : list (Z * Z) :=
  match a with
  | ArrayCopy _ _ d_o di len => [(obj_offset_to_raw d_o di 0, len)]
  | _ => []
  end.
