(* ===== verification/BarrierSafety.v ===== *)
(** * What the write barriers guarantee

    For the object barrier, the remembered set; for the SATB barrier, the
    snapshot; for weak references, the load barrier.  Each is proved of any
    sequence of accesses, with the fast path enabled or not, against the
    interfaces that state what mmtk-core's slow paths do. *)

From stdpp Require Import base numbers list sets.
From Stdlib Require Import ZArith Lia.
From S2P Require Import Prelude Slots Barrier.

Local Open Scope Z_scope.

(** ** The slow paths of mmtk-core *)

(** The unlog bits after an object has been logged. *)
Definition logs `{BarrierCore C} (c c' : C) (src : Z) : Prop :=
  ∀ o, object o → unlogged c' o = unlogged c o && bool_decide (o ≠ src).

(** mmtk-core's [ObjectBarrier]: the slow path checks the bit again, clears it
    and remembers the object; a copied region is remembered as a region. *)
Class ObjectBarrierCore (C : Type) `{BarrierCore C} := {
  remembered : C → list Z;
  regions : C → list (Z * Z);
  object_slow_logs c h src slot t : object src → unlogged c src = true →
    let c' := mmtk_object_reference_write_slow c h src slot t in
    remembered c' = remembered c ++ [src] ∧ regions c' = regions c ∧ logs c c' src;
  object_slow_checks c h src slot t : object src → unlogged c src = false →
    mmtk_object_reference_write_slow c h src slot t = c;
  object_post_slow c h src slot t :
    mmtk_object_reference_write_post c h src slot t = mmtk_object_reference_write_slow c h src slot t;
  object_copy c h src dst n :
    let c' := mmtk_array_copy_post c h src dst n in
    remembered c' = remembered c ∧ regions c' = regions c ++ [(dst, n)] ∧
    ∀ o, object o → unlogged c' o = unlogged c o
}.

(** mmtk-core's [SATBBarrier]: the slow path checks the bit again, records the
    references the fields of the object hold, and clears the bit; the array-copy
    barrier records the references of the destination. *)
Class SATBBarrierCore (C : Type) `{BarrierCore C} `{RawAccess} := {
  satb : C → list Z;
  field_of : Z → Z → Prop;       (* slot, object *)
  field_of_unique s a b : field_of s a → field_of s b → a = b;
  satb_slow_logs c h src slot t : object src → unlogged c src = true →
    let c' := mmtk_object_reference_write_slow c h src slot t in
    satb c ⊆ satb c' ∧ (∀ s, field_of s src → h s ≠ 0 → h s ∈ satb c') ∧ logs c c' src;
  satb_slow_checks c h src slot t : object src → unlogged c src = false →
    mmtk_object_reference_write_slow c h src slot t = c;
  satb_pre_slow c h src slot t :
    mmtk_object_reference_write_pre c h src slot t = mmtk_object_reference_write_slow c h src slot t;
  satb_copy c h src dst n :
    let c' := mmtk_array_copy_pre c h src dst n in
    satb c ⊆ satb c' ∧
    (∀ i, 0 ≤ i < n → h (dst + i * slot_size) ≠ 0 → h (dst + i * slot_size) ∈ satb c') ∧
    ∀ o, object o → unlogged c' o = unlogged c o;
  satb_load c h v :
    let c' := mmtk_load_reference c h v in
    satb c ⊆ satb c' ∧ v ∈ satb c' ∧ ∀ o, object o → unlogged c' o = unlogged c o
}.

(** ** The object barrier *)

Section object_barrier.
Context {C : Type} `{ObjectBarrierCore C} `{!RawAccess}.
Variable fastpath : bool.

Abbreviation runtime := (MMTkObjectBarrierSetRuntime (C := C) fastpath).

(** The barrier after a store to an object, fast path or not. *)
Lemma object_write_post c h src slot t :
  object src →
  let c' := object_reference_write_post runtime c h src slot t in
  remembered c' = remembered c ++ (if unlogged c src then [src] else []) ∧
  regions c' = regions c ∧ logs c c' src.
Proof.
  intros Hs c'. subst c'. cbn [object_reference_write_post MMTkObjectBarrierSetRuntime].
  assert (unlogged c src = false → logs c c src) as Hsame.
  { intros Hu o Ho. case_bool_decide as Hd; [by rewrite andb_true_r|].
    subst. by rewrite Hu. }
  destruct (unlogged c src) eqn:Hu.
  - unfold object_reference_write_slow_call, object_reference_write_post_call.
    rewrite object_post_slow. destruct fastpath; by apply object_slow_logs.
  - unfold object_reference_write_post_call. rewrite object_post_slow, object_slow_checks by done.
    destruct fastpath; rewrite app_nil_r; auto.
Qed.

(** The core's state after a sequence, relative to the one before. *)
Definition object_inv (c0 c : C) (bases : list Z) (copies : list (Z * Z)) : Prop :=
  (∃ new, remembered c = remembered c0 ++ new ∧ NoDup new ∧
     ∀ o, o ∈ new ↔ o ∈ bases ∧ unlogged c0 o = true) ∧
  regions c = regions c0 ++ copies ∧
  ∀ o, object o → unlogged c o = unlogged c0 o && bool_decide (o ∉ bases).

Lemma object_inv_store c0 c bases copies h src slot t :
  object src → object_inv c0 c bases copies →
  object_inv c0 (object_reference_write_post runtime c h src slot t) (bases ++ [src]) copies.
Proof.
  intros Hs ((new & Hr & Hnd & Hin) & Hg & Hu).
  destruct (object_write_post c h src slot t Hs) as (Hr' & Hg' & Hu').
  split; [|split; [congruence|]].
  - exists (new ++ (if unlogged c src then [src] else [])). rewrite Hr', Hr, app_assoc.
    split; [done|]. specialize (Hu src Hs). destruct (unlogged c src) eqn:E.
    + symmetry in Hu. apply andb_true_iff in Hu as [Hu0 Hni]. apply bool_decide_eq_true in Hni.
      split.
      * apply NoDup_app. split_and!; [done| |apply NoDup_singleton].
        intros o Ho%Hin. rewrite list_elem_of_singleton. intros ->. by apply Hni, Ho.
      * intros o. rewrite !elem_of_app, Hin, list_elem_of_singleton.
        split; [intros [?| ->]; tauto|tauto].
    + rewrite app_nil_r. split; [done|]. intros o. rewrite Hin, elem_of_app, list_elem_of_singleton.
      split; [tauto|]. intros [[Ho| -> ] Ho']; [done|]. split; [|done].
      rewrite Ho' in Hu. simpl in Hu. symmetry in Hu. apply bool_decide_eq_false in Hu.
      by apply dec_stable in Hu.
  - intros o Ho. rewrite Hu', Hu by done. rewrite <-andb_assoc. f_equal.
    rewrite <-bool_decide_and. apply bool_decide_ext.
    rewrite not_elem_of_app, list_elem_of_singleton. tauto.
Qed.

Lemma object_inv_perform c0 bases copies (s : C * oop_heap) a :
  Forall object (written a) → object_inv c0 s.1 bases copies →
  object_inv c0 (perform runtime s a).1 (bases ++ written a) (copies ++ copied a).
Proof.
  destruct s as [c h]. intros Ha Hi. destruct a as [d b o|b o v|n b o cmp|n b o|so si d_o di len]; simpl in *.
  - rewrite !app_nil_r. unfold oop_load_in_heap_at. by case_match.
  - rewrite app_nil_r. apply Forall_cons_1 in Ha as [Ha _].
    by apply (object_inv_store c0 c bases copies (raw_store h b o v) b (b + o) v).
  - rewrite app_nil_r. apply Forall_cons_1 in Ha as [Ha _]. unfold oop_atomic_cmpxchg_in_heap_at.
    destruct (raw_cmpxchg h n b o cmp) as [r h'].
    by apply (object_inv_store c0 c bases copies h' b (b + o) n).
  - rewrite app_nil_r. apply Forall_cons_1 in Ha as [Ha _]. unfold oop_atomic_xchg_in_heap_at.
    destruct (raw_xchg h n b o) as [r h'].
    by apply (object_inv_store c0 c bases copies h' b (b + o) n).
  - rewrite app_nil_r. unfold oop_arraycopy_in_heap.
    destruct (raw_arraycopy _ _ _ _) as [r h']. simpl.
    destruct Hi as ((new & Hr & Hnd & Hin) & Hg & Hu).
    edestruct (object_copy c h') as (Hr' & Hg' & Hu').
    split_and!.
    + exists new. unfold object_reference_array_copy_post_call. by rewrite Hr'.
    + unfold object_reference_array_copy_post_call. by rewrite Hg', Hg, app_assoc.
    + intros o Ho. unfold object_reference_array_copy_post_call. rewrite Hu' by done. by apply Hu.
Qed.

(** C14. The remembered set is complete and minimal: after any sequence of
    accesses, the objects that mmtk-core has been told to remember are exactly
    those whose unlog bit was set at the start and that were written to, each
    once, and every copied region has been reported.  The fast path does not
    change this. *)
Theorem object_barrier_remembers c0 h0 l :
  Forall object (l ≫= written) →
  let c := (performs runtime (c0, h0) l).1 in
  (∃ new, remembered c = remembered c0 ++ new ∧ NoDup new ∧
     ∀ o, o ∈ new ↔ o ∈ (l ≫= written) ∧ unlogged c0 o = true) ∧
  regions c = regions c0 ++ (l ≫= copied).
Proof.
  intros Hl c.
  enough (object_inv c0 c (l ≫= written) (l ≫= copied)) as (Hr & Hg & _) by done.
  subst c. unfold performs. induction l as [|a l IH] using rev_ind.
  - split; [|split; [by rewrite app_nil_r|]].
    + exists []. split_and!; [by rewrite app_nil_r|constructor|set_solver].
    + intros o Ho. rewrite bool_decide_eq_true_2 by set_solver. by rewrite andb_true_r.
  - rewrite !bind_app in *. apply Forall_app in Hl as [Hl Ha]. rewrite foldl_app. simpl in *.
    rewrite app_nil_r in Ha. rewrite !app_nil_r. apply object_inv_perform; auto.
Qed.

End object_barrier.

(** ** The SATB barrier *)

Section satb_barrier.
Context {C : Type} `{SATBBarrierCore C}.
Variable fastpath : bool.

Abbreviation runtime := (MMTkSATBBarrierSetRuntime (C := C) fastpath).

(** The barrier before a store to an object, fast path or not. *)
Lemma satb_write_pre c h src slot t :
  object src →
  let c' := object_reference_write_pre runtime c h src slot t in
  satb c ⊆ satb c' ∧ logs c c' src ∧
  (unlogged c src = true → ∀ s, field_of s src → h s ≠ 0 → h s ∈ satb c').
Proof.
  intros Hs c'. subst c'. cbn [object_reference_write_pre MMTkSATBBarrierSetRuntime].
  unfold object_reference_write_slow_call, object_reference_write_pre_call.
  rewrite satb_pre_slow. destruct (unlogged c src) eqn:Hu.
  - destruct (satb_slow_logs c h src slot t Hs Hu) as (H1' & H2' & H3').
    destruct fastpath; split_and!; try done; auto.
  - assert (logs c c src) as Hsame.
    { intros o Ho. case_bool_decide as Hd; [by rewrite andb_true_r|]. subst. by rewrite Hu. }
    rewrite satb_slow_checks by done. destruct fastpath; by split_and!.
Qed.

(** A reference that a concurrent trace of the snapshot will find: it is still
    in its slot, or it has been recorded. *)
Definition captured (c : C) (v : Z) : Prop := v ≠ 0 → v ∈ satb c.

(** The invariant: [h0] is the snapshot, taken when the unlog bits were as in
    [c0]. *)
Record satb_inv (c0 c : C) (h0 h : oop_heap) : Prop := {
  satb_slots o s : object o → unlogged c0 o = true → field_of s o →
    h s = h0 s ∨ captured c (h0 s);
  satb_logged o s : object o → unlogged c0 o = true → unlogged c o = false → field_of s o →
    captured c (h0 s)
}.

Lemma captured_mono c c' v : satb c ⊆ satb c' → captured c v → captured c' v.
Proof. unfold captured. auto. Qed.

(** A step of mmtk-core that logs no object. *)
Lemma satb_inv_core c0 c c' h0 h :
  satb c ⊆ satb c' → (∀ o, object o → unlogged c' o = unlogged c o) →
  satb_inv c0 c h0 h → satb_inv c0 c' h0 h.
Proof.
  intros Hs Hu Hi. split.
  - intros o s Ho Hu0 Hf. destruct (satb_slots _ _ _ _ Hi o s Ho Hu0 Hf); [by left|right].
    by eapply captured_mono.
  - intros o s Ho Hu0 Hu' Hf. rewrite Hu in Hu' by done.
    eapply captured_mono; [done|]. by eapply satb_logged.
Qed.

(** The pre-barrier keeps the invariant, and captures the fields of [src]. *)
Lemma satb_inv_pre c0 c h0 h src slot t :
  object src → satb_inv c0 c h0 h →
  let c' := object_reference_write_pre runtime c h src slot t in
  satb_inv c0 c' h0 h ∧
  (unlogged c0 src = true → ∀ s, field_of s src → captured c' (h0 s)).
Proof.
  intros Hs Hi c'. destruct (satb_write_pre c h src slot t Hs) as (Hg & Hl & Hf).
  fold c' in Hg, Hl, Hf.
  assert (unlogged c0 src = true → ∀ s, field_of s src → captured c' (h0 s)) as Hcap.
  { intros Hu0 s Hs'. destruct (unlogged c src) eqn:Hu.
    - destruct (satb_slots _ _ _ _ Hi src s Hs Hu0 Hs') as [E|E]; [|by eapply captured_mono].
      intros Hn. rewrite <-E in *. by apply Hf.
    - eapply captured_mono; [done|]. by eapply satb_logged. }
  split; [|done]. split.
  - intros o s Ho Hu0 Hfo. destruct (satb_slots _ _ _ _ Hi o s Ho Hu0 Hfo); [by left|right].
    by eapply captured_mono.
  - intros o s Ho Hu0 Hu Hfo. rewrite (Hl o Ho) in Hu. destruct (decide (o = src)) as [->|Hne].
    + by apply Hcap.
    + rewrite bool_decide_eq_true_2, andb_true_r in Hu by done.
      eapply captured_mono; [done|]. by eapply satb_logged.
Qed.

(** The heap may change where the snapshot has been captured. *)
Lemma satb_inv_heap c0 c h0 h h' :
  (∀ o s, object o → unlogged c0 o = true → field_of s o → h' s = h s ∨ captured c (h0 s)) →
  satb_inv c0 c h0 h → satb_inv c0 c h0 h'.
Proof.
  intros Hh Hi. split.
  - intros o s Ho Hu Hf. destruct (Hh o s Ho Hu Hf) as [->|?]; [|by right].
    by eapply satb_slots.
  - by eapply satb_logged.
Qed.

(** A store to a field of [base] after the pre-barrier of [base]. *)
Lemma satb_inv_write c0 c h0 h h' base slot t :
  object base → field_of slot base → (∀ s, s ≠ slot → h' s = h s) →
  satb_inv c0 c h0 h →
  satb_inv c0 (object_reference_write_pre runtime c h base slot t) h0 h'.
Proof.
  intros Hb Hf Hh Hi. destruct (satb_inv_pre c0 c h0 h base slot t Hb Hi) as [Hi' Hcap].
  eapply satb_inv_heap; [|exact Hi']. intros o s Ho Hu Hs.
  destruct (decide (s = slot)) as [->|Hne]; [right|left; by apply Hh].
  assert (o = base) as -> by (by eapply field_of_unique). by apply Hcap.
Qed.

(** What is stored to is a field of an object. *)
Definition access_ok (a : access) : Prop :=
  match a with
  | Store base offset _ | CmpXchg _ base offset _ | Xchg _ base offset =>
      object base ∧ field_of (base + offset) base
  | _ => True
  end.

Lemma satb_inv_perform c0 h0 (s : C * oop_heap) a :
  access_ok a → satb_inv c0 s.1 h0 s.2 →
  satb_inv c0 (perform runtime s a).1 h0 (perform runtime s a).2.
Proof.
  destruct s as [c h]. intros Ha Hi. destruct a as [d b o|b o v|n b o cmp|n b o|so si d_o di len]; simpl in Hi.
  - unfold perform, oop_load_in_heap_at. destruct (_ && _); [|done].
    cbn [load_reference MMTkSATBBarrierSetRuntime fst snd]. case_decide; [|done].
    destruct (satb_load c h (raw_load h b o)) as (H1' & _ & H3').
    by eapply satb_inv_core.
  - destruct Ha as [Hb Hf]. apply (satb_inv_write c0 c h0 h (raw_store h b o v) b (b + o) v Hb Hf); [|done].
    intros s Hs. by apply raw_store_frame.
  - destruct Ha as [Hb Hf]. unfold perform, oop_atomic_cmpxchg_in_heap_at.
    pose proof (raw_cmpxchg_frame h n b o cmp) as Hfr.
    destruct (raw_cmpxchg h n b o cmp) as [r h']. simpl in Hfr.
    by apply (satb_inv_write c0 c h0 h h' b (b + o) n Hb Hf).
  - destruct Ha as [Hb Hf]. unfold perform, oop_atomic_xchg_in_heap_at.
    pose proof (raw_xchg_frame h n b o) as Hfr.
    destruct (raw_xchg h n b o) as [r h']. simpl in Hfr.
    by apply (satb_inv_write c0 c h0 h h' b (b + o) n Hb Hf).
  - unfold perform, oop_arraycopy_in_heap. set (src := obj_offset_to_raw so si 0).
    set (dst := obj_offset_to_raw d_o di 0). pose proof (raw_arraycopy_frame h src dst len) as Hfr.
    destruct (raw_arraycopy h src dst len) as [r h']. simpl in Hfr.
    cbn [object_reference_array_copy_pre object_reference_array_copy_post MMTkSATBBarrierSetRuntime fst snd].
    destruct (decide (len = 0)) as [->|Hn].
    + eapply satb_inv_heap; [|exact Hi]. intros o s _ _ _. left. apply Hfr. lia.
    + destruct (satb_copy c h src dst len) as (Hg & Hc & Hu).
      eapply satb_inv_heap; [|by eapply satb_inv_core]. intros o s Ho Hu0 Hs.
      set (i := (s - dst) / slot_size).
      destruct (decide (0 ≤ i < len ∧ s = dst + i * slot_size)) as [[Hi' E']|Hne].
      * rewrite E' in Hs |- *.
        destruct (satb_slots _ _ _ _ Hi o _ Ho Hu0 Hs) as [E|E]; right; [|by eapply captured_mono].
        unfold captured. rewrite <-E. by apply Hc.
      * left. apply Hfr. intros j Hj ->. apply Hne. pose proof slot_size_pos. subst i.
        replace (dst + j * slot_size - dst) with (j * slot_size) by lia.
        by rewrite Z.div_mul by lia.
Qed.

(** C13. The snapshot survives the mutator: from the moment the snapshot [h0] is
    taken, after any sequence of stores, atomic updates, array copies and loads,
    every field of every object whose unlog bit was set either still holds the
    reference of the snapshot, or that reference has been recorded.  The fast
    path does not change this. *)
Theorem satb_keeps_snapshot c0 h0 l :
  Forall access_ok l →
  let '(c, h) := performs runtime (c0, h0) l in
  ∀ o s, object o → unlogged c0 o = true → field_of s o → h s = h0 s ∨ captured c (h0 s).
Proof.
  intros Hl. destruct (performs runtime (c0, h0) l) as [c h] eqn:E.
  enough (satb_inv c0 c h0 h) as Hi by (intros; by eapply satb_slots).
  replace c with (performs runtime (c0, h0) l).1 by (by rewrite E).
  replace h with (performs runtime (c0, h0) l).2 by (by rewrite E).
  clear E c h. unfold performs. induction l as [|a l IH] using rev_ind.
  - split; simpl; [by left|]. intros o s Ho Hu Hu'. congruence.
  - apply Forall_app in Hl as [Hl Ha]. apply Forall_cons_1 in Ha as [Ha _].
    rewrite foldl_app. cbn [foldl]. apply satb_inv_perform; auto.
Qed.

(** A weak load under concurrent marking keeps the referent alive: the
    reference it returns has been recorded.  Strong loads, peeks, loads of null
    and loads outside marking leave mmtk-core alone. *)
Theorem weak_load_recorded d c h base offset v c' :
  oop_load_in_heap_at runtime d c h base offset = (v, c') →
  v = raw_load h base offset ∧
  if decide (AS_NO_KEEPALIVE d = false ∧ ON_STRONG_OOP_REF d = false ∧ v ≠ 0 ∧
             CONCURRENT_MARKING_ACTIVE c = 1)
  then v ∈ satb c' else c' = c.
Proof.
  unfold oop_load_in_heap_at, needs_enqueue. set (x := raw_load h base offset). intros E.
  cbn [load_reference MMTkSATBBarrierSetRuntime] in E.
  assert (v = x) as -> by (by repeat case_match; simplify_eq). split; [done|].
  destruct (AS_NO_KEEPALIVE d), (ON_STRONG_OOP_REF d); simpl in E; simplify_eq;
    try (by rewrite decide_False by naive_solver).
  destruct (bool_decide (x ≠ 0)) eqn:Hx.
  - apply bool_decide_eq_true in Hx. injection E as E. subst c'. case_decide as Hd; case_decide as Hd'.
    + by apply satb_load.
    + naive_solver.
    + naive_solver.
    + done.
  - apply bool_decide_eq_false in Hx. injection E as E. subst c'. by rewrite decide_False by naive_solver.
Qed.

End satb_barrier.

(** ** Concrete instances *)

(** A heap of 8-byte slots, whose raw accesses do what they say. *)
#[export] Instance simple_raw_access : RawAccess.
Proof.
  refine {|
    slot_size := 8;
    raw_load h b o := h (b + o);
    raw_store h b o v := λ s, if decide (s = b + o) then v else h s;
    raw_cmpxchg h n b o c := (h (b + o), λ s, if decide (s = b + o ∧ h (b + o) = c) then n else h s);
    raw_xchg h n b o := (h (b + o), λ s, if decide (s = b + o) then n else h s);
    raw_arraycopy h src dst n :=
      (true, λ s, let i := (s - dst) / 8 in
         if decide (0 ≤ i < n ∧ s = dst + i * 8) then h (src + i * 8) else h s);
    obj_offset_to_raw obj off raw := if decide (obj = 0) then raw else obj + off
  |}; try done.
  - intros h b o v s Hs. by rewrite decide_False.
  - intros h n b o c s Hs. simpl. rewrite decide_False; [done|naive_solver].
  - intros h n b o s Hs. simpl. by rewrite decide_False.
  - intros h src dst n s Hs. simpl. rewrite decide_False; [done|]. intros [Hi E].
    by eapply Hs.
Defined.

(** A core that remembers and records in lists. *)
Record list_core := ListCore {
  lc_meta : mem; lc_remembered : list Z; lc_regions : list (Z * Z); lc_satb : list Z; lc_marking : Z }.

Definition toy_base : Z := 2 ^ 40.

(** Clears the unlog bit of an object. *)
Definition clear_bit (m : mem) (o : Z) : mem :=
  λ a, if decide (a = meta_addr toy_base o) then Z.clearbit (m a) (meta_shift o) else m a.

(** The toy objects have two fields. *)
Definition toy_field (s o : Z) : Prop := object o ∧ o mod 16 = 0 ∧ (s = o + 8 ∨ s = o).

Lemma toy_field_unique s a b : toy_field s a → toy_field s b → a = b.
Proof.
  intros (_ & Ha & Hsa) (_ & Hb & Hsb).
  pose proof (Z.div_mod a 16 ltac:(lia)). pose proof (Z.div_mod b 16 ltac:(lia)). lia.
Qed.

Definition toy_slow (c : list_core) (h : oop_heap) (src slot t : Z) : list_core :=
  if meta_bit toy_base (lc_meta c) src then
    ListCore (clear_bit (lc_meta c) src) (lc_remembered c ++ [src]) (lc_regions c)
      (h src :: h (src + 8) :: lc_satb c) (lc_marking c)
  else c.

Definition copy_values (h : oop_heap) (dst n : Z) : list Z :=
  (λ i, h (dst + Z.of_nat i * 8)) <$> seq 0 (Z.to_nat n).

#[export] Instance list_barrier_core : BarrierCore list_core := {|
  side_metadata := lc_meta;
  GLOBAL_SIDE_METADATA_VM_BASE_ADDRESS := toy_base;
  CONCURRENT_MARKING_ACTIVE := lc_marking;
  mmtk_object_reference_write_pre := toy_slow;
  mmtk_object_reference_write_post := toy_slow;
  mmtk_object_reference_write_slow := toy_slow;
  mmtk_array_copy_pre c h src dst n :=
    ListCore (lc_meta c) (lc_remembered c) (lc_regions c) (copy_values h dst n ++ lc_satb c) (lc_marking c);
  mmtk_array_copy_post c h src dst n :=
    ListCore (lc_meta c) (lc_remembered c) (lc_regions c ++ [(dst, n)]) (lc_satb c) (lc_marking c);
  mmtk_load_reference c h v :=
    ListCore (lc_meta c) (lc_remembered c) (lc_regions c) (v :: lc_satb c) (lc_marking c);
  mmtk_object_probable_write c h o := toy_slow c h o 0 0
|}.

Lemma clear_bit_logs m src o :
  object src → object o →
  meta_bit toy_base (clear_bit m src) o = meta_bit toy_base m o && bool_decide (o ≠ src).
Proof.
  intros Hs Ho. rewrite !meta_bit_testbit. unfold clear_bit.
  pose proof (meta_shift_range src). pose proof (meta_shift_range o).
  case_decide as Ha.
  - rewrite Z.clearbit_eqb by lia. f_equal. case_bool_decide as Hd.
    + apply negb_true_iff, Z.eqb_neq. intros E. apply Hd. symmetry.
      by eapply (meta_injective toy_base).
    + subst. by rewrite Z.eqb_refl.
  - rewrite bool_decide_eq_true_2 by congruence. by rewrite andb_true_r.
Qed.

#[export] Instance list_object_core : ObjectBarrierCore list_core.
Proof.
  refine {| remembered := lc_remembered; regions := lc_regions |}.
  - intros c h src slot t Hs Hu. cbn. unfold toy_slow.
    replace (meta_bit toy_base (lc_meta c) src) with true by (symmetry; exact Hu). simpl.
    split_and!; [done|done|]. intros o Ho. by apply clear_bit_logs.
  - intros c h src slot t Hs Hu. cbn. unfold toy_slow.
    by replace (meta_bit toy_base (lc_meta c) src) with false by (symmetry; exact Hu).
  - done.
  - done.
Defined.

#[export] Instance list_satb_core : SATBBarrierCore list_core.
Proof.
  refine {| satb := lc_satb; field_of := toy_field |}.
  - apply toy_field_unique.
  - intros c h src slot t Hs Hu. cbn. unfold toy_slow.
    replace (meta_bit toy_base (lc_meta c) src) with true by (symmetry; exact Hu). simpl.
    split_and!; [set_solver| |intros o Ho; by apply clear_bit_logs].
    intros s (_ & _ & [-> | ->]) _; set_solver.
  - intros c h src slot t Hs Hu. cbn. unfold toy_slow.
    by replace (meta_bit toy_base (lc_meta c) src) with false by (symmetry; exact Hu).
  - done.
  - intros c h src dst n. cbn. split_and!; [set_solver| |done].
    intros i Hi _. apply elem_of_app. left. apply list_elem_of_fmap. exists (Z.to_nat i).
    rewrite Z2Nat.id by lia. split; [done|]. apply elem_of_seq. lia.
  - intros c h v. cbn. split_and!; [set_solver|set_solver|done].
Defined.

(** All objects unlogged, marking under way. *)
Definition toy_start : list_core := ListCore (λ _, 255) [] [] [] 1.
Definition toy_heap : oop_heap := λ s, s + 1600.

Definition toy_accesses : list access :=
  [Store 160 8 3200; Xchg 4800 320 0; Store 160 0 0; ArrayCopy 160 0 640 8 2].

Lemma object_barrier_remembers_witness :
  let c := (performs (MMTkObjectBarrierSetRuntime true) (toy_start, toy_heap) toy_accesses).1 in
  lc_remembered c = [160; 320] ∧ lc_regions c = [(648, 2)].
Proof.
  split; [vm_compute; reflexivity|].
  refine (proj2 (object_barrier_remembers true toy_start toy_heap toy_accesses _)).
  assert (object 160 ∧ object 320) as [H1 H2]
    by (unfold object; repeat split; (lia || reflexivity)).
  change (Forall object [160; 320; 160]).
  apply Forall_cons_2; [exact H1|apply Forall_cons_2; [exact H2|apply Forall_cons_2; [exact H1|]]].
  apply Forall_nil_2.
Defined.

Lemma satb_keeps_snapshot_witness :
  let '(c, h) := performs (MMTkSATBBarrierSetRuntime true) (toy_start, toy_heap) toy_accesses in
  h 168 = toy_heap 168 ∨ captured c (toy_heap 168).
Proof.
  assert (object 160 ∧ object 320) as [H1 H2]
    by (unfold object; repeat split; (lia || reflexivity)).
  assert (Forall access_ok toy_accesses) as Hok.
  { unfold toy_accesses, access_ok, field_of, toy_field. simpl.
    repeat apply Forall_cons_2; try apply Forall_nil_2; repeat split; try assumption;
      try apply H1; try apply H2; try reflexivity; auto. }
  pose proof (satb_keeps_snapshot true toy_start toy_heap toy_accesses Hok) as Hs.
  destruct (performs (MMTkSATBBarrierSetRuntime true) (toy_start, toy_heap) toy_accesses) as [c h].
  apply (Hs 160 168 H1); [reflexivity|].
  split; [exact H1|split; [reflexivity|left; reflexivity]].
Defined.

Lemma weak_load_recorded_witness :
  let d := Decorators false true false false false true false false false false false false false false false in
  1760 ∈ satb (oop_load_in_heap_at (MMTkSATBBarrierSetRuntime true) d toy_start toy_heap 160 0).2.
Proof.
  intros d.
  destruct (weak_load_recorded true d toy_start toy_heap 160 0 1760
    (oop_load_in_heap_at (MMTkSATBBarrierSetRuntime true) d toy_start toy_heap 160 0).2) as [_ Hw].
  - vm_compute. reflexivity.
  - rewrite decide_True in Hw; [exact Hw|]. split; [reflexivity|split; [reflexivity|split; [discriminate|reflexivity]]].
Defined.
