(* ===== verification/X86.v ===== *)
(** * The emitted instructions

    The x86-64 instructions that the assembler barriers emit through HotSpot's
    [MacroAssembler], with their meaning on registers, bytes of memory, the
    flags of the last comparison and a stack.  A leaf call into the runtime is
    recorded; what it leaves in memory and in the caller-saved registers is the
    parameter [Callee].  The emitted code jumps forward only. *)

From stdpp Require Import base numbers list.
From Stdlib Require Import ZArith Lia.
From S2P Require Import Prelude Slots.

Local Open Scope Z_scope.

Inductive reg := rax | rcx | rdx | rbx | rsp | rbp | rsi | rdi
               | r8 | r9 | r10 | r11 | r12 | r13 | r14 | r15.
#[export] Instance reg_eq_dec : EqDecision reg.
Proof. solve_decision. Defined.

(** HotSpot's names, on Linux. *)
Definition c_rarg0 := rdi.
Definition c_rarg1 := rsi.
Definition c_rarg2 := rdx.
Definition rscratch1 := r10.
Definition rscratch2 := r11.
Definition r15_thread := r15.

(** The registers a C function may change. *)
Definition caller_saved (r : reg) : bool :=
  match r with rax | rcx | rdx | rsi | rdi | r8 | r9 | r10 | r11 => true | _ => false end.

(** [base + index * 2^scale + disp]. *)
Record Address := Addr { base : reg; index : option reg; scale : Z; disp : Z }.

(** The functions the barriers call. *)
Inductive callee :=
| write_pre_call | write_post_call | write_slow_call
| array_copy_pre_call | array_copy_post_call | load_reference_call.

(** Labels of the emitted code. *)
Inductive label := done | slow_case | continuation | stub_entry.
#[export] Instance label_eq_dec : EqDecision label.
Proof. solve_decision. Defined.

Inductive condition := equal | notEqual | below | above | aboveEqual.

Inductive instr :=
| movptr (d s : reg) | movptr_imm (d : reg) (z : Z)
| movptr_load (d : reg) (a : Address) | movptr_store (a : Address) (s : reg)
| movl (d s : reg)
| movb_load (d : reg) (a : Address) | movb_store (a : Address) (s : reg)
| movzbl (d : reg) (a : Address)
| lea (d : reg) (a : Address)
| shrptr (d : reg) (n : Z) | shrptr_cl (d : reg) | shlptr_cl (d : reg)
| andptr (d : reg) (z : Z) | orptr (d s : reg) | xorptr (d s : reg) | addptr (d : reg) (z : Z)
| addq_mem (a : Address) (s : reg) | addq_mem_imm (a : Address) (z : Z)
| cmpptr_imm (d : reg) (z : Z) | cmpptr (d s : reg) | cmpptr_mem (d : reg) (a : Address)
| jcc (c : condition) (l : label) | jmp (l : label) | bind (l : label)
| push (r : reg) | pop (r : reg) | pusha | popa
| call_leaf (f : callee) (nargs : nat).

(** ** Machines *)

Abbreviation regs := (reg → Z).

Inductive frame := Word (z : Z) | All (rs : regs).

Record machine := Machine {
  rf : regs;
  memory : mem;
  flags : option (Z * Z);            (* the operands of the last comparison *)
  stack : list frame;
  calls : list (callee * list Z)     (* leaf calls, with their arguments *)
}.

Inductive result := Falls (m : machine) | Jumps (l : label) (m : machine) | Stuck.

(** What a leaf call leaves behind. *)
Class Callee := {
  callee_memory : callee → list Z → mem → mem;
  callee_scratch : callee → list Z → mem → reg → Z
}.

Definition upd (r : reg) (v : Z) (rs : regs) : regs := λ x, if decide (x = r) then v else rs x.

Lemma upd_eq r v rs : upd r v rs r = v.
Proof. unfold upd. by rewrite decide_True. Qed.
Lemma upd_ne r r' v rs : r' ≠ r → upd r v rs r' = rs r'.
Proof. intros. unfold upd. by rewrite decide_False. Qed.

Definition set_reg (r : reg) (v : Z) (m : machine) : machine :=
  Machine (upd r v (rf m)) (memory m) (flags m) (stack m) (calls m).
Definition set_flags (f : option (Z * Z)) (m : machine) : machine :=
  Machine (rf m) (memory m) f (stack m) (calls m).
Definition set_memory (mm : mem) (m : machine) : machine :=
  Machine (rf m) mm (flags m) (stack m) (calls m).
Definition set_stack (s : list frame) (m : machine) : machine :=
  Machine (rf m) (memory m) (flags m) s (calls m).

(** Arithmetic leaves flags the emitted code never looks at. *)
Definition arith (r : reg) (v : Z) (m : machine) : machine := set_flags None (set_reg r v m).

Definition effective (rs : regs) (a : Address) : Z :=
  u64 (rs (base a) + match index a with Some i => Z.shiftl (rs i) (scale a) | None => 0 end + disp a).

Definition holds (c : condition) (f : Z * Z) : bool :=
  let '(a, b) := f in
  match c with
  | equal => bool_decide (a = b)
  | notEqual => bool_decide (a ≠ b)
  | below => bool_decide (a < b)
  | above => bool_decide (b < a)
  | aboveEqual => bool_decide (b ≤ a)
  end.

Definition args (rs : regs) (n : nat) : list Z := take n [rs c_rarg0; rs c_rarg1; rs c_rarg2].

Section exec.
Context `{Callee}.

(** One instruction other than a jump. *)
Definition exec1 (i : instr) (m : machine) : option machine :=
  let rs := rf m in
  match i with
  | movptr d s => Some (set_reg d (rs s) m)
  | movptr_imm d z => Some (set_reg d (u64 z) m)
  | movptr_load d a => Some (set_reg d (read 8 (memory m) (effective rs a)) m)
  | movptr_store a s => Some (set_memory (write 8 (memory m) (effective rs a) (rs s)) m)
  | movl d s => Some (set_reg d (u32 (rs s)) m)
  | movb_load d a =>
      Some (set_reg d (Z.lor (Z.ldiff (rs d) 255) (read 1 (memory m) (effective rs a))) m)
  | movb_store a s => Some (set_memory (write 1 (memory m) (effective rs a) (rs s)) m)
  | movzbl d a => Some (set_reg d (read 1 (memory m) (effective rs a)) m)
  | lea d a => Some (set_reg d (effective rs a) m)
  | shrptr d n => Some (arith d (Z.shiftr (rs d) n) m)
  | shrptr_cl d => Some (arith d (Z.shiftr (rs d) (Z.land (rs rcx) 63)) m)
  | shlptr_cl d => Some (arith d (u64 (Z.shiftl (rs d) (Z.land (rs rcx) 63))) m)
  | andptr d z => Some (arith d (Z.land (rs d) (u64 z)) m)
  | orptr d s => Some (arith d (Z.lor (rs d) (rs s)) m)
  | xorptr d s => Some (arith d (Z.lxor (rs d) (rs s)) m)
  | addptr d z => Some (arith d (u64 (rs d + z)) m)
  | addq_mem a s =>
      let e := effective rs a in
      Some (set_flags None (set_memory (write 8 (memory m) e (u64 (read 8 (memory m) e + rs s))) m))
  | addq_mem_imm a z =>
      let e := effective rs a in
      Some (set_flags None (set_memory (write 8 (memory m) e (u64 (read 8 (memory m) e + z))) m))
  | cmpptr_imm d z => Some (set_flags (Some (rs d, u64 z)) m)
  | cmpptr d s => Some (set_flags (Some (rs d, rs s)) m)
  | cmpptr_mem d a => Some (set_flags (Some (rs d, read 8 (memory m) (effective rs a))) m)
  | push r => Some (set_stack (Word (rs r) :: stack m) m)
  | pop r =>
      match stack m with
      | Word z :: s => Some (set_stack s (set_reg r z m))
      | _ => None
      end
  | pusha => Some (set_stack (All rs :: stack m) m)
  | popa =>
      match stack m with
      | All rs' :: s => Some (Machine (upd rsp (rs rsp) rs') (memory m) (flags m) s (calls m))
      | _ => None
      end
  | call_leaf f n =>
      let l := args rs n in
      Some (Machine (λ r, if caller_saved r then callee_scratch f l (memory m) r else rs r)
              (callee_memory f l (memory m)) None (stack m) (calls m ++ [(f, l)]))
  | bind _ => Some m
  | jcc _ _ | jmp _ => None
  end.

(** Running code; with [Some l], looking for [bind l]. *)
Fixpoint exec (code : list instr) (target : option label) (m : machine) : result :=
  match code with
  | [] => match target with None => Falls m | Some l => Jumps l m end
  | i :: code =>
      match target with
      | Some l =>
          match i with
          | bind l' => if decide (l = l') then exec code None m else exec code target m
          | _ => exec code target m
          end
      | None =>
          match i with
          | jmp l => exec code (Some l) m
          | jcc c l =>
              match flags m with
              | Some f => if holds c f then exec code (Some l) m else exec code None m
              | None => Stuck
              end
          | _ => match exec1 i m with Some m => exec code None m | None => Stuck end
          end
      end
  end.

(** Straight-line code. *)
Fixpoint straight (code : list instr) (m : machine) : option machine :=
  match code with
  | [] => Some m
  | i :: code => match exec1 i m with Some m => straight code m | None => None end
  end.

Definition is_jump (i : instr) : bool := match i with jmp _ | jcc _ _ => true | _ => false end.

Lemma exec_straight c1 c2 m m' :
  straight c1 m = Some m' → exec (c1 ++ c2) None m = exec c2 None m'.
Proof.
  revert m. induction c1 as [|i c1 IH]; intros m Hs; simpl in *; [by simplify_eq|].
  destruct (exec1 i m) as [m1|] eqn:E; [|done].
  destruct i; try (by apply IH); discriminate E.
Qed.

(** Code after code: falling through, or a jump to be resolved there. *)
Lemma exec_app c1 c2 t m :
  exec (c1 ++ c2) t m =
  match exec c1 t m with
  | Falls m => exec c2 None m
  | Jumps l m => exec c2 (Some l) m
  | Stuck => Stuck
  end.
Proof.
  revert t m. induction c1 as [|i c1 IH]; intros t m; [by destruct t|].
  cbn [exec app]. destruct t as [l|].
  - destruct i; try apply IH. case_decide; apply IH.
  - destruct i; try (case_match; [apply IH|done]); [|apply IH].
    destruct (flags m) as [f|]; [|done]. destruct (holds c f); apply IH.
Qed.

(** A jump out of the code. *)
Lemma exec_out c l m : (∀ i, i ∈ c → i ≠ bind l) → exec c (Some l) m = Jumps l m.
Proof.
  induction c as [|i c IH]; intros Hc; [done|]. cbn [exec].
  assert (exec c (Some l) m = Jumps l m) as E by (apply IH; intros j Hj; apply Hc; by right).
  destruct i; try done. case_decide; [|done]. subst. destruct (Hc (bind l0)); [by left|done].
Qed.

Lemma straight_app c1 c2 m m' :
  straight c1 m = Some m' → straight (c1 ++ c2) m = straight c2 m'.
Proof.
  revert m. induction c1 as [|i c1 IH]; intros m Hs; simpl in *; [by simplify_eq|].
  destruct (exec1 i m); [by apply IH|done].
Qed.

(** Saving and restoring all registers around code that leaves the stack as it
    found it. *)
Lemma popa_restores m m1 :
  rf m1 rsp = rf m rsp → stack m1 = All (rf m) :: stack m →
  ∃ m', exec1 popa m1 = Some m' ∧ (∀ r, rf m' r = rf m r) ∧ stack m' = stack m ∧
        memory m' = memory m1 ∧ calls m' = calls m1.
Proof.
  intros Hsp Hst. simpl. rewrite Hst. eexists; split; [done|]. split; [|done].
  intros r. simpl. unfold upd. case_decide; by subst.
Qed.

End exec.

(** Register files are words. *)
Definition words_ok (rs : regs) : Prop := ∀ r, 0 ≤ rs r < 2 ^ 64.
