(* ===== verification/Interleaving.v ===== *)
(** * Emitted code of several threads

    The instructions of [X86] as steps, interleaved with those of other threads on
    one memory.  Threads whose code stays in footprints of their own cannot notice
    each other: each ends as if it had run alone. *)

From stdpp Require Import base numbers list relations.
From Stdlib Require Import ZArith Lia.
From S2P Require Import Prelude Slots X86.

Local Open Scope Z_scope.

#[local] Arguments read : simpl never.
#[local] Arguments write : simpl never.

(** ** Footprints *)

(** The bytes an instruction reads or writes. *)
Definition touched (i : instr) (rs : regs) (x : Z) : Prop :=
  match i with
  | movptr_load _ a | movptr_store a _ | cmpptr_mem _ a | addq_mem a _ | addq_mem_imm a _ =>
      effective rs a ≤ x < effective rs a + 8
  | movb_load _ a | movb_store a _ | movzbl _ a => x = effective rs a
  | _ => False
  end.

(** The instruction is no call, and stays in [F]. *)
Definition local (F : Z → Prop) (i : instr) (rs : regs) : Prop :=
  match i with call_leaf _ _ => False | _ => ∀ x, touched i rs x → F x end.

(** Everything of a machine but its memory. *)
Definition same_core (m1 m2 : machine) : Prop :=
  rf m1 = rf m2 ∧ flags m1 = flags m2 ∧ stack m1 = stack m2 ∧ calls m1 = calls m2.

(** The same machine as far as code in [F] can see. *)
Definition same_in (F : Z → Prop) (m1 m2 : machine) : Prop :=
  same_core m1 m2 ∧ ∀ x, F x → memory m1 x = memory m2 x.

Lemma same_in_sym F m1 m2 : same_in F m1 m2 → same_in F m2 m1.
Proof.
  intros [(? & ? & ? & ?) Hm]. split; [by split_and!|]. intros x Hx. symmetry. by apply Hm.
Qed.

Definition unchanged_outside (F : Z → Prop) (m m' : machine) : Prop :=
  ∀ x, ¬ F x → memory m' x = memory m x.

Lemma read_agree (F : Z → Prop) n m1 m2 a :
  (∀ x, F x → m1 x = m2 x) → (∀ x, a ≤ x < a + Z.of_nat n → F x) → read n m1 a = read n m2 a.
Proof. intros Hm Hf. apply read_ext. auto. Qed.

Lemma write_agree (F : Z → Prop) n (m1 m2 : mem) a v x :
  (∀ x, F x → m1 x = m2 x) → F x → write n m1 a v x = write n m2 a v x.
Proof. intros Hm Hf. unfold write. case_decide; auto. Qed.

Lemma write_outside (F : Z → Prop) n (m : mem) a v x :
  (∀ x, a ≤ x < a + Z.of_nat n → F x) → ¬ F x → write n m a v x = m x.
Proof.
  intros Hf Hx. apply write_frame. destruct (decide (a ≤ x < a + Z.of_nat n)); [|lia]. by destruct Hx; apply Hf.
Qed.

Section steps.
Context `{Callee}.

(** What an instruction does depends on its footprint only, and changes nothing
    else. *)
Lemma exec1_local F i m1 m2 m1' :
  local F i (rf m1) → same_in F m1 m2 → exec1 i m1 = Some m1' →
  ∃ m2', exec1 i m2 = Some m2' ∧ same_in F m1' m2' ∧
    unchanged_outside F m1 m1' ∧ unchanged_outside F m2 m2'.
Proof.
  intros Hl [(R & Fl & St & Ca) Hm] E. destruct m1 as [rs mm1 fl st ca], m2 as [rs2 mm2 fl2 st2 ca2].
  cbn [rf flags stack calls memory] in *. subst rs2 fl2 st2 ca2.
  assert (∀ a, (∀ x, effective rs a ≤ x < effective rs a + 8 → F x) →
    read 8 mm1 (effective rs a) = read 8 mm2 (effective rs a)) as R8 by (intros; by apply (read_agree F)).
  assert (∀ a, (∀ x, x = effective rs a → F x) →
    read 1 mm1 (effective rs a) = read 1 mm2 (effective rs a)) as R1.
  { intros a Ha. apply (read_agree F); [done|]. change (Z.of_nat 1) with 1. intros x Hx. apply Ha. lia. }
  destruct i; cbn [local touched exec1 rf memory flags stack calls] in *; try done;
    try (injection E as <-; eexists; split; [reflexivity|]; split;
         [split; [split_and!; cbn; try done; by rewrite ?R8, ?R1|]|split]; cbn; intros x Hx;
         try done; try (by apply Hm);
         try (rewrite ?R8 by done; by apply (write_agree F));
         try (apply (write_outside F); [|done]; change (Z.of_nat 8) with 8; change (Z.of_nat 1) with 1;
              intros y Hy; apply Hl; lia)).
  all: try (destruct st as [|[z|rs'] st]; [done| |]; try done; injection E as <-; eexists; split; [reflexivity|];
            split; [split; [split_and!; done|]|split]; cbn; intros x Hx; try done; by apply Hm).
Qed.
(** ** Single steps *)

(** Code that is left, with the label that is looked for. *)
Record cpu := Cpu { code : list instr; target : option label; mach : machine }.

Definition cpu_step (c : cpu) : option cpu :=
  match code c with
  | [] => None
  | i :: l =>
      match target c with
      | Some x =>
          Some (Cpu l (match i with bind x' => if decide (x = x') then None else Some x | _ => Some x end) (mach c))
      | None =>
          match i with
          | jmp x => Some (Cpu l (Some x) (mach c))
          | jcc k x =>
              match flags (mach c) with
              | Some f => Some (Cpu l (if holds k f then Some x else None) (mach c))
              | None => None
              end
          | _ => (λ m, Cpu l None m) <$> exec1 i (mach c)
          end
      end
  end.

(** The result of running on alone. *)
Definition alone (c : cpu) : result := exec (code c) (target c) (mach c).

(** Steps do not change it. *)
Lemma alone_step c c' : cpu_step c = Some c' → alone c' = alone c.
Proof.
  destruct c as [[|i l] t m]; [done|]. unfold cpu_step, alone. cbn [code target mach exec].
  destruct t as [x|].
  - intros E. injection E as <-. cbn [code target mach]. destruct i; try done. by case_decide; subst.
  - destruct i; try (destruct (exec1 _ m) eqn:E1; cbn; intros E; [|done]; by injection E as <-).
    + destruct (flags m) as [f|]; [|done]. intros E. injection E as <-. cbn. by destruct (holds c f).
    + intros E. by injection E as <-.
Qed.

(** The next instruction that is run stays in [F]; all that are run do. *)
Definition next_local (F : Z → Prop) (c : cpu) : Prop :=
  match code c, target c with i :: _, None => local F i (rf (mach c)) | _, _ => True end.

Fixpoint run_local (F : Z → Prop) (l : list instr) (t : option label) (m : machine) : Prop :=
  match l with
  | [] => True
  | i :: l =>
      match t with
      | Some x => run_local F l (match i with bind x' => if decide (x = x') then None else Some x | _ => Some x end) m
      | None =>
          local F i (rf m) ∧
          match i with
          | jmp x => run_local F l (Some x) m
          | jcc k x => match flags m with Some f => run_local F l (if holds k f then Some x else None) m | None => True end
          | _ => match exec1 i m with Some m => run_local F l None m | None => True end
          end
      end
  end.

Definition stays_local (F : Z → Prop) (c : cpu) : Prop := run_local F (code c) (target c) (mach c).

Lemma stays_now F c : stays_local F c → next_local F c.
Proof. destruct c as [[|i l] [x|] m]; unfold stays_local, next_local; cbn; tauto. Qed.

Lemma stays_next F c c' : stays_local F c → cpu_step c = Some c' → stays_local F c'.
Proof.
  destruct c as [[|i l] t m]; unfold stays_local, cpu_step; cbn [code target mach run_local]; [done|].
  destruct t as [x|]; [by intros ? [= <-]|]. intros [_ Hr].
  destruct i; try (destruct (exec1 _ m); cbn; [by intros [= <-]|done]); [|by intros [= <-]].
  destruct (flags m); [by intros [= <-]|done].
Qed.

Definition with_mach (m : machine) (c : cpu) : cpu := Cpu (code c) (target c) m.

(** Two views of a thread that agree on its footprint step in the same way. *)
Lemma cpu_step_local F c m2 c' :
  next_local F c → same_in F (mach c) m2 → cpu_step c = Some c' →
  ∃ m2', cpu_step (with_mach m2 c) = Some (with_mach m2' c') ∧ same_in F (mach c') m2' ∧
    unchanged_outside F (mach c) (mach c') ∧ unchanged_outside F m2 m2'.
Proof.
  intros Hl Hs E. destruct c as [[|i l] t m]; [done|]. unfold cpu_step, next_local, with_mach in *.
  cbn [code target mach] in *. destruct t as [x|].
  { injection E as <-. by exists m2. }
  destruct i; try (destruct (exec1 _ m) as [m'|] eqn:E1; cbn in E; [|done]; injection E as <-;
    destruct (exec1_local F _ m m2 m' Hl Hs E1) as (m2' & -> & ? & ? & ?); by exists m2').
  - pose proof Hs as [(_ & Hf & _) _]. rewrite <-Hf. destruct (flags m) as [f|]; [|done].
    injection E as <-. by exists m2.
  - injection E as <-. by exists m2.
Qed.

(** A thread that is not stuck can step until its code is at an end. *)
Lemma cpu_progress c : alone c ≠ Stuck → code c = [] ∨ ∃ c', cpu_step c = Some c'.
Proof.
  destruct c as [[|i l] t m]; unfold alone, cpu_step; cbn [code target mach exec]; [by left|]. intros Hs. right.
  destruct t as [x|]; [by eexists|].
  destruct i; try (destruct (exec1 _ m); [by eexists|done]); [|by eexists].
  destruct (flags m); [by eexists|done].
Qed.

(** ** Interleaving *)

(** The memory, and the threads; the memory of their machines is not used. *)
Record system := System { shared : mem; cpus : list cpu }.

Definition load_cpu (m : mem) (c : cpu) : cpu := with_mach (set_memory m (mach c)) c.

Definition sys_step (i : nat) (s : system) : option system :=
  c ← cpus s !! i;
  c' ← cpu_step (load_cpu (shared s) c);
  Some (System (memory (mach c')) (<[i := c']> (cpus s))).

(** A schedule names the thread that makes each step. *)
Fixpoint sys_run (schedule : list nat) (s : system) : option system :=
  match schedule with
  | [] => Some s
  | i :: l => sys_step i s ≫= sys_run l
  end.

(** Each step uses up an instruction, so a schedule is at most as long as the code. *)
Definition code_left (s : system) : nat := sum_list_with (length ∘ code) (cpus s).

Lemma cpu_step_shorter c c' : cpu_step c = Some c' → length (code c) = S (length (code c')).
Proof.
  destruct c as [[|i l] t m]; [done|]. unfold cpu_step. cbn [code target mach length].
  destruct t as [x|]; [by intros [= <-]|].
  destruct i; try (destruct (exec1 _ m); cbn; [by intros [= <-]|done]); [|by intros [= <-]].
  destruct (flags m); [by intros [= <-]|done].
Qed.

Lemma sum_insert {A} (f : A → nat) l i x y :
  l !! i = Some x → (sum_list_with f (<[i := y]> l) + f x = sum_list_with f l + f y)%nat.
Proof.
  revert i. induction l as [|z l IH]; intros [|i]; simpl; intros E; [done..| |].
  - injection E as ->. lia.
  - specialize (IH i E). lia.
Qed.

Lemma sys_run_length l s s' : sys_run l s = Some s' → (length l + code_left s')%nat = code_left s.
Proof.
  revert s. induction l as [|i l IH]; intros s E; cbn in E; [by injection E as <-|].
  destruct (sys_step i s) as [s1|] eqn:E1; cbn in E; [|done]. apply IH in E. cbn [length].
  unfold sys_step in E1. destruct (cpus s !! i) as [c|] eqn:Ec; cbn in E1; [|done].
  destruct (cpu_step _) as [c'|] eqn:Es; cbn in E1; [|done]. injection E1 as <-.
  apply cpu_step_shorter in Es. cbn [load_cpu with_mach code] in Es. unfold code_left in *. cbn [cpus] in E.
  pose proof (sum_insert (length ∘ code) _ _ _ c' Ec) as Hs. cbn in Hs. lia.
Qed.

Section footprints.
(** The footprint of each thread; those of different threads share no byte. *)
Variable F : nat → Z → Prop.
Hypothesis F_apart : ∀ i j x, i ≠ j → F i x → F j x → False.
Variable s0 : system.
Hypothesis s0_local : ∀ i c, cpus s0 !! i = Some c → stays_local (F i) (load_cpu (shared s0) c).

(** Each thread sees in its footprint what it would see alone. *)
Record sys_inv (s : system) : Prop := {
  si_threads i c0 : cpus s0 !! i = Some c0 → ∃ c d, cpus s !! i = Some c ∧
    code d = code c ∧ target d = target c ∧ same_in (F i) (mach d) (set_memory (shared s) (mach c)) ∧
    alone d = alone (load_cpu (shared s0) c0) ∧ stays_local (F i) d ∧
    ∀ x, ¬ F i x → memory (mach d) x = shared s0 x;
  si_length : length (cpus s) = length (cpus s0);
  si_outside x : (∀ i, (i < length (cpus s0))%nat → ¬ F i x) → shared s x = shared s0 x
}.

Lemma sys_inv_start : sys_inv s0.
Proof.
  split; [|done|done]. intros i c Hc. exists c, (load_cpu (shared s0) c). split_and!; try done.
  by apply s0_local.
Qed.

Lemma sys_inv_step i s s' : sys_inv s → sys_step i s = Some s' → sys_inv s'.
Proof.
  intros [Ht Hlen Ho] E. unfold sys_step in E.
  destruct (cpus s !! i) as [c|] eqn:Ec; cbn in E; [|done].
  destruct (cpu_step (load_cpu (shared s) c)) as [c'|] eqn:Es; cbn in E; [|done]. injection E as <-.
  assert (i < length (cpus s0))%nat as Hi by (rewrite <-Hlen; by eapply lookup_lt_Some).
  destruct (lookup_lt_is_Some_2 _ _ Hi) as [c0 Hc0].
  destruct (Ht i c0 Hc0) as (c1 & d & Ec1 & Hcode & Htg & Hsame & Hal & Hst & Hout).
  rewrite Ec in Ec1. injection Ec1 as <-. pose proof (stays_now _ _ Hst) as Hnl.
  assert (d = with_mach (mach d) (load_cpu (shared s) c)) as Ed by (destruct d; cbn in *; by subst).
  destruct (cpu_step_local (F i) (load_cpu (shared s) c) (mach d) c') as (m' & Es' & Hsame' & Hu1 & Hu2).
  { unfold next_local in *. rewrite Hcode, Htg in Hnl. destruct Hsame as [(R & _) _]. cbn in R |- *. by rewrite <-R. }
  { by apply same_in_sym. }
  { done. }
  rewrite <-Ed in Es'. cbn [mach load_cpu with_mach] in Hu1.
  assert (∀ x, ¬ F i x → memory (mach c') x = shared s x) as Hu by (intros x Hx; by apply Hu1).
  split; cbn [shared cpus].
  - intros j cj Hcj. destruct (decide (i = j)) as [<-|Hij].
    + rewrite Hc0 in Hcj. injection Hcj as <-. exists c', (with_mach m' c').
      rewrite list_lookup_insert_eq by (by eapply lookup_lt_Some). split_and!; try done.
      * apply same_in_sym. by destruct c' as [l t [rs mm fl st ca]].
      * rewrite <-Hal. by apply alone_step.
      * by eapply stays_next.
      * intros x Hx. cbn. rewrite Hu2 by done. by apply Hout.
    + destruct (Ht j cj Hcj) as (c2 & d2 & Ec2 & K1 & K2 & K3 & K4 & K5 & K6). exists c2, d2.
      rewrite list_lookup_insert_ne by done. split_and!; try done.
      destruct K3 as [Kc Km]. split; [done|]. intros x Hx. rewrite Km by done. cbn. symmetry. apply Hu.
      intros Hx'. by eapply (F_apart i j).
  - by rewrite length_insert.
  - intros x Hx. rewrite Hu by (by apply Hx). by apply Ho.
Qed.

Lemma sys_inv_run l s : sys_run l s0 = Some s → sys_inv s.
Proof.
  enough (∀ s1, sys_inv s1 → sys_run l s1 = Some s → sys_inv s) as Hl by (apply Hl, sys_inv_start).
  induction l as [|i l IH]; intros s1 Hi E; cbn in E; [by injection E as <-|].
  destruct (sys_step i s1) as [s2|] eqn:E2; cbn in E; [|done]. eapply IH; [by eapply sys_inv_step|done].
Qed.

(** Whatever the schedule: a thread that does not get stuck alone never gets stuck;
    and when all code is at its end, each thread has the registers and the footprint
    that it would have alone, and what is in no footprint is as it was. *)
Lemma sys_run_alone l s :
  sys_run l s0 = Some s →
  (∀ i c0, cpus s0 !! i = Some c0 → alone (load_cpu (shared s0) c0) ≠ Stuck →
     ∃ c, cpus s !! i = Some c ∧ (code c = [] ∨ ∃ s', sys_step i s = Some s')) ∧
  (∀ i c0 c, cpus s0 !! i = Some c0 → cpus s !! i = Some c → code c = [] →
     ∃ m, alone (load_cpu (shared s0) c0) = match target c with None => Falls m | Some x => Jumps x m end ∧
       same_in (F i) m (set_memory (shared s) (mach c))) ∧
  (∀ x, (∀ i, (i < length (cpus s0))%nat → ¬ F i x) → shared s x = shared s0 x).
Proof.
  intros Hrun. destruct (sys_inv_run l s Hrun) as [Ht Hlen Ho]. split_and!; [| |done].
  - intros i c0 Hc0 Hns. destruct (Ht i c0 Hc0) as (c & d & Ec & Hcode & Htg & Hsame & Hal & Hst & Hout).
    exists c. split; [done|]. destruct (cpu_progress d) as [Hnil|[d' Ed']]; [by rewrite Hal| |].
    { left. by rewrite <-Hcode. }
    right. pose proof (stays_now _ _ Hst) as Hnl.
    destruct (cpu_step_local (F i) d (set_memory (shared s) (mach c)) d' Hnl Hsame Ed') as (m2 & E2 & _).
    assert (with_mach (set_memory (shared s) (mach c)) d = load_cpu (shared s) c) as E.
    { unfold with_mach, load_cpu. by rewrite Hcode, Htg. }
    unfold sys_step. rewrite Ec. cbn. rewrite E in E2. rewrite E2. cbn. by eexists.
  - intros i c0 c Hc0 Hc Hnil. destruct (Ht i c0 Hc0) as (c1 & d & Ec & Hcode & Htg & Hsame & Hal & _ & _).
    rewrite Hc in Ec. injection Ec as <-. exists (mach d). split; [|done].
    rewrite <-Hal. unfold alone. rewrite Hcode, Hnil, Htg. by destruct (target c).
Qed.
End footprints.
End steps.
