(* ===== verification/AsmBarriers.v ===== *)
(** * Barriers in assembly

    The code that [MMTkBarrierSetAssembler] and its object and SATB subclasses
    emit for the interpreter and the array-copy stubs
    ([mmtkBarrierSetAssembler_x86.hpp], [mmtkObjectBarrier.cpp],
    [mmtkSATBBarrier.cpp]): each emitter returns the instructions it emits. *)

From stdpp Require Import base numbers list.
From Stdlib Require Import ZArith Lia.
From S2P Require Import Prelude Slots Barrier X86.

Local Open Scope Z_scope.

(** [noreg] is [None]. *)
Abbreviation Register := (option reg).

Inductive BasicType := T_OBJECT | T_ARRAY | T_OTHER.
#[export] Instance BasicType_eq_dec : EqDecision BasicType.
Proof. solve_decision. Defined.

Definition is_reference_type (type : BasicType) : bool :=
  match type with T_OBJECT | T_ARRAY => true | T_OTHER => false end.

(** [MMTkBarrierSetAssembler::can_remove_barrier]. *)
Definition can_remove_barrier (decorators : DecoratorSet) (val : Register) (skip_const_null : bool) : bool :=
  negb (IN_HEAP decorators) || (skip_const_null && bool_decide (val = None)).

Section emitters.
Variable mmtk_enable_barrier_fastpath : bool.
(** [GLOBAL_SIDE_METADATA_VM_BASE_ADDRESS] and the address of
    [CONCURRENT_MARKING_ACTIVE]. *)
Variable side_metadata_base_address : Z.
Variable concurrent_marking_active_address : Z.
Variable UseCompressedOops : bool.

(** ** The object barrier *)

(** [MMTkObjectBarrierSetAssembler::object_reference_write_post]. *)
Definition object_write_post_code (decorators : DecoratorSet) (dst : Address) (val : Register)
    (tmp1 tmp2 : reg) : list instr :=
  if can_remove_barrier decorators val true then [] else
  let obj := base dst in
  let tmp3 := rscratch1 in
  let tmp4 := rscratch2 in
  (if mmtk_enable_barrier_fastpath then
     [movptr tmp3 obj; shrptr tmp3 6;
      movptr_imm tmp2 side_metadata_base_address;
      movb_load tmp2 (Addr tmp2 (Some tmp3) 0 0);
      movptr tmp3 obj; shrptr tmp3 3; andptr tmp3 7;
      movptr tmp4 rcx; movl rcx tmp3; shrptr_cl tmp2; movptr rcx tmp4;
      andptr tmp2 1; cmpptr_imm tmp2 1; jcc notEqual done]
   else []) ++
  [movptr c_rarg0 obj; xorptr c_rarg1 c_rarg1; xorptr c_rarg2 c_rarg2] ++
  (if mmtk_enable_barrier_fastpath
   then [call_leaf write_slow_call 3; bind done]
   else [call_leaf write_post_call 3]).

(** The copy of [count] or [dst] that the prologue leaves in [r11] for the
    epilogue. *)
Definition object_arraycopy_prologue (decorators : DecoratorSet) (type : BasicType)
    (src dst count : reg) : list instr :=
  let checkcast := ARRAYCOPY_CHECKCAST decorators in
  let disjoint := ARRAYCOPY_DISJOINT decorators in
  let obj_int := bool_decide (type = T_OBJECT) && UseCompressedOops in
  if is_reference_type type then
    if negb checkcast then
      if negb obj_int then [movptr r11 count]
      else if disjoint then [movptr r11 dst] else []
    else []
  else [].

Definition object_arraycopy_epilogue (decorators : DecoratorSet) (type : BasicType)
    (src dst count : reg) : list instr :=
  let checkcast := ARRAYCOPY_CHECKCAST decorators in
  let disjoint := ARRAYCOPY_DISJOINT decorators in
  let obj_int := bool_decide (type = T_OBJECT) && UseCompressedOops in
  let dest_uninitialized := IS_DEST_UNINITIALIZED decorators in
  if is_reference_type type && negb dest_uninitialized then
    let '(dst, count) :=
      if negb checkcast then
        if negb obj_int then (dst, r11) else if disjoint then (r11, count) else (dst, count)
      else (dst, count) in
    [pusha; movptr c_rarg0 src; movptr c_rarg1 dst; movptr c_rarg2 count;
     call_leaf array_copy_post_call 3; popa]
  else [].

(** ** The SATB barrier *)

(** The null passed for [noreg] is [Register(0)], which is [rax]. *)
Definition val_or_null (val : Register) : reg := default rax val.

(** [MMTkSATBBarrierSetAssembler::object_reference_write_pre]. *)
Definition satb_write_pre_code (decorators : DecoratorSet) (dst : Address) (val : Register)
    (tmp1 tmp2 : reg) : list instr :=
  if can_remove_barrier decorators val false then [] else
  if mmtk_enable_barrier_fastpath then
    let obj := base dst in
    let tmp3 := rscratch1 in
    let tmp4 := rscratch2 in
    let tmp5 := if decide (tmp1 = base dst ∨ Some tmp1 = index dst) then tmp2 else tmp1 in
    [movptr tmp3 obj; shrptr tmp3 6;
     movptr_imm tmp5 side_metadata_base_address;
     movzbl tmp5 (Addr tmp5 (Some tmp3) 0 0);
     movptr tmp3 obj; shrptr tmp3 3; andptr tmp3 7;
     movptr tmp4 rcx; movl rcx tmp3; shrptr_cl tmp5; movptr rcx tmp4;
     andptr tmp5 1; cmpptr_imm tmp5 1; jcc notEqual done] ++
    [pusha; movptr c_rarg0 (base dst); lea c_rarg1 dst; movptr c_rarg2 (val_or_null val);
     call_leaf write_slow_call 3; popa; bind done]
  else
    [pusha; movptr c_rarg0 (base dst); lea c_rarg1 dst; movptr c_rarg2 (val_or_null val);
     call_leaf write_pre_call 3; popa].

(** [MMTkSATBBarrierSetAssembler::load_at]; [raw_load_at] is what HotSpot's
    [BarrierSetAssembler::load_at] emits. *)
Definition satb_load_at (raw_load_at : DecoratorSet → BasicType → reg → Address → list instr)
    (decorators : DecoratorSet) (type : BasicType) (dst : reg) (src : Address)
    : list instr :=
  let on_oop := is_reference_type type in
  let on_reference := ON_WEAK_OOP_REF decorators || ON_PHANTOM_OOP_REF decorators in
  raw_load_at decorators type dst src ++
  if on_oop && on_reference then
    let tmp := rscratch1 in
    let tmp2 := rscratch2 in
    [movptr_imm tmp concurrent_marking_active_address; xorptr tmp2 tmp2;
     movb_load tmp2 (Addr tmp None 0 0);
     cmpptr_imm tmp2 1; jcc notEqual done;
     cmpptr_imm dst 0; jcc equal done;
     pusha; movptr c_rarg0 dst; call_leaf load_reference_call 1; popa; bind done]
  else [].

(** [MMTkSATBBarrierSetAssembler::arraycopy_prologue]. *)
Definition satb_arraycopy_prologue (decorators : DecoratorSet) (type : BasicType)
    (src dst count : reg) : list instr :=
  if is_reference_type type then
    [cmpptr_imm count 0; jcc equal done;
     pusha; movptr c_rarg0 src; movptr c_rarg1 dst; movptr c_rarg2 count;
     call_leaf array_copy_pre_call 3; popa; bind done]
  else [].

(** [MMTkBarrierSetAssembler::store_at], for the object and the SATB barrier;
    [raw_store_at] is what HotSpot's [BarrierSetAssembler::store_at] emits. *)
Definition object_store_at
    (raw_store_at : DecoratorSet → BasicType → Address → Register → reg → reg → list instr) (decorators : DecoratorSet) (type : BasicType) (dst : Address)
    (val : Register) (tmp1 tmp2 : reg) : list instr :=
  raw_store_at decorators type dst val tmp1 tmp2 ++
  (if is_reference_type type then object_write_post_code decorators dst val tmp1 tmp2 else []).

Definition satb_store_at
    (raw_store_at : DecoratorSet → BasicType → Address → Register → reg → reg → list instr) (decorators : DecoratorSet) (type : BasicType) (dst : Address)
    (val : Register) (tmp1 tmp2 : reg) : list instr :=
  (if is_reference_type type then satb_write_pre_code decorators dst val tmp1 tmp2 else []) ++
  raw_store_at decorators type dst val tmp1 tmp2.

Context `{Callee}.

Ltac simp_regs := repeat (rewrite upd_eq || (rewrite upd_ne by congruence)).

(** ** Passing three registers *)

(** The moves into the argument registers do not overwrite one another's
    sources. *)
Definition moves_ok (a0 a1 a2 : reg) : Prop :=
  (a1 = c_rarg0 → a0 = c_rarg0) ∧ (a2 = c_rarg0 → a0 = c_rarg0) ∧ (a2 = c_rarg1 → a1 = c_rarg1).

Lemma moves_args (rs : regs) a0 a1 a2 :
  moves_ok a0 a1 a2 →
  let rs0 := upd c_rarg0 (rs a0) rs in
  let rs1 := upd c_rarg1 (rs0 a1) rs0 in
  let rs2 := upd c_rarg2 (rs1 a2) rs1 in
  args rs2 3 = [rs a0; rs a1; rs a2].
Proof.
  intros (H1 & H2 & H3) rs0 rs1 rs2. unfold args. cbn. subst rs0 rs1 rs2.
  unfold c_rarg0, c_rarg1, c_rarg2 in *. unfold upd.
  repeat case_decide; try done; naive_solver.
Qed.

(** The array-copy pre-barrier of SATB calls mmtk-core exactly when there is
    something to copy, before the copy, with the source, destination and count
    it was given, and leaves every register as it was. *)
Theorem satb_arraycopy_prologue_asm m decorators type src dst count :
  is_reference_type type = true → moves_ok src dst count →
  ∃ m', exec (satb_arraycopy_prologue decorators type src dst count) None m = Falls m' ∧
    (∀ r, rf m' r = rf m r) ∧ stack m' = stack m ∧
    calls m' = calls m ++
      (if decide (rf m count = 0) then []
       else [(array_copy_pre_call, [rf m src; rf m dst; rf m count])]).
Proof.
  intros Ht Hm. unfold satb_arraycopy_prologue. rewrite Ht. cbn. change (u64 0) with 0.
  destruct (decide (rf m count = 0)) as [E|E].
  - rewrite bool_decide_eq_true_2 by done. eexists; split; [reflexivity|].
    by rewrite app_nil_r.
  - rewrite bool_decide_eq_false_2 by done. eexists; split; [reflexivity|]. cbn. split; [|split; [done|]].
    + intros r. unfold upd. by case_decide; subst.
    + f_equal. f_equal. f_equal. by apply (moves_args (rf m)).
Qed.

(** The reference-load barrier in assembly: after the load, it calls
    mmtk-core with the loaded reference exactly when the access is weak or
    phantom, concurrent marking is active and the reference is not null.  The
    loaded reference and all other registers but the two scratch registers are
    as the load left them. *)
Theorem satb_load_at_asm raw_load_at m m1 decorators type dst src :
  straight (raw_load_at decorators type dst src) m = Some m1 →
  0 ≤ concurrent_marking_active_address < 2 ^ 64 → dst ≠ rscratch1 → dst ≠ rscratch2 →
  ∃ m', exec (satb_load_at raw_load_at decorators type dst src) None m = Falls m' ∧
    stack m' = stack m1 ∧ (∀ r, r ≠ rscratch1 → r ≠ rscratch2 → rf m' r = rf m1 r) ∧
    calls m' = calls m1 ++
      (if decide (is_reference_type type = true ∧
                  (ON_WEAK_OOP_REF decorators = true ∨ ON_PHANTOM_OOP_REF decorators = true) ∧
                  u8 (memory m1 concurrent_marking_active_address) = 1 ∧ rf m1 dst ≠ 0)
       then [(load_reference_call, [rf m1 dst])] else []) ∧
    memory m' =
      (if decide (is_reference_type type = true ∧
                  (ON_WEAK_OOP_REF decorators = true ∨ ON_PHANTOM_OOP_REF decorators = true) ∧
                  u8 (memory m1 concurrent_marking_active_address) = 1 ∧ rf m1 dst ≠ 0)
       then callee_memory load_reference_call [rf m1 dst] (memory m1) else memory m1).
Proof.
  intros E Ha H1 H2. unfold satb_load_at. rewrite (exec_straight _ _ _ _ E).
  destruct (is_reference_type type && (ON_WEAK_OOP_REF decorators || ON_PHANTOM_OOP_REF decorators)) eqn:Hd.
  2: { exists m1. split; [done|]. split; [done|]. split; [done|].
       assert (¬ (is_reference_type type = true ∧
         (ON_WEAK_OOP_REF decorators = true ∨ ON_PHANTOM_OOP_REF decorators = true) ∧
         u8 (memory m1 concurrent_marking_active_address) = 1 ∧ rf m1 dst ≠ 0)) as Hn;
         [|rewrite !(decide_False (P := is_reference_type type = true ∧ _)) by done; by rewrite app_nil_r].
       intros (Ht & Hw & _). rewrite Ht in Hd. destruct Hw as [Hw|Hw]; rewrite Hw, ?orb_true_r in Hd; done. }
  apply andb_true_iff in Hd as [Ht Hw]. apply orb_true_iff in Hw.
  set (a := concurrent_marking_active_address) in *.
  assert (Z.lor (Z.ldiff (Z.lxor (rf m1 r11) (rf m1 r11)) 255)
            (Z.lor (u8 (memory m1 (u64 (u64 a + 0 + 0)))) (Z.shiftl 0 8)) = u8 (memory m1 a)) as Eb.
  { rewrite Z.lxor_nilpotent, !Z.add_0_r, (wrap_wrap 64), (wrap_small 64 a) by done.
    by rewrite Z.shiftl_0_l, Z.lor_0_r. }
  cbn. unfold effective, set_reg, arith, set_flags. cbn [rf memory flags base index disp scale].
  unfold rscratch1, rscratch2 in *. simp_regs. rewrite !Eb. change (u64 1) with 1. change (u64 0) with 0.
  assert (∀ r x y z, r ≠ r10 → r ≠ r11 →
    upd r11 x (upd r11 y (upd r10 z (rf m1))) r = rf m1 r) as Hr by (intros; by simp_regs).
  destruct (decide (u8 (memory m1 a) = 1)) as [E1|E1].
  2: { rewrite bool_decide_eq_true_2 by done. rewrite !(decide_False (P := is_reference_type type = true ∧ _)) by tauto.
       eexists; split; [reflexivity|]. split; [done|]. split; [|by rewrite app_nil_r].
       intros r R1 R2. by apply Hr. }
  rewrite bool_decide_eq_false_2 by (by intros []). simp_regs.
  destruct (decide (rf m1 dst = 0)) as [E2|E2].
  - rewrite bool_decide_eq_true_2 by done. rewrite !(decide_False (P := is_reference_type type = true ∧ _)) by tauto.
    eexists; split; [reflexivity|]. split; [done|]. split; [|by rewrite app_nil_r].
    intros r R1 R2. by apply Hr.
  - rewrite bool_decide_eq_false_2 by done. rewrite !(decide_True (P := is_reference_type type = true ∧ _)) by tauto.
    eexists; split; [reflexivity|]. split; [done|]. split; [|done].
    intros r R1 R2. simpl. unfold upd at 1. case_decide; [subst|]; by rewrite ?upd_ne.
Qed.

(** The array-copy post-barrier of the object barrier reports the copy that
    was asked for: whatever the copy code does to the register that the prologue
    has saved in [r11], the epilogue passes the original source, destination and
    count, exactly once, and leaves every register as the copy left it.  A copy
    to an uninitialised array, or of primitive values, is not reported. *)
Theorem object_arraycopy_asm m m2 decorators type src dst count :
  let obj_int := bool_decide (type = T_OBJECT) && UseCompressedOops in
  let saves_count := negb (ARRAYCOPY_CHECKCAST decorators) && negb obj_int in
  let saves_dst := negb (ARRAYCOPY_CHECKCAST decorators) && obj_int && ARRAYCOPY_DISJOINT decorators in
  moves_ok src dst count → count ≠ c_rarg1 → src ≠ r11 → dst ≠ r11 → count ≠ r11 →
  ∃ m1, exec (object_arraycopy_prologue decorators type src dst count) None m = Falls m1 ∧
    (∀ r, r ≠ r11 → rf m1 r = rf m r) ∧
    (rf m2 r11 = rf m1 r11 → rf m2 src = rf m src →
     (saves_count = false → rf m2 count = rf m count) →
     (saves_dst = false → rf m2 dst = rf m dst) →
     ∃ m', exec (object_arraycopy_epilogue decorators type src dst count) None m2 = Falls m' ∧
       (∀ r, rf m' r = rf m2 r) ∧ stack m' = stack m2 ∧
       calls m' = calls m2 ++
         (if is_reference_type type && negb (IS_DEST_UNINITIALIZED decorators)
          then [(array_copy_post_call, [rf m src; rf m dst; rf m count])] else [])).
Proof.
  intros obj_int saves_count saves_dst Hm N0 N1 N2 N3.
  unfold object_arraycopy_prologue, object_arraycopy_epilogue. fold obj_int.
  assert (∀ a1 a2, (a1 = dst ∨ a1 = r11) → (a2 = count ∨ a2 = r11) → moves_ok src a1 a2) as Hok.
  { unfold moves_ok, c_rarg0, c_rarg1 in *. intros a1 a2 [-> | ->] [-> | ->]; intuition congruence. }
  assert (∀ a1 a2, moves_ok src a1 a2 →
    rf m2 src = rf m src → rf m2 a1 = rf m dst → rf m2 a2 = rf m count →
    ∃ m', exec [pusha; movptr c_rarg0 src; movptr c_rarg1 a1; movptr c_rarg2 a2;
                call_leaf array_copy_post_call 3; popa] None m2 = Falls m' ∧
      (∀ r, rf m' r = rf m2 r) ∧ stack m' = stack m2 ∧
      calls m' = calls m2 ++ [(array_copy_post_call, [rf m src; rf m dst; rf m count])]) as Hcall.
  { intros a1 a2 Ha E0 E1 E2. eexists; split; [reflexivity|]. cbn. split; [|split; [done|]].
    - intros r. unfold upd. by case_decide; subst.
    - f_equal. f_equal. f_equal. etransitivity; [by apply (moves_args (rf m2) src a1 a2)|].
      by rewrite E0, E1, E2. }
  subst saves_count saves_dst.
  destruct (is_reference_type type), (ARRAYCOPY_CHECKCAST decorators), obj_int,
    (ARRAYCOPY_DISJOINT decorators), (IS_DEST_UNINITIALIZED decorators);
    cbn [negb andb]; eexists; (split; [reflexivity|]); cbn;
    (split; [intros r Hr; try done; by rewrite upd_ne|]); intros E11 Es Ec Ed; rewrite ?upd_eq in E11;
    try (by exists m2; rewrite app_nil_r); apply Hcall; auto.
Qed.

(** ** The unlog test *)

(** The instructions that both barriers use to read the unlog bit, up to the
    instruction that loads the byte. *)
Definition unlog_test_code (ld : reg → Address → instr) (obj t : reg) : list instr :=
  [movptr rscratch1 obj; shrptr rscratch1 6;
   movptr_imm t side_metadata_base_address;
   ld t (Addr t (Some rscratch1) 0 0);
   movptr rscratch1 obj; shrptr rscratch1 3; andptr rscratch1 7;
   movptr rscratch2 rcx; movl rcx rscratch1; shrptr_cl t; movptr rcx rscratch2;
   andptr t 1; cmpptr_imm t 1].

(** The metadata is mapped in the address space. *)
Hypothesis metadata_mapped :
  0 ≤ side_metadata_base_address ∧ side_metadata_base_address + 2 ^ 57 < 2 ^ 64.

Lemma shift_mask (z : Z) : 0 ≤ z < 8 → Z.land (u32 z) 63 = z.
Proof.
  intros Hz. rewrite wrap_small by (change (2 ^ 32) with 4294967296; lia).
  change 63 with (Z.ones 6). rewrite Z.land_ones by lia. apply Z.mod_small. lia.
Qed.

(** The test leaves 1 in [t] exactly when the object is unlogged, and changes
    no register besides [t] and the two scratch registers. *)
Lemma unlog_test (ld : reg → Address → instr) obj t m :
  ld = movb_load ∨ ld = movzbl →
  0 ≤ rf m obj < 2 ^ 63 →
  obj ≠ t → obj ≠ rscratch1 → obj ≠ rscratch2 →
  t ≠ rscratch1 → t ≠ rscratch2 → t ≠ rcx →
  ∃ m', straight (unlog_test_code ld obj t) m = Some m' ∧
    flags m' = Some (if meta_bit side_metadata_base_address (memory m) (rf m obj) then 1 else 0, 1) ∧
    (∀ r, r ≠ t → r ≠ rscratch1 → r ≠ rscratch2 → rf m' r = rf m r) ∧
    memory m' = memory m ∧ stack m' = stack m ∧ calls m' = calls m.
Proof.
  intros Hld Ho H1 H2 H3 H4 H5 H6. rewrite meta_bit_testbit.
  pose proof (meta_shift_range (rf m obj)) as Hsh.
  assert (Z.land (Z.shiftr (rf m obj) 3) (u64 7) = meta_shift (rf m obj)) as Es.
  { unfold meta_shift. by rewrite i64_small. }
  assert (rscratch1 ≠ rcx ∧ rscratch2 ≠ rcx ∧ rscratch1 ≠ rscratch2) as (Hs1 & Hs2 & Hs3) by done.
  unfold unlog_test_code.
  destruct Hld as [-> | ->]; eexists; (split; [reflexivity|]); cbn [rf flags memory stack calls set_flags set_reg arith];
    (split; [|split; [|done]]).
  all: unfold arith, set_reg, set_flags, effective; cbn [rf memory flags base index scale disp].
  1, 3: simp_regs; rewrite Es, shift_mask, meta_effective by done; change (u64 1) with 1;
    rewrite shiftr_land_1 by lia; rewrite ?low_byte, ?byte_bit by done; done.
  all: intros r Hr1 Hr2 Hr3; destruct (decide (r = rcx)) as [->|Hr4]; by simp_regs.
Qed.

(** ** The object barrier *)

(** What the object barrier does in assembly, memory included. *)
Lemma object_write_post_exec m decorators dst v tmp1 tmp2 :
  let obj := base dst in
  let f := if mmtk_enable_barrier_fastpath then write_slow_call else write_post_call in
  let l := [rf m obj; 0; 0] in
  IN_HEAP decorators = true →
  0 ≤ rf m obj < 2 ^ 63 →
  obj ≠ tmp2 → obj ≠ rscratch1 → obj ≠ rscratch2 →
  tmp2 ≠ rscratch1 → tmp2 ≠ rscratch2 → tmp2 ≠ rcx →
  ∃ m', exec (object_write_post_code decorators dst (Some v) tmp1 tmp2) None m = Falls m' ∧
    stack m' = stack m ∧
    if mmtk_enable_barrier_fastpath && negb (meta_bit side_metadata_base_address (memory m) (rf m obj)) then
      calls m' = calls m ∧ memory m' = memory m ∧
      ∀ r, r ≠ tmp2 → r ≠ rscratch1 → r ≠ rscratch2 → rf m' r = rf m r
    else
      calls m' = calls m ++ [(f, l)] ∧ memory m' = callee_memory f l (memory m) ∧
      ∀ r, caller_saved r = false → r ≠ tmp2 → rf m' r = rf m r.
Proof.
  intros obj f l Hheap Ho H1 H2 H3 H4 H5 H6. unfold object_write_post_code, can_remove_barrier.
  rewrite Hheap. cbn [negb orb andb bool_decide]. fold obj. subst f l.
  destruct mmtk_enable_barrier_fastpath; cbn [andb].
  - destruct (unlog_test movb_load obj tmp2 m) as (m1 & E & Hf & Hr & Hmm & Hst & Hc); auto.
    change (exec _ None m) with (exec (unlog_test_code movb_load obj tmp2 ++
      [jcc notEqual done; movptr c_rarg0 obj; xorptr c_rarg1 c_rarg1; xorptr c_rarg2 c_rarg2;
       call_leaf write_slow_call 3; bind done]) None m).
    rewrite (exec_straight _ _ _ _ E). cbn [exec]. rewrite Hf.
    destruct (meta_bit _ _ _); cbn.
    + eexists; split; [reflexivity|]. cbn. split; [done|]. unfold args. cbn. unfold c_rarg0, c_rarg1, c_rarg2.
      simp_regs. rewrite !Z.lxor_nilpotent, Hc, Hmm, Hr by done. split; [done|]. split; [done|].
      intros r Hcs Hrt. rewrite Hcs. rewrite !upd_ne by (intros ->; discriminate).
      apply Hr; [done|intros ->; discriminate..].
    + exists m1. by split_and!.
  - cbn. eexists; split; [reflexivity|]. cbn. split; [done|]. unfold args. cbn. unfold c_rarg0, c_rarg1, c_rarg2.
    simp_regs. rewrite !Z.lxor_nilpotent. split; [done|]. split; [done|].
    intros r Hcs Hrt. rewrite Hcs. by rewrite !upd_ne by (intros ->; discriminate).
Qed.

(** C21. The object barrier in assembly takes the slow path exactly when the
    runtime does: with the fast path, iff the unlog bit of the written object is
    set, and otherwise always (with the full post-barrier).  It passes the
    object, and nulls that the barrier ignores.  When it does not call, it
    changes only its scratch registers, [rcx] included. *)
Theorem object_write_post_asm m decorators dst v tmp1 tmp2 :
  let obj := base dst in
  IN_HEAP decorators = true →
  0 ≤ rf m obj < 2 ^ 63 →
  obj ≠ tmp2 → obj ≠ rscratch1 → obj ≠ rscratch2 →
  tmp2 ≠ rscratch1 → tmp2 ≠ rscratch2 → tmp2 ≠ rcx →
  ∃ m', exec (object_write_post_code decorators dst (Some v) tmp1 tmp2) None m = Falls m' ∧
    stack m' = stack m ∧
    let bit := meta_bit side_metadata_base_address (memory m) (rf m obj) in
    if mmtk_enable_barrier_fastpath && negb bit then
      calls m' = calls m ∧ memory m' = memory m ∧
      ∀ r, r ≠ tmp2 → r ≠ rscratch1 → r ≠ rscratch2 → rf m' r = rf m r
    else
      calls m' = calls m ++
        [(if mmtk_enable_barrier_fastpath then write_slow_call else write_post_call,
          [rf m obj; 0; 0])] ∧
      ∀ r, caller_saved r = false → r ≠ tmp2 → rf m' r = rf m r.
Proof.
  intros obj Hheap Ho H1 H2 H3 H4 H5 H6.
  destruct (object_write_post_exec m decorators dst v tmp1 tmp2) as (m' & E & Hst & Hc); auto.
  exists m'. split; [done|]. split; [done|]. fold obj in Hc. cbv zeta.
  destruct (mmtk_enable_barrier_fastpath && _); [done|]. by destruct Hc as (? & _ & ?).
Qed.

(** The three moves of the SATB barrier: [lea] reads the address registers. *)
Lemma satb_args (rs : regs) dst v :
  (index dst = Some c_rarg0 → base dst = c_rarg0) →
  (v = c_rarg0 → base dst = c_rarg0) → v ≠ c_rarg1 →
  let rs0 := upd c_rarg0 (rs (base dst)) rs in
  let rs1 := upd c_rarg1 (effective rs0 dst) rs0 in
  let rs2 := upd c_rarg2 (rs1 v) rs1 in
  args rs2 3 = [rs (base dst); effective rs dst; rs v].
Proof.
  intros H1 H2 H3 rs0 rs1 rs2. unfold args. cbn. subst rs0 rs1 rs2.
  assert (∀ r, r = base dst ∨ Some r = index dst →
    upd c_rarg0 (rs (base dst)) rs r = rs r) as Hr.
  { intros r Hr. unfold upd. case_decide as E; [|done]. subst r.
    destruct Hr as [->|Hr]; [done|]. by rewrite H1. }
  assert (effective (upd c_rarg0 (rs (base dst)) rs) dst = effective rs dst) as ->.
  { unfold effective. rewrite Hr by auto. by destruct (index dst) as [i|] eqn:E; [rewrite Hr by auto|]. }
  unfold c_rarg0, c_rarg1, c_rarg2 in *. simp_regs.
  unfold upd. case_decide as E; [|done]. subst v. by rewrite H2.
Qed.

(** What the SATB barrier does in assembly, memory included.  The third argument is
    whatever the register of the value holds when it is passed. *)
Lemma satb_write_pre_exec m decorators dst val tmp1 tmp2 :
  let obj := base dst in
  let tmp5 := if decide (tmp1 = base dst ∨ Some tmp1 = index dst) then tmp2 else tmp1 in
  let f := if mmtk_enable_barrier_fastpath then write_slow_call else write_pre_call in
  IN_HEAP decorators = true → 0 ≤ rf m obj < 2 ^ 63 →
  (∀ r, r = obj ∨ Some r = index dst ∨ val = Some r → r ≠ tmp5 ∧ r ≠ rscratch1 ∧ r ≠ rscratch2) →
  (∀ t, t = tmp1 ∨ t = tmp2 → t ≠ rscratch1 ∧ t ≠ rscratch2 ∧ t ≠ rcx ∧ t ≠ rsp) →
  (index dst = Some c_rarg0 → obj = c_rarg0) → (val = Some c_rarg0 → obj = c_rarg0) → val ≠ Some c_rarg1 →
  ∃ m' z, exec (satb_write_pre_code decorators dst val tmp1 tmp2) None m = Falls m' ∧
    (val_or_null val ≠ tmp5 → z = rf m (val_or_null val)) ∧ stack m' = stack m ∧
    (∀ r, r ≠ tmp5 → r ≠ rscratch1 → r ≠ rscratch2 → rf m' r = rf m r) ∧
    let l := [rf m obj; effective (rf m) dst; z] in
    if mmtk_enable_barrier_fastpath && negb (meta_bit side_metadata_base_address (memory m) (rf m obj))
    then calls m' = calls m ∧ memory m' = memory m
    else calls m' = calls m ++ [(f, l)] ∧ memory m' = callee_memory f l (memory m).
Proof.
  intros obj tmp5 f Hheap Ho Hregs Htmp Hidx Hv0 Hv1. unfold satb_write_pre_code, can_remove_barrier.
  rewrite Hheap. cbn [negb orb andb]. fold obj. fold tmp5. subst f. set (v := val_or_null val).
  assert ((v = c_rarg0 → obj = c_rarg0) ∧ v ≠ c_rarg1 ∧ v ≠ rscratch1 ∧ v ≠ rscratch2) as (V0 & V1 & V2 & V3).
  { subst v. destruct val as [w|]; [|done]. destruct (Hregs w) as (_ & ? & ?); [by auto|].
    change (val_or_null (Some w)) with w. split_and!; try done; [by intros ->; apply Hv0|by intros ->]. }
  destruct mmtk_enable_barrier_fastpath; cbn [andb].
  - destruct (Hregs obj) as (O1 & O2 & O3); [by left|].
    assert (tmp5 ≠ rscratch1 ∧ tmp5 ≠ rscratch2 ∧ tmp5 ≠ rcx ∧ tmp5 ≠ rsp) as (T1 & T2 & T3 & T4).
    { subst tmp5. case_decide; apply Htmp; auto. }
    destruct (unlog_test movzbl obj tmp5 m) as (m1 & E & Hf & Hr & Hmm & Hst & Hc); auto.
    change (exec _ None m) with (exec (unlog_test_code movzbl obj tmp5 ++
      [jcc notEqual done; pusha; movptr c_rarg0 obj; lea c_rarg1 dst; movptr c_rarg2 v;
       call_leaf write_slow_call 3; popa; bind done]) None m).
    rewrite (exec_straight _ _ _ _ E). cbn [exec]. rewrite Hf.
    assert (v ≠ tmp5 → rf m1 v = rf m v) as Hz by (intros; by apply Hr).
    destruct (meta_bit _ _ _); cbn [negb].
    + assert (∀ r, r = obj ∨ Some r = index dst → rf m1 r = rf m r) as Hk
        by (intros r Hk; apply Hr; apply Hregs; tauto).
      assert ([rf m1 obj; effective (rf m1) dst] = [rf m obj; effective (rf m) dst]) as El.
      { f_equal; [by apply Hk; left|]. f_equal. unfold effective. fold obj. rewrite Hk by auto.
        by destruct (index dst) as [i|]; [rewrite Hk by auto|]. }
      injection El as El0 El1.
      cbn. eexists _, (rf m1 v). split; [reflexivity|]. cbn [stack rf calls memory set_stack set_reg].
      split; [exact Hz|]. split; [done|]. split.
      * intros r R1 R2 R3. unfold upd. case_decide; subst; by apply Hr.
      * pose proof (satb_args (rf m1) dst v Hidx V0 V1) as Ea. fold obj in Ea. rewrite El0, El1 in Ea.
        cbv zeta in Ea. rewrite Hc, Hmm, <-Ea, El0. by split.
    + exists m1, (rf m1 v). by split_and!.
  - cbn. eexists _, (rf m v). split; [reflexivity|]. cbn [stack rf calls memory set_stack set_reg]. split; [done|]. split; [done|]. split.
    + intros r _ _ _. unfold upd. by case_decide; subst.
    + pose proof (satb_args (rf m) dst v Hidx V0 V1) as Ea. fold obj in Ea.
      cbv zeta in Ea. rewrite <-Ea. by split.
Qed.

(** C20. The SATB barrier in assembly takes the slow path exactly when the
    runtime does, for a store of null as for any other in the heap, before the
    store, with the object, the address of the slot, and the new value; and whether
    it calls or not, it leaves every register but its three scratch registers as it
    was.  For a null, which has no register ([noreg]), the third argument is what is
    in [rax]; SATB does not look at it. *)
Theorem satb_write_pre_asm m decorators dst val tmp1 tmp2 :
  let obj := base dst in
  let tmp5 := if decide (tmp1 = base dst ∨ Some tmp1 = index dst) then tmp2 else tmp1 in
  0 ≤ rf m obj < 2 ^ 63 →
  (∀ r, r = obj ∨ Some r = index dst ∨ val = Some r → r ≠ tmp5 ∧ r ≠ rscratch1 ∧ r ≠ rscratch2) →
  (∀ t, t = tmp1 ∨ t = tmp2 → t ≠ rscratch1 ∧ t ≠ rscratch2 ∧ t ≠ rcx ∧ t ≠ rsp) →
  (index dst = Some c_rarg0 → obj = c_rarg0) → (val = Some c_rarg0 → obj = c_rarg0) → val ≠ Some c_rarg1 →
  ∃ m' z, exec (satb_write_pre_code decorators dst val tmp1 tmp2) None m = Falls m' ∧
    (∀ v, val = Some v → z = rf m v) ∧ (val = None → rax ≠ tmp5 → z = rf m rax) ∧
    stack m' = stack m ∧
    (∀ r, r ≠ tmp5 → r ≠ rscratch1 → r ≠ rscratch2 → rf m' r = rf m r) ∧
    let bit := meta_bit side_metadata_base_address (memory m) (rf m obj) in
    calls m' = calls m ++
      (if negb (IN_HEAP decorators) || mmtk_enable_barrier_fastpath && negb bit then []
       else [(if mmtk_enable_barrier_fastpath then write_slow_call else write_pre_call,
              [rf m obj; effective (rf m) dst; z])]).
Proof.
  intros obj tmp5 Ho Hregs Htmp Hidx Hv0 Hv1. destruct (IN_HEAP decorators) eqn:Hheap; cbn [negb orb].
  - destruct (satb_write_pre_exec m decorators dst val tmp1 tmp2) as (m' & z & E & Hz & Hst & Hr & Hc); auto.
    exists m', z. split; [done|]. split; [|split; [|split; [done|split; [done|]]]].
    + intros v ->. apply Hz. apply Hregs. by auto.
    + intros ->. exact Hz.
    + fold obj in Hc. cbv zeta. destruct (mmtk_enable_barrier_fastpath && _); destruct Hc as [-> _]; by rewrite ?app_nil_r.
  - exists m, (rf m (val_or_null val)). unfold satb_write_pre_code, can_remove_barrier. rewrite Hheap. cbn [negb orb].
    split_and!; try done; [by intros v ->|by intros ->|by rewrite app_nil_r].
Qed.

End emitters.

(** ** Concrete runs *)

Section examples.
(** Calls that change nothing but the registers they may change. *)
#[local] Instance idle_callee : Callee :=
  {| callee_memory _ _ mm := mm; callee_scratch _ _ _ _ := 0 |}.

Definition heap_access : DecoratorSet :=
  Decorators false false false false false true false false false false false false false false false.

(** All metadata bits set; the object in [rdx], the value in [rax]. *)
Definition some_machine : machine :=
  Machine (λ r, match r with rdx => 4096 | rax => 8192 | rcx => 3 | _ => 16 end) (λ _, 255) None [] [].

Lemma example_mapped : 0 ≤ 2 ^ 40 ∧ 2 ^ 40 + 2 ^ 57 < 2 ^ 64.
Proof. split; [discriminate|reflexivity]. Qed.

Lemma object_write_post_asm_witness :
  ∃ m', exec (object_write_post_code true (2 ^ 40) heap_access (Addr rdx None 0 8) (Some rax) rdx rbx)
          None some_machine = Falls m' ∧
    calls m' = [(write_slow_call, [4096; 0; 0])].
Proof.
  pose proof (object_write_post_asm true (2 ^ 40) example_mapped
    some_machine heap_access (Addr rdx None 0 8) rax rdx rbx eq_refl) as Hw.
  specialize (Hw ltac:(split; [discriminate|reflexivity])).
  specialize (Hw ltac:(discriminate) ltac:(discriminate) ltac:(discriminate)).
  specialize (Hw ltac:(discriminate) ltac:(discriminate) ltac:(discriminate)).
  destruct Hw as (m' & E & _ & Hc). exists m'. split; [exact E|].
  assert (meta_bit (2 ^ 40) (λ _, 255) 4096 = true) as Hb by (vm_compute; reflexivity).
  cbn [rf memory some_machine base] in Hc. rewrite Hb in Hc. apply Hc.
Defined.

(** A store of null, which has no register. *)
Lemma satb_write_pre_asm_witness :
  ∃ m', exec (satb_write_pre_code true (2 ^ 40) heap_access (Addr rdx None 0 8) None rdx rbx)
          None some_machine = Falls m' ∧
    calls m' = [(write_slow_call, [4096; 4104; 8192])].
Proof.
  pose proof (satb_write_pre_asm true (2 ^ 40) example_mapped
    some_machine heap_access (Addr rdx None 0 8) None rdx rbx) as Hw.
  specialize (Hw ltac:(split; [discriminate|reflexivity])).
  destruct Hw as (m' & z & E & _ & Hz & _ & _ & Hc).
  - intros r [-> |[Hr|Hr]]; [|discriminate Hr|discriminate Hr]; repeat split; discriminate.
  - intros t [-> | ->]; repeat split; discriminate.
  - discriminate.
  - discriminate.
  - discriminate.
  - exists m'. split; [exact E|]. rewrite Hc, Hz by done. vm_compute. reflexivity.
Defined.

Lemma satb_load_at_asm_witness :
  let d := Decorators false true false false false true false false false false false false false false false in
  ∃ m', exec (satb_load_at 4096 (λ _ _ dst src, [movptr_load dst src]) d T_OBJECT rax (Addr rdx None 0 0))
          None (Machine (λ _, 64) (λ _, 1) None [] []) = Falls m' ∧
    length (calls m') = 1%nat.
Proof.
  intros d.
  destruct (satb_load_at_asm 4096 (λ _ _ dst src, [movptr_load dst src])
    (Machine (λ _, 64) (λ _, 1) None [] [])
    (set_reg rax (read 8 (λ _, 1) 64) (Machine (λ _, 64) (λ _, 1) None [] []))
    d T_OBJECT rax (Addr rdx None 0 0)) as (m' & E & _ & _ & Hc & _).
  - reflexivity.
  - split; [discriminate|reflexivity].
  - discriminate.
  - discriminate.
  - exists m'. split; [exact E|]. rewrite Hc. vm_compute. reflexivity.
Defined.

Lemma satb_arraycopy_prologue_asm_witness :
  ∃ m', exec (satb_arraycopy_prologue heap_access T_OBJECT rdi rsi rdx) None some_machine = Falls m' ∧
    calls m' = [(array_copy_pre_call, [16; 16; 4096])].
Proof.
  destruct (satb_arraycopy_prologue_asm some_machine heap_access T_OBJECT rdi rsi rdx)
    as (m' & E & _ & _ & Hc).
  - reflexivity.
  - repeat split; discriminate.
  - exists m'. split; [exact E|]. rewrite Hc. reflexivity.
Defined.

Lemma object_arraycopy_asm_witness :
  ∃ m', exec (object_arraycopy_epilogue false heap_access T_OBJECT rdi rsi rdx) None
          (set_reg rdx 0 (set_reg r11 4096 some_machine)) = Falls m' ∧
    calls m' = [(array_copy_post_call, [16; 16; 4096])].
Proof.
  destruct (object_arraycopy_asm false some_machine (set_reg rdx 0 (set_reg r11 4096 some_machine))
    heap_access T_OBJECT rdi rsi rdx) as (m1 & E1 & _ & Hcopy).
  - repeat split; discriminate.
  - discriminate.
  - discriminate.
  - discriminate.
  - discriminate.
  - injection E1 as E1. subst m1. destruct Hcopy as (m' & E & _ & _ & Hc).
    + reflexivity.
    + reflexivity.
    + discriminate.
    + reflexivity.
    + exists m'. split; [exact E|]. rewrite Hc. reflexivity.
Defined.

End examples.
