(* ===== verification/EdenAllocate.v ===== *)
(** * The allocation fast path in assembly

    [MMTkBarrierSetAssembler::eden_allocate] ([mmtkBarrierSetAssembler_x86.cpp]):
    bump-pointer allocation in the default allocator of the thread's mutator,
    with the valid-object bit and the thread's allocation count. *)

From stdpp Require Import base numbers list.
From Stdlib Require Import ZArith Lia.
From S2P Require Import Prelude Slots Layout Barrier X86.

Local Open Scope Z_scope.

#[local] Arguments read : simpl never.
#[local] Arguments write : simpl never.

Section eden.
Variable mmtk_enable_allocation_fastpath : bool.
(** [MMTkMutatorContext::max_non_los_default_alloc_bytes]. *)
Variable max_non_los_bytes : Z.
(** [get_allocator_mapping(AllocatorDefault)]. *)
Variable selector : AllocatorSelector.
Variable MMTK_MARK_COMPACT_HEADER_RESERVED_IN_BYTES : Z.
(** [JavaThread::third_party_heap_mutator_offset()] and [allocated_bytes_offset()]. *)
Variable mutator_offset : Z.
Variable allocated_bytes_offset : Z.
Variable VO_BIT_BASE_ADDRESS : Z.
Variable MMTK_ENABLE_VO_BIT : bool.

Definition extra_header : Z :=
  if decide (tag selector = TAG_MARK_COMPACT) then MMTK_MARK_COMPACT_HEADER_RESERVED_IN_BYTES else 0.

(** [max_non_los_bytes - extra_header], a [size_t]. *)
Definition size_bound : Z := u64 (max_non_los_bytes - extra_header).

Definition enable_vo_bit : bool := MMTK_ENABLE_VO_BIT || bool_decide (tag selector = TAG_MARK_COMPACT).

(** Bumping the cursor. *)
Definition bump_code (obj : reg) (var_size_in_bytes : option reg) (con_size_in_bytes : Z) (t1 : reg)
    (cursor limit : Address) : list instr :=
  [movptr_load obj cursor] ++
  (if decide (tag selector = TAG_MARK_COMPACT) then [addptr obj extra_header] else []) ++
  [match var_size_in_bytes with
   | None => lea t1 (Addr obj None 0 con_size_in_bytes)
   | Some v => lea t1 (Addr obj (Some v) 0 0)
   end;
   cmpptr t1 obj; jcc below slow_case;
   cmpptr_mem t1 limit; jcc above slow_case;
   movptr_store cursor t1].

(** Setting the valid-object bit of [obj]. *)
Definition vo_bit_code (obj : reg) : list instr :=
  let tmp3 := rdi in
  let tmp2 := rscratch1 in
  [movptr tmp3 obj; shrptr tmp3 6;
   movptr_imm tmp2 VO_BIT_BASE_ADDRESS; movb_load tmp2 (Addr tmp2 (Some tmp3) 0 0);
   movptr rcx obj; shrptr rcx 3; andptr rcx 7;
   movptr_imm tmp3 1; shlptr_cl tmp3;
   orptr tmp2 tmp3;
   movptr tmp3 obj; shrptr tmp3 6;
   movptr_imm rcx VO_BIT_BASE_ADDRESS; movb_store (Addr rcx (Some tmp3) 0 0) tmp2].

(** [BarrierSetAssembler::incr_allocated_bytes]. *)
Definition allocated_bytes_code (var_size_in_bytes : option reg) (con_size_in_bytes : Z) : list instr :=
  let allocated := Addr r15_thread None 0 allocated_bytes_offset in
  [match var_size_in_bytes with
   | Some v => addq_mem allocated v
   | None => addq_mem_imm allocated con_size_in_bytes
   end;
   addq_mem_imm allocated extra_header].

Definition eden_allocate (thread obj : reg) (var_size_in_bytes : option reg) (con_size_in_bytes : Z)
    (t1 : reg) : outcome (list instr) :=
  if negb mmtk_enable_allocation_fastpath then Ok [jmp slow_case] else
  if bool_decide (var_size_in_bytes = None) && bool_decide (size_bound < u64 con_size_in_bytes)
  then Ok [jmp slow_case] else
  let size_check :=
    match var_size_in_bytes with
    | None => []
    | Some v => [cmpptr_imm v (i32 size_bound); jcc aboveEqual slow_case]
    end in
  if decide (tag selector = TAG_MALLOC ∨ tag selector = TAG_LARGE_OBJECT ∨ tag selector = TAG_FREE_LIST)
  then Ok (size_check ++ [jmp slow_case]) else
  alloc_offsets ← get_tlab_top_and_end_offsets mutator_offset selector;
  let cursor := Addr r15_thread None 0 (tlab_top_offset alloc_offsets) in
  let limit := Addr r15_thread None 0 (tlab_end_offset alloc_offsets) in
  Ok (size_check ++ bump_code obj var_size_in_bytes con_size_in_bytes t1 cursor limit ++
      (if enable_vo_bit then vo_bit_code obj else []) ++
      allocated_bytes_code var_size_in_bytes con_size_in_bytes).

(** ** The bump *)

Context `{Callee}.

Ltac simp_regs := repeat (rewrite upd_eq || (rewrite upd_ne by congruence)).

(** The size the code allocates. *)
Definition size_of (rs : regs) (var : option reg) (con : Z) : Z :=
  match var with Some v => rs v | None => con end.

Lemma thread_word rs o :
  0 ≤ rs r15_thread → 0 ≤ o → rs r15_thread + o < 2 ^ 64 →
  effective rs (Addr r15_thread None 0 o) = rs r15_thread + o.
Proof. intros. unfold effective. cbn. rewrite wrap_small by lia. lia. Qed.

(** Loading the cursor, past the reserved header. *)
Lemma load_cursor m top :
  0 ≤ rf m r15_thread → 0 ≤ top → rf m r15_thread + top < 2 ^ 64 →
  ∃ m1, straight ([movptr_load rax (Addr r15_thread None 0 top)] ++
      (if decide (tag selector = TAG_MARK_COMPACT) then [addptr rax extra_header] else [])) m = Some m1 ∧
    rf m1 rax = u64 (read 8 (memory m) (rf m r15_thread + top) + extra_header) ∧
    (∀ r, r ≠ rax → rf m1 r = rf m r) ∧
    memory m1 = memory m ∧ calls m1 = calls m ∧ stack m1 = stack m.
Proof.
  intros Hth Htop Hr. unfold extra_header. cbn [straight app exec1].
  rewrite thread_word by done.
  pose proof (read_range 8 (memory m) (rf m r15_thread + top)) as Hrange.
  change (8 * Z.of_nat 8) with 64 in Hrange.
  case_decide; cbn; eexists; (split; [reflexivity|]); cbn; rewrite ?upd_eq; (split; [|split; [|done]]).
  - done.
  - intros r Hne. by rewrite !upd_ne.
  - rewrite Z.add_0_r, wrap_small; done.
  - intros r Hne. by rewrite !upd_ne.
Qed.

(** The bump either fails without touching memory, or moves the cursor. *)
Lemma bump_exec m var con t1 top :
  t1 ≠ rax → t1 ≠ r15_thread → (∀ v, var = Some v → v ≠ rax ∧ v ≠ t1) →
  0 ≤ rf m r15_thread → 0 ≤ top → rf m r15_thread + top + 16 < 2 ^ 64 →
  let cur := read 8 (memory m) (rf m r15_thread + top) in
  let lim := read 8 (memory m) (rf m r15_thread + top + 8) in
  let start := u64 (cur + extra_header) in
  let end_ := u64 (start + size_of (rf m) var con) in
  let fails := bool_decide (end_ < start) || bool_decide (lim < end_) in
  ∃ m', exec (bump_code rax var con t1 (Addr r15_thread None 0 top) (Addr r15_thread None 0 (top + 8))) None m =
    (if fails then Jumps slow_case m' else Falls m') ∧
    rf m' rax = start ∧ (∀ r, r ≠ rax → r ≠ t1 → rf m' r = rf m r) ∧
    calls m' = calls m ∧ stack m' = stack m ∧
    memory m' = (if fails then memory m else write 8 (memory m) (rf m r15_thread + top) end_).
Proof.
  intros Ht1 Ht15 Hvar Hth Htop Hr cur lim start end_ fails.
  destruct (load_cursor m top) as (m1 & E1 & Hrax & Hrf & Hmm & Hc & Hs); [lia..|].
  unfold bump_code. rewrite app_assoc, (exec_straight _ _ _ _ E1).
  set (a := match var with None => Addr rax None 0 con | Some v => Addr rax (Some v) 0 0 end).
  assert (effective (rf m1) a = end_) as Ea.
  { subst a end_. unfold effective, size_of. destruct var as [v|]; cbn; rewrite Hrax; fold start cur.
    - rewrite Z.shiftl_0_r, Hrf by (by apply Hvar). f_equal. lia.
    - f_equal. lia. }
  assert (rf m1 r15_thread = rf m r15_thread) as E15 by (by apply Hrf).
  assert (∀ rs : regs, rs r15_thread = rf m r15_thread →
    read 8 (memory m) (effective rs (Addr r15_thread None 0 (top + 8))) = lim) as El.
  { intros rs E. rewrite thread_word by lia. rewrite E. subst lim. f_equal. lia. }
  replace (match var with None => lea t1 (Addr rax None 0 con) | Some v => lea t1 (Addr rax (Some v) 0 0) end)
    with (lea t1 a) by (by destruct var).
  cbn [exec exec1 flags set_flags set_reg rf memory holds]. rewrite Ea, upd_eq, upd_ne, Hrax by done.
  fold cur start. subst fails.
  destruct (bool_decide (end_ < start)); cbn [orb].
  { eexists. split; [reflexivity|]. cbn. rewrite upd_ne by done. split_and!; try done.
    intros r R1 R2. rewrite upd_ne by done. by apply Hrf. }
  rewrite Hmm, El by (by rewrite upd_ne). cbn [exec exec1 flags holds].
  destruct (bool_decide (lim < end_)).
  { eexists. split; [reflexivity|]. cbn. rewrite upd_ne by done. split_and!; try done.
    intros r R1 R2. rewrite upd_ne by done. by apply Hrf. }
  eexists. split; [reflexivity|]. cbn [rf memory calls stack set_memory set_flags set_reg].
  rewrite upd_ne by done. split_and!; try done.
  - intros r R1 R2. rewrite upd_ne by done. by apply Hrf.
  - rewrite thread_word by (rewrite ?upd_ne by done; lia). rewrite upd_ne by done. by rewrite E15.
Qed.

(** ** The valid-object bit *)

Hypothesis vo_mapped : 0 ≤ VO_BIT_BASE_ADDRESS ∧ VO_BIT_BASE_ADDRESS + 2 ^ 57 < 2 ^ 64.

Lemma vo_address obj :
  0 ≤ obj < 2 ^ 63 →
  u64 (u64 VO_BIT_BASE_ADDRESS + Z.shiftl (Z.shiftr obj 6) 0 + 0) = meta_addr VO_BIT_BASE_ADDRESS obj.
Proof. intros Ho. by apply meta_effective. Qed.

(** Writing a byte with one more bit set. *)
Lemma set_bit_byte (mm : mem) a v k j :
  0 ≤ k < 8 → 0 ≤ j < 8 →
  Z.testbit (write 1 mm a (Z.lor (Z.lor (Z.ldiff v 255) (read 1 mm a)) (Z.shiftl 1 k)) a) j =
  Z.testbit (mm a) j || bool_decide (j = k).
Proof.
  intros Hk Hj. unfold write. rewrite decide_True by lia.
  rewrite Z.sub_diag, Z.mul_0_r, Z.shiftr_0_r, wrap_testbit by lia.
  rewrite (bool_decide_eq_true_2 (j < 8)) by lia. cbn [andb].
  rewrite lor_bit_testbit by lia. f_equal. by apply low_byte.
Qed.

Ltac step_regs := cbn [straight exec1]; eexists; (split; [reflexivity|]);
  cbn [rf memory calls stack flags arith set_reg set_flags set_memory];
  unfold effective; cbn [base index scale disp]; unfold rscratch1 in *; simp_regs.

(** The three parts of the code: the metadata byte into [r10], the bit into it,
    the byte back. *)
Lemma vo_load m :
  0 ≤ rf m rax < 2 ^ 63 →
  ∃ m', straight [movptr rdi rax; shrptr rdi 6; movptr_imm rscratch1 VO_BIT_BASE_ADDRESS;
                  movb_load rscratch1 (Addr rscratch1 (Some rdi) 0 0)] m = Some m' ∧
    rf m' rscratch1 = Z.lor (Z.ldiff (u64 VO_BIT_BASE_ADDRESS) 255)
                        (read 1 (memory m) (meta_addr VO_BIT_BASE_ADDRESS (rf m rax))) ∧
    (∀ r, r ≠ rdi → r ≠ rscratch1 → rf m' r = rf m r) ∧
    memory m' = memory m ∧ calls m' = calls m ∧ stack m' = stack m.
Proof.
  intros Ho. step_regs. rewrite vo_address by done. split; [done|]. split; [|done].
  intros r R1 R2. by simp_regs.
Qed.

Lemma vo_mask m :
  0 ≤ rf m rax < 2 ^ 63 →
  ∃ m', straight [movptr rcx rax; shrptr rcx 3; andptr rcx 7; movptr_imm rdi 1; shlptr_cl rdi;
                  orptr rscratch1 rdi] m = Some m' ∧
    rf m' rscratch1 = Z.lor (rf m rscratch1) (Z.shiftl 1 (meta_shift (rf m rax))) ∧
    (∀ r, r ≠ rdi → r ≠ rscratch1 → r ≠ rcx → rf m' r = rf m r) ∧
    memory m' = memory m ∧ calls m' = calls m ∧ stack m' = stack m.
Proof.
  intros Ho. pose proof (meta_shift_range (rf m rax)) as Hsh.
  assert (Z.land (Z.shiftr (rf m rax) 3) (u64 7) = meta_shift (rf m rax)) as Es.
  { unfold meta_shift. by rewrite i64_small. }
  assert (Z.land (meta_shift (rf m rax)) 63 = meta_shift (rf m rax)) as Em.
  { change 63 with (Z.ones 6). rewrite Z.land_ones by lia. apply Z.mod_small. lia. }
  assert (u64 (Z.shiftl (u64 1) (meta_shift (rf m rax))) = Z.shiftl 1 (meta_shift (rf m rax))) as Esh.
  { change (u64 1) with 1. apply wrap_small. rewrite Z.shiftl_1_l.
    split; [apply Z.pow_nonneg; lia|apply Z.pow_lt_mono_r; lia]. }
  step_regs. rewrite Es, Em, Esh. split; [done|]. split; [|done].
  intros r R1 R2 R3. by simp_regs.
Qed.

Lemma vo_store m :
  0 ≤ rf m rax < 2 ^ 63 →
  ∃ m', straight [movptr rdi rax; shrptr rdi 6; movptr_imm rcx VO_BIT_BASE_ADDRESS;
                  movb_store (Addr rcx (Some rdi) 0 0) rscratch1] m = Some m' ∧
    memory m' = write 1 (memory m) (meta_addr VO_BIT_BASE_ADDRESS (rf m rax)) (rf m rscratch1) ∧
    (∀ r, r ≠ rdi → r ≠ rcx → rf m' r = rf m r) ∧ calls m' = calls m ∧ stack m' = stack m.
Proof.
  intros Ho. step_regs. rewrite vo_address by done. split; [done|]. split; [|done].
  intros r R1 R2. by simp_regs.
Qed.

(** The code sets the bit of the new object and no other. *)
Lemma vo_bit_exec m :
  object (rf m rax) →
  ∃ m', straight (vo_bit_code rax) m = Some m' ∧
    (∀ r, r ≠ rdi → r ≠ rscratch1 → r ≠ rcx → rf m' r = rf m r) ∧
    calls m' = calls m ∧ stack m' = stack m ∧
    (∀ x, x ≠ meta_addr VO_BIT_BASE_ADDRESS (rf m rax) → memory m' x = memory m x) ∧
    (∀ o, object o →
       meta_bit VO_BIT_BASE_ADDRESS (memory m') o =
       meta_bit VO_BIT_BASE_ADDRESS (memory m) o || bool_decide (o = rf m rax)).
Proof.
  intros Hs. pose proof (meta_shift_range (rf m rax)) as Hsh.
  destruct (vo_load m) as (m1 & E1 & A1 & R1 & M1 & C1 & S1); [apply Hs|].
  assert (rf m1 rax = rf m rax) as Er1 by (by apply R1).
  destruct (vo_mask m1) as (m2 & E2 & A2 & R2 & M2 & C2 & S2); [rewrite Er1; apply Hs|].
  assert (rf m2 rax = rf m rax) as Er2 by (rewrite R2 by done; done).
  destruct (vo_store m2) as (m3 & E3 & M3 & R3 & C3 & S3); [rewrite Er2; apply Hs|].
  exists m3. split.
  { unfold vo_bit_code.
    change (_ :: _) with (([movptr rdi rax; shrptr rdi 6; movptr_imm rscratch1 VO_BIT_BASE_ADDRESS;
      movb_load rscratch1 (Addr rscratch1 (Some rdi) 0 0)]) ++
      ([movptr rcx rax; shrptr rcx 3; andptr rcx 7; movptr_imm rdi 1; shlptr_cl rdi;
      orptr rscratch1 rdi] ++ [movptr rdi rax; shrptr rdi 6; movptr_imm rcx VO_BIT_BASE_ADDRESS;
      movb_store (Addr rcx (Some rdi) 0 0) rscratch1])).
    by rewrite (straight_app _ _ _ _ E1), (straight_app _ _ _ _ E2). }
  rewrite M3, M2, M1, A2, A1, Er1, Er2. split_and!.
  - intros r X1 X2 X3. by rewrite R3, R2, R1.
  - by rewrite C3, C2.
  - by rewrite S3, S2.
  - intros x Hx. apply write_frame. change (Z.of_nat 1) with 1. lia.
  - set (a := meta_addr VO_BIT_BASE_ADDRESS (rf m rax)).
    intros o Ho'. rewrite !meta_bit_testbit. pose proof (meta_shift_range o).
    destruct (decide (meta_addr VO_BIT_BASE_ADDRESS o = a)) as [E|E].
    + rewrite E. rewrite set_bit_byte by done. f_equal. apply bool_decide_ext.
      split; [|by intros ->]. intros Hk. by eapply (meta_injective VO_BIT_BASE_ADDRESS).
    + rewrite write_frame by (change (Z.of_nat 1) with 1; lia).
      rewrite bool_decide_eq_false_2; [by rewrite orb_false_r|]. by intros ->.
Qed.

(** Counting the allocated bytes. *)
Lemma allocated_bytes_exec m var con :
  0 ≤ rf m r15_thread → 0 ≤ allocated_bytes_offset →
  rf m r15_thread + allocated_bytes_offset + 8 < 2 ^ 64 →
  let a := rf m r15_thread + allocated_bytes_offset in
  ∃ m', straight (allocated_bytes_code var con) m = Some m' ∧
    rf m' = rf m ∧ calls m' = calls m ∧ stack m' = stack m ∧
    read 8 (memory m') a = u64 (read 8 (memory m) a + size_of (rf m) var con + extra_header) ∧
    (∀ x, x < a ∨ a + 8 ≤ x → memory m' x = memory m x).
Proof.
  intros Hth Hab Hr a. unfold allocated_bytes_code.
  assert (effective (rf m) (Addr r15_thread None 0 allocated_bytes_offset) = a) as Ea
    by (apply thread_word; lia).
  assert (∀ z, straight [addq_mem_imm (Addr r15_thread None 0 allocated_bytes_offset) z] m =
    Some (set_flags None (set_memory (write 8 (memory m) a (u64 (read 8 (memory m) a + z))) m))) as Hstep.
  { intros z. cbn. by rewrite Ea. }
  set (m1 := set_flags None (set_memory
    (write 8 (memory m) a (u64 (read 8 (memory m) a + size_of (rf m) var con))) m)).
  assert (exec1 (match var with
    | Some v => addq_mem (Addr r15_thread None 0 allocated_bytes_offset) v
    | None => addq_mem_imm (Addr r15_thread None 0 allocated_bytes_offset) con end) m = Some m1) as E1.
  { subst m1. destruct var; cbn; by rewrite Ea. }
  cbn [straight]. rewrite E1. cbn [exec1].
  assert (effective (rf m1) (Addr r15_thread None 0 allocated_bytes_offset) = a) as Ea1 by exact Ea.
  rewrite Ea1. eexists; split; [reflexivity|]. subst m1. cbn. split_and!; try done.
  - rewrite !read_write. change (8 * Z.of_nat 8) with 64.
    rewrite !wrap_wrap. unfold wrap. rewrite Zplus_mod_idemp_l. f_equal.
  - intros x Hx. by rewrite !write_frame by (change (Z.of_nat 8) with 8; lia).
Qed.

(** ** The whole fast path *)

Definition no_bind (code : list instr) : bool :=
  forallb (λ i, match i with bind _ => false | _ => true end) code.

Lemma exec_jump_out code l m : no_bind code = true → exec code (Some l) m = Jumps l m.
Proof.
  intros Hn. apply exec_out. intros i Hi ->. unfold no_bind in Hn. rewrite forallb_forall in Hn.
  apply list_elem_of_In in Hi. by specialize (Hn _ Hi).
Qed.

Lemma bump_no_bind var con t1 a b : no_bind (bump_code rax var con t1 a b) = true.
Proof. unfold bump_code. destruct var; case_decide; done. Qed.

Lemma tail_no_bind var con :
  no_bind ((if enable_vo_bit then vo_bit_code rax else []) ++ allocated_bytes_code var con) = true.
Proof. destruct enable_vo_bit, var; done. Qed.

(** The table of valid-object bits. *)
Definition vo_table (x : Z) : Prop := VO_BIT_BASE_ADDRESS ≤ x < VO_BIT_BASE_ADDRESS + 2 ^ 57.

Lemma vo_in_table o : object o → vo_table (meta_addr VO_BIT_BASE_ADDRESS o).
Proof.
  intros [Ho _]. unfold vo_table, meta_addr. rewrite i64_small, Z.shiftr_div_pow2 by (done || lia).
  assert (0 ≤ o / 2 ^ 6 < 2 ^ 57); [|lia].
  split; [apply Z.div_pos; lia|apply Z.div_lt_upper_bound; [lia|]].
  change (2 ^ 6 * 2 ^ 57) with (2 ^ 63). apply Ho.
Qed.

(** What follows the bump: the bit and the count. *)
Lemma tail_exec m var con :
  let T := rf m r15_thread in
  let a := T + allocated_bytes_offset in
  0 ≤ T → 0 ≤ allocated_bytes_offset → a + 8 < 2 ^ 64 →
  (∀ x, a ≤ x < a + 8 → ¬ vo_table x) →
  (enable_vo_bit = true → object (rf m rax) ∧
     ∀ v, var = Some v → v ≠ rdi ∧ v ≠ rscratch1 ∧ v ≠ rcx) →
  ∃ m', exec ((if enable_vo_bit then vo_bit_code rax else []) ++ allocated_bytes_code var con) None m = Falls m' ∧
    (∀ r, r ≠ rdi → r ≠ rscratch1 → r ≠ rcx → rf m' r = rf m r) ∧
    calls m' = calls m ∧ stack m' = stack m ∧
    read 8 (memory m') a = u64 (read 8 (memory m) a + size_of (rf m) var con + extra_header) ∧
    (∀ x, x < a ∨ a + 8 ≤ x → ¬ vo_table x → memory m' x = memory m x) ∧
    (∀ o, object o → meta_bit VO_BIT_BASE_ADDRESS (memory m') o =
       meta_bit VO_BIT_BASE_ADDRESS (memory m) o || (enable_vo_bit && bool_decide (o = rf m rax))).
Proof.
  intros T a HT Hab Ha Hap Hvo.
  assert (∃ m1, straight (if enable_vo_bit then vo_bit_code rax else []) m = Some m1 ∧
    (∀ r, r ≠ rdi → r ≠ rscratch1 → r ≠ rcx → rf m1 r = rf m r) ∧
    calls m1 = calls m ∧ stack m1 = stack m ∧ size_of (rf m1) var con = size_of (rf m) var con ∧
    (∀ x, ¬ vo_table x → memory m1 x = memory m x) ∧
    (∀ o, object o → meta_bit VO_BIT_BASE_ADDRESS (memory m1) o =
       meta_bit VO_BIT_BASE_ADDRESS (memory m) o || (enable_vo_bit && bool_decide (o = rf m rax))))
    as (m1 & E1 & R1 & C1 & S1 & Z1 & M1 & B1).
  { destruct enable_vo_bit.
    - destruct (Hvo eq_refl) as [Ho Hv]. destruct (vo_bit_exec m Ho) as (m1 & E1 & R1 & C1 & S1 & M1 & B1).
      exists m1. split_and!; try done.
      + unfold size_of. destruct var as [v|]; [|done]. by apply R1; apply (Hv v).
      + intros x Hx. apply M1. intros ->. by apply Hx, vo_in_table.
    - exists m. split_and!; try done. intros o _. by rewrite orb_false_r. }
  assert (rf m1 r15_thread = T) as ET by (by apply R1).
  destruct (allocated_bytes_exec m1 var con) as (m2 & E2 & R2 & C2 & S2 & A2 & M2);
    [by rewrite ET|done|rewrite ET; lia|]. rewrite ET in A2, M2. fold a in A2, M2.
  exists m2. split.
  { rewrite (exec_straight _ _ _ _ E1). rewrite <-(app_nil_r (allocated_bytes_code var con)).
    by rewrite (exec_straight _ _ _ _ E2). }
  split_and!.
  - intros r X1 X2 X3. rewrite R2. by apply R1.
  - by rewrite C2.
  - by rewrite S2.
  - rewrite A2, Z1. do 3 f_equal. apply read_ext. intros x Hx. apply M1, Hap. apply Hx.
  - intros x Hx Hv. rewrite M2 by done. by apply M1.
  - intros o Ho. rewrite <-B1 by done. rewrite !meta_bit_testbit. f_equal. apply M2.
    pose proof (vo_in_table o Ho) as Ht. destruct (decide (a ≤ meta_addr VO_BIT_BASE_ADDRESS o < a + 8)); [|lia].
    by destruct (Hap _ a0).
Qed.

Section fast_path.
Variables (m : machine) (var : option reg) (con : Z) (t1 : reg).

(** The thread: its mutator with the cursor and the limit, and its count of
    allocated bytes, apart from each other and from the metadata. *)
Abbreviation T := (rf m r15_thread).
Definition top_address : Z := T + mutator_offset + cursor_position selector.
Definition count_address : Z := T + allocated_bytes_offset.

Record thread_ok : Prop := {
  ok_thread : 0 ≤ T;
  ok_mutator : 0 ≤ mutator_offset < 2 ^ 30;
  ok_top : top_address + 16 < 2 ^ 64;
  ok_count : 0 ≤ allocated_bytes_offset ∧ count_address + 8 < 2 ^ 64;
  ok_apart : count_address + 8 ≤ top_address ∨ top_address + 16 ≤ count_address;
  ok_metadata x :
    top_address ≤ x < top_address + 16 ∨ count_address ≤ x < count_address + 8 → ¬ vo_table x
}.

(** The registers the code uses are different, the size is a word, and the
    bound fits the immediate it is compared with. *)
Record registers_ok : Prop := {
  ok_t1 : t1 ≠ rax ∧ t1 ≠ r15_thread;
  ok_var v : var = Some v → v ≠ rax ∧ v ≠ t1 ∧ 0 ≤ rf m v;
  ok_vo_var v : enable_vo_bit = true → var = Some v → v ≠ rdi ∧ v ≠ rscratch1 ∧ v ≠ rcx;
  ok_con : var = None → 0 ≤ con < 2 ^ 31;
  ok_bound : var ≠ None → 0 ≤ size_bound < 2 ^ 31
}.

(** The size passes the check for the large-object space. *)
Definition small : bool :=
  match var with
  | None => bool_decide (con ≤ size_bound)
  | Some v => bool_decide (rf m v < size_bound)
  end.

Definition new_object : Z := u64 (read 8 (memory m) top_address + extra_header).
Definition new_end : Z := u64 (new_object + size_of (rf m) var con).

(** The space between the cursor and the limit suffices. *)
Definition fits : bool :=
  negb (bool_decide (new_end < new_object) || bool_decide (read 8 (memory m) (top_address + 8) < new_end)).

(** The effect of an allocation that succeeds. *)
Definition allocated (m' : machine) : Prop :=
  rf m' rax = new_object ∧
  read 8 (memory m') top_address = new_end ∧
  read 8 (memory m') count_address =
    u64 (read 8 (memory m) count_address + size_of (rf m) var con + extra_header) ∧
  (∀ x, x < top_address ∨ top_address + 8 ≤ x → x < count_address ∨ count_address + 8 ≤ x →
     ¬ vo_table x → memory m' x = memory m x) ∧
  (∀ o, object o → meta_bit VO_BIT_BASE_ADDRESS (memory m') o =
     meta_bit VO_BIT_BASE_ADDRESS (memory m) o || (enable_vo_bit && bool_decide (o = new_object))).

(** The code after the size check. *)
Definition body_code : list instr :=
  bump_code rax var con t1
    (Addr r15_thread None 0 (mutator_offset + cursor_position selector))
    (Addr r15_thread None 0 (mutator_offset + cursor_position selector + 8)) ++
  (if enable_vo_bit then vo_bit_code rax else []) ++ allocated_bytes_code var con.

Lemma body_exec m0 :
  fastpath_selector selector → thread_ok → registers_ok → (enable_vo_bit = true → object new_object) →
  rf m0 = rf m → memory m0 = memory m → calls m0 = calls m → stack m0 = stack m →
  ∃ m', calls m' = calls m ∧ stack m' = stack m ∧
    if fits then exec body_code None m0 = Falls m' ∧ allocated m'
    else exec body_code None m0 = Jumps slow_case m' ∧ memory m' = memory m.
Proof.
  intros Hsel [H1 H2 H3 [H4 H4'] H5 H6] [[T1 T2] Hv Hvv Hcon Hbound] Hobj Erf Emem Ecalls Estack.
  unfold top_address, count_address in *.
  assert (0 ≤ cursor_position selector) as Hcp.
  { destruct Hsel as [Hi _]. unfold cursor_position. repeat case_decide; lia. }
  destruct (bump_exec m0 var con t1 (mutator_offset + cursor_position selector))
    as (m1 & E1 & A1 & R1 & C1 & S1 & M1); rewrite ?Erf; try done; try lia.
  { intros v E. by destruct (Hv v E) as (? & ? & _). }
  rewrite Erf, Emem in *. fold new_object in *.
  replace (T + (mutator_offset + cursor_position selector)) with top_address in * by (unfold top_address; lia).
  fold new_object in *. fold new_end in *.
  unfold body_code. rewrite exec_app, E1. unfold fits.
  destruct (bool_decide (new_end < new_object) || bool_decide (read 8 (memory m) (top_address + 8) < new_end));
    cbn [negb].
  { exists m1. rewrite C1, S1. split_and!; try done. by rewrite exec_jump_out by apply tail_no_bind. }
  assert (rf m1 r15_thread = T) as E15 by (by rewrite R1).
  destruct (tail_exec m1 var con) as (m2 & E2 & R2 & C2 & S2 & A2 & M2 & B2); rewrite ?E15; try done.
  { intros x Hx. apply H6. by right. }
  { intros Hvo. rewrite A1. split; [by apply Hobj|]. intros v E. by apply Hvv. }
  rewrite E15 in A2, M2. fold count_address in A2, M2. rewrite A1 in B2.
  exists m2. rewrite C2, C1, S2, S1. split_and!; try done.
  assert (size_of (rf m1) var con = size_of (rf m) var con) as Es.
  { unfold size_of. destruct var as [v|]; [|done]. destruct (Hv v eq_refl) as (? & ? & _). by apply R1. }
  unfold allocated. split_and!.
  - by rewrite R2 by done.
  - assert (read 8 (memory m1) top_address = new_end) as <-.
    { rewrite M1, read_write. change (8 * Z.of_nat 8) with 64. unfold new_end. by rewrite wrap_wrap. }
    apply read_ext. change (Z.of_nat 8) with 8. intros x Hx.
    apply M2; [unfold top_address, count_address in *; lia|].
    apply H6. left. unfold top_address in *. lia.
  - rewrite A2, Es, M1. do 3 f_equal. apply read_write_ne. change (Z.of_nat 8) with 8.
    unfold top_address, count_address in *. lia.
  - intros x X1 X2 X3. rewrite M2 by done. rewrite M1. apply write_frame. change (Z.of_nat 8) with 8. lia.
  - intros o Ho. rewrite B2 by done. f_equal. rewrite !meta_bit_testbit, M1. f_equal.
    apply write_frame. pose proof (vo_in_table o Ho) as Htab. change (Z.of_nat 8) with 8.
    destruct (decide (top_address ≤ meta_addr VO_BIT_BASE_ADDRESS o < top_address + 8)) as [Hin|]; [|lia].
    destruct (H6 (meta_addr VO_BIT_BASE_ADDRESS o)); [|done]. left. unfold top_address in *. lia.
Qed.

(** C23. The fast path allocates exactly when it may: for a size below the bound
    of the large-object space, and when the object fits between the cursor and
    the limit of the thread's own allocator, the object starts at the cursor
    (past the header that mark-compact reserves), the cursor moves to its end,
    the count of allocated bytes grows by the size and the header, the object's
    valid-object bit is set if it is to be, and nothing else in memory changes.
    Otherwise it goes to the slow path with memory as it was. *)
Theorem eden_allocate_asm :
  mmtk_enable_allocation_fastpath = true → fastpath_selector selector →
  thread_ok → registers_ok → (enable_vo_bit = true → object new_object) →
  ∃ code m', eden_allocate r15_thread rax var con t1 = Ok code ∧
    calls m' = calls m ∧ stack m' = stack m ∧
    if small && fits then
      exec code None m = Falls m' ∧ allocated m'
    else exec code None m = Jumps slow_case m' ∧ memory m' = memory m.
Proof.
  intros Hfast Hsel Ht Hr Hobj. unfold eden_allocate. rewrite Hfast. cbn [negb].
  rewrite offsets_eq by (done || apply Ht). cbn [mbind outcome_bind tlab_top_offset tlab_end_offset].
  fold body_code.
  assert (¬ (tag selector = TAG_MALLOC ∨ tag selector = TAG_LARGE_OBJECT ∨ tag selector = TAG_FREE_LIST)) as Htag.
  { destruct Hsel as [_ [[-> _]|[[-> _]|[-> _]]]]; by intros [?|[?|?]]. }
  rewrite (decide_False (P := _ ∨ _)) by exact Htag.
  destruct (decide (var = None)) as [Ev|Ev].
  - pose proof (ok_con Hr Ev) as Hc. change (2 ^ 31) with 2147483648 in Hc.
    assert (small = bool_decide (con ≤ size_bound)) as -> by (unfold small; by rewrite Ev).
    rewrite (bool_decide_eq_true_2 (var = None)) by done. cbn [andb].
    rewrite (wrap_small 64 con) by word_range.
    destruct (decide (con ≤ size_bound)) as [Hle|Hgt].
    + rewrite bool_decide_eq_false_2, bool_decide_eq_true_2 by lia. cbn [andb].
      destruct (body_exec m) as (m' & C' & S' & B'); try done. exists body_code, m'.
      split; [by rewrite Ev|]. by split_and!.
    + rewrite bool_decide_eq_true_2, bool_decide_eq_false_2 by lia. cbn [andb].
      by exists [jmp slow_case], m.
  - rewrite (bool_decide_eq_false_2 (var = None)) by done. cbn [andb].
    apply not_eq_None_Some in Ev as Hv. destruct Hv as [v Hv].
    destruct (ok_var Hr v Hv) as (V1 & V2 & V3). pose proof (ok_bound Hr Ev) as Hb.
    assert (small = bool_decide (rf m v < size_bound)) as -> by (unfold small; by rewrite Hv).
    assert (u64 (i32 size_bound) = size_bound) as Eb.
    { change (2 ^ 31) with 2147483648 in Hb. rewrite i32_small by (change (2 ^ 31) with 2147483648; lia).
      apply wrap_small. word_range. }
    set (check := [cmpptr_imm v (i32 size_bound); jcc aboveEqual slow_case]).
    set (m0 := set_flags (Some (rf m v, size_bound)) m).
    assert (∀ c, exec (check ++ c) None m =
      if bool_decide (size_bound ≤ rf m v) then exec c (Some slow_case) m0 else exec c None m0) as Ec.
    { intros c. subst check m0. cbn. by rewrite Eb. }
    destruct (decide (rf m v < size_bound)) as [Hlt|Hge].
    + rewrite (bool_decide_eq_true_2 (rf m v < size_bound)) by done. cbn [andb].
      destruct (body_exec m0) as (m' & C' & S' & B'); try done. exists (check ++ body_code), m'.
      split; [by rewrite Hv|]. rewrite Ec, bool_decide_eq_false_2 by lia. by split_and!.
    + rewrite (bool_decide_eq_false_2 (rf m v < size_bound)) by done. cbn [andb].
      exists (check ++ body_code), m0. split; [by rewrite Hv|].
      rewrite Ec, bool_decide_eq_true_2 by lia. rewrite exec_jump_out; [by split_and!|].
      unfold body_code, no_bind. rewrite forallb_app.
      change (no_bind (bump_code rax var con t1
        (Addr r15_thread None 0 (mutator_offset + cursor_position selector))
        (Addr r15_thread None 0 (mutator_offset + cursor_position selector + 8))) &&
        no_bind ((if enable_vo_bit then vo_bit_code rax else []) ++ allocated_bytes_code var con) = true).
      by rewrite bump_no_bind, tail_no_bind.
Qed.

End fast_path.

End eden.

(** ** Boundaries *)

(** At the boundary the two kinds of requests differ: a constant size equal to
    the bound is allocated by the fast path, a variable size equal to it goes to
    the slow path, which sends it to the large-object space. *)
Lemma size_boundary maxb sel hdr m v :
  rf m v = size_bound maxb sel hdr →
  small maxb sel hdr m None (size_bound maxb sel hdr) = true ∧
  small maxb sel hdr m (Some v) 0 = false.
Proof. intros E. unfold small. rewrite E. split; [by apply bool_decide_eq_true_2|by apply bool_decide_eq_false_2, Z.lt_irrefl]. Qed.

(** ** Concrete runs *)

Section examples.
#[local] Instance idle_callee : Callee :=
  {| callee_memory _ _ mm := mm; callee_scratch _ _ _ _ := 0 |}.

(** A thread at 65536 whose mutator is at offset 1000 and whose allocator is the
    first bump allocator; the cursor is at 1048576 and the limit 4096 above. *)
Definition eden_memory : mem := write 8 (write 8 (λ _, 0) 66544 1048576) 66552 1052672.

Definition eden_machine : machine :=
  Machine (λ r, match r with r15 => 65536 | rdx => 48 | rcx => 48 | _ => 7 end) eden_memory None [] [].

Definition bump_selector : AllocatorSelector := Selector TAG_BUMP_POINTER 0.

Lemma eden_example_mapped : 0 ≤ 2 ^ 40 ∧ 2 ^ 40 + 2 ^ 57 < 2 ^ 64.
Proof. split; [discriminate|reflexivity]. Qed.

Lemma example_selector : fastpath_selector bump_selector.
Proof. split; [discriminate|left; split; reflexivity]. Qed.

Lemma example_top : top_address bump_selector 1000 eden_machine = 66544.
Proof. vm_compute. reflexivity. Qed.

Lemma example_count : count_address 800 eden_machine = 66336.
Proof. vm_compute. reflexivity. Qed.

Lemma example_thread : thread_ok bump_selector 1000 800 1099511627776 eden_machine.
Proof.
  split; rewrite ?example_top, ?example_count; try (cbn; lia).
  intros x. unfold vo_table. lia.
Qed.

Lemma example_registers : registers_ok 16384 bump_selector 0 true eden_machine (Some rdx) 0 rbx.
Proof.
  split.
  - by split.
  - intros v [= <-]. by split_and!.
  - intros v _ [= <-]. by split_and!.
  - done.
  - intros _. split; [discriminate|reflexivity].
Qed.

Lemma example_object : new_object bump_selector 0 1000 eden_machine = 1048576.
Proof. vm_compute. reflexivity. Qed.

Lemma object_1048576 : object 1048576.
Proof. split; [split; [discriminate|reflexivity]|reflexivity]. Qed.

Lemma example_vo : enable_vo_bit bump_selector true = true → object (new_object bump_selector 0 1000 eden_machine).
Proof. intros _. rewrite example_object. apply object_1048576. Qed.

Lemma example_fits :
  small 16384 bump_selector 0 eden_machine (Some rdx) 0 &&
  fits bump_selector 0 1000 eden_machine (Some rdx) 0 = true.
Proof. vm_compute. reflexivity. Qed.

Lemma example_end : new_end bump_selector 0 1000 eden_machine (Some rdx) 0 = 1048624.
Proof. vm_compute. reflexivity. Qed.

Lemma eden_allocate_asm_witness :
  ∃ code m', eden_allocate true 16384 bump_selector 0 1000 800 (2 ^ 40) true r15_thread rax (Some rdx) 0 rbx = Ok code ∧
    exec code None eden_machine = Falls m' ∧ rf m' rax = 1048576 ∧
    read 8 (memory m') 66544 = 1048624 ∧ meta_bit (2 ^ 40) (memory m') 1048576 = true.
Proof.
  destruct (eden_allocate_asm true 16384 bump_selector 0 1000 800 (2 ^ 40) true
    eden_example_mapped eden_machine (Some rdx) 0 rbx eq_refl example_selector example_thread
    example_registers example_vo) as (code & m' & Ecode & _ & _ & Hw).
  exists code, m'. split; [exact Ecode|]. clear Ecode. rewrite example_fits in Hw.
  destruct Hw as (E & A1 & A2 & _ & _ & A5). rewrite example_top, example_end in A2.
  rewrite example_object in A1, A5. split; [exact E|]. clear E. split; [exact A1|]. split; [exact A2|].
  rewrite A5 by apply object_1048576. rewrite bool_decide_eq_true_2 by reflexivity. apply orb_true_r.
Defined.

(** The valid-object code uses [rcx] and [rdi] as scratch registers: when the
    size is in [rcx], the count of allocated bytes grows by the address of the
    metadata instead of the size. *)
Example size_in_rcx :
  match eden_allocate true 16384 bump_selector 0 1000 800 (2 ^ 40) true r15_thread rax (Some rcx) 0 rbx with
  | Ok code =>
      match exec code None eden_machine with
      | Falls m' => read 8 (memory m') 66336 = 2 ^ 40
      | _ => False
      end
  | _ => False
  end.
Proof. vm_compute. reflexivity. Qed.

End examples.
