(* ===== verification/LIR.v ===== *)
(** * C1's low-level intermediate representation

    The LIR operations that the C1 barriers append through a [LIRGenerator],
    before register allocation: an unbounded supply of virtual registers, with
    the meaning that HotSpot's x86-64 back end gives each operation.  Emission
    is a monad that numbers registers and labels and collects operations. *)

From stdpp Require Import base numbers list.
From Stdlib Require Import ZArith Lia.
From S2P Require Import Prelude Slots Barrier X86.

Local Open Scope Z_scope.

(** ** Operands *)

(** Integers are 32 bits wide; pointers and objects, 64. *)
Inductive lir_type := T_INT | T_LONG | T_OBJECT.
Record vreg := V { vtype : lir_type; vnum : nat }.

(** [LIR_Address]: base and index are registers. *)
Record LIR_Address := LAddr {
  lbase : vreg; lindex : option vreg; lscale : Z; ldisp : Z }.

Inductive LIR_Opr :=
| Register (v : vreg)
| Constant (z : Z)
| AddressOpr (a : LIR_Address).

Definition is_register (o : LIR_Opr) : bool := match o with Register _ => true | _ => false end.
Definition is_constant (o : LIR_Opr) : bool := match o with Constant _ => true | _ => false end.
Definition is_address (o : LIR_Opr) : bool := match o with AddressOpr _ => true | _ => false end.

(** [MMTkC1PreBarrierStub], [MMTkC1PostBarrierStub] and
    [MMTkC1ReferenceLoadBarrierStub].  [scratch] is set together with a
    [patch_code] other than [lir_patch_none]. *)
Inductive CodeStub :=
| MMTkC1PreBarrierStub (src slot new_val : LIR_Opr) (scratch : option vreg)
| MMTkC1PostBarrierStub (src slot new_val : LIR_Opr)
| MMTkC1ReferenceLoadBarrierStub (val : LIR_Opr).

(** The accesses that HotSpot's [BarrierSetC1] emits. *)
Inductive raw_access := RawStore | RawCmpXchg | RawXchg | RawLoad.

(** A stub is entered by a branch and comes back to its continuation, the label
    that goes with it. *)
Inductive lir :=
| lir_move (src : LIR_Opr) (dst : vreg)
| lir_load_byte (src : LIR_Address) (dst : vreg)
| lir_leal (src : LIR_Opr) (dst : vreg)
| lir_ushr (left : vreg) (count : LIR_Opr) (res : vreg)
| lir_and (left : vreg) (right : Z) (res : vreg)
| lir_cmp (left : vreg) (right : Z)
| lir_branch_equal (stub : CodeStub) (continuation : nat)
| lir_jump (stub : CodeStub) (continuation : nat)
| lir_branch_destination (l : nat)
| lir_referent_check (l : nat)
| lir_raw (a : raw_access) (operands : list LIR_Opr) (result : option vreg).

(** ** Machines *)

Inductive event := Leaf (f : callee) (arguments : list Z) | Accessed (a : raw_access) (operands : list Z).

Record lstate := LState {
  lregs : nat → Z;
  lmem : mem;
  lcmp : option bool;          (* whether the last comparison found equality *)
  trace : list event }.

(** What HotSpot's own code does: the value and the memory that an access
    with the given operands leaves, and whether [generate_referent_check] finds that the access reads
    the referent of a [java.lang.ref.Reference]. *)
Class RawLIR := {
  raw_value : raw_access → list Z → mem → Z;
  raw_memory : raw_access → list Z → mem → mem;
  reads_referent : bool
}.

Definition lupd (v : vreg) (z : Z) (s : lstate) : lstate :=
  LState (λ n, if decide (n = vnum v) then z else lregs s n) (lmem s) (lcmp s) (trace s).
Definition set_lcmp (b : bool) (s : lstate) : lstate := LState (lregs s) (lmem s) (Some b) (trace s).

(** An operation on an integer register sees its low half. *)
Definition width (v : vreg) : Z := match vtype v with T_INT => 32 | _ => 64 end.
Definition operand (s : lstate) (v : vreg) : Z := wrap (width v) (lregs s (vnum v)).

Definition address (s : lstate) (a : LIR_Address) : Z :=
  u64 (lregs s (vnum (lbase a)) +
       match lindex a with Some i => Z.shiftl (lregs s (vnum i)) (lscale a) | None => 0 end + ldisp a).

(** The word a register holds, a constant, or the address an operand denotes. *)
Definition opr_value (s : lstate) (o : LIR_Opr) : Z :=
  match o with
  | Register v => lregs s (vnum v)
  | Constant z => u64 z
  | AddressOpr a => address s a
  end.

Inductive lresult := Finished (s : lstate) | Seeking (l : nat) (s : lstate) | Wrong.

Section semantics.
Context `{Callee} `{RawLIR}.

(** The runtime functions behind the stubs of the active barrier. *)
Variables pre_target post_target : callee.

Definition leaf (f : callee) (l : list Z) (s : lstate) : lstate :=
  LState (lregs s) (callee_memory f l (lmem s)) (lcmp s) (trace s ++ [Leaf f l]).

(** Entering a stub and coming back. *)
Definition run_stub (c : CodeStub) (s : lstate) : lstate :=
  match c with
  | MMTkC1PreBarrierStub src slot new_val scratch =>
      let l := [opr_value s src; opr_value s slot; opr_value s new_val] in
      let s := match scratch with Some v => lupd v (opr_value s slot) s | None => s end in
      leaf pre_target l s
  | MMTkC1PostBarrierStub src slot new_val =>
      leaf post_target [opr_value s src; opr_value s slot; opr_value s new_val] s
  | MMTkC1ReferenceLoadBarrierStub val =>
      if decide (opr_value s val = 0) then s else leaf load_reference_call [opr_value s val] s
  end.

(** One operation other than a branch. *)
Definition run1 (i : lir) (s : lstate) : option lstate :=
  match i with
  | lir_move src dst =>
      match src with
      | AddressOpr _ => None
      | _ => Some (lupd dst (opr_value s src) s)
      end
  | lir_load_byte a dst => Some (lupd dst (u32 (sign 8 (lmem s (address s a)))) s)
  | lir_leal src dst =>
      match src with
      | AddressOpr a => Some (lupd dst (address s a) s)
      | _ => None
      end
  | lir_ushr l count res =>
      let n := match count with Register v => lregs s (vnum v) | Constant z => z | AddressOpr _ => 0 end in
      Some (lupd res (Z.shiftr (operand s l) (n mod width l)) s)
  | lir_and l z res => Some (lupd res (Z.land (operand s l) z) s)
  | lir_cmp l z => Some (set_lcmp (bool_decide (operand s l = z)) s)
  | lir_branch_destination _ => Some s
  | lir_raw a operands result =>
      let l := opr_value s <$> operands in
      let s' := LState (lregs s) (raw_memory a l (lmem s)) None (trace s ++ [Accessed a l]) in
      Some (match result with
            | Some v => lupd v (raw_value a l (lmem s)) s'
            | None => s'
            end)
  | lir_branch_equal _ _ | lir_jump _ _ | lir_referent_check _ => None
  end.

(** Running operations; with [Some l], looking for the label [l]. *)
Fixpoint run (code : list lir) (target : option nat) (s : lstate) : lresult :=
  match code with
  | [] => match target with None => Finished s | Some l => Seeking l s end
  | i :: code =>
      match target with
      | Some l =>
          match i with
          | lir_branch_destination l' => if decide (l = l') then run code None s else run code target s
          | _ => run code target s
          end
      | None =>
          match i with
          | lir_jump c l => run code (Some l) (run_stub c s)
          | lir_branch_equal c l =>
              match lcmp s with
              | Some true => run code (Some l) (run_stub c s)
              | Some false => run code None s
              | None => Wrong
              end
          | lir_referent_check l => if reads_referent then run code None s else run code (Some l) s
          | _ => match run1 i s with Some s => run code None s | None => Wrong end
          end
      end
  end.

(** [c] runs to its end from [s] and leaves [s']. *)
Definition computes (c : list lir) (s s' : lstate) : Prop :=
  ∀ rest, run (c ++ rest) None s = run rest None s'.

Lemma computes_nil s : computes [] s s.
Proof. by intros rest. Qed.

Lemma computes_app c1 c2 s1 s2 s3 :
  computes c1 s1 s2 → computes c2 s2 s3 → computes (c1 ++ c2) s1 s3.
Proof. intros H1 H2 rest. by rewrite <-app_assoc, H1, H2. Qed.

Lemma computes_one i s s' : run1 i s = Some s' → computes [i] s s'.
Proof. intros E rest. cbn [app run]. destruct i; try discriminate E; by rewrite E. Qed.

Lemma computes_run c s s' : computes c s s' → run c None s = Finished s'.
Proof. intros Hc. by rewrite <-(app_nil_r c), Hc. Qed.

(** A branch to a stub right before its continuation. *)
Lemma computes_branch c l b s :
  lcmp s = Some b →
  computes [lir_branch_equal c l; lir_branch_destination l] s (if b then run_stub c s else s).
Proof. intros E rest. cbn. rewrite E. destruct b; [by rewrite decide_True|done]. Qed.

Lemma computes_jump c l s : computes [lir_jump c l; lir_branch_destination l] s (run_stub c s).
Proof. intros rest. cbn. by rewrite decide_True. Qed.

End semantics.

Lemma lupd_eq v z s : lregs (lupd v z s) (vnum v) = z.
Proof. cbn. by rewrite decide_True. Qed.
Lemma lupd_ne v z s n : n ≠ vnum v → lregs (lupd v z s) n = lregs s n.
Proof. intros. cbn. by rewrite decide_False. Qed.

(** ** States that agree on the registers below [n] *)

Definition agree (n : nat) (s s' : lstate) : Prop := ∀ r, (r < n)%nat → lregs s' r = lregs s r.

Lemma agree_refl n s : agree n s s.
Proof. by intros r. Qed.
Lemma agree_trans n m s1 s2 s3 : (n ≤ m)%nat → agree n s1 s2 → agree m s2 s3 → agree n s1 s3.
Proof. intros Hn H1 H2 r Hr. rewrite H2 by lia. by apply H1. Qed.
Lemma agree_lupd n v z s : (n ≤ vnum v)%nat → agree n s (lupd v z s).
Proof. intros Hn r Hr. apply lupd_ne. lia. Qed.

Definition below_address (n : nat) (a : LIR_Address) : Prop :=
  (vnum (lbase a) < n)%nat ∧ (∀ i, lindex a = Some i → (vnum i < n)%nat).

Definition below (n : nat) (o : LIR_Opr) : Prop :=
  match o with
  | Register v => (vnum v < n)%nat
  | Constant _ => True
  | AddressOpr a => below_address n a
  end.

Lemma below_mono n m o : (n ≤ m)%nat → below n o → below m o.
Proof.
  intros Hn. destruct o as [v|z|a]; cbn; [lia|done|]. intros [H1 H2].
  split; [lia|]. intros i Hi. specialize (H2 i Hi). lia.
Qed.

Lemma agree_value n s s' o : agree n s s' → below n o → opr_value s' o = opr_value s o.
Proof.
  intros Ha. destruct o as [v|z|a]; cbn; [apply Ha|done|]. intros [H1 H2].
  unfold address. rewrite Ha by done. destruct (lindex a) as [i|]; [|done].
  by rewrite Ha by (by apply H2).
Qed.

(** ** Emission *)

(** The next number for a register or a label, and the operations emitted. *)
Definition gen (A : Type) : Type := nat → outcome (A * nat * list lir).

#[export] Instance gen_ret : MRet gen := λ A a n, Ok (a, n, []).
#[export] Instance gen_bind : MBind gen := λ A B f g n,
  match g n with
  | Ok (a, n1, c1) =>
      match f a n1 with
      | Ok (b, n2, c2) => Ok (b, n2, c1 ++ c2)
      | Fatal => Fatal
      | Undef => Undef
      end
  | Fatal => Fatal
  | Undef => Undef
  end.

Definition emit (i : lir) : gen unit := λ n, Ok (tt, n, [i]).
Definition new_register (t : lir_type) : gen vreg := λ n, Ok (V t n, S n, []).
Definition new_pointer_register : gen vreg := new_register T_LONG.
Definition new_label : gen nat := λ n, Ok (n, S n, []).
(** What C++ leaves undefined. *)
Definition undefined {A} : gen A := λ _, Undef.

Lemma gen_bind_ok {A B} (g : gen A) (f : A → gen B) n a n1 c1 b n2 c2 :
  g n = Ok (a, n1, c1) → f a n1 = Ok (b, n2, c2) → (g ≫= f) n = Ok (b, n2, c1 ++ c2).
Proof. intros E1 E2. unfold mbind, gen_bind. by rewrite E1, E2. Qed.
