(* ===== verification/C1Barriers.v ===== *)
(** * Barriers in C1

    [MMTkBarrierSetC1] ([mmtkBarrierSetC1.hpp]) and the C1 parts of the object
    and SATB barriers ([mmtkObjectBarrier.cpp], [mmtkSATBBarrier.cpp]): each
    function emits LIR, and the theorems run what it emits. *)

From stdpp Require Import base numbers list.
From Stdlib Require Import ZArith Lia.
From S2P Require Import Prelude Slots Barrier X86 LIR.

Local Open Scope Z_scope.

(** A [LIRAccess] after its address has been resolved. *)
Record LIRAccess := {
  decorators : DecoratorSet;
  is_oop : bool;
  base_opr : LIR_Opr;
  resolved_addr : LIR_Opr
}.

Section emitters.
Variable mmtk_enable_barrier_fastpath : bool.
Variable side_metadata_base_address : Z.
Variable concurrent_marking_active_address : Z.

(** An operand, moved to a register of its own unless it is in one. *)
Definition in_register (t : lir_type) (o : LIR_Opr) : gen LIR_Opr :=
  if is_register o then mret o else
  reg ← new_register t;
  (if is_constant o then emit (lir_move o reg) else emit (lir_leal o reg));;
  mret (Register reg).

(** The fast path: to [slow] if the unlog bit of [addr] is set. *)
Definition unlog_check (addr : LIR_Opr) (slow : CodeStub) (continuation : nat) : gen unit :=
  offset ← new_pointer_register;
  emit (lir_move addr offset);;
  emit (lir_ushr offset (Constant 6) offset);;
  base ← new_pointer_register;
  emit (lir_move (Constant side_metadata_base_address) base);;
  byte_val ← new_register T_INT;
  emit (lir_load_byte (LAddr base (Some offset) 0 0) byte_val);;
  shift ← new_register T_INT;
  emit (lir_move addr shift);;
  emit (lir_ushr shift (Constant 3) shift);;
  emit (lir_and shift 7 shift);;
  emit (lir_ushr byte_val (Register shift) byte_val);;
  emit (lir_and byte_val 1 byte_val);;
  emit (lir_cmp byte_val 1);;
  emit (lir_branch_equal slow continuation).

(** [MMTkObjectBarrierSetC1::object_reference_write_post]. *)
Definition c1_object_write_post (access : LIRAccess) (src slot new_val : LIR_Opr) : gen unit :=
  if negb (IN_HEAP (decorators access)) then mret tt else
  src ← in_register T_LONG src;
  slot ← in_register T_LONG slot;
  new_val ← in_register T_OBJECT new_val;
  continuation ← new_label;
  let slow := MMTkC1PostBarrierStub src slot new_val in
  (if mmtk_enable_barrier_fastpath then unlog_check src slow continuation
   else emit (lir_jump slow continuation));;
  emit (lir_branch_destination continuation).

(** The slot of a SATB barrier: an address that is still to be patched stays an
    address; [as_address_ptr] of anything but an address is undefined. *)
Definition satb_slot (needs_patching : bool) (slot : LIR_Opr) : gen LIR_Opr :=
  if negb (is_register slot) && negb needs_patching then
    match slot with
    | AddressOpr address =>
        ptr ← new_pointer_register;
        (if bool_decide (lindex address = None) && bool_decide (ldisp address = 0)
         then emit (lir_move (Register (lbase address)) ptr)
         else emit (lir_leal slot ptr));;
        mret (Register ptr)
    | _ => undefined
    end
  else if needs_patching && negb (is_address slot) then
    match slot with
    | Register v => mret (AddressOpr (LAddr v None 0 0))
    | _ => undefined
    end
  else mret slot.

(** [MMTkSATBBarrierSetC1::object_reference_write_pre]. *)
Definition c1_satb_write_pre (access : LIRAccess) (src slot new_val : LIR_Opr) : gen unit :=
  if negb (IN_HEAP (decorators access)) then mret tt else
  let needs_patching := C1_NEEDS_PATCHING (decorators access) in
  src ← in_register T_LONG src;
  slot ← satb_slot needs_patching slot;
  new_val ← in_register T_OBJECT new_val;
  continuation ← new_label;
  scratch ← (if needs_patching then r ← new_register T_OBJECT; mret (Some r) else mret None);
  let slow := MMTkC1PreBarrierStub src slot new_val scratch in
  (if mmtk_enable_barrier_fastpath then
     if needs_patching then emit (lir_jump slow continuation)
     else unlog_check src slow continuation
   else emit (lir_jump slow continuation));;
  emit (lir_branch_destination continuation).

(** [MMTkSATBBarrierSetC1::load_at_resolved]. *)
Definition c1_satb_load_at_resolved (access : LIRAccess) (result : vreg) : gen unit :=
  let is_weak := ON_WEAK_OOP_REF (decorators access) in
  let is_phantom := ON_PHANTOM_OOP_REF (decorators access) in
  let is_anonymous := ON_UNKNOWN_OOP_REF (decorators access) in
  emit (lir_raw RawLoad [resolved_addr access] (Some result));;
  if is_oop access && (is_weak || is_phantom || is_anonymous) then
    Lcont_anonymous ← (if is_anonymous then
                         l ← new_label; emit (lir_referent_check l);; mret (Some l)
                       else mret None);
    continuation ← new_label;
    let slow := MMTkC1ReferenceLoadBarrierStub (Register result) in
    cm_flag_addr_opr ← new_pointer_register;
    emit (lir_move (Constant concurrent_marking_active_address) cm_flag_addr_opr);;
    cm_flag ← new_register T_INT;
    emit (lir_load_byte (LAddr cm_flag_addr_opr None 0 0) cm_flag);;
    emit (lir_cmp cm_flag 1);;
    emit (lir_branch_equal slow continuation);;
    emit (lir_branch_destination continuation);;
    match Lcont_anonymous with
    | Some l => emit (lir_branch_destination l)
    | None => mret tt
    end
  else mret tt.

(** ** [MMTkBarrierSetC1]: the accesses *)

Section accesses.
Variables object_reference_write_pre object_reference_write_post :
  LIRAccess → LIR_Opr → LIR_Opr → LIR_Opr → gen unit.

Definition write_pre (access : LIRAccess) (value : LIR_Opr) : gen unit :=
  if is_oop access
  then object_reference_write_pre access (base_opr access) (resolved_addr access) value else mret tt.
Definition write_post (access : LIRAccess) (value : LIR_Opr) : gen unit :=
  if is_oop access
  then object_reference_write_post access (base_opr access) (resolved_addr access) value else mret tt.

Definition store_at_resolved (access : LIRAccess) (value : LIR_Opr) : gen unit :=
  write_pre access value;;
  emit (lir_raw RawStore [resolved_addr access; value] None);;
  write_post access value.

Definition atomic_cmpxchg_at_resolved (access : LIRAccess) (cmp_value new_value : LIR_Opr) : gen vreg :=
  write_pre access new_value;;
  result ← new_register T_INT;
  emit (lir_raw RawCmpXchg [resolved_addr access; cmp_value; new_value] (Some result));;
  write_post access new_value;;
  mret result.

Definition atomic_xchg_at_resolved (access : LIRAccess) (value : LIR_Opr) : gen vreg :=
  write_pre access value;;
  result ← new_register T_OBJECT;
  emit (lir_raw RawXchg [resolved_addr access; value] (Some result));;
  write_post access value;;
  mret result.

(** The three writes, with the register of their result. *)
Inductive c1_write :=
| C1Store (value : LIR_Opr) | C1CmpXchg (cmp_value new_value : LIR_Opr) | C1Xchg (value : LIR_Opr).

Definition write_at_resolved (access : LIRAccess) (w : c1_write) : gen (option vreg) :=
  match w with
  | C1Store value => store_at_resolved access value;; mret None
  | C1CmpXchg cmp_value new_value =>
      r ← atomic_cmpxchg_at_resolved access cmp_value new_value; mret (Some r)
  | C1Xchg value => r ← atomic_xchg_at_resolved access value; mret (Some r)
  end.

End accesses.

(** The function behind the stubs: the slow half of the barrier if the emitted
    code has done the fast half. *)
Definition object_post_target : callee :=
  if mmtk_enable_barrier_fastpath then write_slow_call else write_post_call.
Definition satb_pre_target : callee :=
  if mmtk_enable_barrier_fastpath then write_slow_call else write_pre_call.

(** The barriers of the base class. *)
Definition no_barrier (access : LIRAccess) (src slot new_val : LIR_Opr) : gen unit := mret tt.

(** [MMTkObjectBarrierSetC1] and [MMTkSATBBarrierSetC1]. *)
Definition c1_object_write (access : LIRAccess) (w : c1_write) : gen (option vreg) :=
  write_at_resolved no_barrier c1_object_write_post access w.
Definition c1_satb_write (access : LIRAccess) (w : c1_write) : gen (option vreg) :=
  write_at_resolved c1_satb_write_pre no_barrier access w.

End emitters.

(** What a write accesses, and the reference it writes. *)
Definition c1_kind (w : c1_write) : raw_access :=
  match w with C1Store _ => RawStore | C1CmpXchg _ _ => RawCmpXchg | C1Xchg _ => RawXchg end.
Definition c1_new_value (w : c1_write) : LIR_Opr :=
  match w with C1Store v | C1CmpXchg _ v | C1Xchg v => v end.
Definition c1_operands (access : LIRAccess) (w : c1_write) : list LIR_Opr :=
  resolved_addr access :: match w with C1Store v | C1Xchg v => [v] | C1CmpXchg c v => [c; v] end.

(** [MMTkBarrierSetC1::resolve_address_in_register]: whether HotSpot is asked to
    resolve the address in a register. *)
Definition resolve_address_in_register (access : LIRAccess) (resolve_in_register : bool) : bool :=
  let needs_patching := C1_NEEDS_PATCHING (decorators access) in
  let is_write := C1_WRITE_ACCESS (decorators access) in
  let precise := IS_ARRAY (decorators access) || ON_UNKNOWN_OOP_REF (decorators access) in
  resolve_in_register || (negb needs_patching && is_write && is_oop access && precise).

(** [visit] of the three stubs: the operands that the register allocator is told
    the stub reads, and those it may overwrite. *)
Definition visit (c : CodeStub) : list LIR_Opr * list vreg :=
  match c with
  | MMTkC1PreBarrierStub src slot new_val scratch =>
      ([src; slot; new_val], match scratch with Some v => [v] | None => [] end)
  | MMTkC1PostBarrierStub src slot new_val => ([src; slot; new_val], [])
  | MMTkC1ReferenceLoadBarrierStub val => ([val], [])
  end.
