(* ===== verification/C1Safety.v ===== *)
(** * The C1 barriers: what the emitted code does

    The LIR of a reference access of C1 ([C1Barriers]) performs the access and
    calls mmtk-core as the runtime's barrier does for the same access. *)

From stdpp Require Import base numbers list.
From Stdlib Require Import ZArith Lia.
From S2P Require Import Prelude Slots Barrier X86 LIR C1Barriers.

Local Open Scope Z_scope.

Section correctness.
Context `{Callee} `{RawLIR}.
Variable mmtk_enable_barrier_fastpath : bool.
Variable side_metadata_base_address : Z.
Variables pre_target post_target : callee.

Abbreviation computes := (computes pre_target post_target).
Abbreviation run := (run pre_target post_target).
Abbreviation run_stub := (run_stub pre_target post_target).

(** The registers in use hold words. *)
Definition lwords (n : nat) (s : lstate) : Prop := ∀ r, (r < n)%nat → 0 ≤ lregs s r < 2 ^ 64.

Ltac simp_lregs := repeat (rewrite lupd_eq || (rewrite lupd_ne by (cbn; lia))).

(** [g] emits code that runs through and keeps the registers in use; the value
    and the state satisfy [Q]. *)
Definition emits {A} (g : gen A) (n : nat) (s : lstate) (Q : A → nat → lstate → Prop) : Prop :=
  ∃ a n' c s', g n = Ok (a, n', c) ∧ computes c s s' ∧ (n ≤ n')%nat ∧ agree n s s' ∧ Q a n' s'.

(** Neither memory nor the trace change. *)
Definition quiet (s s' : lstate) : Prop := lmem s' = lmem s ∧ trace s' = trace s.

Lemma emits_ret {A} (a : A) n s (Q : A → nat → lstate → Prop) : Q a n s → emits (mret a) n s Q.
Proof. intros HQ. exists a, n, [], s. by split_and!. Qed.

Lemma emits_emit i n s s' (Q : unit → nat → lstate → Prop) :
  run1 i s = Some s' → agree n s s' → Q tt n s' → emits (emit i) n s Q.
Proof. intros E Ha HQ. exists tt, n, [i], s'. split_and!; try done. by apply computes_one. Qed.

Lemma emits_bind {A B} (g : gen A) (f : A → gen B) n s Q :
  emits g n s (λ a n' s', emits (f a) n' s' Q) → emits (g ≫= f) n s Q.
Proof.
  intros (a & n1 & c1 & s1 & E1 & C1 & N1 & A1 & b & n2 & c2 & s2 & E2 & C2 & N2 & A2 & HQ).
  exists b, n2, (c1 ++ c2), s2. split_and!; [|by eapply computes_app|lia|by apply (agree_trans n n1 s s1 s2)|done].
  by apply (gen_bind_ok _ _ _ a n1).
Qed.

Lemma emits_weaken {A} (g : gen A) n s (Q Q' : A → nat → lstate → Prop) :
  emits g n s Q → (∀ a n' s', (n ≤ n')%nat → agree n s s' → Q a n' s' → Q' a n' s') → emits g n s Q'.
Proof.
  intros (a & n1 & c1 & s1 & E1 & C1 & N1 & A1 & HQ) HW. exists a, n1, c1, s1. split_and!; try done. by apply HW.
Qed.

(** Moving an operand into a fresh register. *)
Lemma emits_fresh t i z n s (Q : LIR_Opr → nat → lstate → Prop) :
  (∀ v, vnum v = n → run1 (i v) s = Some (lupd v z s)) →
  (∀ s', lregs s' n = z → quiet s s' → Q (Register (V t n)) (S n) s') →
  emits (reg ← new_register t; emit (i reg);; mret (Register reg)) n s Q.
Proof.
  intros Hi HQ. exists (Register (V t n)), (S n), [i (V t n)], (lupd (V t n) z s).
  split_and!; [done|by apply computes_one, Hi|lia|by apply agree_lupd|].
  apply HQ; [apply (lupd_eq (V t n))|done].
Qed.

(** The operand's value, now in a register. *)
Definition holds_in (o : LIR_Opr) (s : lstate) (r : LIR_Opr) (n' : nat) (s' : lstate) : Prop :=
  quiet s s' ∧ is_register r = true ∧ below n' r ∧ opr_value s' r = opr_value s o.

Lemma in_register_spec t o n s :
  below n o → emits (in_register t o) n s (holds_in o s).
Proof.
  intros Hb. unfold in_register. destruct o as [v|z|a]; cbn [is_register is_constant].
  - by apply emits_ret.
  - apply (emits_fresh t (lir_move (Constant z)) (u64 z)); [done|].
    intros s' E Hq. split; [exact Hq|]. split_and!; [done|cbn; lia|done].
  - apply (emits_fresh t (lir_leal (AddressOpr a)) (address s a)); [done|].
    intros s' E Hq. split; [exact Hq|]. split_and!; [done|cbn; lia|done].
Qed.

(** The slot of a SATB barrier is its address, whatever happens to it. *)
Definition slot_in (needs_patching : bool) (o : LIR_Opr) (s : lstate) (r : LIR_Opr) (n' : nat) (s' : lstate) : Prop :=
  quiet s s' ∧ below n' r ∧ opr_value s' r = opr_value s o ∧ (needs_patching = false → is_register r = true).

Lemma satb_slot_spec needs_patching o k n s :
  (k ≤ n)%nat → below k o → is_constant o = false → lwords k s →
  emits (satb_slot needs_patching o) n s (slot_in needs_patching o s).
Proof.
  intros Hk Hb Hc Hw. apply (below_mono k n) in Hb as Hb'; [|done]. unfold satb_slot. destruct o as [v|z|a]; cbn [is_register is_address negb andb]; [|done|].
  - destruct needs_patching; cbn [andb]; apply emits_ret; [|done].
    split; [done|]. split; [by split|]. split; [|done]. cbn. unfold address. cbn.
    rewrite !Z.add_0_r. apply wrap_small, Hw, Hb.
  - destruct needs_patching; cbn [andb]; [by apply emits_ret|].
    case_bool_decide as Ei; cbn [andb]; [case_bool_decide as Ed; cbn [andb]|].
    2,3: apply (emits_fresh T_LONG (lir_leal (AddressOpr a)) (address s a));
      [done|]; intros s' E Hq; (split; [exact Hq|]); split_and!; [cbn; lia|done|done].
    apply (emits_fresh T_LONG (lir_move (Register (lbase a))) (lregs s (vnum (lbase a)))); [done|].
    intros s' E Hq. split; [exact Hq|]. split_and!; [cbn; lia| |done]. cbn. rewrite E. unfold address.
    rewrite Ei, Ed, !Z.add_0_r. symmetry. apply wrap_small, Hw, (proj1 Hb).
Qed.

(** ** The unlog check *)

Hypothesis metadata_mapped :
  0 ≤ side_metadata_base_address ∧ side_metadata_base_address + 2 ^ 57 < 2 ^ 64.

(** The bit as 32-bit arithmetic on a sign-extended byte computes it. *)
Lemma byte_test b k :
  0 ≤ k < 8 →
  bool_decide (u32 (Z.land (u32 (Z.shiftr (u32 (u32 (sign 8 b))) (k mod 32))) 1) = 1) = Z.testbit b k.
Proof.
  intros Hk. rewrite (Z.mod_small k 32), wrap_wrap by lia.
  rewrite (wrap_land 32 _ 1), shiftr_land_1 by (lia || done).
  rewrite wrap_testbit, sign_testbit, (bool_decide_eq_true_2 (k < 32)) by lia. cbn [andb].
  by destruct (Z.testbit b k).
Qed.

Lemma shift_of_object a : object a → Z.land (u32 (Z.shiftr (u32 a) 3)) 7 = meta_shift a.
Proof.
  intros [Ha _]. unfold meta_shift. rewrite i64_small, wrap_land by (done || (split; [discriminate|reflexivity]) || lia).
  apply Z.bits_inj'. intros n Hn. rewrite !Z.land_spec, !Z.shiftr_spec, wrap_testbit by lia.
  destruct (decide (n < 3)).
  - by rewrite bool_decide_eq_true_2 by lia.
  - change 7 with (Z.ones 3). rewrite Z.ones_spec_high by lia. by rewrite !andb_false_r.
Qed.

(** The operations before the branch. *)
Definition unlog_code (v : vreg) (n : nat) : list lir :=
  let offset := V T_LONG n in
  let base := V T_LONG (S n) in
  let byte_val := V T_INT (S (S n)) in
  let shift := V T_INT (S (S (S n))) in
  [lir_move (Register v) offset; lir_ushr offset (Constant 6) offset;
   lir_move (Constant side_metadata_base_address) base;
   lir_load_byte (LAddr base (Some offset) 0 0) byte_val;
   lir_move (Register v) shift; lir_ushr shift (Constant 3) shift; lir_and shift 7 shift;
   lir_ushr byte_val (Register shift) byte_val; lir_and byte_val 1 byte_val; lir_cmp byte_val 1].

Lemma unlog_check_code v slow l n :
  unlog_check side_metadata_base_address (Register v) slow l n =
  Ok (tt, S (S (S (S n))), unlog_code v n ++ [lir_branch_equal slow l]).
Proof. reflexivity. Qed.

Lemma unlog_code_spec v n s :
  (vnum v < n)%nat → object (lregs s (vnum v)) →
  ∃ s1, computes (unlog_code v n) s s1 ∧ agree n s s1 ∧ lmem s1 = lmem s ∧ trace s1 = trace s ∧
    lcmp s1 = Some (meta_bit side_metadata_base_address (lmem s) (lregs s (vnum v))).
Proof.
  intros Hv Ho. eexists. split; [intros rest; reflexivity|].
  split; [intros r Hr; cbn [set_lcmp lregs]; by simp_lregs|].
  split; [done|]. split; [done|]. cbn [lcmp set_lcmp]. f_equal.
  unfold operand, width, address, opr_value. cbn [vnum vtype lbase lindex lscale ldisp lmem lupd].
  simp_lregs. destruct (Ho) as [Hx _]. change (6 mod 64) with 6. change (3 mod 32) with 3.
  assert (u64 (lregs s (vnum v)) = lregs s (vnum v)) as -> by (apply wrap_small; word_range).
  rewrite meta_effective, shift_of_object, byte_test by (done || apply meta_shift_range).
  by rewrite meta_bit_testbit.
Qed.

(** The check and the branch, up to the continuation. *)
Lemma unlog_check_exec v slow l n s :
  (vnum v < n)%nat → object (lregs s (vnum v)) →
  ∃ s1, computes (unlog_code v n ++ [lir_branch_equal slow l; lir_branch_destination l]) s
      (if meta_bit side_metadata_base_address (lmem s) (lregs s (vnum v))
       then run_stub slow s1 else s1) ∧
    agree n s s1 ∧ lmem s1 = lmem s ∧ trace s1 = trace s.
Proof.
  intros Hv Ho. destruct (unlog_code_spec v n s Hv Ho) as (s1 & C & A & M & T & L).
  exists s1. split_and!; try done. eapply computes_app; [done|]. by apply computes_branch.
Qed.

(** ** The slow path *)

(** The state after the barrier that got [src], [slot] and [new_val] in [s]:
    either nothing has happened, or one call of [f]. *)
Definition called (slow : bool) (f : callee) (args : list Z) (s s' : lstate) : Prop :=
  if slow then trace s' = trace s ++ [Leaf f args] ∧ lmem s' = callee_memory f args (lmem s)
  else trace s' = trace s ∧ lmem s' = lmem s.

(** The slow path is taken unless the fast path finds the object logged. *)
Definition slow_path (m : mem) (src : Z) : bool :=
  negb mmtk_enable_barrier_fastpath || meta_bit side_metadata_base_address m src.

(** The end of both barriers: the check, if there is one, and the stub. *)
Definition barrier_end (check : bool) (src : LIR_Opr) (slow : CodeStub) (l : nat) : gen unit :=
  (if check then unlog_check side_metadata_base_address src slow l else emit (lir_jump slow l));;
  emit (lir_branch_destination l).

Lemma barrier_end_spec check v slow l n s :
  (vnum v < n)%nat → object (lregs s (vnum v)) →
  ∃ n' c s1, barrier_end check (Register v) slow l n = Ok (tt, n', c) ∧ (n ≤ n')%nat ∧
    computes c s (if negb check || meta_bit side_metadata_base_address (lmem s) (lregs s (vnum v))
                  then run_stub slow s1 else s1) ∧
    agree n s s1 ∧ lmem s1 = lmem s ∧ trace s1 = trace s.
Proof.
  intros Hv Ho. unfold barrier_end. destruct check; cbn [negb orb].
  - destruct (unlog_check_exec v slow l n s Hv Ho) as (s1 & C & A & M & T).
    eexists _, _, s1. split.
    { eapply gen_bind_ok; [apply unlog_check_code|reflexivity]. }
    split; [lia|]. rewrite <-app_assoc. by split_and!.
  - eexists n, _, s. split; [reflexivity|]. split_and!; try done. apply computes_jump.
Qed.

(** With a stub that calls [f] with [args] and changes no register below [k]. *)
Lemma barrier_end_called check v slow f args l k n s :
  (k ≤ n)%nat → (vnum v < n)%nat → object (lregs s (vnum v)) →
  (∀ s1, agree n s s1 → agree k s1 (run_stub slow s1) ∧
     trace (run_stub slow s1) = trace s1 ++ [Leaf f args] ∧
     lmem (run_stub slow s1) = callee_memory f args (lmem s1)) →
  ∃ n' c s', barrier_end check (Register v) slow l n = Ok (tt, n', c) ∧ computes c s s' ∧ (n ≤ n')%nat ∧
    agree k s s' ∧
    called (negb check || meta_bit side_metadata_base_address (lmem s) (lregs s (vnum v))) f args s s'.
Proof.
  intros Hk Hv Ho Hs. destruct (barrier_end_spec check v slow l n s Hv Ho) as (n' & c & s1 & E & N & C & A & M & T).
  assert (agree k s s1) as Ak by (intros x Hx; apply A; lia).
  destruct (Hs s1 A) as (A' & T' & M'). eexists n', c, _. do 3 (split; [done|]). unfold called.
  destruct (negb check || _); [split; [by apply (agree_trans k k s s1)|]|by split].
  by rewrite T', M', T, M.
Qed.

Lemma holds_later o s r n1 s1 n2 s2 :
  holds_in o s r n1 s1 → agree n1 s1 s2 → (n1 ≤ n2)%nat →
  is_register r = true ∧ below n2 r ∧ opr_value s2 r = opr_value s o.
Proof.
  intros (_ & R & B & V) Ha Hn. split_and!; [done|by eapply below_mono|].
  by rewrite (agree_value n1 s1).
Qed.

(** Two steps of [quiet]. *)
Lemma quiet_trans s1 s2 s3 : quiet s1 s2 → quiet s2 s3 → quiet s1 s3.
Proof. intros [M1 T1] [M2 T2]. split; congruence. Qed.

Lemma called_quiet b f args s1 s2 s3 : quiet s1 s2 → called b f args s2 s3 → called b f args s1 s3.
Proof. intros [M T]. unfold called. by rewrite M, T. Qed.

(** The post-barrier of the object barrier. *)
Lemma object_post_spec access src slot new_val n s :
  IN_HEAP (decorators access) = true →
  below n src → below n slot → below n new_val → object (opr_value s src) →
  emits (c1_object_write_post mmtk_enable_barrier_fastpath side_metadata_base_address access src slot new_val) n s
    (λ _ _ s', called (slow_path (lmem s) (opr_value s src)) post_target
                 [opr_value s src; opr_value s slot; opr_value s new_val] s s').
Proof.
  intros Hd B1 B2 B3 Ho. unfold c1_object_write_post. rewrite Hd. cbn [negb].
  apply emits_bind. eapply emits_weaken; [by apply in_register_spec|]. intros r1 n1 s1 N1 A1 H1.
  apply emits_bind. eapply emits_weaken; [apply in_register_spec; by eapply below_mono|]. intros r2 n2 s2 N2 A2 H2.
  apply emits_bind. eapply emits_weaken; [apply in_register_spec; eapply below_mono; [|done]; lia|].
  intros r3 n3 s3 N3 A3 H3.
  assert (agree n s s2) as A02 by (by apply (agree_trans n n1 s s1 s2)).
  assert (agree n1 s1 s3) as A13 by (by apply (agree_trans n1 n2 s1 s2 s3)).
  assert (quiet s s3) as Hq.
  { apply (quiet_trans s s2); [apply (quiet_trans s s1); [apply H1|apply H2]|apply H3]. }
  destruct (holds_later _ _ _ _ _ n3 s3 H1) as (R1 & L1 & V1); [done|lia|].
  destruct (holds_later _ _ _ _ _ n3 s3 H2) as (R2 & L2 & V2); [done|done|].
  destruct H3 as (_ & _ & L3 & V3).
  rewrite (agree_value n s s1) in V2 by done. rewrite (agree_value n s s2) in V3 by done.
  destruct r1 as [v1| |]; try done. cbn in V1, L1.
  apply emits_bind. exists n3, (S n3), [], s3. split_and!; [done|apply computes_nil|lia|done|].
  destruct (barrier_end_called mmtk_enable_barrier_fastpath v1 (MMTkC1PostBarrierStub (Register v1) r2 r3)
    post_target [opr_value s src; opr_value s slot; opr_value s new_val] n3 (S n3) (S n3) s3)
    as (n' & c & s4 & E & C & N & A & Hc); [done|lia|by rewrite V1| |].
  - intros s4 A4. split; [done|]. cbn [run_stub leaf trace lmem].
    assert (agree n3 s3 s4) as A4' by (intros x Hx; apply A4; lia).
    rewrite !(agree_value n3 s3 s4) by done. cbn [opr_value]. by rewrite V1, V2, V3.
  - exists tt, n', c, s4. do 4 (split; [done|]). rewrite V1 in Hc. destruct (Hq) as [M _]. rewrite M in Hc.
    by apply (called_quiet _ _ _ s s3).
Qed.

(** The pre-barrier of the SATB barrier.  While the slot's offset is still to be
    patched, there is no check: every write takes the slow path. *)
Lemma satb_pre_spec access src slot new_val n s :
  let needs_patching := C1_NEEDS_PATCHING (decorators access) in
  IN_HEAP (decorators access) = true → is_constant slot = false → lwords n s →
  below n src → below n slot → below n new_val → object (opr_value s src) →
  emits (c1_satb_write_pre mmtk_enable_barrier_fastpath side_metadata_base_address access src slot new_val) n s
    (λ _ _ s', called (needs_patching || slow_path (lmem s) (opr_value s src)) pre_target
                 [opr_value s src; opr_value s slot; opr_value s new_val] s s').
Proof.
  intros np Hd Hslot Hw B1 B2 B3 Ho. unfold c1_satb_write_pre. rewrite Hd. cbn [negb]. fold np.
  apply emits_bind. eapply emits_weaken; [by apply in_register_spec|]. intros r1 n1 s1 N1 A1 H1.
  assert (lwords n s1) as Hw1 by (intros r Hr; rewrite A1 by done; by apply Hw).
  apply emits_bind. eapply emits_weaken; [by apply (satb_slot_spec np slot n)|]. intros r2 n2 s2 N2 A2 (Q2 & L2 & V2 & R2).
  apply emits_bind. eapply emits_weaken; [apply in_register_spec; eapply below_mono; [|done]; lia|].
  intros r3 n3 s3 N3 A3 H3.
  assert (agree n s s2) as A02 by (by apply (agree_trans n n1 s s1 s2)).
  assert (agree n1 s1 s3) as A13 by (by apply (agree_trans n1 n2 s1 s2 s3)).
  assert (quiet s s3) as Hq.
  { apply (quiet_trans s s2); [apply (quiet_trans s s1); [apply H1|apply Q2]|apply H3]. }
  destruct (holds_later _ _ _ _ _ n3 s3 H1) as (R1 & L1 & V1); [done|lia|].
  destruct H3 as (_ & _ & L3 & V3).
  rewrite (agree_value n s s1) in V2 by done. rewrite (agree_value n s s2) in V3 by done.
  rewrite <-(agree_value n2 s2 s3) in V2 by done. apply (below_mono n2 n3) in L2; [|done].
  destruct r1 as [v1| |]; try done. cbn in V1, L1.
  apply emits_bind. exists n3, (S n3), [], s3. split_and!; [done|apply computes_nil|lia|done|].
  set (scratch := if np then Some (V T_OBJECT (S n3)) else None).
  set (m := if np then S (S n3) else S n3).
  assert (S n3 ≤ m)%nat as Hm by (subst m; destruct np; lia).
  destruct (barrier_end_called (mmtk_enable_barrier_fastpath && negb np) v1
    (MMTkC1PreBarrierStub (Register v1) r2 r3 scratch)
    pre_target [opr_value s src; opr_value s slot; opr_value s new_val] n3 (S n3) m s3)
    as (n' & c & s4 & E & C & N & A & Hc); [lia|lia|by rewrite V1| |].
  - intros s4 A4. assert (agree n3 s3 s4) as A4' by (intros x Hx; apply A4; lia).
    assert (trace (run_stub (MMTkC1PreBarrierStub (Register v1) r2 r3 scratch) s4) =
      trace s4 ++ [Leaf pre_target [opr_value s4 (Register v1); opr_value s4 r2; opr_value s4 r3]] ∧
      lmem (run_stub (MMTkC1PreBarrierStub (Register v1) r2 r3 scratch) s4) =
      callee_memory pre_target [opr_value s4 (Register v1); opr_value s4 r2; opr_value s4 r3] (lmem s4)) as [-> ->]
      by (subst scratch; by destruct np).
    rewrite !(agree_value n3 s3 s4) by done. cbn [opr_value]. rewrite V1, V2, V3. split; [|done].
    subst scratch. destruct np; [|done]. intros x Hx. cbn [run_stub leaf lregs]. by apply lupd_ne, Nat.lt_neq.
  - exists tt, n', c, s4. split; [|split; [done|split; [lia|split; [done|]]]].
    + rewrite <-E. subst scratch m. by destruct mmtk_enable_barrier_fastpath, np.
    + rewrite V1 in Hc. destruct (Hq) as [M _]. rewrite M in Hc.
      apply (called_quiet _ _ _ s s3); [done|]. unfold slow_path.
      by destruct mmtk_enable_barrier_fastpath, np.
Qed.

(** ** Accesses *)

Abbreviation operands_below n access w :=
  (below n (base_opr access) ∧ below n (resolved_addr access) ∧ Forall (below n) (c1_operands access w)).

(** The access itself: one event, and HotSpot's effect on memory. *)
Definition accessed (access : LIRAccess) (w : c1_write) (s s' : lstate) : Prop :=
  let l := opr_value s <$> c1_operands access w in
  trace s' = trace s ++ [Accessed (c1_kind w) l] ∧ lmem s' = raw_memory (c1_kind w) l (lmem s).

Lemma emits_raw {B} access w (f : unit → gen B) n s (Q : B → nat → lstate → Prop) :
  (∀ s1, accessed access w s s1 → agree n s s1 → emits (f tt) n s1 Q) →
  emits (emit (lir_raw (c1_kind w) (c1_operands access w) None) ≫= f) n s Q.
Proof. intros HQ. apply emits_bind. eapply emits_emit; [reflexivity|done|]. by apply HQ. Qed.

Lemma emits_raw_result {B} t access w (f : vreg → gen B) n s (Q : B → nat → lstate → Prop) :
  (∀ s1, accessed access w s s1 → agree n s s1 → emits (f (V t n)) (S n) s1 Q) →
  emits (result ← new_register t;
         emit (lir_raw (c1_kind w) (c1_operands access w) (Some result));; f result) n s Q.
Proof.
  intros HQ. set (i := lir_raw (c1_kind w) (c1_operands access w) (Some (V t n))).
  assert (∃ s1, run1 i s = Some s1) as [s1 E1] by (by eexists).
  assert (agree n s s1) as A1.
  { injection E1 as <-. apply (agree_trans n n s (LState (lregs s) (lmem s) None []));
      [done|done|]. intros x Hx. rewrite lupd_ne; [done|]. cbn. lia. }
  destruct (HQ s1) as (b & n' & c & s' & E & C & N & A & HQ'); [by injection E1 as <-|done|].
  exists b, n', (i :: c), s'. split_and!; [|by eapply (computes_app _ _ [i]); [apply computes_one|]|lia| |done].
  - subst i. unfold mbind, gen_bind, new_register, emit. by rewrite E.
  - apply (agree_trans n (S n) s s1 s'); [lia|done|done].
Qed.

Lemma emits_map {A B} (g : gen A) (f : A → B) n s (Q : nat → lstate → Prop) :
  emits g n s (λ _ n' s', Q n' s') → emits (a ← g; mret (f a)) n s (λ _ n' s', Q n' s').
Proof. intros Hg. apply emits_bind. eapply emits_weaken; [done|]. intros. by apply emits_ret. Qed.

(** A write is its pre-barrier, the access and its post-barrier. *)
Lemma write_spec pre post access w n s (P Q : lstate → lstate → Prop) :
  is_oop access = true →
  emits (pre access (base_opr access) (resolved_addr access) (c1_new_value w)) n s (λ _ _ s1, P s s1) →
  (∀ n1 s1, (n ≤ n1)%nat → agree n s s1 →
     emits (post access (base_opr access) (resolved_addr access) (c1_new_value w)) n1 s1 (λ _ _ s2, Q s1 s2)) →
  emits (write_at_resolved pre post access w) n s
    (λ _ _ s', ∃ s1 s2, agree n s s1 ∧ P s s1 ∧ accessed access w s1 s2 ∧ agree n s1 s2 ∧ Q s2 s').
Proof.
  intros Ho Hpre Hpost. unfold write_at_resolved.
  destruct w; apply emits_map; [unfold store_at_resolved|unfold atomic_cmpxchg_at_resolved|unfold atomic_xchg_at_resolved];
    unfold write_pre, write_post; rewrite Ho; apply emits_bind; (eapply emits_weaken; [exact Hpre|]);
    intros [] n1 s1 N1 A1 HP; [apply (emits_raw access (C1Store value))
      |apply (emits_raw_result T_INT access (C1CmpXchg cmp_value new_value))
      |apply (emits_raw_result T_OBJECT access (C1Xchg value))];
    intros s2 Ha A2; try apply (emits_map _ (λ _, V _ n1));
    (eapply emits_weaken; [apply Hpost; [lia|by apply (agree_trans n n1 s s1 s2)]|]);
    intros [] n3 s3 N3 A3 HQ; exists s1, s2; (split_and!; [done|done|exact Ha|intros r Hr; apply A2; lia|done]).
Qed.

(** From emission to a run. *)
Lemma emits_run {A} (g : gen A) n s (Q : A → nat → lstate → Prop) :
  emits g n s Q →
  ∃ a n' code s', g n = Ok (a, n', code) ∧ run code None s = Finished s' ∧ agree n s s' ∧ Q a n' s'.
Proof.
  intros (a & n' & c & s' & E & C & _ & A' & HQ). exists a, n', c, s'. split_and!; try done. by apply computes_run.
Qed.

End correctness.

(** ** The accesses of the two barriers *)

Section accesses.
Context `{Callee} `{RawLIR}.
Variable mmtk_enable_barrier_fastpath : bool.
Variable side_metadata_base_address : Z.
Variable other_target : callee.
Variables (access : LIRAccess) (w : c1_write) (n : nat) (s : lstate).

Abbreviation src := (opr_value s (base_opr access)).
Abbreviation barrier_args := [src; opr_value s (resolved_addr access); opr_value s (c1_new_value w)].
Abbreviation operands := (opr_value s <$> c1_operands access w).
Abbreviation slow := (slow_path mmtk_enable_barrier_fastpath side_metadata_base_address).

(** A reference access to a field of the heap, its operands in use. *)
Record access_ok : Prop := {
  access_oop : is_oop access = true;
  access_heap : IN_HEAP (decorators access) = true;
  access_base : below n (base_opr access);
  access_addr : below n (resolved_addr access);
  access_operands : Forall (below n) (c1_operands access w);
  access_object : object src
}.

Lemma access_new_value : access_ok → below n (c1_new_value w).
Proof.
  intros [_ _ _ _ Hf _]. by destruct w; repeat (apply Forall_cons_1 in Hf as [? Hf]).
Qed.

Lemma operands_agree s' : access_ok → agree n s s' → opr_value s' <$> c1_operands access w = operands.
Proof.
  intros [_ _ _ _ Hf _] Ha. induction Hf as [|o l Ho _ IH]; [done|].
  cbn. by rewrite (agree_value n s s' o), IH.
Qed.

(** What the emitted write does, from its specification. *)
Definition c1_effect (pre post : callee) (called_before called_after : lstate → bool) (s' : lstate) : Prop :=
  let m0 := if called_before s then callee_memory pre barrier_args (lmem s) else lmem s in
  let m1 := raw_memory (c1_kind w) operands m0 in
  let after := called_after (LState (lregs s) m1 None []) in
  trace s' = trace s ++ (if called_before s then [Leaf pre barrier_args] else []) ++
    [Accessed (c1_kind w) operands] ++ (if after then [Leaf post barrier_args] else []) ∧
  lmem s' = (if after then callee_memory post barrier_args m1 else m1).

Lemma object_c1_emits :
  0 ≤ side_metadata_base_address ∧ side_metadata_base_address + 2 ^ 57 < 2 ^ 64 → access_ok →
  let f := object_post_target mmtk_enable_barrier_fastpath in
  emits other_target f (c1_object_write mmtk_enable_barrier_fastpath side_metadata_base_address access w) n s
    (λ _ _ s', c1_effect other_target f (λ _, false) (λ t, slow (lmem t) src) s').
Proof.
  intros Hmap Hok f. pose proof (access_new_value Hok) as Hv.
  assert (∀ n1 s1, (n ≤ n1)%nat → agree n s s1 →
    emits other_target f (c1_object_write_post mmtk_enable_barrier_fastpath side_metadata_base_address
        access (base_opr access) (resolved_addr access) (c1_new_value w)) n1 s1
      (λ _ _ s2, called (slow (lmem s1) src) f barrier_args s1 s2)) as Hpost.
  { intros n1 s1 N1 A1. eapply emits_weaken.
    - apply object_post_spec; [done|apply Hok|..];
        try (eapply below_mono; [exact N1|]; apply Hok || exact Hv).
      rewrite (agree_value n s s1) by (done || apply Hok). apply Hok.
    - intros [] n' s' _ _. by rewrite !(agree_value n s s1) by (done || apply Hok). }
  eapply emits_weaken; [refine (write_spec other_target f no_barrier _ access w n s (λ s s1, s1 = s) _
       (access_oop Hok) (emits_ret _ _ tt n s (λ _ _ s1, s1 = s) eq_refl) Hpost)|].
  intros r n' s' _ _ (s1 & s2 & A1 & -> & [T2 M2] & A2 & HQ). unfold c1_effect. cbn [lmem app].
  unfold called in HQ. rewrite T2, M2 in HQ.
  destruct (slow _ src); destruct HQ as [ET EM]; rewrite ?ET, ?EM, <-?app_assoc; done.
Qed.

Lemma satb_c1_emits :
  0 ≤ side_metadata_base_address ∧ side_metadata_base_address + 2 ^ 57 < 2 ^ 64 → access_ok →
  is_constant (resolved_addr access) = false → lwords n s →
  let f := satb_pre_target mmtk_enable_barrier_fastpath in
  emits f other_target (c1_satb_write mmtk_enable_barrier_fastpath side_metadata_base_address access w) n s
    (λ _ _ s', c1_effect f other_target
       (λ t, C1_NEEDS_PATCHING (decorators access) || slow (lmem t) src) (λ _, false) s').
Proof.
  intros Hmap Hok Hc Hw f. pose proof (access_new_value Hok) as Hv.
  set (calls := C1_NEEDS_PATCHING (decorators access) || slow (lmem s) src).
  assert (emits f other_target (c1_satb_write_pre mmtk_enable_barrier_fastpath side_metadata_base_address
        access (base_opr access) (resolved_addr access) (c1_new_value w)) n s
      (λ _ _ s1, called calls f barrier_args s s1)) as Hpre
    by (apply satb_pre_spec; done || apply Hok).
  eapply emits_weaken; [refine (write_spec f other_target _ no_barrier access w n s _ (λ s2 s3, s3 = s2)
       (access_oop Hok) Hpre (λ n1 s1 _ _, emits_ret _ _ tt n1 s1 (λ _ _ s3, s3 = s1) eq_refl))|].
  intros r n' s' _ _ (s1 & s2 & A1 & HP & [T2 M2] & A2 & ->). unfold c1_effect. fold calls.
  rewrite operands_agree in T2, M2 by done. rewrite T2, M2. unfold called in HP.
  destruct calls; destruct HP as [ET EM]; rewrite ?ET, ?EM, <-?app_assoc; done.
Qed.

(** C25. A reference write compiled by C1 under the object barrier runs to its end,
    performs the access once and then calls mmtk-core, with the object, the slot
    and the new value, exactly if the object's unlog bit, read after the access,
    is set; without the fast path, always.  No virtual register in use
    changes. *)
Theorem object_c1_write :
  0 ≤ side_metadata_base_address ∧ side_metadata_base_address + 2 ^ 57 < 2 ^ 64 → access_ok →
  let f := object_post_target mmtk_enable_barrier_fastpath in
  let m := raw_memory (c1_kind w) operands (lmem s) in
  ∃ r n' code s',
    c1_object_write mmtk_enable_barrier_fastpath side_metadata_base_address access w n = Ok (r, n', code) ∧
    run other_target f code None s = Finished s' ∧ agree n s s' ∧
    trace s' = trace s ++ [Accessed (c1_kind w) operands] ++ (if slow m src then [Leaf f barrier_args] else []) ∧
    lmem s' = (if slow m src then callee_memory f barrier_args m else m).
Proof.
  intros Hmap Hok f m. destruct (emits_run _ _ _ _ _ _ (object_c1_emits Hmap Hok)) as (r & n' & code & s' & E & R & A & HQ).
  exists r, n', code, s'. split; [exact E|]. split; [exact R|]. split; [exact A|]. exact HQ.
Qed.

(** C27. A reference write compiled by C1 under the SATB barrier runs to its end
    and calls mmtk-core before the access, so that it still finds the old value
    in the slot: with the object, the slot and the new value, exactly if the
    object's unlog bit is set, or without looking at it while the slot's offset
    is unresolved.  Then it performs the access once. *)
Theorem satb_c1_write :
  0 ≤ side_metadata_base_address ∧ side_metadata_base_address + 2 ^ 57 < 2 ^ 64 → access_ok →
  is_constant (resolved_addr access) = false → lwords n s →
  let f := satb_pre_target mmtk_enable_barrier_fastpath in
  let calls := C1_NEEDS_PATCHING (decorators access) || slow (lmem s) src in
  ∃ r n' code s',
    c1_satb_write mmtk_enable_barrier_fastpath side_metadata_base_address access w n = Ok (r, n', code) ∧
    run f other_target code None s = Finished s' ∧ agree n s s' ∧
    trace s' = trace s ++ (if calls then [Leaf f barrier_args] else []) ++ [Accessed (c1_kind w) operands] ∧
    lmem s' = raw_memory (c1_kind w) operands
                (if calls then callee_memory f barrier_args (lmem s) else lmem s).
Proof.
  intros Hmap Hok Hc Hw f calls.
  destruct (emits_run _ _ _ _ _ _ (satb_c1_emits Hmap Hok Hc Hw)) as (r & n' & code & s' & E & R & A & HQ).
  exists r, n', code, s'. split; [exact E|]. split; [exact R|]. split; [exact A|].
  unfold c1_effect in HQ. by rewrite app_nil_r in HQ.
Qed.

End accesses.

(** ** Loads *)

Section loads.
Context `{Callee} `{RawLIR}.
Variable concurrent_marking_active_address : Z.
Variables pre_target post_target : callee.
Variables (access : LIRAccess) (result : vreg) (n : nat) (s : lstate).

Abbreviation value := (raw_value RawLoad [opr_value s (resolved_addr access)] (lmem s)).
Abbreviation loaded := (raw_memory RawLoad [opr_value s (resolved_addr access)] (lmem s)).

(** The loaded reference is to be recorded: the access may keep a referent alive,
    concurrent marking is active and the reference is not null. *)
Definition records : bool :=
  let d := decorators access in
  is_oop access && (ON_WEAK_OOP_REF d || ON_PHANTOM_OOP_REF d || ON_UNKNOWN_OOP_REF d) &&
  (negb (ON_UNKNOWN_OOP_REF d) || reads_referent) &&
  bool_decide (u8 (loaded concurrent_marking_active_address) = 1) && bool_decide (value ≠ 0).

(** The flag as the load of a signed byte shows it. *)
Lemma flag_test b : bool_decide (u32 (u32 (sign 8 b)) = 1) = bool_decide (u8 b = 1).
Proof.
  apply bool_decide_ext. rewrite wrap_wrap. pose proof (wrap_bound 8 b ltac:(done)) as Hb.
  change (2 ^ 8) with 256 in Hb. unfold sign. change (2 ^ (8 - 1)) with 128. change (2 ^ 8) with 256.
  case_decide as Hd; [|by rewrite wrap_small by (change (2 ^ 32) with 4294967296; lia)].
  split; [|lia]. intros E. exfalso. unfold wrap at 1 in E.
  rewrite <-(Z_mod_plus_full _ 1) in E. change (2 ^ 32) with 4294967296 in E.
  rewrite Z.mod_small in E by lia. lia.
Qed.

(** The operations that test the flag, with registers from [k] on. *)
Definition flag_code (k : nat) (slow : CodeStub) (l : nat) : list lir :=
  [lir_move (Constant concurrent_marking_active_address) (V T_LONG k);
   lir_load_byte (LAddr (V T_LONG k) None 0 0) (V T_INT (S k));
   lir_cmp (V T_INT (S k)) 1; lir_branch_equal slow l; lir_branch_destination l].

Lemma flag_code_exec k l s0 :
  (vnum result < k)%nat → 0 ≤ concurrent_marking_active_address < 2 ^ 64 →
  let v := lregs s0 (vnum result) in
  let b := bool_decide (u8 (lmem s0 concurrent_marking_active_address) = 1) && bool_decide (v ≠ 0) in
  ∃ s1, computes pre_target post_target
      (flag_code k (MMTkC1ReferenceLoadBarrierStub (Register result)) l) s0 s1 ∧
    agree k s0 s1 ∧
    trace s1 = trace s0 ++ (if b then [Leaf load_reference_call [v]] else []) ∧
    lmem s1 = (if b then callee_memory load_reference_call [v] (lmem s0) else lmem s0).
Proof.
  intros Hk Ha v b. set (s2 := set_lcmp (bool_decide (u8 (lmem s0 concurrent_marking_active_address) = 1))
    (lupd (V T_INT (S k)) (u32 (sign 8 (lmem s0 concurrent_marking_active_address)))
      (lupd (V T_LONG k) concurrent_marking_active_address s0))).
  assert (computes pre_target post_target (take 3 (flag_code k (MMTkC1ReferenceLoadBarrierStub (Register result)) l)) s0 s2) as C1.
  { intros rest. cbn [flag_code take app run run1 opr_value]. rewrite (wrap_small 64) by done.
    unfold address. cbn [lbase lindex ldisp]. rewrite lupd_eq, !Z.add_0_r, (wrap_small 64) by done.
    unfold operand, width. cbn [vtype]. rewrite lupd_eq. cbn [lupd lmem]. by rewrite flag_test. }
  assert (agree k s0 s2) as A2 by (intros r Hr; subst s2; cbn [set_lcmp lregs]; by rewrite !lupd_ne by (cbn; lia)).
  assert (lregs s2 (vnum result) = v) as Ev by (by apply A2).
  exists (if bool_decide (u8 (lmem s0 concurrent_marking_active_address) = 1)
          then run_stub pre_target post_target (MMTkC1ReferenceLoadBarrierStub (Register result)) s2 else s2).
  split; [eapply (computes_app _ _ _ _ _ _ _ C1), computes_branch; done|].
  subst b. case_bool_decide; cbn [andb]; [|rewrite app_nil_r; by split_and!].
  cbn [run_stub opr_value]. rewrite Ev. case_decide as Ev0.
  - rewrite bool_decide_eq_false_2 by (by intros []). rewrite app_nil_r. by split_and!.
  - rewrite bool_decide_eq_true_2 by done. by split_and!.
Qed.

(** A load compiled by C1 under the SATB barrier runs to its end and records
    the loaded reference with mmtk-core exactly when it has to; the result
    register holds the loaded reference and no other register in use changes. *)
Theorem satb_c1_load :
  (vnum result < n)%nat → 0 ≤ concurrent_marking_active_address < 2 ^ 64 →
  ∃ n' code s',
    c1_satb_load_at_resolved concurrent_marking_active_address access result n = Ok (tt, n', code) ∧
    run pre_target post_target code None s = Finished s' ∧
    lregs s' (vnum result) = value ∧
    (∀ r, (r < n)%nat → r ≠ vnum result → lregs s' r = lregs s r) ∧
    trace s' = trace s ++ [Accessed RawLoad [opr_value s (resolved_addr access)]] ++
               (if records then [Leaf load_reference_call [value]] else []) ∧
    lmem s' = (if records then callee_memory load_reference_call [value] loaded else loaded).
Proof.
  intros Hres Ha. unfold c1_satb_load_at_resolved, records.
  destruct (is_oop access && _) eqn:Ed; cbn [andb].
  2: { eexists _, _, _. split; [reflexivity|]. split; [reflexivity|]. cbn. rewrite decide_True by done.
       split_and!; try done. intros r _ Hr. by rewrite decide_False. }
  set (s0 := lupd result value (LState (lregs s) loaded None
    (trace s ++ [Accessed RawLoad [opr_value s (resolved_addr access)]]))).
  assert (lregs s0 (vnum result) = value) as Ev by (subst s0; apply lupd_eq).
  assert (∀ r, r ≠ vnum result → lregs s0 r = lregs s r) as Er by (intros r Hr; subst s0; by rewrite lupd_ne).
  set (slow := MMTkC1ReferenceLoadBarrierStub (Register result)).
  assert (∀ s1, agree n s0 s1 → lregs s1 (vnum result) = value ∧
    ∀ r, (r < n)%nat → r ≠ vnum result → lregs s1 r = lregs s r) as Hregs.
  { intros s1 A. split; [by rewrite A|]. intros r Hr Hne. rewrite A by done. by apply Er. }
  destruct (ON_UNKNOWN_OOP_REF (decorators access)); cbn [negb orb].
  - destruct (flag_code_exec (S (S n)) (S n) s0) as (s1 & C & A & T & M); [lia|done|].
    destruct (Hregs (if reads_referent then s1 else s0)) as [G1 G2].
    { intros r Hr. destruct reads_referent; [apply A; lia|done]. }
    eexists _, (lir_raw RawLoad [resolved_addr access] (Some result) :: lir_referent_check n ::
      flag_code (S (S n)) slow (S n) ++ [lir_branch_destination n]), _.
    split; [reflexivity|]. split; [|split; [exact G1|split; [exact G2|]]].
    + cbn [run run1 fmap list_fmap]. fold s0. destruct reads_referent.
      * etransitivity; [apply (C [lir_branch_destination n])|reflexivity].
      * cbn. rewrite decide_False by lia. by rewrite decide_True.
    + destruct reads_referent; cbn [andb]; [|by rewrite app_nil_r].
      rewrite T, M, Ev. subst s0. cbn [lupd trace lmem]. by rewrite <-app_assoc.
  - destruct (flag_code_exec (S n) n s0) as (s1 & C & A & T & M); [lia|done|].
    destruct (Hregs s1) as [G1 G2]; [intros r Hr; apply A; lia|].
    eexists _, (lir_raw RawLoad [resolved_addr access] (Some result) :: flag_code (S n) slow n ++ []), _.
    split; [reflexivity|]. split; [|split; [exact G1|split; [exact G2|]]].
    + cbn [run run1 fmap list_fmap]. fold s0. etransitivity; [apply (C [])|reflexivity].
    + rewrite T, M, Ev. subst s0. cbn [lupd trace lmem]. by rewrite <-app_assoc.
Qed.


End loads.

(** ** What the register allocator is told *)

(** The stubs tell the register allocator the truth: what a stub does is
    determined by the operands it declares as inputs, and it overwrites no
    register but those it declares as temporaries. *)
Theorem visit_sound `{Callee} pre_target post_target c s s' :
  lmem s' = lmem s → trace s' = trace s → (∀ o, o ∈ (visit c).1 → opr_value s' o = opr_value s o) →
  trace (run_stub pre_target post_target c s') = trace (run_stub pre_target post_target c s) ∧
  lmem (run_stub pre_target post_target c s') = lmem (run_stub pre_target post_target c s) ∧
  ∀ r, r ∉ vnum <$> (visit c).2 → lregs (run_stub pre_target post_target c s) r = lregs s r.
Proof.
  intros M T V. destruct c as [src slot new_val scratch|src slot new_val|val]; cbn [visit fst snd run_stub] in *.
  - assert (opr_value s' src = opr_value s src ∧ opr_value s' slot = opr_value s slot ∧
            opr_value s' new_val = opr_value s new_val) as (-> & -> & ->)
      by (split_and!; apply V; rewrite !elem_of_cons; tauto).
    destruct scratch as [v|]; cbn; rewrite ?M, ?T; split_and!; try done.
    intros r Hr. rewrite decide_False; [done|]. intros ->. apply Hr. by left.
  - assert (opr_value s' src = opr_value s src ∧ opr_value s' slot = opr_value s slot ∧
            opr_value s' new_val = opr_value s new_val) as (-> & -> & ->)
      by (split_and!; apply V; rewrite !elem_of_cons; tauto).
    cbn. by rewrite M, T.
  - assert (opr_value s' val = opr_value s val) as -> by (apply V; by left).
    case_decide; cbn; by rewrite ?M, ?T.
Qed.

(** ** Concrete accesses *)

Section examples.
#[local] Instance idle_callee : Callee :=
  {| callee_memory _ _ mm := mm; callee_scratch _ _ _ _ := 0 |}.
#[local] Instance plain_raw : RawLIR := {|
  raw_value a l m := match l with addr :: _ => read 8 m addr | [] => 0 end;
  raw_memory a l m := match a, l with
                      | RawLoad, _ => m
                      | _, [addr; v] => write 8 m addr v
                      | _, _ => m
                      end;
  reads_referent := true |}.

Definition c1_heap_access : DecoratorSet :=
  Decorators false true false false false true false false false false false false false false false.

(** The object at 4096 is in register 0, the new value 8192 in register 1; the
    field at offset 16.  All metadata bits are set. *)
Definition c1_example_state : lstate :=
  LState (λ r, match r with O => 4096 | _ => 8192 end) (λ a, if decide (2 ^ 40 ≤ a) then 255 else 1) None [].
Definition c1_example_access : LIRAccess := {|
  decorators := c1_heap_access; is_oop := true; base_opr := Register (V T_OBJECT 0);
  resolved_addr := AddressOpr (LAddr (V T_OBJECT 0) None 0 16) |}.
Definition c1_example_store : c1_write := C1Store (Register (V T_OBJECT 1)).

Lemma c1_example_mapped : 0 ≤ 2 ^ 40 ∧ 2 ^ 40 + 2 ^ 57 < 2 ^ 64.
Proof. split; [discriminate|reflexivity]. Qed.

Lemma c1_example_ok : access_ok c1_example_access c1_example_store 2%nat c1_example_state.
Proof.
  split; try done; try (cbn; lia).
  - split; [cbn; lia|done].
  - repeat constructor; try done; cbn; lia.
Qed.

Lemma visit_sound_witness :
  let c := MMTkC1ReferenceLoadBarrierStub (Register (V T_OBJECT 1)) in
  trace (run_stub write_pre_call write_post_call c (lupd (V T_OBJECT 0) 7 c1_example_state)) =
  [Leaf load_reference_call [8192]].
Proof.
  intros c. destruct (visit_sound write_pre_call write_post_call c c1_example_state
    (lupd (V T_OBJECT 0) 7 c1_example_state)) as [-> _]; [done|done| |reflexivity].
  intros o Ho. apply list_elem_of_singleton in Ho as ->. reflexivity.
Defined.

Lemma object_c1_write_witness :
  ∃ r n' code s',
    c1_object_write true (2 ^ 40) c1_example_access c1_example_store 2%nat = Ok (r, n', code) ∧
    run write_pre_call write_slow_call code None c1_example_state = Finished s' ∧
    trace s' = [Accessed RawStore [4112; 8192]; Leaf write_slow_call [4096; 4112; 8192]].
Proof.
  destruct (object_c1_write true (2 ^ 40) write_pre_call c1_example_access c1_example_store 2%nat c1_example_state
    c1_example_mapped c1_example_ok) as (r & n' & code & s' & E & R & _ & T & _).
  exists r, n', code, s'. split; [exact E|]. split; [exact R|]. rewrite T. vm_compute. reflexivity.
Defined.

Lemma satb_c1_write_witness :
  ∃ r n' code s',
    c1_satb_write true (2 ^ 40) c1_example_access c1_example_store 2%nat = Ok (r, n', code) ∧
    run write_slow_call write_post_call code None c1_example_state = Finished s' ∧
    trace s' = [Leaf write_slow_call [4096; 4112; 8192]; Accessed RawStore [4112; 8192]].
Proof.
  destruct (satb_c1_write true (2 ^ 40) write_post_call c1_example_access c1_example_store 2%nat c1_example_state
    c1_example_mapped c1_example_ok eq_refl) as (r & n' & code & s' & E & R & _ & T & _).
  - intros r _. destruct r; split; try discriminate; reflexivity.
  - exists r, n', code, s'. split; [exact E|]. split; [exact R|]. rewrite T. vm_compute. reflexivity.
Defined.

Lemma satb_c1_load_witness :
  ∃ n' code s',
    c1_satb_load_at_resolved 64 c1_example_access (V T_OBJECT 1) 2%nat = Ok (tt, n', code) ∧
    run write_pre_call write_post_call code None c1_example_state = Finished s' ∧
    trace s' = [Accessed RawLoad [4112]; Leaf load_reference_call [72340172838076673]].
Proof.
  destruct (satb_c1_load 64 write_pre_call write_post_call c1_example_access (V T_OBJECT 1) 2%nat c1_example_state)
    as (n' & code & s' & E & R & _ & _ & T & _).
  - cbn. lia.
  - split; [discriminate|reflexivity].
  - exists n', code, s'. split; [exact E|]. split; [exact R|]. rewrite T. vm_compute. reflexivity.
Defined.

End examples.
