(* ===== verification/C1Stubs.v ===== *)
(** * The slow-path stubs of C1

    The stubs that C1's barriers branch to and the runtime stubs behind them, as
    the assembler emits them ([mmtkBarrierSetC1.cpp], [mmtkObjectBarrier.cpp],
    [mmtkSATBBarrier.cpp], [mmtkBarrierSetAssembler_x86.cpp]).  The parameters
    pass through the frame; how HotSpot lays it out, and how it saves the live
    registers, is the interface [StubFrames]. *)

From stdpp Require Import base numbers list.
From Stdlib Require Import ZArith Lia.
From S2P Require Import Prelude Slots Barrier X86 LIR C1Barriers.

Local Open Scope Z_scope.

(** ** The frame of a runtime stub *)

(** [LIR_Assembler::store_parameter] and [StubAssembler::load_parameter] agree on
    where a parameter is; [save_live_registers_no_oop_map] and
    [restore_live_registers] on the registers. *)
Class StubFrames := {
  area : Type;
  store_param : nat → Z → area → area;
  load_param : nat → area → Z;
  load_store_eq i v a : load_param i (store_param i v a) = v;
  load_store_ne i j v a : i ≠ j → load_param i (store_param j v a) = load_param i a;
  live : Type;
  save_live : regs → live;
  restore_live : live → regs → regs;
  restore_save rs rs' r : rs' rsp = rs rsp → restore_live (save_live rs) rs' r = rs r
}.

(** Instructions and the helpers of [StubAssembler] and [LIR_Assembler]. *)
Inductive stub_op :=
| Asm (i : instr)
| prologue | epilogue
| store_parameter (r : reg) (i : nat) | load_parameter (i : nat) (r : reg)
| save_live_registers | restore_live_registers
| mem2reg (slot : Address) (scratch : reg).

(** The code of a stub: helpers, a call of a runtime stub, and the jumps back to
    its continuation. *)
Inductive stub_instr :=
| Op (o : stub_op)
| Call (blob : list stub_op)
| Jcc (c : condition)
| Jmp.

Record smachine `{StubFrames} := SMachine {
  sm : machine;
  params : area;
  saved : list live
}.

Section code.
Variable mmtk_enable_barrier_fastpath : bool.

(** [MMTkObjectBarrierSetAssembler::generate_c1_post_write_barrier_runtime_stub]. *)
Definition object_post_runtime_stub : list stub_op :=
  [prologue; Asm (push c_rarg0); Asm (push c_rarg1); Asm (push c_rarg2); Asm (push rax);
   load_parameter 0 c_rarg0; load_parameter 1 c_rarg1; load_parameter 2 c_rarg2;
   save_live_registers;
   Asm (call_leaf (object_post_target mmtk_enable_barrier_fastpath) 3);
   restore_live_registers;
   Asm (pop rax); Asm (pop c_rarg2); Asm (pop c_rarg1); Asm (pop c_rarg0); epilogue].

(** [MMTkSATBBarrierSetAssembler::generate_c1_pre_write_barrier_runtime_stub]. *)
Definition satb_pre_runtime_stub : list stub_op :=
  [prologue; Asm (push c_rarg0); Asm (push c_rarg1); Asm (push c_rarg2); Asm (push rax);
   load_parameter 0 c_rarg0; load_parameter 1 c_rarg1; load_parameter 2 c_rarg2;
   save_live_registers;
   Asm (call_leaf (satb_pre_target mmtk_enable_barrier_fastpath) 3);
   restore_live_registers;
   Asm (pop rax); Asm (pop c_rarg2); Asm (pop c_rarg1); Asm (pop c_rarg0); epilogue].

(** [MMTkBarrierSetAssembler::generate_c1_ref_load_barrier_runtime_stub]. *)
Definition ref_load_runtime_stub : list stub_op :=
  [prologue; Asm (push c_rarg0); Asm (push rax); load_parameter 0 c_rarg0;
   save_live_registers; Asm (call_leaf load_reference_call 1); restore_live_registers;
   Asm (pop rax); Asm (pop c_rarg0); epilogue].

(** [generate_c1_post_write_barrier_stub]. *)
Definition post_barrier_stub (src slot new_val : reg) : list stub_instr :=
  [Op (store_parameter src 0); Op (store_parameter slot 1); Op (store_parameter new_val 2);
   Call object_post_runtime_stub; Jmp].

(** [generate_c1_pre_write_barrier_stub]: without [patch_code] the slot is in a
    register, with it in memory, and a scratch register takes its address once
    [mem2reg] has had it patched.  How HotSpot patches code is not modelled: [slot]
    is the address with the offset that the field turns out to have, and [mem2reg] a
    load from it. *)
Definition pre_barrier_stub (src : reg) (slot : reg + Address * reg) (new_val : reg) : list stub_instr :=
  match slot with
  | inr (slot, scratch) =>
      [Op (mem2reg slot scratch); Op (Asm (lea scratch slot)); Op (store_parameter scratch 1)]
  | inl slot => [Op (store_parameter slot 1)]
  end ++
  [Op (store_parameter src 0); Op (store_parameter new_val 2); Call satb_pre_runtime_stub; Jmp].

(** [generate_c1_ref_load_barrier_stub_call]. *)
Definition ref_load_barrier_stub (val : reg) : list stub_instr :=
  [Op (Asm (cmpptr_imm val 0)); Jcc equal; Op (store_parameter val 0); Call ref_load_runtime_stub; Jmp].

(** The stubs, after register allocation. *)
Inductive c1_stub :=
| PreBarrier (src : reg) (slot : reg + Address * reg) (new_val : reg)
| PostBarrier (src slot new_val : reg)
| ReferenceLoad (val : reg).

(** [emit_code] of the three stubs. *)
Definition emit_code (s : c1_stub) : list stub_instr :=
  match s with
  | PreBarrier src slot new_val => pre_barrier_stub src slot new_val
  | PostBarrier src slot new_val => post_barrier_stub src slot new_val
  | ReferenceLoad val => ref_load_barrier_stub val
  end.

(** The code blobs of the runtime stubs.  The constructor leaves the third field
    as it is in memory. *)
Record c1_runtime_stubs := C1RuntimeStubs {
  pre_barrier_c1_runtime_code_blob : option (list stub_op);
  post_barrier_c1_runtime_code_blob : option (list stub_op);
  ref_load_barrier_c1_runtime_code_blob : option (list stub_op)
}.
Definition make_c1_runtime_stubs (ref_load : option (list stub_op)) : c1_runtime_stubs :=
  C1RuntimeStubs None None ref_load.

(** What the assembler of a barrier generates: nothing where it does not override
    [MMTkBarrierSetAssembler]. *)
Definition generate_c1_pre_write_barrier_runtime_stub (b : active_barrier) : list stub_op :=
  match b with SATBBarrier => satb_pre_runtime_stub | _ => [] end.
Definition generate_c1_post_write_barrier_runtime_stub (b : active_barrier) : list stub_op :=
  match b with ObjectBarrier => object_post_runtime_stub | _ => [] end.

(** [MMTkBarrierSetC1::generate_c1_runtime_stubs], with the assembler of [b]. *)
Definition generate_c1_runtime_stubs (b : active_barrier) (stubs : c1_runtime_stubs) : c1_runtime_stubs :=
  let stubs := C1RuntimeStubs (Some (generate_c1_pre_write_barrier_runtime_stub b))
                 (post_barrier_c1_runtime_code_blob stubs) (ref_load_barrier_c1_runtime_code_blob stubs) in
  let stubs := C1RuntimeStubs (pre_barrier_c1_runtime_code_blob stubs)
                 (Some (generate_c1_post_write_barrier_runtime_stub b)) (ref_load_barrier_c1_runtime_code_blob stubs) in
  C1RuntimeStubs (pre_barrier_c1_runtime_code_blob stubs) (post_barrier_c1_runtime_code_blob stubs)
    (Some ref_load_runtime_stub).

(** The blob that the code of a stub calls. *)
Definition called_blobs (l : list stub_instr) : list (list stub_op) :=
  omap (λ i, match i with Call blob => Some blob | _ => None end) l.

(** Each stub that the barrier in use makes calls the blob that was generated for
    it, whatever the fields held before. *)
Lemma stubs_call_generated b ref_load s :
  match s with
  | PreBarrier _ _ _ => b = SATBBarrier
  | PostBarrier _ _ _ => b = ObjectBarrier
  | ReferenceLoad _ => True
  end →
  let stubs := generate_c1_runtime_stubs b (make_c1_runtime_stubs ref_load) in
  Some <$> called_blobs (emit_code s) =
    [match s with
     | PreBarrier _ _ _ => pre_barrier_c1_runtime_code_blob stubs
     | PostBarrier _ _ _ => post_barrier_c1_runtime_code_blob stubs
     | ReferenceLoad _ => ref_load_barrier_c1_runtime_code_blob stubs
     end].
Proof. destruct s as [src [slot|[slot scratch]] v|src slot v|v]; intros Hb; try rewrite Hb; reflexivity. Qed.

End code.

(** ** Execution *)

Section exec.
Context `{Callee} `{StubFrames}.

Definition on_machine (f : option machine) (s : smachine) : option smachine :=
  match f with Some m => Some (SMachine _ m (params s) (saved s)) | None => None end.

Definition exec_op (o : stub_op) (s : smachine) : option smachine :=
  match o with
  | Asm i => on_machine (exec1 i (sm s)) s
  | prologue => on_machine (straight [push rbp; movptr rbp rsp] (sm s)) s
  | epilogue => on_machine (straight [movptr rsp rbp; pop rbp] (sm s)) s
  | store_parameter r i => Some (SMachine _ (sm s) (store_param i (rf (sm s) r) (params s)) (saved s))
  | load_parameter i r => Some (SMachine _ (set_reg r (load_param i (params s)) (sm s)) (params s) (saved s))
  | save_live_registers => Some (SMachine _ (sm s) (params s) (save_live (rf (sm s)) :: saved s))
  | restore_live_registers =>
      match saved s with
      | l :: saved =>
          Some (SMachine _ (Machine (restore_live l (rf (sm s))) (memory (sm s)) (flags (sm s)) (stack (sm s)) (calls (sm s)))
                  (params s) saved)
      | [] => None
      end
  | mem2reg slot scratch => on_machine (exec1 (movptr_load scratch slot) (sm s)) s
  end.

Fixpoint exec_ops (l : list stub_op) (s : smachine) : option smachine :=
  match l with
  | [] => Some s
  | o :: l => match exec_op o s with Some s => exec_ops l s | None => None end
  end.

(** Up to the continuation. *)
Fixpoint exec_stub (l : list stub_instr) (s : smachine) : option smachine :=
  match l with
  | [] => None
  | Op o :: l => match exec_op o s with Some s => exec_stub l s | None => None end
  | Call blob :: l => match exec_ops blob s with Some s => exec_stub l s | None => None end
  | Jcc c :: l =>
      match flags (sm s) with
      | Some f => if holds c f then Some s else exec_stub l s
      | None => None
      end
  | Jmp :: _ => Some s
  end.

(** ** The runtime stubs *)

(** A runtime stub calls [f] with its parameters and changes no register. *)
Definition calls_back (blob : list stub_op) (f : callee) (n : nat) : Prop :=
  ∀ s, let l := take n [load_param 0 (params s); load_param 1 (params s); load_param 2 (params s)] in
  ∃ s', exec_ops blob s = Some s' ∧ (∀ r, rf (sm s') r = rf (sm s) r) ∧
    stack (sm s') = stack (sm s) ∧ saved s' = saved s ∧
    memory (sm s') = callee_memory f l (memory (sm s)) ∧ calls (sm s') = calls (sm s) ++ [(f, l)].

Lemma exec_ops_app l1 l2 s s1 : exec_ops l1 s = Some s1 → exec_ops (l1 ++ l2) s = exec_ops l2 s1.
Proof.
  revert s. induction l1 as [|o l1 IH]; intros s E; cbn in *; [by simplify_eq|].
  destruct (exec_op o s); [by apply IH|done].
Qed.

(** The call between saving and restoring the live registers. *)
Lemma saved_call f n s :
  let l := args (rf (sm s)) n in
  ∃ s', exec_ops [save_live_registers; Asm (call_leaf f n); restore_live_registers] s = Some s' ∧
    (∀ r, rf (sm s') r = rf (sm s) r) ∧ stack (sm s') = stack (sm s) ∧ saved s' = saved s ∧
    memory (sm s') = callee_memory f l (memory (sm s)) ∧ calls (sm s') = calls (sm s) ++ [(f, l)].
Proof.
  intros l. eexists. split; [reflexivity|]. split; [|done].
  intros r. cbn [rf sm]. by apply restore_save.
Qed.

(** Pushing [rs] inside the frame and popping them off again. *)
Definition enter (rs : list reg) : list stub_op := prologue :: ((λ r, Asm (push r)) <$> rs).
Definition leave (rs : list reg) : list stub_op := ((λ r, Asm (pop r)) <$> reverse rs) ++ [epilogue].

Lemma exec_pushes rs s :
  ∃ s', exec_ops ((λ r, Asm (push r)) <$> rs) s = Some s' ∧ rf (sm s') = rf (sm s) ∧
    stack (sm s') = reverse (Word <$> (rf (sm s) <$> rs)) ++ stack (sm s) ∧
    params s' = params s ∧ saved s' = saved s ∧ memory (sm s') = memory (sm s) ∧ calls (sm s') = calls (sm s).
Proof.
  revert s. induction rs as [|r rs IH]; intros s; [by exists s|]. rewrite fmap_cons. cbn [exec_ops exec_op exec1 on_machine].
  edestruct IH as (s' & -> & E1 & E2 & E3 & E4 & E5 & E6). exists s'. split; [done|].
  rewrite E1, E2, E3, E4, E5, E6. split_and!; try done.
  by rewrite !fmap_cons, reverse_cons, <-app_assoc.
Qed.

(** Popping gives every popped register the word that was pushed for it. *)
Lemma exec_pops (f : regs) rs st s :
  stack (sm s) = (Word <$> (f <$> rs)) ++ st → 
  ∃ s', exec_ops ((λ r, Asm (pop r)) <$> rs) s = Some s' ∧
    (∀ r, r ∈ rs → rf (sm s') r = f r) ∧ (∀ r, r ∉ rs → rf (sm s') r = rf (sm s) r) ∧
    stack (sm s') = st ∧ saved s' = saved s ∧ memory (sm s') = memory (sm s) ∧ calls (sm s') = calls (sm s).
Proof.
  revert s. induction rs as [|r rs IH]; intros s Hst.
  { exists s. split_and!; try done. intros r Hr. by apply not_elem_of_nil in Hr. }
  rewrite !fmap_cons in *. cbn [exec_ops exec_op exec1]. rewrite Hst. cbn [app on_machine].
  edestruct IH as (s' & -> & E1 & E2 & E3 & E4 & E5 & E6); [reflexivity|]. exists s'. split; [done|].
  cbn [sm rf set_reg set_stack memory calls stack saved] in *. split_and!; try done.
  - intros r' Hr. destruct (decide (r' ∈ rs)) as [|Hn]; [by apply E1|].
    apply elem_of_cons in Hr as [->|]; [|done]. rewrite E2 by done. apply upd_eq.
  - intros r' Hr. apply not_elem_of_cons in Hr as [Hne Hn]. rewrite E2 by done. by apply upd_ne.
Qed.

(** Code that may change the registers in [rs] only, between saving and
    restoring them in a frame, changes none. *)
Lemma framed rs body s s2 :
  rbp ∉ rs → rsp ∉ rs →
  (∀ s1, (∀ r, r ≠ rbp → rf (sm s1) r = rf (sm s) r) → params s1 = params s → saved s1 = saved s →
     memory (sm s1) = memory (sm s) → calls (sm s1) = calls (sm s) →
     ∃ s1', exec_ops body s1 = Some s1' ∧ (∀ r, r ∉ rs → rf (sm s1') r = rf (sm s1) r) ∧
       stack (sm s1') = stack (sm s1) ∧ saved s1' = saved s1 ∧
       memory (sm s1') = memory (sm s2) ∧ calls (sm s1') = calls (sm s2)) →
  ∃ s', exec_ops (enter rs ++ body ++ leave rs) s = Some s' ∧ (∀ r, rf (sm s') r = rf (sm s) r) ∧
    stack (sm s') = stack (sm s) ∧ saved s' = saved s ∧
    memory (sm s') = memory (sm s2) ∧ calls (sm s') = calls (sm s2).
Proof.
  intros Hbp Hsp Hbody. unfold enter, leave. cbn [app exec_ops exec_op straight exec1 on_machine].
  set (s0 := SMachine _ _ _ _). destruct (exec_pushes rs s0) as (s1 & E1 & R1 & S1 & P1 & V1 & M1 & C1).
  assert (∀ r, r ≠ rbp → rf (sm s1) r = rf (sm s) r) as R1'.
  { intros r Hr. rewrite R1. subst s0. cbn. by apply upd_ne. }
  destruct (Hbody s1) as (s3 & E3 & R3 & S3 & V3 & M3 & C3); [done|done|done|done|done|].
  destruct (exec_pops (rf (sm s0)) (reverse rs) (stack (sm s0)) s3) as (s4 & E4 & R4 & R4' & S4 & V4 & M4 & C4).
  { by rewrite S3, S1, !fmap_reverse. }
  eexists. split.
  { rewrite (exec_ops_app _ _ _ s1) by done. rewrite (exec_ops_app _ _ _ s3) by done.
    rewrite (exec_ops_app _ _ _ s4) by done.
    cbn [exec_ops exec_op straight exec1 set_reg stack]. rewrite S4. reflexivity. }
  assert (∀ r, rf (sm s4) r = rf (sm s0) r) as R.
  { intros r. destruct (decide (r ∈ reverse rs)) as [|Hn]; [by apply R4|].
    rewrite R4', R3, R1; [done| |done]. by rewrite <-elem_of_reverse. }
  cbn [sm saved params rf set_reg set_stack stack memory calls]. split; [|split_and!; [done|by rewrite V4, V3, V1|congruence|congruence]].
  intros r. destruct (decide (r = rbp)) as [->|Hr]; [apply upd_eq|]. rewrite upd_ne by done.
  destruct (decide (r = rsp)) as [->|Hr']; [rewrite upd_eq, R; apply upd_eq|].
  rewrite upd_ne, R by done. by apply upd_ne.
Qed.

(** The runtime stubs of the barriers: every parameter register is pushed, the
    parameters are loaded, and the call is made. *)
Definition load_parameters (n : nat) : list stub_op :=
  take n [load_parameter 0 c_rarg0; load_parameter 1 c_rarg1; load_parameter 2 c_rarg2].

Lemma runtime_stub rs f n :
  (n ≤ 3)%nat → rbp ∉ rs → rsp ∉ rs → (∀ r, r ∈ take n [c_rarg0; c_rarg1; c_rarg2] → r ∈ rs) →
  calls_back (enter rs ++ (load_parameters n ++ [save_live_registers; Asm (call_leaf f n); restore_live_registers]) ++
              leave rs) f n.
Proof.
  intros Hle Hbp Hsp Hn s l.
  apply (framed rs _ s (SMachine _ (Machine (rf (sm s)) (callee_memory f l (memory (sm s))) None []
    (calls (sm s) ++ [(f, l)])) (params s) [])); [done|done|].
  intros s1 R1 P1 V1 M1 C1.
  assert (∃ s2, exec_ops (load_parameters n) s1 = Some s2 ∧ args (rf (sm s2)) n = l ∧
    (∀ r, r ∉ rs → rf (sm s2) r = rf (sm s1) r) ∧ stack (sm s2) = stack (sm s1) ∧ saved s2 = saved s1 ∧
    memory (sm s2) = memory (sm s1) ∧ calls (sm s2) = calls (sm s1)) as (s2 & E2 & A2 & R2 & S2 & V2 & M2 & C2).
  { subst l. rewrite <-P1. destruct n as [|[|[|[|n]]]]; [..|lia]; (eexists; split; [reflexivity|]);
      (split; [reflexivity|]); (split; [|done]); intros r Hr; cbn [sm rf set_reg]; try done;
      rewrite !upd_ne; try done; intros ->; apply Hr, Hn; cbn; rewrite !elem_of_cons; tauto. }
  rewrite (exec_ops_app _ _ _ s2) by done.
  destruct (saved_call f n s2) as (s3 & E3 & R3 & S3 & V3 & M3 & C3). exists s3. split; [exact E3|].
  rewrite A2 in M3, C3. cbn [sm memory calls]. rewrite M3, C3, M2, C2, M1, C1, V3, S3, V2, S2.
  split_and!; try done. intros r Hr. by rewrite R3, R2.
Qed.

Ltac not_in := rewrite !not_elem_of_cons; split_and!; [discriminate..|apply not_elem_of_nil].
Ltac runtime_stub_of rs f n :=
  match goal with |- calls_back ?b _ _ =>
    change b with (enter rs ++ (load_parameters n ++
      [save_live_registers; Asm (call_leaf f n); restore_live_registers]) ++ leave rs)
  end;
  apply runtime_stub; [lia|not_in|not_in|intros r; cbn [take]; rewrite !elem_of_cons; tauto].

Lemma object_post_calls_back fast : calls_back (object_post_runtime_stub fast) (object_post_target fast) 3.
Proof. runtime_stub_of [c_rarg0; c_rarg1; c_rarg2; rax] (object_post_target fast) 3%nat. Qed.

Lemma satb_pre_calls_back fast : calls_back (satb_pre_runtime_stub fast) (satb_pre_target fast) 3.
Proof. runtime_stub_of [c_rarg0; c_rarg1; c_rarg2; rax] (satb_pre_target fast) 3%nat. Qed.

Lemma ref_load_calls_back : calls_back ref_load_runtime_stub load_reference_call 1.
Proof. runtime_stub_of [c_rarg0; rax] load_reference_call 1%nat. Qed.

(** ** The stubs *)

(** The call a stub is for: the function and its arguments. *)
Definition stub_call (fast : bool) (rs : regs) (c : c1_stub) : list (callee * list Z) :=
  match c with
  | PreBarrier src slot new_val =>
      let slot := match slot with inl slot => rs slot | inr (slot, _) => effective rs slot end in
      [(satb_pre_target fast, [rs src; slot; rs new_val])]
  | PostBarrier src slot new_val => [(object_post_target fast, [rs src; rs slot; rs new_val])]
  | ReferenceLoad val => if decide (rs val = 0) then [] else [(load_reference_call, [rs val])]
  end.

(** The register allocator keeps a scratch register apart from the inputs of the
    stub that uses it. *)
Definition scratch_of (c : c1_stub) : option reg :=
  match c with PreBarrier _ (inr (_, scratch)) _ => Some scratch | _ => None end.
Definition scratch_apart (c : c1_stub) : Prop :=
  match c with
  | PreBarrier src (inr (slot, scratch)) new_val =>
      src ≠ scratch ∧ new_val ≠ scratch ∧ base slot ≠ scratch ∧ index slot ≠ Some scratch
  | _ => True
  end.

Lemma exec_call blob f n s :
  calls_back blob f n →
  let l := take n [load_param 0 (params s); load_param 1 (params s); load_param 2 (params s)] in
  ∃ s', exec_stub [Call blob; Jmp] s = Some s' ∧ (∀ r, rf (sm s') r = rf (sm s) r) ∧
    stack (sm s') = stack (sm s) ∧ saved s' = saved s ∧
    memory (sm s') = callee_memory f l (memory (sm s)) ∧ calls (sm s') = calls (sm s) ++ [(f, l)].
Proof.
  intros Hb. destruct (Hb s) as (s' & E & R). exists s'. split; [|exact R]. cbn [exec_stub]. by rewrite E.
Qed.

(** Storing the parameters, in any order, and calling. *)
Lemma exec_stub_op o l s s1 : exec_op o s = Some s1 → exec_stub (Op o :: l) s = exec_stub l s1.
Proof. intros E. cbn [exec_stub]. by rewrite E. Qed.

Lemma exec_jcc c l s f :
  flags (sm s) = Some f → exec_stub (Jcc c :: l) s = if holds c f then Some s else exec_stub l s.
Proof. intros E. cbn [exec_stub]. by rewrite E. Qed.

Lemma exec_store r i l s :
  exec_stub (Op (store_parameter r i) :: l) s =
  exec_stub l (SMachine _ (sm s) (store_param i (rf (sm s) r) (params s)) (saved s)).
Proof. by apply exec_stub_op. Qed.

Lemma effective_upd rs a sc v :
  base a ≠ sc → index a ≠ Some sc → effective (upd sc v rs) a = effective rs a.
Proof.
  intros Hb Hi. unfold effective. rewrite upd_ne by done. destruct (index a) as [i|]; [|done].
  by rewrite upd_ne by congruence.
Qed.

Ltac simp_params := repeat (rewrite load_store_eq || rewrite load_store_ne by done).

(** C36. The stubs of C1 come back to their continuation after exactly the call
    they are for: the barrier's function with the object, the slot (patched, if
    it had to be) and the new value, whatever registers these are in, or the
    reference-load barrier with a reference that is not null.  No register
    changes but the stub's scratch register. *)
Theorem c1_stub_calls fast c s :
  scratch_apart c →
  ∃ s', exec_stub (emit_code fast c) s = Some s' ∧
    (∀ r, scratch_of c ≠ Some r → rf (sm s') r = rf (sm s) r) ∧
    stack (sm s') = stack (sm s) ∧ saved s' = saved s ∧
    calls (sm s') = calls (sm s) ++ stub_call fast (rf (sm s)) c.
Proof.
  intros Hok. destruct c as [src [slot|[slot sc]] new_val|src slot new_val|val];
    cbn [emit_code pre_barrier_stub post_barrier_stub ref_load_barrier_stub app].
  - rewrite !exec_store.
    destruct (exec_call _ _ _ (SMachine _ (sm s) (store_param 2 (rf (sm s) new_val)
      (store_param 0 (rf (sm s) src) (store_param 1 (rf (sm s) slot) (params s)))) (saved s)) (satb_pre_calls_back fast))
      as (s' & E & R & S & V & _ & C). exists s'. split; [exact E|].
    split; [by intros r _; rewrite R|]. split; [done|]. split; [done|]. rewrite C.
    cbn [params take stub_call sm calls]. by simp_params.
  - destruct Hok as (N1 & N2 & N3 & N4).
    rewrite (exec_stub_op _ _ _ (SMachine _ (set_reg sc (read 8 (memory (sm s)) (effective (rf (sm s)) slot)) (sm s))
      (params s) (saved s))) by done.
    set (m1 := set_reg sc _ (sm s)).
    rewrite (exec_stub_op _ _ _ (SMachine _ (set_reg sc (effective (rf m1) slot) m1) (params s) (saved s))) by done.
    set (m2 := set_reg sc _ m1).
    assert (rf m2 sc = effective (rf (sm s)) slot) as E2.
    { subst m2 m1. cbn [set_reg rf]. by rewrite upd_eq, effective_upd. }
    assert (∀ r, r ≠ sc → rf m2 r = rf (sm s) r) as R2.
    { intros r Hr. subst m2 m1. cbn [set_reg rf]. by rewrite !upd_ne. }
    rewrite !exec_store. cbn [sm params saved]. rewrite E2, !R2 by done.
    destruct (exec_call _ _ _ (SMachine _ m2 (store_param 2 (rf (sm s) new_val)
      (store_param 0 (rf (sm s) src) (store_param 1 (effective (rf (sm s)) slot) (params s)))) (saved s))
      (satb_pre_calls_back fast)) as (s' & E & R & S & V & _ & C). exists s'. split; [exact E|].
    split; [intros r Hr; rewrite R; apply R2; intros ->; by apply Hr|]. split; [done|]. split; [done|]. rewrite C.
    cbn [params take stub_call sm calls]. by simp_params.
  - unfold post_barrier_stub. rewrite !exec_store.
    destruct (exec_call _ _ _ (SMachine _ (sm s) (store_param 2 (rf (sm s) new_val)
      (store_param 1 (rf (sm s) slot) (store_param 0 (rf (sm s) src) (params s)))) (saved s)) (object_post_calls_back fast))
      as (s' & E & R & S & V & _ & C). exists s'. split; [exact E|].
    split; [by intros r _; rewrite R|]. split; [done|]. split; [done|]. rewrite C.
    cbn [params take stub_call sm calls]. by simp_params.
  - unfold ref_load_barrier_stub. rewrite (exec_stub_op _ _ _ (SMachine _ (set_flags (Some (rf (sm s) val, 0)) (sm s)) (params s) (saved s))) by done.
    set (m1 := set_flags _ (sm s)). cbn [stub_call].
    rewrite (exec_jcc _ _ _ (rf (sm s) val, 0)) by done. cbn [holds].
    case_decide as E0.
    + rewrite bool_decide_eq_true_2 by done. eexists. split; [reflexivity|]. by rewrite app_nil_r.
    + rewrite bool_decide_eq_false_2 by done. rewrite exec_store.
      destruct (exec_call _ _ _ (SMachine _ m1 (store_param 0 (rf (sm s) val) (params s)) (saved s)) ref_load_calls_back)
        as (s' & E & R & S & V & _ & C). exists s'. split; [exact E|].
      split; [by intros r _; rewrite R|]. split; [done|]. split; [done|]. rewrite C.
      cbn [params take stub_call sm calls]. by simp_params.
Qed.

End exec.

(** ** A concrete stub *)

Section examples.
#[local] Instance idle_callee : Callee :=
  {| callee_memory _ _ mm := mm; callee_scratch _ _ _ _ := 0 |}.

#[local] Program Instance plain_frames : StubFrames := {|
  area := nat → Z;
  store_param i v a := λ j, if decide (j = i) then v else a j;
  load_param i a := a i;
  live := regs;
  save_live rs := rs;
  restore_live l rs := λ r, if decide (r = rsp) then rs r else l r |}.
Next Obligation. intros i v a. cbn. by rewrite decide_True. Qed.
Next Obligation. intros i j v a Hij. cbn. by rewrite decide_False. Qed.
Next Obligation. intros rs rs' r Hsp. cbn. case_decide; [by subst|done]. Qed.

(** The inputs are in argument registers, in another order; the slot's offset is
    patched. *)
Lemma c1_stub_calls_witness :
  let s := SMachine _ (Machine (λ r, match r with rdi => 1 | rsi => 2 | rdx => 3 | _ => 64 end) (λ _, 1) None [] [])
             (λ _, 0) [] in
  let c := PreBarrier rdx (inr (Addr rsi None 0 16, rax)) rdi in
  ∃ s', exec_stub (emit_code true c) s = Some s' ∧ rf (sm s') rdx = 3 ∧
    calls (sm s') = [(write_slow_call, [3; 18; 1])].
Proof.
  intros s c. destruct (c1_stub_calls true c s) as (s' & E & R & _ & _ & C).
  - repeat split; discriminate.
  - exists s'. split; [exact E|]. split; [rewrite R; [reflexivity|discriminate]|].
    rewrite C. vm_compute. reflexivity.
Defined.

End examples.
