(* ===== verification/C2Barriers.v ===== *)
(** * Barriers in C2

    [MMTkBarrierSetC2] ([mmtkBarrierSetC2.hpp], [can_remove_barrier] of
    [mmtkBarrierSetC2.cpp]) and the C2 parts of the object and SATB barriers
    ([mmtkObjectBarrier.cpp], [mmtkSATBBarrier.cpp]).  What a barrier adds to the
    graph through [IdealKit] is a list of structured statements over nodes; what
    C2 knows about the graph is asked from HotSpot: [C2Graph]. *)

From stdpp Require Import base numbers list.
From Stdlib Require Import ZArith Lia.
From S2P Require Import Prelude Slots Barrier X86.

Local Open Scope Z_scope.

(** ** Nodes and statements *)

Inductive node :=
| Existing (n : nat)                       (* a node of the graph *)
| ConI (z : Z) | ConX (z : Z) | ConP (z : Z)
| CastPX (a : node) | AddP (a b : node) | URShiftX (a b : node)
| URShiftI (a b : node) | AndI (a b : node) | ConvL2I (a : node)
| LoadB (a : node)                         (* a signed byte *)
| InstanceOf (a : node).                   (* of [java.lang.ref.Reference] *)

Inductive test := Eq | Ne.

Inductive c2_access := C2Store | C2CmpXchgVal | C2CmpXchgBool | C2Xchg | C2Load.

Inductive stmt :=
| IfThen (a : node) (t : test) (b : node) (body : list stmt)
| LeafCall (f : callee) (arguments : list node)
| MemBarCPUOrder
| RawAccess (a : c2_access) (operands : list node).

(** ** Meaning *)

Inductive c2_event := CalledLeaf (f : callee) (l : list Z) | Barred | Performed (a : c2_access) (l : list Z).

(** What nodes of the graph evaluate to, which objects are references, and what
    HotSpot's own accesses do to memory. *)
Class C2Run := {
  env : nat → Z;
  is_reference_object : Z → bool;
  c2_memory : c2_access → list Z → mem → mem
}.

Section meaning.
Context `{Callee} `{C2Run}.

(** Words are 64 bits wide, the results of the [I] nodes 32. *)
Fixpoint value_of (m : mem) (n : node) : Z :=
  match n with
  | Existing k => env k
  | ConI z => u32 z
  | ConX z | ConP z => u64 z
  | CastPX a => value_of m a
  | AddP a b => u64 (value_of m a + value_of m b)
  | URShiftX a b => Z.shiftr (value_of m a) (value_of m b mod 64)
  | URShiftI a b => Z.shiftr (u32 (value_of m a)) (value_of m b mod 32)
  | AndI a b => Z.land (u32 (value_of m a)) (u32 (value_of m b))
  | ConvL2I a => u32 (value_of m a)
  | LoadB a => u32 (sign 8 (m (value_of m a)))
  | InstanceOf a => if decide (value_of m a = 0) then 0 else if is_reference_object (value_of m a) then 1 else 0
  end.

Definition passes (t : test) (a b : Z) : bool :=
  match t with Eq => bool_decide (a = b) | Ne => bool_decide (a ≠ b) end.

Abbreviation c2_state := (mem * list c2_event)%type.

Fixpoint run_stmt (s : stmt) (st : c2_state) : c2_state :=
  let '(m, tr) := st in
  match s with
  | IfThen a t b body =>
      if passes t (value_of m a) (value_of m b)
      then (fix run_stmts (l : list stmt) (st : c2_state) : c2_state :=
              match l with [] => st | s :: l => run_stmts l (run_stmt s st) end) body st
      else st
  | LeafCall f args =>
      let l := value_of m <$> args in (callee_memory f l m, tr ++ [CalledLeaf f l])
  | MemBarCPUOrder => (m, tr ++ [Barred])
  | RawAccess a operands =>
      let l := value_of m <$> operands in (c2_memory a l m, tr ++ [Performed a l])
  end.

Definition run_stmts (l : list stmt) (st : c2_state) : c2_state := foldl (λ st s, run_stmt s st) st l.

End meaning.

(** ** What C2 knows *)

(** A [ciKlass] as [reference_load_barrier_for_unknown_load] asks about it. *)
Record ciKlass := { is_loaded : bool; is_subtype_of_Reference : bool; Object_is_subtype_of : bool }.
(** The static type of a base. *)
Inductive oop_type := NoOopPtr | AryPtr | InstPtr (klass : ciKlass) | OtherOopPtr.

(** HotSpot's questions about nodes: a null constant; the object that control
    shows has just been allocated; base and precise offset of an address; the
    allocation a base comes from; the allocation whose initialisation control
    follows; constant offsets and types of bases; and the top node. *)
Class C2Graph := {
  is_null_con : node → bool;
  just_allocated_object : option node;
  Ideal_base_and_offset : node → node * option Z;
  Ideal_allocation : node → option nat;
  control_initializes : option nat;
  find_intptr_con : node → option Z;
  bottom_type : node → oop_type;
  is_top : node → bool
}.

#[export] Instance callee_eq_dec : EqDecision callee.
Proof. solve_decision. Defined.
#[export] Instance node_eq_dec : EqDecision node.
Proof. solve_decision. Defined.

Section barriers.
Context `{C2Graph}.
Variable mmtk_enable_barrier_fastpath mmtk_enable_allocation_fastpath : bool.
Variable side_metadata_base_address : Z.
Variable concurrent_marking_active_address : Z.
(** [java_lang_ref_Reference::referent_offset]. *)
Variable referent_offset : Z.

(** [MMTkBarrierSetC2::can_remove_barrier]. *)
Definition can_remove_barrier (src slot val : node) (skip_const_null : bool) : bool :=
  if skip_const_null && is_null_con val then true else
  if negb mmtk_enable_allocation_fastpath then false else
  if bool_decide (just_allocated_object = Some src) then true else
  let '(base, offset) := Ideal_base_and_offset slot in
  match offset with
  | None => false
  | Some _ =>
      match Ideal_allocation base with
      | None => false
      | Some alloc =>
          match control_initializes with
          | Some st_alloc => bool_decide (alloc = st_alloc)
          | None => false
          end
      end
  end.

(** The unlog bit of [src], as [IdealKit] nodes. *)
Definition unlog_bit (src : node) : node :=
  let addr := CastPX src in
  let meta_addr := AddP (ConP side_metadata_base_address) (URShiftX addr (ConI 6)) in
  let byte := LoadB meta_addr in
  let shift := AndI (ConvL2I (URShiftX addr (ConI 3))) (ConI 7) in
  AndI (URShiftI byte shift) (ConI 1).

(** [MMTkObjectBarrierSetC2::object_reference_write_post]. *)
Definition c2_object_write_post (src slot val : node) : list stmt :=
  if can_remove_barrier src slot val true then [] else
  if mmtk_enable_barrier_fastpath
  then [IfThen (unlog_bit src) Ne (ConI 0) [LeafCall write_slow_call [src; slot; val]]]
  else [LeafCall write_post_call [src; slot; val]].

(** [MMTkSATBBarrierSetC2::object_reference_write_pre]. *)
Definition c2_satb_write_pre (src slot val : node) : list stmt :=
  if can_remove_barrier src slot val false then [] else
  if mmtk_enable_barrier_fastpath
  then [IfThen (unlog_bit src) Ne (ConI 0) [LeafCall write_slow_call [src; slot; val]]]
  else [LeafCall write_pre_call [src; slot; val]].

(** [reference_load_barrier]. *)
Definition reference_load_barrier (val : node) (emit_barrier : bool) : list stmt :=
  let cm_flag := LoadB (ConP concurrent_marking_active_address) in
  IfThen cm_flag Ne (ConI 0) [IfThen val Ne (ConP 0) [LeafCall load_reference_call [val]]] ::
  (if emit_barrier then [MemBarCPUOrder] else []).

(** [reference_load_barrier_for_unknown_load]. *)
Definition reference_load_barrier_for_unknown_load (base_oop offset val : node) (need_mem_bar : bool) : list stmt :=
  if match find_intptr_con offset with Some c => bool_decide (c ≠ referent_offset) | None => false end then [] else
  if match bottom_type base_oop with
     | AryPtr => true
     | InstPtr klass => is_loaded klass && negb (is_subtype_of_Reference klass) && negb (Object_is_subtype_of klass)
     | _ => false
     end then [] else
  [IfThen offset Eq (ConX referent_offset)
     [IfThen (InstanceOf base_oop) Eq (ConI 1)
        (reference_load_barrier val false ++ (if need_mem_bar then [MemBarCPUOrder] else []))]].

(** [MMTkSATBBarrierSetC2::load_at_resolved]; [offset] is the offset operand of
    the address, or the top node, and [load] the node that HotSpot's load
    returns. *)
Definition c2_satb_load_at_resolved (decorators : DecoratorSet) (is_oop : bool) (adr obj offset load : node)
    : list stmt :=
  let unknown := ON_UNKNOWN_OOP_REF decorators in
  let on_weak := ON_WEAK_OOP_REF decorators in
  let in_heap := IN_HEAP decorators in
  let need_cpu_mem_bar := negb (MO_UNORDERED decorators) || C2_MISMATCHED decorators || negb in_heap in
  let need_read_barrier := in_heap && (on_weak || (unknown && negb (is_top offset) && negb (is_top obj))) in
  RawAccess C2Load [adr] ::
  if negb is_oop || negb need_read_barrier then [] else
  if on_weak then reference_load_barrier load true
  else if unknown then reference_load_barrier_for_unknown_load obj offset load (negb need_cpu_mem_bar)
  else [].

(** ** The accesses of [MMTkBarrierSetC2] *)

Section accesses.
Variables object_reference_write_pre object_reference_write_post : node → node → node → list stmt.
Variables (is_oop : bool) (base addr : node).

Definition c2_pre (val : node) : list stmt := if is_oop then object_reference_write_pre base addr val else [].
Definition c2_post (val : node) : list stmt := if is_oop then object_reference_write_post base addr val else [].

Definition c2_store_at_resolved (val : node) : list stmt :=
  c2_pre val ++ [RawAccess C2Store [addr; val]] ++ c2_post val.
Definition c2_atomic_cmpxchg_val_at_resolved (expected_val new_val : node) : list stmt :=
  c2_pre new_val ++ [RawAccess C2CmpXchgVal [addr; expected_val; new_val]] ++ c2_post new_val.
Definition c2_atomic_cmpxchg_bool_at_resolved (expected_val new_val : node) : list stmt :=
  c2_pre new_val ++ [RawAccess C2CmpXchgBool [addr; expected_val; new_val]] ++ c2_post new_val.
Definition c2_atomic_xchg_at_resolved (new_val : node) : list stmt :=
  c2_pre new_val ++ [RawAccess C2Xchg [addr; new_val]] ++ c2_post new_val.

(** The four writes. *)
Inductive c2_write :=
| StoreVal (val : node) | CmpXchgVal (expected_val new_val : node)
| CmpXchgBool (expected_val new_val : node) | XchgVal (new_val : node).

Definition c2_write_at_resolved (w : c2_write) : list stmt :=
  match w with
  | StoreVal val => c2_store_at_resolved val
  | CmpXchgVal e n => c2_atomic_cmpxchg_val_at_resolved e n
  | CmpXchgBool e n => c2_atomic_cmpxchg_bool_at_resolved e n
  | XchgVal n => c2_atomic_xchg_at_resolved n
  end.

End accesses.

Definition c2_no_barrier (src slot val : node) : list stmt := [].

(** [MMTkObjectBarrierSetC2] and [MMTkSATBBarrierSetC2]. *)
Definition c2_object_write := c2_write_at_resolved c2_no_barrier c2_object_write_post.
Definition c2_satb_write := c2_write_at_resolved c2_satb_write_pre c2_no_barrier.

End barriers.

(** What a write performs. *)
Definition c2_kind (w : c2_write) : c2_access :=
  match w with
  | StoreVal _ => C2Store | CmpXchgVal _ _ => C2CmpXchgVal
  | CmpXchgBool _ _ => C2CmpXchgBool | XchgVal _ => C2Xchg
  end.
Definition c2_new_value (w : c2_write) : node :=
  match w with StoreVal v | CmpXchgVal _ v | CmpXchgBool _ v | XchgVal v => v end.
Definition c2_operands (addr : node) (w : c2_write) : list node :=
  addr :: match w with StoreVal v | XchgVal v => [v] | CmpXchgVal e v | CmpXchgBool e v => [e; v] end.

(** ** Types of the calls

    [MMTkIdealKit::func_type]: the tuple of a call's domain has the standard fields of
    every call ([TypeFunc::Parms] of them, which [TypeTuple::fields] fills in) and one
    field for each argument, which [build_type_func_helper] sets one by one; the range
    is empty. *)

Section func_type.
Context {Ty : Type}.
Variable standard_fields : list Ty.
Definition Parms : nat := length standard_fields.

Definition fields (n : nat) : list (option Ty) := (Some <$> standard_fields) ++ replicate n None.

Fixpoint build_type_func_helper (at_ : nat) (ts : list Ty) (f : list (option Ty)) : list (option Ty) :=
  match ts with
  | [] => f
  | t :: ts => build_type_func_helper (S at_) ts (<[at_ := Some t]> f)
  end.

Record TypeTuple := Tuple { cnt : nat; tuple_fields : list (option Ty) }.

Definition func_type (types : list Ty) : TypeTuple * TypeTuple :=
  let num_types := length types in
  (Tuple (Parms + num_types) (build_type_func_helper Parms types (fields num_types)), Tuple (Parms + 0) (fields 0)).

Lemma build_fields done ts :
  build_type_func_helper (length done) ts ((Some <$> done) ++ replicate (length ts) None) = Some <$> done ++ ts.
Proof.
  revert done. induction ts as [|t ts IH]; intros l; cbn [build_type_func_helper length replicate].
  { by rewrite !app_nil_r. }
  assert (length l = length (Some <$> l)) as El by (by rewrite length_fmap).
  rewrite El at 2. rewrite insert_app_r_alt, Nat.sub_diag by lia. cbn.
  replace (S (length l)) with (length (l ++ [t])) by (rewrite length_app; cbn; lia).
  specialize (IH (l ++ [t])). rewrite fmap_app in IH. cbn in IH. rewrite <-app_assoc in IH. cbn in IH.
  rewrite IH. by rewrite <-app_assoc.
Qed.

(** Every field of the domain is set, to its argument's type. *)
Lemma func_type_ok types :
  func_type types = (Tuple (Parms + length types) (Some <$> standard_fields ++ types),
                     Tuple Parms (Some <$> standard_fields)).
Proof.
  unfold func_type. rewrite Nat.add_0_r. unfold fields at 2. cbn [replicate]. rewrite app_nil_r.
  do 2 f_equal. apply build_fields.
Qed.
End func_type.

(** The types the barriers give for a call: [TypeOopPtr::BOTTOM], once for each
    argument that the function has. *)
Inductive bottom_type_ptr := TypeOopPtr_BOTTOM.
Definition call_types (f : callee) : list bottom_type_ptr :=
  match f with
  | write_pre_call | write_post_call | write_slow_call => [TypeOopPtr_BOTTOM; TypeOopPtr_BOTTOM; TypeOopPtr_BOTTOM]
  | load_reference_call => [TypeOopPtr_BOTTOM]
  | array_copy_pre_call | array_copy_post_call => []      (* C2 does not call them *)
  end.

(** The calls in a statement, with the number of their arguments. *)
Fixpoint leaf_calls (s : stmt) : list (callee * nat) :=
  match s with
  | IfThen _ _ _ body => concat (leaf_calls <$> body)
  | LeafCall f l => [(f, length l)]
  | MemBarCPUOrder | RawAccess _ _ => []
  end.

(** A call passes what its type says. *)
Definition call_typed (standard_fields : list bottom_type_ptr) (c : callee * nat) : Prop :=
  cnt (func_type standard_fields (call_types c.1)).1 = (Parms standard_fields + c.2)%nat ∧ call_types c.1 ≠ [].

(** All calls that C2's barriers emit, for writes and for loads, have as many
    arguments as the type that is built for them. *)
Lemma c2_calls_typed `{C2Graph} fastpath allocation_fastpath base marking referent standard :
  let typed l := Forall (call_typed standard) (concat (leaf_calls <$> l)) in
  (∀ is_oop a addr w, typed (c2_object_write fastpath allocation_fastpath base is_oop a addr w)) ∧
  (∀ is_oop a addr w, typed (c2_satb_write fastpath allocation_fastpath base is_oop a addr w)) ∧
  (∀ d is_oop adr obj offset load, typed (c2_satb_load_at_resolved marking referent d is_oop adr obj offset load)).
Proof.
  intros typed. subst typed. cbv beta.
  assert (∀ l1 l2, Forall (call_typed standard) (concat (leaf_calls <$> l1)) →
    Forall (call_typed standard) (concat (leaf_calls <$> l2)) →
    Forall (call_typed standard) (concat (leaf_calls <$> l1 ++ l2))) as Happ.
  { intros l1 l2 H1 H2. rewrite fmap_app, concat_app. by apply Forall_app. }
  split_and!.
  - intros [] a addr w; destruct w; cbn; unfold c2_object_write_post; repeat case_match; cbn; by repeat constructor.
  - intros [] a addr w; destruct w; cbn; unfold c2_satb_write_pre; repeat case_match; cbn; by repeat constructor.
  - intros d is_oop adr obj offset load. unfold c2_satb_load_at_resolved, reference_load_barrier_for_unknown_load,
      reference_load_barrier. cbn zeta. apply (Happ [_]); [by constructor|].
    repeat case_match; cbn; by repeat constructor.
Qed.
