(* ===== verification/C2Safety.v ===== *)
(** * The C2 barriers: what the added code does

    Writes and loads compiled by C2 ([C2Barriers]) call mmtk-core when the
    runtime's barrier does, except where C2 may leave the barrier out. *)

From stdpp Require Import base numbers list.
From Stdlib Require Import ZArith Lia.
From S2P Require Import Prelude Slots Barrier X86 C2Barriers.

Local Open Scope Z_scope.

Section correctness.
Context `{Callee} `{C2Run} `{C2Graph}.
Variable mmtk_enable_barrier_fastpath mmtk_enable_allocation_fastpath : bool.
Variable side_metadata_base_address : Z.
Hypothesis metadata_mapped :
  0 ≤ side_metadata_base_address ∧ side_metadata_base_address + 2 ^ 57 < 2 ^ 64.

(** Statements run in sequence. *)
Lemma run_stmts_app l1 l2 st : run_stmts (l1 ++ l2) st = run_stmts l2 (run_stmts l1 st).
Proof. apply foldl_app. Qed.

Lemma run_if a t b body m tr :
  run_stmt (IfThen a t b body) (m, tr) =
  if passes t (value_of m a) (value_of m b) then run_stmts body (m, tr) else (m, tr).
Proof.
  cbn [run_stmt]. destruct (passes _ _ _); [|done]. unfold run_stmts.
  generalize (m, tr). induction body as [|s body IH]; intros st; [done|]. apply IH.
Qed.

(** Nodes whose value does not depend on memory: all that are no loads. *)
Definition stable (n : node) : Prop := ∀ m m', value_of m n = value_of m' n.

Lemma unlog_bit_value m src :
  object (value_of m src) →
  value_of m (unlog_bit side_metadata_base_address src) =
  if meta_bit side_metadata_base_address m (value_of m src) then 1 else 0.
Proof.
  intros Ho. unfold unlog_bit. cbn [value_of]. set (a := value_of m src) in *. destruct (Ho) as [Ha _].
  change (u32 6 mod 64) with 6. change (u32 3 mod 64) with 3. change (u32 (u32 7)) with 7. change (u32 (u32 1)) with 1.
  pose proof (meta_effective side_metadata_base_address a metadata_mapped Ha) as Em.
  rewrite Z.shiftl_0_r, Z.add_0_r in Em. rewrite Em.
  rewrite (wrap_land 32 _ 1) by (done || lia).
  assert (Z.land (u32 (u32 (Z.shiftr a 3))) 7 = meta_shift a) as Es.
  { rewrite wrap_wrap, wrap_land by (done || lia). unfold meta_shift. by rewrite i64_small. }
  rewrite Es. pose proof (meta_shift_range a) as Hs. rewrite (Z.mod_small _ 32) by lia.
  rewrite meta_bit_testbit, shiftr_land_1, wrap_wrap, wrap_testbit, sign_testbit by lia.
  by rewrite (bool_decide_eq_true_2 (_ < 32)) by lia.
Qed.

(** The check and its slow call. *)
Definition slow_call (f : callee) (src slot val : node) : list stmt :=
  if mmtk_enable_barrier_fastpath
  then [IfThen (unlog_bit side_metadata_base_address src) Ne (ConI 0) [LeafCall write_slow_call [src; slot; val]]]
  else [LeafCall f [src; slot; val]].

Definition c2_target (f : callee) : callee := if mmtk_enable_barrier_fastpath then write_slow_call else f.

Definition c2_slow (m : mem) (src : Z) : bool :=
  negb mmtk_enable_barrier_fastpath || meta_bit side_metadata_base_address m src.

Lemma slow_call_run f src slot val m tr :
  object (value_of m src) →
  let l := [value_of m src; value_of m slot; value_of m val] in
  run_stmts (slow_call f src slot val) (m, tr) =
  if c2_slow m (value_of m src) then (callee_memory (c2_target f) l m, tr ++ [CalledLeaf (c2_target f) l])
  else (m, tr).
Proof.
  intros Ho l. unfold slow_call, c2_slow, c2_target. destruct mmtk_enable_barrier_fastpath; [|done].
  unfold run_stmts at 1. cbn [foldl]. rewrite run_if, unlog_bit_value by done. cbn [negb orb].
  by destruct (meta_bit _ _ _).
Qed.

(** ** Leaving a barrier out *)

(** What HotSpot's answers mean: a null constant is null, and an object that
    control shows to have been allocated has met no safepoint since: [fresh].
    The address of an access is based on its object. *)
Record graph_sound (fresh : Z → Prop) (m : mem) (src slot : node) : Prop := {
  sound_null n : is_null_con n = true → value_of m n = 0;
  sound_just_allocated n : just_allocated_object = Some n → fresh (value_of m n);
  sound_base b o : Ideal_base_and_offset slot = (b, Some o) → value_of m b = value_of m src;
  sound_initializes n a : Ideal_allocation n = Some a → control_initializes = Some a → fresh (value_of m n)
}.

Lemma can_remove_sound fresh m src slot val skip_const_null :
  graph_sound fresh m src slot →
  can_remove_barrier mmtk_enable_allocation_fastpath src slot val skip_const_null = true →
  (skip_const_null = true ∧ value_of m val = 0) ∨
  (mmtk_enable_allocation_fastpath = true ∧ fresh (value_of m src)).
Proof.
  intros [Hn Hj Hb Hi]. unfold can_remove_barrier.
  destruct skip_const_null, (is_null_con val) eqn:En; cbn [andb]; try (intros _; left; by auto).
  all: destruct mmtk_enable_allocation_fastpath; cbn [negb]; [|done]; intros Hr; right; split; [done|].
  all: case_bool_decide as Ej; [by apply Hj|].
  all: destruct (Ideal_base_and_offset slot) as [b [o|]] eqn:Eb; [|done].
  all: destruct (Ideal_allocation b) as [a|] eqn:Ea; [|done].
  all: destruct control_initializes as [a'|] eqn:Ec; [|done]; apply bool_decide_eq_true in Hr; subst a'.
  all: rewrite <-(Hb b o eq_refl); by eapply Hi.
Qed.

(** ** Writes *)

Variables (base addr : node) (w : c2_write) (m : mem) (tr : list c2_event).
Abbreviation src := (value_of m base).
Abbreviation c2_args := [src; value_of m addr; value_of m (c2_new_value w)].
Abbreviation c2_values := (value_of m <$> c2_operands addr w).

Lemma write_run pre post :
  run_stmts (c2_write_at_resolved pre post true base addr w) (m, tr) =
  let '(m1, tr1) := run_stmts (pre base addr (c2_new_value w)) (m, tr) in
  let l := value_of m1 <$> c2_operands addr w in
  run_stmts (post base addr (c2_new_value w)) (c2_memory (c2_kind w) l m1, tr1 ++ [Performed (c2_kind w) l]).
Proof.
  destruct w; cbn [c2_write_at_resolved]; unfold c2_store_at_resolved, c2_atomic_cmpxchg_val_at_resolved,
    c2_atomic_cmpxchg_bool_at_resolved, c2_atomic_xchg_at_resolved, c2_pre, c2_post; rewrite !run_stmts_app;
    by destruct (run_stmts (pre _ _ _) _).
Qed.

Record c2_access_ok (fresh : Z → Prop) : Prop := {
  c2_object_src : object src;
  c2_stable : stable base ∧ stable addr ∧ stable (c2_new_value w) ∧ Forall stable (c2_operands addr w);
  c2_sound : graph_sound fresh m base addr
}.

(** Whether the added code calls mmtk-core: the barrier is there, and takes its
    slow path. *)
Definition c2_calls (skip_const_null : bool) (m : mem) : bool :=
  negb (can_remove_barrier mmtk_enable_allocation_fastpath base addr (c2_new_value w) skip_const_null) &&
  c2_slow m src.

Lemma c2_calls_false fresh skip_const_null m1 :
  c2_access_ok fresh → c2_calls skip_const_null m1 = false →
  c2_slow m1 src = false ∨ (skip_const_null = true ∧ value_of m (c2_new_value w) = 0) ∨ fresh src.
Proof.
  intros [_ _ Hs]. unfold c2_calls. destruct (can_remove_barrier _ _ _ _ _) eqn:Er; cbn [negb andb]; [|by left].
  intros _. right. destruct (can_remove_sound _ _ _ _ _ _ Hs Er) as [?|[_ ?]]; [by left|by right].
Qed.

Lemma c2_calls_true skip_const_null m1 : c2_calls skip_const_null m1 = true → c2_slow m1 src = true.
Proof. intros E. by apply andb_true_iff in E as [_ ?]. Qed.

Lemma object_c2_exec fresh :
  c2_access_ok fresh →
  let f := c2_target write_post_call in
  let m1 := c2_memory (c2_kind w) c2_values m in
  let calls := c2_calls true m1 in
  run_stmts (c2_object_write mmtk_enable_barrier_fastpath mmtk_enable_allocation_fastpath
               side_metadata_base_address true base addr w) (m, tr) =
    ((if calls then callee_memory f c2_args m1 else m1),
     tr ++ [Performed (c2_kind w) c2_values] ++ (if calls then [CalledLeaf f c2_args] else [])).
Proof.
  intros [Ho (S1 & S2 & S3 & _) _] f m1 calls. unfold c2_object_write. rewrite write_run. cbn [run_stmts c2_no_barrier foldl].
  fold m1. unfold c2_object_write_post. subst calls. unfold c2_calls.
  destruct (can_remove_barrier _ base addr (c2_new_value w) true); cbn [negb andb]; [done|].
  change (if mmtk_enable_barrier_fastpath then _ else _) with
    (slow_call write_post_call base addr (c2_new_value w)).
  rewrite slow_call_run by (by rewrite (S1 m1 m)).
  rewrite (S1 m1 m), (S2 m1 m), (S3 m1 m). by destruct (c2_slow m1 src); rewrite <-?app_assoc.
Qed.

Lemma satb_c2_exec fresh :
  c2_access_ok fresh →
  let f := c2_target write_pre_call in
  let calls := c2_calls false m in
  run_stmts (c2_satb_write mmtk_enable_barrier_fastpath mmtk_enable_allocation_fastpath
               side_metadata_base_address true base addr w) (m, tr) =
    (c2_memory (c2_kind w) c2_values (if calls then callee_memory f c2_args m else m),
     tr ++ (if calls then [CalledLeaf f c2_args] else []) ++ [Performed (c2_kind w) c2_values]).
Proof.
  intros [Ho (_ & _ & _ & S4) _] f calls. unfold c2_satb_write. rewrite write_run. cbn [c2_no_barrier].
  assert (∀ m1, value_of m1 <$> c2_operands addr w = c2_values) as Ev.
  { intros m1. induction S4 as [|n l Hn _ IH]; [done|]. cbn. by rewrite IH, (Hn m1 m). }
  unfold c2_satb_write_pre. subst calls. unfold c2_calls.
  destruct (can_remove_barrier _ base addr (c2_new_value w) false); cbn [negb andb]; [done|].
  change (if mmtk_enable_barrier_fastpath then _ else _) with
    (slow_call write_pre_call base addr (c2_new_value w)).
  rewrite slow_call_run by done.
  destruct (c2_slow m src); cbn [run_stmts foldl]; by rewrite ?(Ev (callee_memory _ _ _)), <-?app_assoc.
Qed.

(** C28. A reference write compiled by C2 under the object barrier performs the
    access and then calls mmtk-core, with the object, the slot and the new value,
    only if the object's unlog bit is set (or the fast path is off), and whenever
    it is, unless the new value is null or the object has met no safepoint since
    its allocation. *)
Theorem object_c2_write fresh :
  c2_access_ok fresh →
  let f := c2_target write_post_call in
  let m1 := c2_memory (c2_kind w) c2_values m in
  ∃ called : bool,
    run_stmts (c2_object_write mmtk_enable_barrier_fastpath mmtk_enable_allocation_fastpath
                 side_metadata_base_address true base addr w) (m, tr) =
      ((if called then callee_memory f c2_args m1 else m1),
       tr ++ [Performed (c2_kind w) c2_values] ++ (if called then [CalledLeaf f c2_args] else [])) ∧
    (called = true → c2_slow m1 src = true) ∧
    (called = false → c2_slow m1 src = false ∨ value_of m (c2_new_value w) = 0 ∨ fresh src).
Proof.
  intros Hok f m1. exists (c2_calls true m1). split; [by apply (object_c2_exec fresh)|].
  split; [apply c2_calls_true|]. intros E. destruct (c2_calls_false fresh true m1 Hok E) as [?|[[_ ?]|?]]; auto.
Qed.

(** C29. A reference write compiled by C2 under the SATB barrier calls mmtk-core
    before the access, only if the object's unlog bit is set (or the fast path is
    off), and whenever it is, unless the object has met no safepoint since its
    allocation; a null constant does not suffice. *)
Theorem satb_c2_write fresh :
  c2_access_ok fresh →
  let f := c2_target write_pre_call in
  ∃ called : bool,
    run_stmts (c2_satb_write mmtk_enable_barrier_fastpath mmtk_enable_allocation_fastpath
                 side_metadata_base_address true base addr w) (m, tr) =
      (c2_memory (c2_kind w) c2_values (if called then callee_memory f c2_args m else m),
       tr ++ (if called then [CalledLeaf f c2_args] else []) ++ [Performed (c2_kind w) c2_values]) ∧
    (called = true → c2_slow m src = true) ∧
    (called = false → c2_slow m src = false ∨ fresh src).
Proof.
  intros Hok f. exists (c2_calls false m). split; [by apply (satb_c2_exec fresh)|].
  split; [apply c2_calls_true|]. intros E. destruct (c2_calls_false fresh false m Hok E) as [?|[[? _]|?]]; auto; done.
Qed.

End correctness.

(** ** Loads *)

Section loads.
Context `{Callee} `{C2Run} `{C2Graph}.
Variable concurrent_marking_active_address : Z.
Variable referent_offset : Z.
Hypothesis flag_mapped : 0 ≤ concurrent_marking_active_address < 2 ^ 64.
Hypothesis offset_range : 0 ≤ referent_offset < 2 ^ 63.

Definition leaves (tr : list c2_event) : list (callee * list Z) :=
  omap (λ e, match e with CalledLeaf f l => Some (f, l) | _ => None end) tr.

Lemma leaves_app t1 t2 : leaves (t1 ++ t2) = leaves t1 ++ leaves t2.
Proof. apply omap_app. Qed.

Lemma signed_byte_zero b : bool_decide (u32 (sign 8 b) ≠ 0) = bool_decide (u8 b ≠ 0).
Proof.
  apply bool_decide_ext. pose proof (wrap_bound 8 b ltac:(done)) as Hb.
  change (2 ^ 8) with 256 in Hb. unfold sign. change (2 ^ (8 - 1)) with 128. change (2 ^ 8) with 256.
  case_decide as Hd; [|by rewrite wrap_small by (change (2 ^ 32) with 4294967296; lia)].
  split; [lia|]. intros _ E. unfold wrap at 1 in E.
  rewrite <-(Z_mod_plus_full _ 1) in E. change (2 ^ 32) with 4294967296 in E.
  rewrite Z.mod_small in E by lia. lia.
Qed.

(** Marking is active and the reference is not null. *)
Definition marking_live (m : mem) (v : Z) : bool :=
  bool_decide (u8 (m concurrent_marking_active_address) ≠ 0) && bool_decide (v ≠ 0).

Definition barred (b : bool) : list c2_event := if b then [Barred] else [].

Lemma load_barrier_run val emit_barrier m tr :
  run_stmts (reference_load_barrier concurrent_marking_active_address val emit_barrier) (m, tr) =
  let v := value_of m val in
  if marking_live m v
  then (callee_memory load_reference_call [v] m, tr ++ [CalledLeaf load_reference_call [v]] ++ barred emit_barrier)
  else (m, tr ++ barred emit_barrier).
Proof.
  unfold reference_load_barrier, marking_live, run_stmts. cbn [foldl]. rewrite run_if. cbn [value_of passes].
  rewrite (wrap_small 64) by done. change (u32 0) with 0. rewrite signed_byte_zero.
  destruct (bool_decide (u8 (m concurrent_marking_active_address) ≠ 0)); cbn [andb].
  2: { destruct emit_barrier; cbn; [done|by rewrite app_nil_r]. }
  unfold run_stmts. cbn [foldl]. rewrite run_if. cbn [value_of passes]. change (u64 0) with 0.
  destruct (bool_decide (value_of m val ≠ 0)).
  - destruct emit_barrier; cbn; by rewrite <-?app_assoc.
  - destruct emit_barrier; cbn; [done|by rewrite app_nil_r].
Qed.

Lemma leaves_barred b : leaves (barred b) = [].
Proof. by destruct b. Qed.

Lemma run_membar (b : bool) m t :
  run_stmts (if b then [MemBarCPUOrder] else []) (m, t) = (m, t ++ barred b).
Proof. destruct b; [done|]. by rewrite app_nil_r. Qed.

(** From memory [m] and the events [t], what follows hands [v] to mmtk-core if [b],
    and does nothing else. *)
Definition hands_over (b : bool) (v : Z) (m : mem) (t : list c2_event) (st : mem * list c2_event) : Prop :=
  leaves st.2 = leaves t ++ (if b then [(load_reference_call, [v])] else []) ∧
  st.1 = if b then callee_memory load_reference_call [v] m else m.

Lemma hands_over_nothing v m t : hands_over false v m t (m, t).
Proof. split; [by rewrite app_nil_r|done]. Qed.

(** The calls of the load barrier. *)
Lemma load_barrier_hands val (b1 b2 : bool) m t :
  hands_over (marking_live m (value_of m val)) (value_of m val) m t
    (run_stmts (reference_load_barrier concurrent_marking_active_address val b1 ++
                (if b2 then [MemBarCPUOrder] else [])) (m, t)).
Proof.
  rewrite run_stmts_app, load_barrier_run. cbv zeta. unfold hands_over.
  destruct (marking_live m (value_of m val)); rewrite run_membar; cbn [fst snd];
    by rewrite ?leaves_app, !leaves_barred, ?app_nil_r.
Qed.

Variables (decorators : DecoratorSet) (is_oop : bool) (adr obj offset load : node) (m : mem) (tr : list c2_event).

(** What the static types of the base and the offset say holds. *)
Record types_sound : Prop := {
  sound_offset c : find_intptr_con offset = Some c → - 2 ^ 63 ≤ c < 2 ^ 63 ∧ ∀ m, value_of m offset = u64 c;
  sound_array : bottom_type obj = AryPtr → ∀ m, is_reference_object (value_of m obj) = false;
  sound_instance klass : bottom_type obj = InstPtr klass → is_loaded klass = true →
    is_subtype_of_Reference klass = false → Object_is_subtype_of klass = false →
    ∀ m, is_reference_object (value_of m obj) = false
}.

Abbreviation m1 := (c2_memory C2Load [value_of m adr] m).

(** The access reads the referent of a reference object. *)
Definition of_referent : bool :=
  bool_decide (value_of m1 offset = u64 referent_offset) &&
  bool_decide (value_of m1 obj ≠ 0) && is_reference_object (value_of m1 obj).

Lemma unknown_load_run need_mem_bar t :
  types_sound →
  hands_over (of_referent && marking_live m1 (value_of m1 load)) (value_of m1 load) m1 t
    (run_stmts (reference_load_barrier_for_unknown_load concurrent_marking_active_address referent_offset
                  obj offset load need_mem_bar) (m1, t)).
Proof.
  intros [So Sa Si]. unfold reference_load_barrier_for_unknown_load, of_referent.
  destruct (match find_intptr_con offset with Some _ => _ | None => _ end) eqn:Eo.
  { destruct (find_intptr_con offset) as [c|]; [|done]. apply bool_decide_eq_true in Eo.
    destruct (So c eq_refl) as [Hc Hv]. rewrite Hv, bool_decide_eq_false_2; [apply hands_over_nothing|].
    intros E. apply Eo. unfold wrap in E. apply (f_equal (λ z, (z + 2 ^ 63) mod 2 ^ 64)) in E.
    rewrite !Zplus_mod_idemp_l, !Z.mod_small in E by word_range. lia. }
  destruct (match bottom_type obj with AryPtr => true | _ => _ end) eqn:Et.
  { assert (is_reference_object (value_of m1 obj) = false) as ->.
    { destruct (bottom_type obj) as [| |klass|]; try done; [by apply Sa|].
      apply andb_true_iff in Et as [Et E3]. apply andb_true_iff in Et as [E1 E2]. apply negb_true_iff in E2, E3.
      by apply (Si klass). }
    rewrite andb_false_r. apply hands_over_nothing. }
  unfold run_stmts at 1. cbn [foldl]. rewrite run_if. cbn [value_of passes].
  destruct (bool_decide (value_of m1 offset = u64 referent_offset)); cbn [andb]; [|apply hands_over_nothing].
  unfold run_stmts at 1. cbn [foldl]. rewrite run_if. cbn [value_of passes]. change (u32 1) with 1.
  case_decide as En; [rewrite (bool_decide_eq_false_2 (_ ≠ 0)) by auto; apply hands_over_nothing|].
  rewrite (bool_decide_eq_true_2 (value_of m1 obj ≠ 0)) by done. cbn [andb].
  destruct (is_reference_object (value_of m1 obj)); cbn [andb]; [|apply hands_over_nothing].
  rewrite bool_decide_eq_true_2 by done. apply load_barrier_hands.
Qed.

(** A load compiled by C2 under the SATB barrier records the loaded reference
    exactly when it has to: marking is active, the reference is not null, and
    the access is a weak one in the heap or reads the referent of a reference
    object; the checks that C2 makes at compile time, from constant offsets and
    static types, change nothing of this. *)
Theorem satb_c2_load :
  types_sound →
  let need := is_oop && IN_HEAP decorators &&
    (ON_WEAK_OOP_REF decorators ||
     (ON_UNKNOWN_OOP_REF decorators && negb (is_top offset) && negb (is_top obj) && of_referent)) in
  hands_over (need && marking_live m1 (value_of m1 load)) (value_of m1 load) m1 tr
    (run_stmts (c2_satb_load_at_resolved concurrent_marking_active_address referent_offset
                  decorators is_oop adr obj offset load) (m, tr)).
Proof.
  intros Hs need. subst need. unfold c2_satb_load_at_resolved.
  set (t := tr ++ [Performed C2Load [value_of m adr]]).
  assert (leaves t = leaves tr) as Et by (subst t; rewrite leaves_app; apply app_nil_r).
  assert (∀ l, run_stmts (RawAccess C2Load [adr] :: l) (m, tr) = run_stmts l (m1, t)) as -> by done.
  assert (∀ b v st, hands_over b v m1 t st → hands_over b v m1 tr st) as Ht
    by (unfold hands_over; by rewrite Et).
  apply Ht.
  destruct is_oop, (IN_HEAP decorators), (ON_WEAK_OOP_REF decorators); cbn [andb orb negb];
    try apply hands_over_nothing.
  - rewrite <-(app_nil_r (reference_load_barrier _ _ _)). apply (load_barrier_hands load true false).
  - destruct (ON_UNKNOWN_OOP_REF decorators); cbn [andb negb]; [|apply hands_over_nothing].
    destruct (is_top offset), (is_top obj); cbn [andb negb]; try apply hands_over_nothing.
    by apply unknown_load_run.
Qed.

End loads.

(** ** Concrete accesses *)

Section examples.
#[local] Instance idle_callee : Callee :=
  {| callee_memory _ _ mm := mm; callee_scratch _ _ _ _ := 0 |}.

(** Node 0 is an object at 4096, node 1 the value 8192, node 2 the address of the
    field at offset 16, node 3 that offset; node 4 is what a load returns. *)
#[local] Instance c2_run_example : C2Run := {|
  env k := nth k [4096; 8192; 4112; 16; 8192] 0;
  is_reference_object := λ _, true;
  c2_memory _ _ m := m |}.

(** C2 knows that the base of the address is node 0, and nothing else. *)
#[local] Instance c2_graph_example : C2Graph := {|
  is_null_con _ := false;
  just_allocated_object := None;
  Ideal_base_and_offset _ := (Existing 0, Some 16);
  Ideal_allocation _ := None;
  control_initializes := None;
  find_intptr_con _ := None;
  bottom_type _ := OtherOopPtr;
  is_top _ := false |}.

Definition c2_example_memory : mem := λ a, if decide (2 ^ 40 ≤ a) then 255 else 1.

Lemma c2_example_mapped : 0 ≤ 2 ^ 40 ∧ 2 ^ 40 + 2 ^ 57 < 2 ^ 64.
Proof. split; [discriminate|reflexivity]. Qed.

Lemma c2_example_ok : c2_access_ok (Existing 0) (Existing 2) (StoreVal (Existing 1)) c2_example_memory (λ _, False).
Proof.
  split.
  - split; [split; [discriminate|reflexivity]|reflexivity].
  - split_and!; try done. repeat constructor; done.
  - split; try done. by intros b o [= <- <-].
Qed.

Lemma object_c2_write_witness :
  (run_stmts (c2_object_write true true (2 ^ 40) true (Existing 0) (Existing 2) (StoreVal (Existing 1)))
     (c2_example_memory, [])).2 =
  [Performed C2Store [4112; 8192]; CalledLeaf write_slow_call [4096; 4112; 8192]].
Proof.
  destruct (object_c2_write true true (2 ^ 40) c2_example_mapped (Existing 0) (Existing 2) (StoreVal (Existing 1))
    c2_example_memory [] (λ _, False) c2_example_ok) as (called & E & _ & Hn).
  destruct called; [rewrite E; reflexivity|].
  destruct (Hn eq_refl) as [E1|[E1|[]]]; [vm_compute in E1; discriminate E1|vm_compute in E1; discriminate E1].
Defined.

Lemma satb_c2_write_witness :
  (run_stmts (c2_satb_write true true (2 ^ 40) true (Existing 0) (Existing 2) (StoreVal (Existing 1)))
     (c2_example_memory, [])).2 =
  [CalledLeaf write_slow_call [4096; 4112; 8192]; Performed C2Store [4112; 8192]].
Proof.
  destruct (satb_c2_write true true (2 ^ 40) c2_example_mapped (Existing 0) (Existing 2) (StoreVal (Existing 1))
    c2_example_memory [] (λ _, False) c2_example_ok) as (called & E & _ & Hn).
  destruct called; [rewrite E; reflexivity|].
  destruct (Hn eq_refl) as [E1|[]]. vm_compute in E1. discriminate E1.
Defined.

(** A load of unknown strength that reads the referent. *)
Lemma satb_c2_load_witness :
  let d := Decorators false false false true false true false false false false true false false false false in
  leaves (run_stmts (c2_satb_load_at_resolved 64 16 d true (Existing 2) (Existing 0) (Existing 3) (Existing 4))
    (c2_example_memory, [])).2 = [(load_reference_call, [8192])].
Proof.
  intros d. destruct (satb_c2_load 64 16) with (decorators := d) (is_oop := true) (adr := Existing 2)
    (obj := Existing 0) (offset := Existing 3) (load := Existing 4) (m := c2_example_memory) (tr := @nil c2_event)
    as [E _]; [..|rewrite E; vm_compute; reflexivity].
  - split; [discriminate|reflexivity].
  - split; [discriminate|reflexivity].
  - split; done.
Defined.

End examples.
