(* ===== verification/Tiers.v ===== *)
(** * One barrier in every execution tier

    The same program is interpreted, compiled by C1 and compiled by C2, and a
    mutator changes between them.  Here the writes of all three meet in one memory:
    each performs the code that its tier emits for a reference write
    ([AsmBarriers], [C1Safety], [C2Safety]), and what the barriers are for holds of
    any sequence of them.  mmtk-core is the interface of its slow paths on that
    memory. *)

From stdpp Require Import base numbers list sets.
From Stdlib Require Import ZArith Lia.
From S2P Require Import Prelude Slots Barrier BarrierSafety X86 AsmBarriers LIR C1Barriers C1Safety C2Barriers C2Safety.

Local Open Scope Z_scope.

(** ** The heap in memory *)

(** The reference that the slot at an address holds, and the slots of an object. *)
Class MemoryHeap := {
  reference : mem → Z → Z;
  slot_of : Z → Z → Prop;        (* slot, object *)
  slot_of_unique s a b : slot_of s a → slot_of s b → a = b
}.

Section tiers.
Context `{Callee} `{MemoryHeap}.
Variables mmtk_enable_barrier_fastpath mmtk_enable_allocation_fastpath : bool.
Variable side_metadata_base_address : Z.
Hypothesis metadata_mapped :
  0 ≤ side_metadata_base_address ∧ side_metadata_base_address + 2 ^ 57 < 2 ^ 64.
(** What HotSpot's [BarrierSetAssembler::store_at] emits. *)
Variable raw_store_at : DecoratorSet → AsmBarriers.BasicType → Address → option reg → reg → reg → list instr.
(** The stub of the barrier that is not there. *)
Variable other_target : callee.

Abbreviation bit := (meta_bit side_metadata_base_address).

(** ** Writes *)

(** A write of a reference to a field: the registers, operands or nodes it works
    on, and what HotSpot says about them.  The interpreter stores null without a
    register ([noreg]). *)
Inductive tier_write :=
| Interpreted (mach : machine) (decorators : DecoratorSet) (dst : Address) (val : option reg) (tmp1 tmp2 : reg)
| CompiledC1 (R : RawLIR) (access : LIRAccess) (w : c1_write) (n : nat) (values : nat → Z)
| CompiledC2 (R : C2Run) (G : C2Graph) (base addr : node) (w : c2_write).

(** The frame of a compiled write, with memory [m]. *)
Definition c1_state (values : nat → Z) (m : mem) : lstate := LState values m None [].

(** The object written to, the slot, and the new value. *)
Definition target (w : tier_write) (m : mem) : Z * Z * Z :=
  match w with
  | Interpreted mach _ dst val _ _ => (rf mach (X86.base dst), effective (rf mach) dst, from_option (rf mach) 0 val)
  | CompiledC1 _ access w _ values =>
      let s := c1_state values m in
      (opr_value s (base_opr access), opr_value s (resolved_addr access), opr_value s (c1_new_value w))
  | CompiledC2 _ _ base addr w => (value_of m base, value_of m addr, value_of m (c2_new_value w))
  end.
Definition written_object (w : tier_write) (m : mem) : Z := (target w m).1.1.
Definition written_slot (w : tier_write) (m : mem) : Z := (target w m).1.2.
Definition written_value (w : tier_write) (m : mem) : Z := (target w m).2.

(** The memory after the code of the write has run to its end. *)
Definition c1_result (pre_target post_target : callee) `{RawLIR} (code : outcome (option vreg * nat * list lir))
    (s : lstate) : option mem :=
  match code with
  | Ok (_, _, code) =>
      match LIR.run pre_target post_target code None s with Finished s => Some (lmem s) | _ => None end
  | _ => None
  end.
Definition asm_result (r : result) : option mem := match r with Falls m => Some (memory m) | _ => None end.

Definition satb_perform (w : tier_write) (m : mem) : option mem :=
  match w with
  | Interpreted mach d dst val tmp1 tmp2 =>
      asm_result (exec (satb_store_at mmtk_enable_barrier_fastpath side_metadata_base_address raw_store_at
                          d AsmBarriers.T_OBJECT dst val tmp1 tmp2) None (set_memory m mach))
  | CompiledC1 R access w n values =>
      c1_result (satb_pre_target mmtk_enable_barrier_fastpath) other_target
        (c1_satb_write mmtk_enable_barrier_fastpath side_metadata_base_address access w n) (c1_state values m)
  | CompiledC2 R G base addr w =>
      Some (run_stmts (c2_satb_write mmtk_enable_barrier_fastpath mmtk_enable_allocation_fastpath
                         side_metadata_base_address true base addr w) (m, [])).1
  end.

Definition object_perform (w : tier_write) (m : mem) : option mem :=
  match w with
  | Interpreted mach d dst val tmp1 tmp2 =>
      asm_result (exec (object_store_at mmtk_enable_barrier_fastpath side_metadata_base_address raw_store_at
                          d AsmBarriers.T_OBJECT dst val tmp1 tmp2) None (set_memory m mach))
  | CompiledC1 R access w n values =>
      c1_result other_target (object_post_target mmtk_enable_barrier_fastpath)
        (c1_object_write mmtk_enable_barrier_fastpath side_metadata_base_address access w n) (c1_state values m)
  | CompiledC2 R G base addr w =>
      Some (run_stmts (c2_object_write mmtk_enable_barrier_fastpath mmtk_enable_allocation_fastpath
                         side_metadata_base_address true base addr w) (m, [])).1
  end.

(** A sequence of writes, each in the memory the one before has left. *)
Fixpoint performs (perform : tier_write → mem → option mem) (ws : list tier_write) (m : mem) : option mem :=
  match ws with
  | [] => Some m
  | w :: ws => perform w m ≫= performs perform ws
  end.

(** [ok] of each write, where it is performed. *)
Fixpoint all_ok (ok : tier_write → mem → Prop) (perform : tier_write → mem → option mem)
    (ws : list tier_write) (m : mem) : Prop :=
  match ws with
  | [] => True
  | w :: ws => ok w m ∧ ∀ m', perform w m = Some m' → all_ok ok perform ws m'
  end.

(** ** What HotSpot's own part of a write does *)

(** The access changes no slot but its own, and nothing mmtk-core goes by: [L] is
    what mmtk-core has recorded. *)
Definition accesses {A} (L : mem → A) (slot : Z) (m m' : mem) : Prop :=
  (∀ s, s ≠ slot → reference m' s = reference m s) ∧ L m' = L m ∧ ∀ o, object o → bit m' o = bit m o.

Section writes.
Context {A : Type} (L : mem → A).
(** Objects that have met no safepoint since their allocation. *)
Variable fresh : Z → Prop.

(** HotSpot's code for the access itself, in the interpreter: it runs through. *)
Definition raw_store_runs (kept : reg → Prop) (mach : machine) (d : DecoratorSet) (dst : Address) (val : option reg)
    (tmp1 tmp2 : reg) : Prop :=
  ∀ mach1, (∀ r, kept r → rf mach1 r = rf mach r) →
  ∃ mach2, exec (raw_store_at d AsmBarriers.T_OBJECT dst val tmp1 tmp2) None mach1 = Falls mach2 ∧
    accesses L (effective (rf mach) dst) (memory mach1) (memory mach2) ∧
    rf mach2 (X86.base dst) = rf mach (X86.base dst).

(** C1's and C2's access. *)
Definition compiled_ok (w : tier_write) (m : mem) : Prop :=
  match w with
  | Interpreted _ _ _ _ _ _ => True
  | CompiledC1 R access w n values =>
      let s := c1_state values m in
      C1Safety.access_ok access w n s ∧
      ∀ m1, accesses L (opr_value s (resolved_addr access)) m1
              (raw_memory (c1_kind w) (opr_value s <$> c1_operands access w) m1)
  | CompiledC2 R G base addr w =>
      c2_access_ok base addr w m fresh ∧
      ∀ m1, accesses L (value_of m addr) m1 (c2_memory (c2_kind w) (value_of m <$> c2_operands addr w) m1)
  end.

(** What a write needs to run with the SATB barrier: the registers that the
    barrier uses are free, and the slot is one of the object. *)
Definition satb_ok (w : tier_write) (m : mem) : Prop :=
  slot_of (written_slot w m) (written_object w m) ∧ object (written_object w m) ∧ compiled_ok w m ∧
  match w with
  | Interpreted mach d dst val tmp1 tmp2 =>
      let tmp5 := if decide (tmp1 = X86.base dst ∨ Some tmp1 = X86.index dst) then tmp2 else tmp1 in
      let kept r := r ≠ tmp5 ∧ r ≠ rscratch1 ∧ r ≠ rscratch2 in
      IN_HEAP d = true ∧
      (∀ r, r = X86.base dst ∨ Some r = X86.index dst ∨ val = Some r → kept r) ∧
      (∀ t, t = tmp1 ∨ t = tmp2 → t ≠ rscratch1 ∧ t ≠ rscratch2 ∧ t ≠ rcx ∧ t ≠ rsp) ∧
      (X86.index dst = Some c_rarg0 → X86.base dst = c_rarg0) ∧ (val = Some c_rarg0 → X86.base dst = c_rarg0) ∧
      val ≠ Some c_rarg1 ∧ raw_store_runs kept mach d dst val tmp1 tmp2
  | CompiledC1 _ access _ n values => is_constant (resolved_addr access) = false ∧ lwords n (c1_state values m)
  | CompiledC2 _ _ _ _ _ => True
  end.

(** ... and with the object barrier. *)
Definition object_ok (w : tier_write) (m : mem) : Prop :=
  object (written_object w m) ∧ compiled_ok w m ∧
  match w with
  | Interpreted mach d dst val tmp1 tmp2 =>
      let obj := X86.base dst in
      IN_HEAP d = true ∧ obj ≠ tmp2 ∧ obj ≠ rscratch1 ∧ obj ≠ rscratch2 ∧
      tmp2 ≠ rscratch1 ∧ tmp2 ≠ rscratch2 ∧ tmp2 ≠ rcx ∧
      raw_store_runs (λ _, True) mach d dst val tmp1 tmp2
  | _ => True
  end.

(** ** The effect of a write, whatever its tier *)

(** The slow path is taken unless the object is logged, or fresh. *)
Definition satb_effect (src slot : Z) (m m' : mem) : Prop :=
  ∃ (called : bool) f v, (f = write_slow_call ∨ f = write_pre_call) ∧
    accesses L slot (if called then callee_memory f [src; slot; v] m else m) m' ∧
    (called = false → bit m src = false ∨ fresh src).

Definition object_effect (src slot v : Z) (m m' : mem) : Prop :=
  ∃ (called : bool) f l m1, (f = write_slow_call ∨ f = write_post_call) ∧
    accesses L slot m m1 ∧ m' = (if called then callee_memory f (src :: l) m1 else m1) ∧
    (called = false → bit m1 src = false ∨ v = 0 ∨ fresh src).

Lemma slow_path_false fast m src : slow_path fast side_metadata_base_address m src = false → bit m src = false.
Proof. intros E. by apply orb_false_iff in E as [_ ?]. Qed.

Lemma satb_tier w m :
  satb_ok w m → ∃ m', satb_perform w m = Some m' ∧ satb_effect (written_object w m) (written_slot w m) m m'.
Proof.
  intros (_ & Ho & Hc & Hw). destruct w as [mach d dst val tmp1 tmp2|R access w n values|R G base addr w];
    unfold written_object, written_slot in *; cbn [target fst snd satb_perform compiled_ok] in *.
  - destruct Hw as (Hd & Hk & Ht & Hi & Hv0 & Hv1 & Hraw). unfold satb_store_at. rewrite exec_app.
    destruct (satb_write_pre_exec mmtk_enable_barrier_fastpath side_metadata_base_address metadata_mapped
      (set_memory m mach) d dst val tmp1 tmp2) as (mach1 & z & E & _ & _ & Hr & HQ); auto; [by destruct Ho|].
    cbn [is_reference_type]. rewrite E. destruct (Hraw mach1) as (mach2 & E2 & Hacc & _); [by intros r (? & ? & ?); apply Hr|].
    rewrite E2. eexists. split; [done|]. cbn [rf memory set_memory] in HQ. cbv zeta in HQ.
    set (slow := mmtk_enable_barrier_fastpath && negb (bit m (rf mach (X86.base dst)))) in *.
    exists (negb slow), (if mmtk_enable_barrier_fastpath then write_slow_call else write_pre_call), z.
    split; [destruct mmtk_enable_barrier_fastpath; auto|]. split.
    + destruct slow; destruct HQ as [_ HM]; by rewrite HM in Hacc.
    + intros E3%negb_false_iff. left. subst slow. apply andb_true_iff in E3 as [_ E3]. by apply negb_true_iff.
  - destruct Hc as [Hok Hacc], Hw as [Hcon Hl].
    destruct (emits_run _ _ _ _ _ _ (satb_c1_emits mmtk_enable_barrier_fastpath side_metadata_base_address
      other_target access w n (c1_state values m) metadata_mapped Hok Hcon Hl)) as (r & n' & code & s' & E & Er & _ & _ & EM).
    rewrite E. unfold c1_result. rewrite Er. eexists. split; [done|]. cbn [lmem c1_state] in EM.
    eexists _, _, _. split; [|split; [rewrite EM; apply Hacc|]].
    + unfold satb_pre_target. destruct mmtk_enable_barrier_fastpath; auto.
    + intros [_ E3]%orb_false_iff. left. by eapply slow_path_false.
  - destruct Hc as [Hok Hacc]. rewrite (satb_c2_exec _ _ _ metadata_mapped base addr w m [] fresh Hok).
    eexists. split; [done|]. eexists _, _, _. split; [|split; [apply Hacc|]].
    + unfold c2_target. destruct mmtk_enable_barrier_fastpath; auto.
    + intros E. destruct (c2_calls_false _ _ _ base addr w m fresh _ _ Hok E) as [E1|[[? _]|?]]; [left|done|by right].
      by apply orb_false_iff in E1 as [_ ?].
Qed.

Lemma object_tier w m :
  object_ok w m → ∃ m', object_perform w m = Some m' ∧
    object_effect (written_object w m) (written_slot w m) (written_value w m) m m'.
Proof.
  intros (Ho & Hc & Hw). destruct w as [mach d dst val tmp1 tmp2|R access w n values|R G base addr w];
    unfold written_object, written_slot, written_value in *; cbn [target fst snd object_perform compiled_ok] in *.
  - destruct Hw as (Hd & O1 & O2 & O3 & O4 & O5 & O6 & Hraw). unfold object_store_at. rewrite exec_app.
    destruct (Hraw (set_memory m mach)) as (mach2 & E2 & Hacc & Er); [done|]. rewrite E2. cbn [is_reference_type].
    destruct val as [v|].
    2: { unfold object_write_post_code, AsmBarriers.can_remove_barrier. rewrite Hd. cbn. eexists. split; [done|].
         exists false, write_slow_call, [], (memory mach2). split_and!; auto. }
    destruct (object_write_post_exec mmtk_enable_barrier_fastpath side_metadata_base_address metadata_mapped
      mach2 d dst v tmp1 tmp2) as (mach1 & E & _ & HQ); auto; [by rewrite Er; destruct Ho|].
    rewrite E. eexists. split; [done|]. rewrite Er in HQ.
    set (slow := mmtk_enable_barrier_fastpath && negb (bit (memory mach2) (rf mach (X86.base dst)))) in *.
    eexists (negb slow), _, [0; 0], (memory mach2). split; [|split; [exact Hacc|split]].
    + instantiate (1 := if mmtk_enable_barrier_fastpath then write_slow_call else write_post_call).
      destruct mmtk_enable_barrier_fastpath; auto.
    + destruct slow; cbn [negb asm_result]; by destruct HQ as (_ & ? & _).
    + intros E3%negb_false_iff. left. subst slow. apply andb_true_iff in E3 as [_ E3]. by apply negb_true_iff.
  - destruct Hc as [Hok Hacc].
    destruct (emits_run _ _ _ _ _ _ (object_c1_emits mmtk_enable_barrier_fastpath side_metadata_base_address
      other_target access w n (c1_state values m) metadata_mapped Hok)) as (r & n' & code & s' & E & Er & _ & _ & EM).
    rewrite E. unfold c1_result. rewrite Er. eexists. split; [done|]. cbn [lmem c1_state] in EM.
    eexists _, _, _, _. split; [|split; [apply Hacc|split; [exact EM|]]].
    + unfold object_post_target. destruct mmtk_enable_barrier_fastpath; auto.
    + intros E3. left. by eapply slow_path_false.
  - destruct Hc as [Hok Hacc]. rewrite (object_c2_exec _ _ _ metadata_mapped base addr w m [] fresh Hok).
    eexists. split; [done|]. eexists _, _, _, _. split; [|split; [apply Hacc|split; [done|]]].
    + unfold c2_target. destruct mmtk_enable_barrier_fastpath; auto.
    + intros E. destruct (c2_calls_false _ _ _ base addr w m fresh _ _ Hok E) as [E1|[[_ ?]|?]]; [left|by auto|by auto].
      by apply orb_false_iff in E1 as [_ ?].
Qed.

End writes.

(** ** The snapshot *)

(** mmtk-core's SATB barrier: a slow call records what the slots of an object that
    is still unlogged hold, and logs the object. *)
Class SATBMemory := {
  recorded : mem → list Z;
  satb_call f src slot v m : f = write_slow_call ∨ f = write_pre_call → object src →
    let m' := callee_memory f [src; slot; v] m in
    recorded m ⊆ recorded m' ∧ (∀ s, reference m' s = reference m s) ∧
    (∀ o, object o → bit m' o = bit m o && bool_decide (o ≠ src)) ∧
    (bit m src = true → ∀ s, slot_of s src → reference m s ≠ 0 → reference m s ∈ recorded m')
}.

Section snapshot.
Context `{SATBMemory}.
Variable fresh : Z → Prop.
(** The objects of the snapshot, which is taken at a safepoint of memory [m0]. *)
Variable snapshot : Z → Prop.
Variable m0 : mem.
Hypothesis snapshot_objects : ∀ o, snapshot o → object o ∧ bit m0 o = true ∧ ¬ fresh o.

(** A trace of the snapshot will find the reference. *)
Definition found (m : mem) (v : Z) : Prop := v ≠ 0 → v ∈ recorded m.

Record snapshot_inv (m : mem) : Prop := {
  inv_kept o s : snapshot o → slot_of s o → reference m s = reference m0 s ∨ found m (reference m0 s);
  inv_logged o s : snapshot o → slot_of s o → bit m o = false → found m (reference m0 s)
}.

Lemma found_mono m m' v : recorded m ⊆ recorded m' → found m v → found m' v.
Proof. unfold found. auto. Qed.

(** The slow call keeps the invariant, and all that [src] held is found. *)
Lemma inv_call f src slot v m :
  f = write_slow_call ∨ f = write_pre_call → object src → snapshot_inv m →
  let m' := callee_memory f [src; slot; v] m in
  snapshot_inv m' ∧ (snapshot src → ∀ s, slot_of s src → found m' (reference m0 s)).
Proof.
  intros Hf Ho [Hk Hl] m'. destruct (satb_call f src slot v m Hf Ho) as (Hg & Hr & Hb & Hc). fold m' in Hg, Hr, Hb, Hc.
  assert (snapshot src → ∀ s, slot_of s src → found m' (reference m0 s)) as Hsrc.
  { intros Hs s Hso. destruct (bit m src) eqn:Eb; [|eapply found_mono; [done|by eapply Hl]].
    destruct (Hk src s Hs Hso) as [E|E]; [|by eapply found_mono].
    intros Hn. rewrite <-E in *. by apply Hc. }
  split; [|done]. split.
  - intros o s Hs Hso. rewrite Hr. destruct (Hk o s Hs Hso); [by left|right; by eapply found_mono].
  - intros o s Hs Hso. rewrite Hb by (by apply snapshot_objects). case_bool_decide as Hd.
    + rewrite andb_true_r. intros Eb. eapply found_mono; [done|by eapply Hl].
    + intros _. subst o. by apply Hsrc.
Qed.

(** The access, when the slot belongs to an object that needs no barrier, or has
    had it. *)
Lemma inv_access src slot m m' :
  slot_of slot src → accesses recorded slot m m' → snapshot_inv m →
  (snapshot src → found m (reference m0 slot)) → snapshot_inv m'.
Proof.
  intros Hsl (Hr & Hg & Hb) [Hk Hl] Hf.
  assert (∀ v, found m v → found m' v) as Hm by (intros v; unfold found; by rewrite Hg).
  split.
  - intros o s Hs Hso. destruct (decide (s = slot)) as [->|Hn].
    + right. apply Hm, Hf. by rewrite (slot_of_unique slot src o).
    + rewrite Hr by done. destruct (Hk o s Hs Hso); auto.
  - intros o s Hs Hso. rewrite Hb by (by apply snapshot_objects). intros E. apply Hm. by eapply Hl.
Qed.

Lemma inv_effect src slot m m' :
  slot_of slot src → object src → satb_effect recorded fresh src slot m m' → snapshot_inv m → snapshot_inv m'.
Proof.
  intros Hsl Ho (called & f & v & Hf & Ha & Hn) Hi. destruct called.
  - destruct (inv_call f src slot v m Hf Ho Hi) as [Hi' Hs]. eapply inv_access; eauto.
  - eapply inv_access; try done. intros Hs. destruct (Hn eq_refl) as [Eb|Hfr].
    + by eapply inv_logged.
    + by destruct (snapshot_objects src Hs) as (_ & _ & ?).
Qed.

(** C9. The snapshot survives whatever tier the mutator runs in: interpreted, C1
    and C2 writes, in any order, run to their ends, and afterwards every slot of
    every object of the snapshot holds what it held, or mmtk-core has recorded
    it. *)
Theorem satb_snapshot_all_tiers ws :
  all_ok (satb_ok recorded fresh) satb_perform ws m0 →
  ∃ m, performs satb_perform ws m0 = Some m ∧
    ∀ o s, snapshot o → slot_of s o → reference m s = reference m0 s ∨ found m (reference m0 s).
Proof.
  intros Hok. enough (∃ m, performs satb_perform ws m0 = Some m ∧ snapshot_inv m) as (m & E & Hi)
    by (exists m; split; [done|apply Hi]).
  assert (snapshot_inv m0) as Hi0.
  { split; [by left|]. intros o s Hs _. destruct (snapshot_objects o Hs) as (_ & -> & _). done. }
  revert Hok Hi0. generalize m0 at 1 2 3. induction ws as [|w ws IH]; intros m Hok Hi; [by exists m|].
  destruct Hok as [Hw Hok]. destruct (satb_tier recorded fresh w m Hw) as (m' & E & Heff). destruct (Hw) as (Hsl & Ho & _).
  cbn [performs]. rewrite E. apply IH; [by apply Hok|by eapply inv_effect].
Qed.

End snapshot.

(** ** The remembered set *)

(** mmtk-core's object barrier: a slow call remembers the object if it is still
    unlogged, and logs it. *)
Class ObjectMemory := {
  remembered : mem → list Z;
  object_call f src l m : f = write_slow_call ∨ f = write_post_call → object src →
    let m' := callee_memory f (src :: l) m in
    remembered m' = remembered m ++ (if bit m src then [src] else []) ∧
    ∀ o, object o → bit m' o = bit m o && bool_decide (o ≠ src)
}.

Section remembering.
Context `{ObjectMemory}.
Variable fresh : Z → Prop.

(** What the writes write: objects and new values, in order. *)
Fixpoint places (ws : list tier_write) (m : mem) : list (Z * Z) :=
  match ws with
  | [] => []
  | w :: ws =>
      (written_object w m, written_value w m) ::
      match object_perform w m with Some m' => places ws m' | None => [] end
  end.

(** [new] has been remembered since [m0], for the writes [ps]. *)
Record remembered_inv (m0 : mem) (ps : list (Z * Z)) (new : list Z) (m : mem) : Prop := {
  inv_remembered : remembered m = remembered m0 ++ new;
  inv_nodup : NoDup new;
  inv_sound o : o ∈ new → o ∈ ps.*1 ∧ bit m0 o = true;
  inv_complete o v : (o, v) ∈ ps → bit m0 o = true → v ≠ 0 → ¬ fresh o → o ∈ new;
  inv_bits o : object o → bit m o = bit m0 o && bool_decide (o ∉ new)
}.

Lemma inv_write m0 ps new src slot v m m' :
  object src → remembered_inv m0 ps new m → object_effect remembered fresh src slot v m m' →
  ∃ new', remembered_inv m0 (ps ++ [(src, v)]) new' m'.
Proof.
  intros Ho [Hr Hnd Hs Hc Hb] (called & f & l & m1 & Hf & (_ & Hg & Hb1) & -> & Hn).
  set (logged := called && bit m1 src).
  assert (remembered (if called then callee_memory f (src :: l) m1 else m1) =
            remembered m ++ (if logged then [src] else []) ∧
          ∀ o, object o → bit (if called then callee_memory f (src :: l) m1 else m1) o =
            bit m o && bool_decide (o ∉ if logged then [src] else [])) as [Hr' Hb'].
  { subst logged. destruct called; cbn [andb].
    - destruct (object_call f src l m1 Hf Ho) as [-> Hb2]. rewrite Hg. split; [done|].
      intros o Hoo. rewrite Hb2, Hb1 by done. destruct (bit m1 src) eqn:E.
      + f_equal. apply bool_decide_ext. by rewrite list_elem_of_singleton.
      + rewrite (bool_decide_eq_true_2 (o ∉ [])) by apply not_elem_of_nil. case_bool_decide as Hd; [done|].
        subst o. by rewrite <-Hb1, E by done.
    - split; [by rewrite app_nil_r|]. intros o Hoo. rewrite Hb1 by done.
      rewrite (bool_decide_eq_true_2 (o ∉ [])) by apply not_elem_of_nil. by rewrite andb_true_r. }
  assert (bit m1 src = bit m0 src && bool_decide (src ∉ new)) as E1 by (rewrite Hb1; auto).
  exists (new ++ if logged then [src] else []). split.
  - by rewrite Hr', Hr, app_assoc.
  - subst logged. destruct called, (bit m1 src); cbn [andb]; rewrite ?app_nil_r; try done.
    symmetry in E1. apply andb_true_iff in E1 as [_ E1%bool_decide_eq_true].
    apply NoDup_app. split_and!; [done| |apply NoDup_singleton].
    intros o Hin ->%list_elem_of_singleton. done.
  - intros o. rewrite fmap_app, !elem_of_app. subst logged. intros [Hin|Hin].
    + destruct (Hs o Hin). by auto.
    + destruct called, (bit m1 src); cbn [andb] in Hin; try (by apply not_elem_of_nil in Hin).
      apply list_elem_of_singleton in Hin as ->. symmetry in E1. apply andb_true_iff in E1 as [E1 _].
      split; [right; by apply list_elem_of_singleton|done].
  - intros o v'. rewrite !elem_of_app, list_elem_of_singleton. intros [Hin|[= -> ->]] Eb Hv Hfr; [left; by eapply Hc|].
    rewrite Eb in E1. cbn [andb] in E1. subst logged. destruct (decide (src ∈ new)) as [?|Hni]; [by left|].
    rewrite bool_decide_eq_true_2 in E1 by done. right.
    destruct called; [rewrite E1; cbn [andb]; by apply list_elem_of_singleton|].
    destruct (Hn eq_refl) as [E|[?|?]]; [congruence|done|done].
  - intros o Hoo. rewrite Hb', Hb by done. rewrite <-andb_assoc, <-bool_decide_and. f_equal.
    apply bool_decide_ext. by rewrite not_elem_of_app.
Qed.

(** C11. The remembered set is complete whatever tier the mutator runs in:
    interpreted, C1 and C2 writes, in any order, run to their ends, and the objects
    that mmtk-core has been told of since the start are unlogged objects that were
    written to, each once, and all of them but those that have only received nulls
    or have met no safepoint since their allocation. *)
Theorem object_remembered_all_tiers ws m0 :
  all_ok (object_ok remembered fresh) object_perform ws m0 →
  ∃ m new, performs object_perform ws m0 = Some m ∧ remembered m = remembered m0 ++ new ∧ NoDup new ∧
    (∀ o, o ∈ new → o ∈ (places ws m0).*1 ∧ bit m0 o = true) ∧
    (∀ o v, (o, v) ∈ places ws m0 → bit m0 o = true → v ≠ 0 → ¬ fresh o → o ∈ new).
Proof.
  intros Hok. enough (∃ m new, performs object_perform ws m0 = Some m ∧ remembered_inv m0 ([] ++ places ws m0) new m)
    as (m & new & E & []) by (by exists m, new).
  assert (remembered_inv m0 [] [] m0) as Hi0.
  { split; [by rewrite app_nil_r|constructor|..]; try set_solver.
    intros o _. rewrite bool_decide_eq_true_2 by set_solver. by rewrite andb_true_r. }
  revert Hok Hi0. generalize (@nil Z) as new. generalize (@nil (Z * Z)) as ps. generalize m0 at 1 3 4 6 as m.
  induction ws as [|w ws IH]; intros m ps new Hok Hi.
  { exists m, new. by rewrite app_nil_r. }
  destruct Hok as [Hw Hok]. destruct (object_tier remembered fresh w m Hw) as (m' & E & Heff).
  destruct (inv_write _ _ _ _ _ _ _ _ (proj1 Hw) Hi Heff) as (new' & Hi').
  cbn [performs places]. rewrite E. destruct (IH _ _ _ (Hok m' E) Hi') as (m2 & new2 & E2 & Hi2).
  exists m2, new2. split; [done|]. by rewrite <-app_assoc in Hi2.
Qed.

End remembering.
End tiers.

(** ** A concrete memory

    References are words below 2^30, and mmtk-core keeps its log at negative
    addresses: the number of entries at -1, and for each an object and what its
    two slots held. *)

Section examples.
Definition toy_reference (m : mem) (s : Z) : Z :=
  if decide (s mod 8 = 0 ∧ 0 ≤ s < 2 ^ 30) then read 8 m s else 0.

#[local] Instance toy_memory_heap : MemoryHeap.
Proof.
  refine {| reference := toy_reference;
            slot_of s o := toy_field s o ∧ o < 2 ^ 20 |}.
  intros s a b [Ha _] [Hb _]. by apply (toy_field_unique s).
Defined.

Definition log_size (m : mem) : Z := Z.max 0 (m (-1)).

(** One more entry after the log of [m]; the rest is [m1]. *)
Definition log_entry (src v1 v2 : Z) (m1 m : mem) : mem :=
  let c := log_size m in
  λ a, if decide (a = -1) then c + 1
       else if decide (a = -2 - 3 * c) then src
       else if decide (a = -3 - 3 * c) then v1
       else if decide (a = -4 - 3 * c) then v2
       else m1 a.

Definition toy_log (src : Z) (m : mem) : mem :=
  if meta_bit toy_base m src
  then log_entry src (reference m src) (reference m (src + 8)) (clear_bit m src) m else m.

#[local] Instance toy_memory_callee : Callee := {|
  callee_memory f l m :=
    match f, l with
    | (write_slow_call | write_pre_call | write_post_call), src :: _ => toy_log src m
    | _, _ => m
    end;
  callee_scratch _ _ _ _ := 0 |}.

(** The [k]-th column of the log. *)
Definition log_column (k : Z) (m : mem) : list Z := (λ i, m (- k - 3 * i)) <$> seqZ 0 (log_size m).

(** The metadata of objects is above [toy_base]. *)
Lemma toy_meta_above o : object o → toy_base ≤ meta_addr toy_base o.
Proof.
  intros [Ho _]. unfold meta_addr. rewrite i64_small by done.
  assert (0 ≤ Z.shiftr o 6) by (apply Z.shiftr_nonneg; lia). lia.
Qed.

(** Memories that agree where references, the log and the metadata are. *)
Lemma toy_same_references m m' :
  (∀ a, 0 ≤ a < 2 ^ 31 → m' a = m a) → ∀ s, reference m' s = reference m s.
Proof.
  intros Hm s. cbn [reference toy_memory_heap]. unfold toy_reference. case_decide as Hs; [|done]. apply read_ext. intros x Hx. apply Hm. lia.
Qed.

Lemma toy_same_log k m m' : 0 < k → (∀ a, a < 0 → m' a = m a) → log_column k m' = log_column k m.
Proof.
  intros Hk Hm. unfold log_column, log_size. rewrite Hm by lia.
  apply list_fmap_ext. intros _ i Hi%list_elem_of_lookup_2%elem_of_seqZ. apply Hm. lia.
Qed.

Lemma toy_same_bits m m' :
  (∀ a, toy_base ≤ a → m' a = m a) → ∀ o, object o → meta_bit toy_base m' o = meta_bit toy_base m o.
Proof. intros Hm o Ho. unfold meta_bit. by rewrite Hm by (by apply toy_meta_above). Qed.

Lemma log_entry_frame src v1 v2 m1 m a : 0 ≤ a → log_entry src v1 v2 m1 m a = m1 a.
Proof. intros Ha. unfold log_entry, log_size. by rewrite !decide_False by lia. Qed.

Lemma log_entry_columns src v1 v2 m1 m :
  (∀ a, a < 0 → m1 a = m a) →
  log_column 2 (log_entry src v1 v2 m1 m) = log_column 2 m ++ [src] ∧
  log_column 3 (log_entry src v1 v2 m1 m) = log_column 3 m ++ [v1] ∧
  log_column 4 (log_entry src v1 v2 m1 m) = log_column 4 m ++ [v2].
Proof.
  intros Hm. set (c := log_size m). set (m' := log_entry src v1 v2 m1 m).
  assert (0 ≤ c) as Hc by (subst c; unfold log_size; lia).
  assert (∀ k v, 2 ≤ k ≤ 4 → m' (- k - 3 * c) = v → log_column k m' = log_column k m ++ [v]) as Hcol.
  { intros k v Hk <-. unfold log_column.
    assert (log_size m' = c + 1) as -> by (unfold log_size, m', log_entry; rewrite decide_True by done; fold c; lia).
    fold c. rewrite seqZ_app by lia. rewrite fmap_app. f_equal.
    apply list_fmap_ext. intros _ i Hi%list_elem_of_lookup_2%elem_of_seqZ. subst m'. unfold log_entry. fold c.
    rewrite !decide_False by lia. apply Hm. lia. }
  split_and!; apply Hcol; try lia; subst m'; unfold log_entry; fold c.
  - rewrite decide_False by lia. by rewrite decide_True by lia.
  - rewrite !decide_False by lia. by rewrite decide_True by lia.
  - rewrite !decide_False by lia. by rewrite decide_True by lia.
Qed.

(** A slow call appends an entry for an unlogged object. *)
Lemma toy_log_spec src m :
  object src →
  (∀ s, reference (toy_log src m) s = reference m s) ∧
  (∀ o, object o → meta_bit toy_base (toy_log src m) o = meta_bit toy_base m o && bool_decide (o ≠ src)) ∧
  log_column 2 (toy_log src m) = log_column 2 m ++ (if meta_bit toy_base m src then [src] else []) ∧
  log_column 3 (toy_log src m) = log_column 3 m ++ (if meta_bit toy_base m src then [reference m src] else []) ∧
  log_column 4 (toy_log src m) = log_column 4 m ++ (if meta_bit toy_base m src then [reference m (src + 8)] else []).
Proof.
  intros Ho. pose proof (toy_meta_above src Ho) as Hs. unfold toy_base in Hs.
  unfold toy_log. destruct (meta_bit toy_base m src) eqn:Eb.
  2: { rewrite !app_nil_r. split_and!; try done. intros o Hoo. case_bool_decide; [by rewrite andb_true_r|].
       subst o. by rewrite Eb. }
  assert (∀ a, 0 ≤ a → log_entry src (reference m src) (reference m (src + 8)) (clear_bit m src) m a =
    clear_bit m src a) as Hpos by (intros; by apply log_entry_frame).
  split_and!; try apply log_entry_columns;
    try (intros a Ha; unfold clear_bit, toy_base in *; by rewrite decide_False by lia).
  - apply toy_same_references. intros a Ha. rewrite Hpos by lia. unfold clear_bit, toy_base in *.
    by rewrite decide_False by lia.
  - intros o Hoo. rewrite <-clear_bit_logs by done. unfold meta_bit. rewrite Hpos; [done|].
    pose proof (toy_meta_above o Hoo). unfold toy_base in *. lia.
Qed.

#[local] Instance toy_satb_memory : SATBMemory toy_base.
Proof.
  refine {| recorded m := log_column 3 m ++ log_column 4 m |}.
  intros f src slot v m Hf Ho m'. assert (m' = toy_log src m) as -> by (by destruct Hf as [-> | ->]).
  destruct (toy_log_spec src m Ho) as (Hr & Hb & _ & -> & ->). split_and!; [|done|done|].
  - intros x. rewrite !elem_of_app. tauto.
  - intros -> s [(_ & _ & [-> | ->]) _] _; rewrite !elem_of_app, !list_elem_of_singleton; auto.
Defined.

#[local] Instance toy_object_memory : ObjectMemory toy_base.
Proof.
  refine {| remembered m := log_column 2 m |}.
  intros f src l m Hf Ho m'. assert (m' = toy_log src m) as -> by (by destruct Hf as [-> | ->]).
  destruct (toy_log_spec src m Ho) as (_ & Hb & -> & _). done.
Defined.

(** A store of a word to a slot. *)
Lemma toy_accesses k slot v m :
  0 < k → slot mod 8 = 0 → 0 ≤ slot < 2 ^ 30 → accesses toy_base (log_column k) slot m (write 8 m slot v).
Proof.
  intros Hk H8 Hs. split_and!.
  - intros s Hne. cbn [reference toy_memory_heap]. unfold toy_reference. case_decide as Hd; [|done]. apply read_write_ne.
    destruct Hd as [Hd _]. change (Z.of_nat 8) with 8. Z.div_mod_to_equations. lia.
  - apply toy_same_log; [done|]. intros a Ha. apply write_frame. lia.
  - apply toy_same_bits. intros a Ha. apply write_frame. unfold toy_base in Ha. change (Z.of_nat 8) with 8. lia.
Qed.

(** Objects at 4096 and 4112, whose second slots are written: by the interpreter,
    which stores null in the second, by C1, and by C2. *)
Definition toy_start_memory : mem := λ a, if decide (a < 0) then 0 else if decide (toy_base ≤ a) then 255 else 1.
Definition toy_raw_store_at (d : DecoratorSet) (type : AsmBarriers.BasicType) (dst : Address) (val : option reg)
    (tmp1 tmp2 : reg) : list instr :=
  match val with Some v => [movptr_store dst v] | None => [movptr_imm tmp1 0; movptr_store dst tmp1] end.
Definition toy_raw_lir : RawLIR := {|
  raw_value _ _ _ := 0;
  raw_memory _ l m := match l with [addr; v] => write 8 m addr v | _ => m end;
  reads_referent := false |}.
Definition toy_c2_run : C2Run := {|
  env k := nth k [4096; 4104; 512] 0;
  is_reference_object _ := false;
  c2_memory _ l m := match l with [addr; v] => write 8 m addr v | _ => m end |}.
Definition toy_c2_graph : C2Graph := {|
  is_null_con _ := false;
  just_allocated_object := None;
  Ideal_base_and_offset _ := (Existing 0, Some 8);
  Ideal_allocation _ := None;
  control_initializes := None;
  find_intptr_con _ := None;
  bottom_type _ := OtherOopPtr;
  is_top _ := false |}.

Definition toy_access : LIRAccess := {|
  decorators := heap_access; is_oop := true; base_opr := LIR.Register (V T_OBJECT 0);
  resolved_addr := AddressOpr (LAddr (V T_OBJECT 0) None 0 8) |}.
Definition toy_writes : list tier_write :=
  [Interpreted (Machine (λ r, match r with rdx => 4096 | _ => 8192 end) (λ _, 0) None [] []) heap_access
     (Addr rdx None 0 8) (Some rax) rbx rbp;
   Interpreted (Machine (λ r, match r with rdx => 4112 | _ => 8192 end) (λ _, 0) None [] []) heap_access
     (Addr rdx None 0 8) None rbx rbp;
   CompiledC1 toy_raw_lir toy_access (C1Store (LIR.Register (V T_OBJECT 1))) 2
     (λ r, match r with O => 4112 | _ => 8192 end);
   CompiledC2 toy_c2_run toy_c2_graph (Existing 0) (Existing 1) (StoreVal (Existing 2))].

Lemma toy_object z : 0 ≤ z < 2 ^ 20 → z mod 8 = 0 → object z.
Proof. intros ? ?. split; [lia|done]. Qed.

(** What all three writes have, with either barrier. *)
Lemma toy_compiled {A} (L : mem → A) w m :
  (∀ slot v m, slot mod 8 = 0 → 0 ≤ slot < 2 ^ 30 → accesses toy_base L slot m (write 8 m slot v)) →
  w ∈ toy_writes → compiled_ok toy_base L (λ _, False) w m.
Proof.
  intros HL Hw. unfold toy_writes in Hw. rewrite !elem_of_cons, elem_of_nil in Hw.
  destruct Hw as [-> | [-> | [-> | [-> | []]]]]; cbn [compiled_ok]; [done|done|split|split].
  - split; try done; try (cbn; lia).
    + split; [cbn; lia|done].
    + repeat constructor; try done; cbn; lia.
  - intros m1. by apply HL.
  - split; [by apply toy_object|by split_and!; try done; repeat constructor|].
    split; try done. by intros b o [= <- <-].
  - intros m1. by apply HL.
Qed.

Lemma toy_raw_runs {K : Callee} {A} (L : mem → A) kept mach d dst val tmp1 tmp2 :
  (∀ v m, accesses toy_base L (effective (rf mach) dst) m (write 8 m (effective (rf mach) dst) v)) →
  kept (X86.base dst) → X86.index dst = None → tmp1 ≠ X86.base dst →
  raw_store_runs (H := K) toy_base toy_raw_store_at L kept mach d dst val tmp1 tmp2.
Proof.
  intros HL Hb Hi Ht mach1 Hk. destruct dst as [b i sc di]. cbn [X86.index X86.base] in *. subst i.
  assert (∀ rs : regs, rs b = rf mach b → effective rs (Addr b None sc di) = effective (rf mach) (Addr b None sc di)) as He
    by (intros rs E; unfold effective; cbn; by rewrite E).
  assert (rf mach1 b = rf mach b) as E1 by (by apply Hk).
  destruct val as [v|]; eexists; (split; [reflexivity|]); cbn [memory set_memory rf set_reg].
  - rewrite (He (rf mach1)) by done. split; [apply HL|done].
  - rewrite (He (upd tmp1 _ (rf mach1))) by (by rewrite upd_ne by congruence).
    split; [apply HL|by rewrite upd_ne by congruence].
Qed.

Lemma toy_mapped : 0 ≤ toy_base ∧ toy_base + 2 ^ 57 < 2 ^ 64.
Proof. split; [discriminate|reflexivity]. Qed.

Lemma toy_snapshot o : o = 4096 ∨ o = 4112 → object o ∧ meta_bit toy_base toy_start_memory o = true ∧ ¬ False.
Proof. intros [-> | ->]; (split; [by apply toy_object|]); (split; [vm_compute; reflexivity|intros []]). Qed.

Lemma toy_slot_of o : o = 4096 ∨ o = 4112 → slot_of (o + 8) o.
Proof. intros [-> | ->]; (split; [split; [by apply toy_object|by auto]|reflexivity]). Qed.

(** A store leaves the log of recorded references alone. *)
Lemma toy_accesses_recorded slot v m :
  slot mod 8 = 0 → 0 ≤ slot < 2 ^ 30 → accesses toy_base (recorded toy_base) slot m (write 8 m slot v).
Proof.
  intros H8 Hs. destruct (toy_accesses 3 slot v m) as (A1 & A2 & A3); try done.
  destruct (toy_accesses 4 slot v m) as (_ & A4 & _); try done. split; [done|]. split; [|done].
  cbn. by rewrite A2, A4.
Qed.

(** The writes run, wherever they are in a sequence. *)
Lemma toy_satb_ok {K : Callee} {A} (L : mem → A) w m :
  (∀ slot v m, slot mod 8 = 0 → 0 ≤ slot < 2 ^ 30 → accesses toy_base L slot m (write 8 m slot v)) →
  w ∈ toy_writes → satb_ok (H := K) toy_base toy_raw_store_at L (λ _, False) w m.
Proof.
  intros HL Hw.
  pose proof (toy_compiled L w m HL Hw) as Hc.
  unfold toy_writes in Hw. rewrite !elem_of_cons, elem_of_nil in Hw.
  destruct Hw as [-> | [-> | [-> | [-> | []]]]].
  1, 2: split; [apply toy_slot_of; by auto|]; split; [by apply toy_object|]; split; [done|];
    split_and!; try done; try (intros t [-> | ->]; done);
    try (apply toy_raw_runs; try done; intros v m1; by apply HL);
    (intros r [-> |[Hr|Hr]]; [done|discriminate Hr|]; try discriminate Hr; injection Hr as <-; done).
  - split; [apply toy_slot_of; by right|]. split; [by apply toy_object|]. split; [done|]. split; [done|].
    intros r _. destruct r; split; done.
  - split; [apply toy_slot_of; by left|]. split; [by apply toy_object|]. by split.
Qed.

Lemma toy_object_ok w m : w ∈ toy_writes → object_ok toy_base toy_raw_store_at (remembered toy_base) (λ _, False) w m.
Proof.
  intros Hw.
  assert (∀ slot v m, slot mod 8 = 0 → 0 ≤ slot < 2 ^ 30 →
    accesses toy_base (remembered toy_base) slot m (write 8 m slot v)) as HL
    by (intros; by apply toy_accesses).
  pose proof (toy_compiled (remembered toy_base) w m HL Hw) as Hc.
  unfold toy_writes in Hw. rewrite !elem_of_cons, elem_of_nil in Hw.
  destruct Hw as [-> | [-> | [-> | [-> | []]]]]; (split; [by apply toy_object|]; split; [done|]); try done;
    (split_and!; try done; apply toy_raw_runs; try done; intros v m1; by apply HL).
Qed.

Lemma toy_all_ok (ok : tier_write → mem → Prop) perform ws m :
  (∀ w m, w ∈ ws → ok w m) → all_ok ok perform ws m.
Proof.
  revert m. induction ws as [|w ws IH]; intros m Hok; [done|].
  split; [apply Hok; by left|]. intros m' _. apply IH. intros w' m1 Hw. apply Hok. by right.
Qed.

Lemma satb_snapshot_all_tiers_witness :
  ∃ m, performs (satb_perform true true toy_base toy_raw_store_at write_post_call) toy_writes toy_start_memory = Some m ∧
    (reference m 4104 = 72340172838076673 ∨ 72340172838076673 ∈ recorded toy_base m).
Proof.
  destruct (satb_snapshot_all_tiers true true toy_base toy_mapped toy_raw_store_at write_post_call (λ _, False)
    (λ o, o = 4096 ∨ o = 4112) toy_start_memory toy_snapshot toy_writes
    (toy_all_ok _ _ toy_writes toy_start_memory
      (λ w m, toy_satb_ok (recorded toy_base) w m toy_accesses_recorded))) as (m & E & Hm).
  exists m. split; [exact E|]. clear E.
  assert (reference toy_start_memory 4104 = 72340172838076673) as E by (vm_compute; reflexivity).
  destruct (Hm 4096 4104 (or_introl eq_refl) (toy_slot_of 4096 (or_introl eq_refl))) as [Er|Er].
  - left. exact (eq_trans Er E).
  - right. rewrite E in Er. apply Er. discriminate.
Defined.

Lemma object_remembered_all_tiers_witness :
  ∃ m, performs (object_perform true true toy_base toy_raw_store_at write_pre_call) toy_writes toy_start_memory = Some m ∧
    4096 ∈ remembered toy_base m.
Proof.
  destruct (object_remembered_all_tiers true true toy_base toy_mapped toy_raw_store_at write_pre_call (λ _, False)
    toy_writes toy_start_memory (toy_all_ok _ _ toy_writes toy_start_memory toy_object_ok)) as (m & new & E & Er & _ & _ & Hc).
  exists m. split; [exact E|]. clear E. rewrite Er. apply elem_of_app. right.
  apply (Hc 4096 8192); [left|vm_compute; reflexivity|discriminate|intros []].
Defined.

End examples.
