(* ===== verification/LoadTiers.v ===== *)
(** * Weak loads in every execution tier

    While concurrent marking is in progress, a reference that a program gets out of
    a [java.lang.ref.Reference] joins what must be kept alive: the load barrier hands
    it to mmtk-core.  Here the writes of [Tiers] and the weak loads of the
    interpreter ([AsmBarriers]), C1 ([C1Safety]) and C2 ([C2Safety]) meet in one
    memory, and the marking finds all that the program can have. *)

From stdpp Require Import base numbers list sets.
From Stdlib Require Import ZArith Lia.
From S2P Require Import Prelude Slots Barrier BarrierSafety X86 AsmBarriers LIR C1Barriers C1Safety.
From S2P Require Import C2Barriers C2Safety Tiers.

Local Open Scope Z_scope.

Section loads.
Context `{Callee} `{MemoryHeap}.
Variables mmtk_enable_barrier_fastpath mmtk_enable_allocation_fastpath : bool.
Variable side_metadata_base_address : Z.
Variable concurrent_marking_active_address : Z.
Variable referent_offset : Z.
(** What HotSpot's [BarrierSetAssembler::store_at] and [load_at] emit. *)
Variable raw_store_at : DecoratorSet → AsmBarriers.BasicType → Address → option reg → reg → reg → list instr.
Variable raw_load_at : DecoratorSet → AsmBarriers.BasicType → reg → Address → list instr.
Variables pre_target post_target : callee.

(** The variable [CONCURRENT_MARKING_ACTIVE], which [Collection] keeps at 0 or 1. *)
Definition flag (m : mem) : Z := u8 (m concurrent_marking_active_address).

(** ** Loads *)

(** A load of a reference: the registers, operands or nodes it works on, and what
    HotSpot says about them. *)
Inductive tier_load :=
| InterpretedLoad (mach : machine) (decorators : DecoratorSet) (dst : reg) (src : Address)
| LoadC1 (R : RawLIR) (access : LIRAccess) (result : vreg) (n : nat) (values : nat → Z)
| LoadC2 (R : C2Run) (G : C2Graph) (decorators : DecoratorSet) (adr obj offset load : node).

(** The loaded reference and the memory after the code of the load. *)
Definition load_perform (l : tier_load) (m : mem) : option (Z * mem) :=
  match l with
  | InterpretedLoad mach d dst src =>
      match exec (satb_load_at concurrent_marking_active_address raw_load_at d AsmBarriers.T_OBJECT dst src)
              None (set_memory m mach) with
      | Falls mach' => Some (rf mach' dst, memory mach')
      | _ => None
      end
  | LoadC1 R access result n values =>
      match c1_satb_load_at_resolved concurrent_marking_active_address access result n with
      | Ok (_, _, code) =>
          match LIR.run pre_target post_target code None (c1_state values m) with
          | Finished s => Some (lregs s (vnum result), lmem s)
          | _ => None
          end
      | _ => None
      end
  | LoadC2 R G d adr obj offset load =>
      Some (value_of (c2_memory C2Load [value_of m adr] m) load,
            (run_stmts (c2_satb_load_at_resolved concurrent_marking_active_address referent_offset d true
                          adr obj offset load) (m, [])).1)
  end.

(** The load may bring a weakly held reference back: it is declared weak, or phantom
    where the tier has such loads, or it is of unknown strength and reads a referent.
    HotSpot's own part of it does not write. *)
Definition load_ok (l : tier_load) (m : mem) : Prop :=
  match l with
  | InterpretedLoad mach d dst src =>
      (ON_WEAK_OOP_REF d = true ∨ ON_PHANTOM_OOP_REF d = true) ∧ dst ≠ rscratch1 ∧ dst ≠ rscratch2 ∧
      ∃ mach1, straight (raw_load_at d AsmBarriers.T_OBJECT dst src) (set_memory m mach) = Some mach1 ∧
        memory mach1 = m
  | LoadC1 R access result n values =>
      let d := decorators access in
      (vnum result < n)%nat ∧ is_oop access = true ∧
      (if ON_UNKNOWN_OOP_REF d then reads_referent = true else ON_WEAK_OOP_REF d = true ∨ ON_PHANTOM_OOP_REF d = true) ∧
      raw_memory RawLoad [opr_value (c1_state values m) (resolved_addr access)] m = m
  | LoadC2 R G d adr obj offset load =>
      types_sound obj offset ∧ IN_HEAP d = true ∧
      (ON_WEAK_OOP_REF d = true ∨
       ON_UNKNOWN_OOP_REF d = true ∧ is_top offset = false ∧ is_top obj = false ∧
       of_referent referent_offset adr obj offset m = true) ∧
      c2_memory C2Load [value_of m adr] m = m
  end.

Hypothesis flag_mapped : 0 ≤ concurrent_marking_active_address < 2 ^ 64.
Hypothesis offset_range : 0 ≤ referent_offset < 2 ^ 63.

(** In every tier a weak load runs to its end, and hands the reference to mmtk-core
    exactly if marking is active and the reference is not null. *)
Lemma load_tier l m :
  load_ok l m → flag m = 0 ∨ flag m = 1 →
  ∃ v, load_perform l m =
    Some (v, if bool_decide (flag m = 1) && bool_decide (v ≠ 0) then callee_memory load_reference_call [v] m else m).
Proof.
  intros Hok Hf. destruct l as [mach d dst src|R access result n values|R G d adr obj offset load];
    cbn [load_ok load_perform] in *.
  - destruct Hok as (Hd & H1 & H2 & mach1 & E1 & EM).
    destruct (satb_load_at_asm concurrent_marking_active_address raw_load_at (set_memory m mach) mach1 d
      AsmBarriers.T_OBJECT dst src E1 flag_mapped H1 H2) as (mach' & E & _ & Er & _ & EM').
    rewrite E. exists (rf mach1 dst). rewrite (Er dst H1 H2), EM', EM. do 2 f_equal.
    fold (flag m). do 2 case_bool_decide; cbn [andb].
    + by rewrite decide_True.
    + rewrite decide_False; [done|tauto].
    + rewrite decide_False; [done|tauto].
    + rewrite decide_False; [done|tauto].
  - destruct Hok as (Hn & Ho & Hd & EM).
    destruct (satb_c1_load concurrent_marking_active_address pre_target post_target access result n (c1_state values m)
      Hn flag_mapped) as (n' & code & s' & E & Er & Ev & _ & _ & EM').
    rewrite E, Er. eexists. rewrite Ev, EM'. do 2 f_equal. cbn [lmem c1_state] in *. rewrite EM.
    unfold records. rewrite Ho. cbn [lmem c1_state andb]. rewrite EM. fold (flag m).
    replace (ON_WEAK_OOP_REF (decorators access) || ON_PHANTOM_OOP_REF (decorators access) ||
      ON_UNKNOWN_OOP_REF (decorators access)) with true; [cbn [andb]|].
    + replace (negb (ON_UNKNOWN_OOP_REF (decorators access)) || reads_referent) with true; [done|].
      by destruct (ON_UNKNOWN_OOP_REF (decorators access)).
    + destruct (ON_UNKNOWN_OOP_REF (decorators access)); [by rewrite orb_true_r|].
      by destruct Hd as [-> | ->]; rewrite ?orb_true_r.
  - destruct Hok as (Ht & Hh & Hd & EM). eexists. do 2 f_equal.
    destruct (satb_c2_load concurrent_marking_active_address referent_offset flag_mapped offset_range d true adr obj
      offset load m [] Ht) as [_ E]. rewrite E, EM, Hh.
    replace (true && true && _) with true; [cbn [andb]|].
    + unfold marking_live. fold (flag m).
      replace (bool_decide (flag m ≠ 0)) with (bool_decide (flag m = 1)); [done|]. apply bool_decide_ext. lia.
    + cbn [andb]. destruct Hd as [-> |(-> & -> & -> & ->)]; [done|by rewrite orb_true_r].
Qed.

(** ** Programs *)

Inductive tier_access := Write (w : tier_write) | Load (l : tier_load).

(** The references that a program loads, and memory at its end. *)
Fixpoint runs (l : list tier_access) (m : mem) : option (list Z * mem) :=
  match l with
  | [] => Some ([], m)
  | Write w :: l =>
      m ← satb_perform mmtk_enable_barrier_fastpath mmtk_enable_allocation_fastpath side_metadata_base_address
            raw_store_at post_target w m;
      runs l m
  | Load x :: l =>
      '(v, m) ← load_perform x m;
      '(vs, m) ← runs l m;
      Some (v :: vs, m)
  end.

(** mmtk-core's side of a load: the reference is recorded, and neither this nor a
    call of the write barrier touches the variable. *)
Class MarkingMemory `{!SATBMemory side_metadata_base_address} := {
  load_call v m : v ≠ 0 →
    let m' := callee_memory load_reference_call [v] m in
    v ∈ recorded side_metadata_base_address m' ∧
    recorded side_metadata_base_address m ⊆ recorded side_metadata_base_address m' ∧
    (∀ s, reference m' s = reference m s) ∧
    (∀ o, object o → meta_bit side_metadata_base_address m' o = meta_bit side_metadata_base_address m o) ∧
    flag m' = flag m;
  satb_call_flag f src slot v m : f = write_slow_call ∨ f = write_pre_call → object src →
    flag (callee_memory f [src; slot; v] m) = flag m
}.

Section marking.
Context `{!SATBMemory side_metadata_base_address} `{!MarkingMemory}.
Hypothesis metadata_mapped :
  0 ≤ side_metadata_base_address ∧ side_metadata_base_address + 2 ^ 57 < 2 ^ 64.
(** Objects that have met no safepoint since their allocation; those of the snapshot,
    which is taken at a safepoint of memory [m0]. *)
Variables fresh snapshot : Z → Prop.
Variable m0 : mem.
Hypothesis snapshot_objects :
  ∀ o, snapshot o → object o ∧ meta_bit side_metadata_base_address m0 o = true ∧ ¬ fresh o.

(** What an access of HotSpot's must leave alone besides references and bits. *)
Definition marking_state (m : mem) : list Z * Z := (recorded side_metadata_base_address m, flag m).

Definition tier_access_ok (a : tier_access) (m : mem) : Prop :=
  match a with
  | Write w => satb_ok side_metadata_base_address raw_store_at marking_state fresh w m
  | Load x => load_ok x m
  end.

(** Each access is in order where it is performed. *)
Fixpoint program_ok (l : list tier_access) (m : mem) : Prop :=
  match l with
  | [] => True
  | Write w :: l =>
      tier_access_ok (Write w) m ∧
      ∀ m', satb_perform mmtk_enable_barrier_fastpath mmtk_enable_allocation_fastpath side_metadata_base_address
              raw_store_at post_target w m = Some m' → program_ok l m'
  | Load x :: l => tier_access_ok (Load x) m ∧ ∀ v m', load_perform x m = Some (v, m') → program_ok l m'
  end.

(** The marking so far: the snapshot is kept, marking is on, and the loaded
    references are found. *)
Definition marking_inv (loaded : list Z) (m : mem) : Prop :=
  snapshot_inv side_metadata_base_address snapshot m0 m ∧ flag m = 1 ∧
  ∀ v, v ∈ loaded → found side_metadata_base_address m v.

Lemma marking_write w m loaded :
  tier_access_ok (Write w) m → marking_inv loaded m →
  ∃ m', satb_perform mmtk_enable_barrier_fastpath mmtk_enable_allocation_fastpath side_metadata_base_address
          raw_store_at post_target w m = Some m' ∧ marking_inv loaded m'.
Proof.
  intros Hw (Hs & Hf & Hl). cbn [tier_access_ok] in Hw.
  destruct (satb_tier mmtk_enable_barrier_fastpath mmtk_enable_allocation_fastpath side_metadata_base_address
    metadata_mapped raw_store_at post_target marking_state fresh w m Hw) as (m' & E & called & f & v & Hc & Ha & Hn).
  destruct Hw as (Hsl & Ho & _). exists m'. split; [exact E|].
  destruct Ha as (A1 & A2 & A3). injection A2 as A2 A4.
  assert (recorded side_metadata_base_address m ⊆ recorded side_metadata_base_address m' ∧ flag m' = flag m) as [Hr Ef].
  { rewrite A2, A4. destruct called; [|done].
    destruct (satb_call side_metadata_base_address f (written_object w m) (written_slot w m) v m Hc Ho) as (Hr & _). split; [done|].
    by apply satb_call_flag. }
  split_and!.
  - eapply (inv_effect side_metadata_base_address fresh snapshot m0 snapshot_objects); [done|exact Ho| |done].
    exists called, f, v. by split_and!.
  - by rewrite Ef.
  - intros x Hx. eapply found_mono; [exact Hr|]. by apply Hl.
Qed.

Lemma marking_load x m loaded :
  tier_access_ok (Load x) m → marking_inv loaded m →
  ∃ v m', load_perform x m = Some (v, m') ∧ marking_inv (v :: loaded) m'.
Proof.
  intros Hx (Hs & Hf & Hl). destruct (load_tier x m Hx) as [v E]; [by right|].
  rewrite Hf, (bool_decide_eq_true_2 (1 = 1)) in E by done. cbn [andb] in E.
  eexists _, _. split; [exact E|]. case_bool_decide as Hv.
  - destruct (load_call v m Hv) as (Hin & Hr & Href & Hb & Ef). split_and!; [|by rewrite Ef|].
    + destruct Hs as [Hk Hg]. split.
      * intros o s Ho Hso. rewrite Href. destruct (Hk o s Ho Hso) as [?|?]; [by left|right; by eapply found_mono].
      * intros o s Ho Hso. rewrite Hb by (by apply snapshot_objects). intros Eb. eapply found_mono; [exact Hr|by eapply Hg].
    + intros y [->|Hy]%elem_of_cons; [by intros _|]. eapply found_mono; [exact Hr|by apply Hl].
  - split_and!; [done|done|]. intros y [->|Hy]%elem_of_cons; [by intros []|by apply Hl].
Qed.

(** C10. While marking is on, it finds what the program can have, whatever tiers it
    runs in: reference writes and weak loads of the interpreter, of C1 and of C2, in
    any order, run to their ends; every slot of the snapshot holds what it held or
    mmtk-core has recorded it, and so has it every reference that a weak load has
    returned. *)
Theorem marking_finds_all_tiers l :
  flag m0 = 1 → program_ok l m0 →
  ∃ vs m, runs l m0 = Some (vs, m) ∧
    (∀ o s, snapshot o → slot_of s o →
       reference m s = reference m0 s ∨ found side_metadata_base_address m (reference m0 s)) ∧
    ∀ v, v ∈ vs → found side_metadata_base_address m v.
Proof.
  intros Hf Hok.
  enough (∀ l m loaded, program_ok l m → marking_inv loaded m →
    ∃ vs m', runs l m = Some (vs, m') ∧ marking_inv (vs ++ loaded) m') as Hrun.
  { destruct (Hrun l m0 [] Hok) as (vs & m & E & Hs & _ & Hv).
    - split_and!; [|done|by intros v ?%not_elem_of_nil]. split; [by left|].
      intros o s Ho _. by destruct (snapshot_objects o Ho) as (_ & -> & _).
    - exists vs, m. split; [exact E|]. split; [apply Hs|]. intros v Hin. apply Hv. rewrite app_nil_r. done. }
  clear l Hok. induction l as [|[w|x] l IH]; intros m loaded Hok Hi; [by exists [], m| |]; destruct Hok as [Ha Hok].
  - destruct (marking_write w m loaded Ha Hi) as (m' & E & Hi'). cbn [runs]. rewrite E. cbn [mbind option_bind].
    by apply IH; [apply Hok|].
  - destruct (marking_load x m loaded Ha Hi) as (v & m' & E & Hi'). cbn [runs]. rewrite E. cbn [mbind option_bind].
    destruct (IH m' (v :: loaded) (Hok v m' E) Hi') as (vs & m2 & E2 & Hs & Hf2 & Hl). rewrite E2. cbn [mbind option_bind].
    exists (v :: vs), m2. split; [done|]. split; [done|]. split; [done|].
    intros y Hy. apply Hl. rewrite !elem_of_app, !elem_of_cons in *. tauto.
Qed.

End marking.
End loads.

(** ** A concrete program

    The memory of [Tiers]; a loaded reference becomes an entry of mmtk-core's log.
    The variable is at 2^32. *)

Section examples.
#[local] Existing Instance toy_memory_heap.

#[local] Instance marking_callee : Callee := {|
  callee_memory f l m :=
    match f, l with
    | load_reference_call, [v] => log_entry 0 v 0 m m
    | _, _ => callee_memory (Callee := toy_memory_callee) f l m
    end;
  callee_scratch _ _ _ _ := 0 |}.

#[local] Instance marking_satb_memory : SATBMemory toy_base.
Proof.
  refine {| recorded m := log_column 3 m ++ log_column 4 m |}.
  intros f src slot v m Hf. pose proof (satb_call toy_base (SATBMemory := toy_satb_memory) f src slot v m Hf) as Hc.
  by destruct Hf as [-> | ->].
Defined.

Definition toy_flag : Z := 2 ^ 32.

#[local] Instance toy_marking_memory : MarkingMemory toy_base toy_flag.
Proof.
  split.
  - intros v m Hv m'. assert (m' = log_entry 0 v 0 m m) as -> by done.
    destruct (log_entry_columns 0 v 0 m m) as (_ & E3 & E4); [done|]. cbn [recorded marking_satb_memory].
    rewrite E3, E4. split_and!.
    + rewrite !elem_of_app, list_elem_of_singleton. auto.
    + intros x. rewrite !elem_of_app. tauto.
    + apply toy_same_references. intros a Ha. apply log_entry_frame. lia.
    + apply toy_same_bits. intros a Ha. apply log_entry_frame. unfold toy_base in Ha. lia.
    + unfold flag. by rewrite log_entry_frame by done.
  - intros f src slot v m Hf Ho. assert (callee_memory f [src; slot; v] m = toy_log src m) as ->
      by (by destruct Hf as [-> | ->]).
    unfold flag, toy_log. destruct (meta_bit toy_base m src); [|done]. rewrite log_entry_frame by done.
    unfold clear_bit. rewrite decide_False; [done|]. pose proof (toy_meta_above src Ho). unfold toy_flag, toy_base in *. lia.
Defined.

Definition weak_access : DecoratorSet :=
  Decorators false true false false false true false false false false true false false false false.

(** HotSpot's own load, in the interpreter and in C1's code. *)
Definition toy_raw_load_at (d : DecoratorSet) (type : AsmBarriers.BasicType) (dst : reg) (src : Address) : list instr :=
  [movptr_load dst src].
Definition loading_lir : RawLIR := {|
  raw_value _ l m := match l with a :: _ => read 8 m a | [] => 0 end;
  raw_memory _ l m := match l with [addr; v] => write 8 m addr v | _ => m end;
  reads_referent := true |}.

(** The slot at 4104 is loaded by the interpreter and overwritten; C1 and C2 load
    from 4120 and 4104; C2 writes. *)
Definition toy_loads : list tier_load :=
  [InterpretedLoad (Machine (λ r, match r with rdx => 4096 | _ => 8192 end) (λ _, 0) None [] []) weak_access rax
     (Addr rdx None 0 8);
   LoadC1 loading_lir {| decorators := weak_access; is_oop := true; base_opr := LIR.Register (V T_OBJECT 0);
       resolved_addr := AddressOpr (LAddr (V T_OBJECT 0) None 0 8) |} (V T_OBJECT 1) 2
     (λ r, match r with O => 4112 | _ => 0 end);
   LoadC2 toy_c2_run toy_c2_graph weak_access (Existing 1) (Existing 0) (ConX 8) (Existing 2)].

Definition toy_program : list tier_access :=
  match toy_writes, toy_loads with
  | [w1; w2; w3; w4], [l1; l2; l3] => [Load l1; Write w1; Load l2; Write w4; Load l3; Write w3; Write w2]
  | _, _ => []
  end.

Lemma toy_load_ok l m : l ∈ toy_loads → load_ok 8 toy_raw_load_at l m.
Proof.
  unfold toy_loads. rewrite !elem_of_cons, elem_of_nil. intros [-> | [-> | [-> | []]]].
  - split; [by left|]. split; [done|]. split; [done|]. by eexists.
  - split_and!; [cbn; lia|done|by left|done].
  - split_and!; [|done|by left|done]. by split.
Qed.

Lemma toy_accesses_marking slot v m :
  slot mod 8 = 0 → 0 ≤ slot < 2 ^ 30 → accesses toy_base (marking_state toy_base toy_flag) slot m (write 8 m slot v).
Proof.
  intros H8 Hs. destruct (toy_accesses_recorded slot v m H8 Hs) as (A1 & A2 & A3). split; [done|]. split; [|done].
  unfold marking_state, flag. rewrite write_frame; [|change (Z.of_nat 8) with 8; unfold toy_flag; lia].
  f_equal. exact A2.
Qed.

Lemma toy_program_ok l m :
  (∀ a, a ∈ l → match a with Write w => w ∈ toy_writes | Load x => x ∈ toy_loads end) →
  program_ok true true toy_base toy_flag 8 toy_raw_store_at toy_raw_load_at write_pre_call write_post_call
    (λ _, False) l m.
Proof.
  revert m. induction l as [|[w|x] l IH]; intros m Hl; [done| |].
  - split; [|intros m' _; apply IH; intros a Ha; apply Hl; by right].
    apply (toy_satb_ok (marking_state toy_base toy_flag)); [apply toy_accesses_marking|]. apply (Hl (Write w)). by left.
  - split; [|intros v m' _; apply IH; intros a Ha; apply Hl; by right].
    apply toy_load_ok. apply (Hl (Load x)). by left.
Qed.

Lemma toy_program_known a :
  a ∈ toy_program → match a with Write w => w ∈ toy_writes | Load x => x ∈ toy_loads end.
Proof.
  unfold toy_program, toy_writes, toy_loads. rewrite !elem_of_cons, elem_of_nil.
  intros [-> | [-> | [-> | [-> | [-> | [-> | [-> | []]]]]]]]; rewrite !elem_of_cons; auto.
Qed.

Definition loaded_by (r : option (list Z * mem)) : list Z := match r with Some (vs, _) => vs | None => [] end.

Abbreviation toy_run := (runs true true toy_base toy_flag 8 toy_raw_store_at toy_raw_load_at write_pre_call
  write_post_call toy_program toy_start_memory).

(** All three loads return references. *)
Lemma toy_run_loads : loaded_by toy_run = [72340172838076673; 72340172838076673; 512].
Proof. vm_compute. reflexivity. Qed.

Lemma marking_finds_all_tiers_witness :
  ∃ vs m, toy_run = Some (vs, m) ∧ 72340172838076673 ∈ recorded toy_base m ∧ 512 ∈ recorded toy_base m.
Proof.
  destruct (marking_finds_all_tiers true true toy_base toy_flag 8 toy_raw_store_at toy_raw_load_at write_pre_call
    write_post_call) with (SATBMemory0 := marking_satb_memory) (fresh := λ _ : Z, False) (snapshot := λ o, o = 4096 ∨ o = 4112) (m0 := toy_start_memory)
    (l := toy_program) as (vs & m & E & _ & Hv).
  - split; [discriminate|reflexivity].
  - split; [discriminate|reflexivity].
  - exact toy_marking_memory.
  - exact toy_mapped.
  - exact toy_snapshot.
  - vm_compute. reflexivity.
  - apply toy_program_ok, toy_program_known.
  - exists vs, m. split; [exact E|]. pose proof toy_run_loads as El. rewrite E in El. cbn [loaded_by] in El.
    rewrite El in Hv. split; (apply Hv; [|discriminate]); rewrite !elem_of_cons; auto.
Defined.

End examples.
