(* ===== verification/BarrierSet.v ===== *)
(** * The barrier set

    [MMTkBarrierSet] ([mmtkBarrierSet.hpp], [mmtkBarrierSet.cpp]): the barrier
    that mmtk-core names is looked up once and gives the four parts with which
    HotSpot's tiers perform accesses; and the remaining functions of [BarrierSet]. *)

From stdpp Require Import base numbers list strings.
From Stdlib Require Import ZArith Lia.
From S2P Require Import Prelude Slots Barrier BarrierSafety X86 AsmBarriers LIR C1Barriers C1Safety.
From S2P Require Import C2Barriers C2Safety Tiers.

Local Open Scope Z_scope.

Section barrier_set.
Context `{Callee}.
Context {C : Type} `{BarrierCore C}.
Variables mmtk_enable_barrier_fastpath mmtk_enable_allocation_fastpath : bool.
Variable side_metadata_base_address : Z.
Variable raw_store_at : DecoratorSet → AsmBarriers.BasicType → Address → option reg → reg → reg → list instr.
Variable other_target : callee.

(** ** The parts of a barrier *)

(** What an assembler, a C1 and a C2 part emit for a write of a reference. *)
Definition MMTkBarrierSetAssembler :=
  DecoratorSet → AsmBarriers.BasicType → Address → option reg → reg → reg → list instr.
Record MMTkBarrierSetC1 := C1Part {
  c1_write_code : LIRAccess → c1_write → gen (option vreg);
  c1_pre_target : callee;
  c1_post_target : callee
}.
Definition MMTkBarrierSetC2 := ∀ G : C2Graph, node → node → c2_write → list stmt.

(** [MMTkBarrierBase]: the template [MMTkBarrierImpl] creates one object of each
    of its arguments. *)
Record MMTkBarrierBase := MMTkBarrierImpl {
  create_runtime : MMTkBarrierSetRuntime C;
  create_assembler : MMTkBarrierSetAssembler;
  create_c1 : MMTkBarrierSetC1;
  create_c2 : MMTkBarrierSetC2
}.

Definition MMTkNoBarrier : MMTkBarrierBase := {|
  create_runtime := MMTkNoBarrierSetRuntime;
  create_assembler := raw_store_at;
  create_c1 := C1Part (C1Barriers.write_at_resolved no_barrier no_barrier) other_target other_target;
  create_c2 := λ G, c2_write_at_resolved c2_no_barrier c2_no_barrier true
|}.

Definition MMTkObjectBarrier : MMTkBarrierBase := {|
  create_runtime := MMTkObjectBarrierSetRuntime mmtk_enable_barrier_fastpath;
  create_assembler := object_store_at mmtk_enable_barrier_fastpath side_metadata_base_address raw_store_at;
  create_c1 := C1Part (c1_object_write mmtk_enable_barrier_fastpath side_metadata_base_address)
                 other_target (object_post_target mmtk_enable_barrier_fastpath);
  create_c2 := λ G, c2_object_write mmtk_enable_barrier_fastpath mmtk_enable_allocation_fastpath
                      side_metadata_base_address true
|}.

Definition MMTkSATBBarrier : MMTkBarrierBase := {|
  create_runtime := MMTkSATBBarrierSetRuntime mmtk_enable_barrier_fastpath;
  create_assembler := satb_store_at mmtk_enable_barrier_fastpath side_metadata_base_address raw_store_at;
  create_c1 := C1Part (c1_satb_write mmtk_enable_barrier_fastpath side_metadata_base_address)
                 (satb_pre_target mmtk_enable_barrier_fastpath) other_target;
  create_c2 := λ G, c2_satb_write mmtk_enable_barrier_fastpath mmtk_enable_allocation_fastpath
                      side_metadata_base_address true
|}.

(** [get_selected_barrier], with its static variable; mmtk-core is asked only while
    that is null, and would then name [barrier]. *)
Definition get_selected_barrier_cached (barrier : active_barrier)
    (selected_barrier : option MMTkBarrierBase) : outcome (MMTkBarrierBase * option MMTkBarrierBase) :=
  match selected_barrier with
  | Some b => Ok (b, selected_barrier)
  | None =>
      name ← mmtk_active_barrier barrier;
      b ← barrier_named MMTkNoBarrier MMTkObjectBarrier MMTkSATBBarrier name;
      Ok (b, Some b)
  end.

(** ** [MMTkBarrierSet] *)

Record MMTkBarrierSet := BarrierSetParts {
  barrier_set_assembler : MMTkBarrierSetAssembler;
  barrier_set_c1 : MMTkBarrierSetC1;
  barrier_set_c2 : MMTkBarrierSetC2;
  whole_heap : Z * Z;
  runtime : MMTkBarrierSetRuntime C
}.

(** The constructor looks the barrier up for each part; [answers] are what
    mmtk-core would say each time. *)
Definition make_barrier_set (answers : nat → active_barrier) (heap : Z * Z)
    (selected : option MMTkBarrierBase) : outcome (MMTkBarrierSet * option MMTkBarrierBase) :=
  '(b1, selected) ← get_selected_barrier_cached (answers 0%nat) selected;
  '(b2, selected) ← get_selected_barrier_cached (answers 1%nat) selected;
  '(b3, selected) ← get_selected_barrier_cached (answers 2%nat) selected;
  '(b4, selected) ← get_selected_barrier_cached (answers 3%nat) selected;
  Ok (BarrierSetParts (create_assembler b1) (create_c1 b2) (create_c2 b3) heap (create_runtime b4), selected).


(** Functions that HotSpot does not call with this heap, or whose answer is
    constant. *)
Definition write_ref_array_work (mr : Z * Z) : outcome unit := guarantee false.
Definition resize_covered_region (new_region : Z * Z) : outcome unit := guarantee false.
Definition is_aligned (addr : Z) : bool := true.

(** A new object that the slow path has returned: the runtime may have to treat it
    as written to. *)
Definition on_slowpath_allocation_exit (bs : MMTkBarrierSet) (c : C) (h : oop_heap) (new_obj : Z) : C :=
  object_probable_write (runtime bs) c h new_obj.

(** ** Properties *)


(** An allocation that took the slow path: only the object barrier treats the new
    object as written to. *)
Lemma slowpath_allocation_exit answers heap bs selected c h o :
  make_barrier_set answers heap None = Ok (bs, selected) →
  on_slowpath_allocation_exit bs c h o =
    match answers 0%nat with
    | ObjectBarrier => object_probable_write (MMTkObjectBarrierSetRuntime mmtk_enable_barrier_fastpath) c h o
    | _ => c
    end.
Proof.
  unfold make_barrier_set, get_selected_barrier_cached.
  destruct (answers 0%nat); simpl; intros [= <- <-]; done.
Qed.

End barrier_set.

(** ** Recognising barriers *)

(** An address of code: one of the runtime's functions, or another one. *)
Definition address : Type := callee + Z.

(** [MMTkBarrierSetRuntime::is_slow_path_call], through
    [MMTkBarrierSet::is_slow_path_call]. *)
Definition is_slow_path_call (call : address) : bool :=
  bool_decide (call = inl write_pre_call) || bool_decide (call = inl write_post_call) ||
  bool_decide (call = inl write_slow_call) || bool_decide (call = inl array_copy_pre_call) ||
  bool_decide (call = inl array_copy_post_call) || bool_decide (call = inl load_reference_call).

Lemma runtime_calls_recognised call : is_slow_path_call call = true ↔ ∃ f, call = inl f.
Proof.
  unfold is_slow_path_call. split.
  - destruct call as [f|z]; [by exists f|]. by rewrite !bool_decide_eq_false_2 by done.
  - by intros [[] ->].
Qed.

(** The nodes that C2's escape analysis looks at: calls of leaf functions with
    their names, and others. *)
Inductive c2_graph_node := CallLeaf (name : option string) | OtherNode.

Definition is_gc_barrier_node (n : c2_graph_node) : bool :=
  match n with CallLeaf (Some name) => bool_decide (name = "mmtk_barrier_call"%string) | _ => false end.

(** [array_copy_requires_gc_barriers]. *)
Definition array_copy_requires_gc_barriers (type : AsmBarriers.BasicType) : bool := true.

(** The calls and accesses among statements, as nodes: [make_leaf_call] gives every
    call of a barrier the same name. *)
Fixpoint graph_nodes (s : stmt) : list c2_graph_node :=
  match s with
  | IfThen _ _ _ body => (fix go (l : list stmt) := match l with [] => [] | s :: l => graph_nodes s ++ go l end) body
  | LeafCall _ _ => [CallLeaf (Some "mmtk_barrier_call"%string)]
  | MemBarCPUOrder => []
  | RawAccess _ _ => [OtherNode]
  end.

(** In the expansion of a write exactly the access itself is no barrier: what
    remains when C2 has removed the barrier nodes is the bare access. *)
Lemma barrier_nodes_of_write `{C2Graph} fastpath allocation_fastpath base_address base addr w :
  filter (λ n, is_gc_barrier_node n = false)
    (c2_satb_write fastpath allocation_fastpath base_address true base addr w ≫= graph_nodes) = [OtherNode] ∧
  filter (λ n, is_gc_barrier_node n = false)
    (c2_object_write fastpath allocation_fastpath base_address true base addr w ≫= graph_nodes) = [OtherNode].
Proof.
  unfold c2_satb_write, c2_object_write, c2_satb_write_pre, c2_object_write_post.
  destruct w, fastpath; simpl;
    unfold c2_store_at_resolved, c2_atomic_cmpxchg_val_at_resolved, c2_atomic_cmpxchg_bool_at_resolved,
      c2_atomic_xchg_at_resolved, c2_no_barrier; simpl;
    repeat case_match; done.
Qed.
