(* ===== verification/C2Allocate.v ===== *)
(** * The allocation fast path in C2

    [MMTkBarrierSetC2::expand_allocate] ([mmtkBarrierSetC2.cpp]): the decisions
    C2 takes at compile time and the code it expands an allocation to, as
    statements over nodes that are evaluated where they are created.  The
    initialisation of the object is HotSpot's. *)

From stdpp Require Import base numbers list.
From Stdlib Require Import ZArith Lia.
From S2P Require Import Prelude Slots Layout Barrier X86 EdenAllocate.

Local Open Scope Z_scope.

#[local] Arguments read : simpl never.
#[local] Arguments write : simpl never.

(** ** Nodes and statements *)

Inductive expr :=
| SizeInBytes | InitialTest | ThreadLocal | Temp (k : nat)
| ConL (z : Z) | ConI (z : Z)
| AddP (a b : expr) | AddL (a b : expr) | URShiftL (a b : expr) | AndL (a b : expr)
| ConvL2I (a : expr) | LShiftI (a b : expr) | OrI (a b : expr)
| LoadP (a : expr) | LoadUB (a : expr)
| CMoveI_ge (a b : expr) (if_false if_true : expr).     (* on a signed 64-bit comparison *)

(** Conditions of branches: [CmpL] and [CmpP] with [BoolTest::ge], and
    [BoolNode::make_predicate]. *)
Inductive cond := CmpL_ge (a b : expr) | CmpP_ge (a b : expr) | NotZero (a : expr).

Inductive astmt :=
| Def (k : nat) (e : expr)
| IfSlow (c : cond)
| StoreP (a v : expr)
| StoreB (a v : expr)
| InitializeObject (obj : expr)
| MemBarStoreStore
| DtraceObjectAlloc (obj : expr).

(** ** Meaning *)

Inductive aevent := Initialized (obj : Z) | StoreBarrier | Dtraced (obj : Z).

Record astate := AState { temps : nat → Z; amem : mem; alog : list aevent }.

Inductive aresult := FastPath (s : astate) | SlowPath (s : astate).

(** [PhaseMacroExpand::initialize_object] writes the object only. *)
Class ObjectInit := {
  initialize_object : Z → Z → mem → mem;
  initialize_frame obj size m x : x < obj ∨ obj + size ≤ x → initialize_object obj size m x = m x
}.

Section meaning.
Context `{ObjectInit}.
(** The values of the inputs of the allocation, and the thread. *)
Variables size test thread : Z.

Fixpoint eval (t : nat → Z) (m : mem) (e : expr) : Z :=
  match e with
  | SizeInBytes => size
  | InitialTest => test
  | ThreadLocal => thread
  | Temp k => t k
  | ConL z => u64 z
  | ConI z => u32 z
  | AddP a b | AddL a b => u64 (eval t m a + eval t m b)
  | URShiftL a b => Z.shiftr (eval t m a) (eval t m b mod 64)
  | AndL a b => Z.land (eval t m a) (eval t m b)
  | ConvL2I a => u32 (eval t m a)
  | LShiftI a b => u32 (Z.shiftl (eval t m a) (eval t m b mod 32))
  | OrI a b => Z.lor (eval t m a) (eval t m b)
  | LoadP a => read 8 m (eval t m a)
  | LoadUB a => read 1 m (eval t m a)
  | CMoveI_ge a b l r =>
      if bool_decide (i64 (eval t m b) ≤ i64 (eval t m a)) then eval t m r else eval t m l
  end.

Definition holds_cond (s : astate) (c : cond) : bool :=
  let ev := eval (temps s) (amem s) in
  match c with
  | CmpL_ge a b => bool_decide (i64 (ev b) ≤ i64 (ev a))
  | CmpP_ge a b => bool_decide (ev b ≤ ev a)
  | NotZero a => bool_decide (ev a ≠ 0)
  end.

Fixpoint expand_run (l : list astmt) (s : astate) : aresult :=
  match l with
  | [] => FastPath s
  | i :: l =>
      let ev := eval (temps s) (amem s) in
      match i with
      | Def k e => expand_run l (AState (λ j, if decide (j = k) then ev e else temps s j) (amem s) (alog s))
      | IfSlow c => if holds_cond s c then SlowPath s else expand_run l s
      | StoreP a v => expand_run l (AState (temps s) (write 8 (amem s) (ev a) (ev v)) (alog s))
      | StoreB a v => expand_run l (AState (temps s) (write 1 (amem s) (ev a) (ev v)) (alog s))
      | InitializeObject o =>
          expand_run l (AState (temps s) (initialize_object (ev o) size (amem s)) (alog s ++ [Initialized (ev o)]))
      | MemBarStoreStore => expand_run l (AState (temps s) (amem s) (alog s ++ [StoreBarrier]))
      | DtraceObjectAlloc o => expand_run l (AState (temps s) (amem s) (alog s ++ [Dtraced (ev o)]))
      end
  end.

Lemma expand_run_app l1 l2 s :
  expand_run (l1 ++ l2) s =
  match expand_run l1 s with FastPath s => expand_run l2 s | SlowPath s => SlowPath s end.
Proof.
  revert s. induction l1 as [|i l1 IH]; intros s; [done|]. cbn [app expand_run].
  destruct i; try apply IH. destruct (holds_cond s c); [done|apply IH].
Qed.

End meaning.

(** ** The expansion *)

(** What C2 asks the [AllocateNode] and its [InitializeNode]: the constants found
    for the size and the initial test (-1 if there is none), and the answers
    about escape and barriers. *)
Record AllocateNode := {
  find_long_con_size : Z;
  find_int_con_initial_test : Z;
  does_not_escape_thread : bool;
  is_allocation_MemBar_redundant : bool;
  is_complete_with_arraycopy : option bool      (* of the [InitializeNode], if there is one *)
}.

Section expand.
Variable mmtk_enable_allocation_fastpath : bool.
Variables dtrace_alloc_probes dtrace_extended_probes : bool.
Variable max_non_los_bytes : Z.
Variable selector : AllocatorSelector.
Variable MMTK_MARK_COMPACT_HEADER_RESERVED_IN_BYTES : Z.
Variable mutator_offset : Z.
Variable VO_BIT_BASE_ADDRESS : Z.
Variable MMTK_ENABLE_VO_BIT : bool.
Variable alloc : AllocateNode.

Definition c2_extra_header : Z :=
  if decide (tag selector = TAG_MARK_COMPACT) then MMTK_MARK_COMPACT_HEADER_RESERVED_IN_BYTES else 0.
Definition c2_size_bound : Z := u64 (max_non_los_bytes - c2_extra_header).

(** Whether the expansion always goes to the slow path, and the test that decides
    otherwise. *)
Definition initial_test : bool * option cond :=
  let tv := find_int_con_initial_test alloc in
  if bool_decide (0 ≤ tv) then (bool_decide (tv = 1), None) else (false, Some (NotZero InitialTest)).

Definition size_test (d : bool * option cond) : bool * option cond :=
  let '(always_slow, test) := d in
  let const_size := find_long_con_size alloc in
  if bool_decide (0 ≤ const_size) then
    if bool_decide (c2_size_bound < const_size) then (true, None) else (always_slow, test)
  else
    let bound := ConL (i64 c2_size_bound) in
    (always_slow,
     match test with
     | None => Some (CmpL_ge SizeInBytes bound)
     | Some _ => Some (NotZero (OrI (CMoveI_ge SizeInBytes bound (ConI 0) (ConI 1)) InitialTest))
     end).

Definition slow_decision : bool * option cond :=
  let d := size_test initial_test in
  if dtrace_alloc_probes || negb mmtk_enable_allocation_fastpath ||
     bool_decide (tag selector = TAG_MALLOC ∨ tag selector = TAG_LARGE_OBJECT ∨ tag selector = TAG_FREE_LIST)
  then (true, None) else d.

(** Temporaries of the fast path. *)
Definition eden_end : expr := Temp 0.
Definition old_eden_top : expr := Temp 1.
Definition new_eden_top : expr := Temp 2.

(** Bumping the cursor. *)
Definition bump_stmts (eden_top_adr eden_end_adr : expr) : list astmt :=
  [Def 0 (LoadP eden_end_adr);
   Def 1 (if decide (tag selector = TAG_MARK_COMPACT)
          then AddP (LoadP eden_top_adr) (ConL c2_extra_header) else LoadP eden_top_adr);
   Def 2 (AddP old_eden_top SizeInBytes);
   IfSlow (CmpP_ge new_eden_top eden_end);
   StoreP eden_top_adr new_eden_top].

Definition c2_enable_vo_bit : bool := MMTK_ENABLE_VO_BIT || bool_decide (tag selector = TAG_MARK_COMPACT).

(** Setting the valid-object bit. *)
Definition vo_bit_stmts : list astmt :=
  let obj_addr := old_eden_top in
  let meta_addr := AddL (ConL VO_BIT_BASE_ADDRESS) (URShiftL obj_addr (ConI 6)) in
  let meta_val := LoadUB meta_addr in
  let set_bit := LShiftI (ConI 1) (ConvL2I (AndL (URShiftL obj_addr (ConI 3)) (ConL 7))) in
  [StoreB meta_addr (OrI meta_val set_bit)].

(** The store barrier after the initialisation, which publishing the object to
    other threads needs. *)
Definition needs_membar : bool :=
  negb (does_not_escape_thread alloc) && negb (is_allocation_MemBar_redundant alloc) &&
  negb (bool_decide (is_complete_with_arraycopy alloc = Some true)).

Definition init_stmts : list astmt :=
  InitializeObject old_eden_top ::
  (if needs_membar then [MemBarStoreStore] else []) ++
  (if dtrace_extended_probes then [DtraceObjectAlloc old_eden_top] else []).

(** [None] is the expansion to a slow call only; otherwise the code up to the
    merge with the slow call, which every [IfSlow] leads to. *)
Definition expand_allocate : outcome (option (list astmt)) :=
  let '(always_slow, initial_slow_test) := slow_decision in
  if (always_slow : bool) then Ok None else
  alloc_offsets ← get_tlab_top_and_end_offsets mutator_offset selector;
  let eden_top_adr := AddP ThreadLocal (ConL (tlab_top_offset alloc_offsets)) in
  let eden_end_adr := AddP ThreadLocal (ConL (tlab_end_offset alloc_offsets)) in
  Ok (Some (match initial_slow_test with Some c => [IfSlow c] | None => [] end ++
            bump_stmts eden_top_adr eden_end_adr ++
            (if c2_enable_vo_bit then vo_bit_stmts else []) ++ init_stmts)).

(** The assertion between the decisions and the expansion. *)
Definition arguments_consistent : bool :=
  let '(always_slow, initial_slow_test) := slow_decision in
  bool_decide (initial_slow_test = None) || negb always_slow.

End expand.

(** ** What the expansion does *)

Section correctness.
Context `{ObjectInit}.
Variable VO_BIT_BASE_ADDRESS : Z.
Hypothesis vo_mapped : 0 ≤ VO_BIT_BASE_ADDRESS ∧ VO_BIT_BASE_ADDRESS + 2 ^ 57 < 2 ^ 64.

(** Writing a metadata byte back with the bit of [o0] set. *)
Lemma vo_bit_written mm o0 :
  object o0 →
  let a := meta_addr VO_BIT_BASE_ADDRESS o0 in
  let mm' := write 1 mm a (Z.lor (read 1 mm a) (Z.shiftl 1 (meta_shift o0))) in
  (∀ x, x ≠ a → mm' x = mm x) ∧
  ∀ o, object o → meta_bit VO_BIT_BASE_ADDRESS mm' o =
    meta_bit VO_BIT_BASE_ADDRESS mm o || bool_decide (o = o0).
Proof.
  intros H0 a mm'. assert (∀ x, x ≠ a → mm' x = mm x) as Hf.
  { intros x Hx. apply write_frame. change (Z.of_nat 1) with 1. lia. }
  split; [done|]. intros o Ho. rewrite !meta_bit_testbit.
  pose proof (meta_shift_range o) as Hs. pose proof (meta_shift_range o0) as Hs0.
  destruct (decide (meta_addr VO_BIT_BASE_ADDRESS o = a)) as [E|E].
  - rewrite E. subst mm'. unfold write. rewrite decide_True by lia.
    rewrite Z.sub_diag, Z.mul_0_r, Z.shiftr_0_r, wrap_testbit by lia.
    rewrite (bool_decide_eq_true_2 (meta_shift o < 8)) by lia. cbn [andb].
    rewrite lor_bit_testbit, byte_bit by lia. f_equal. apply bool_decide_ext.
    split; [|by intros ->]. intros Hk. by eapply (meta_injective VO_BIT_BASE_ADDRESS).
  - rewrite Hf by done. rewrite bool_decide_eq_false_2; [by rewrite orb_false_r|]. by intros ->.
Qed.

Variables size test thread : Z.
Abbreviation run := (expand_run size test thread).

(** The statement that sets the bit. *)
Lemma vo_bit_stmts_run s :
  object (temps s 1%nat) →
  ∃ mm, run (vo_bit_stmts VO_BIT_BASE_ADDRESS) s = FastPath (AState (temps s) mm (alog s)) ∧
    (∀ x, x ≠ meta_addr VO_BIT_BASE_ADDRESS (temps s 1%nat) → mm x = amem s x) ∧
    ∀ o, object o → meta_bit VO_BIT_BASE_ADDRESS mm o =
      meta_bit VO_BIT_BASE_ADDRESS (amem s) o || bool_decide (o = temps s 1%nat).
Proof.
  intros Ho. set (o0 := temps s 1%nat) in *. destruct (Ho) as [Hr _].
  destruct (vo_bit_written (amem s) o0 Ho) as [F B].
  eexists. split; [|split; [exact F|exact B]].
  unfold vo_bit_stmts, old_eden_top. cbn [expand_run eval].
  change (u32 6 mod 64) with 6. change (u32 3 mod 64) with 3. change (u32 1) with 1. change (u64 7) with 7. fold o0.
  pose proof (meta_effective VO_BIT_BASE_ADDRESS o0 vo_mapped Hr) as Em.
  rewrite Z.shiftl_0_r, Z.add_0_r in Em. rewrite Em.
  assert (Z.land (Z.shiftr o0 3) 7 = meta_shift o0) as -> by (unfold meta_shift; by rewrite i64_small).
  pose proof (meta_shift_range o0) as Hs.
  rewrite (wrap_small 32 (meta_shift o0)), (Z.mod_small _ 32) by word_range.
  rewrite (wrap_small 32); [done|]. rewrite Z.shiftl_1_l.
  split; [apply Z.pow_nonneg; lia|apply Z.pow_lt_mono_r; lia].
Qed.

(** ** The decisions *)

Section decisions.
Variable mmtk_enable_allocation_fastpath : bool.
Variables dtrace_alloc_probes dtrace_extended_probes : bool.
Variable max_non_los_bytes : Z.
Variable selector : AllocatorSelector.
Variable MMTK_MARK_COMPACT_HEADER_RESERVED_IN_BYTES : Z.
Variable mutator_offset : Z.
Variable MMTK_ENABLE_VO_BIT : bool.
Variable alloc : AllocateNode.
Abbreviation bound := (c2_size_bound max_non_los_bytes selector MMTK_MARK_COMPACT_HEADER_RESERVED_IN_BYTES).
Abbreviation hdr := (c2_extra_header selector MMTK_MARK_COMPACT_HEADER_RESERVED_IN_BYTES).
Abbreviation decision := (slow_decision mmtk_enable_allocation_fastpath dtrace_alloc_probes max_non_los_bytes
  selector MMTK_MARK_COMPACT_HEADER_RESERVED_IN_BYTES alloc).

(** The inputs at run time: the constants that were found are the values, and
    sizes are no larger than C2's. *)
Record inputs_ok : Prop := {
  const_size_ok : 0 ≤ find_long_con_size alloc → size = find_long_con_size alloc;
  const_test_ok : 0 ≤ find_int_con_initial_test alloc →
    test = find_int_con_initial_test alloc ∧ find_int_con_initial_test alloc ≤ 1;
  size_ok : 0 ≤ size < 2 ^ 63;
  test_ok : 0 ≤ test < 2 ^ 32;
  bound_ok : bound < 2 ^ 63
}.

(** The size has to go to the large-object space; at the bound itself this
    depends on whether C2 knows the size. *)
Definition too_big : bool :=
  if bool_decide (0 ≤ find_long_con_size alloc) then bool_decide (bound < size) else bool_decide (bound ≤ size).

(** No fast path at all. *)
Definition no_fastpath : bool :=
  dtrace_alloc_probes || negb mmtk_enable_allocation_fastpath ||
  bool_decide (tag selector = TAG_MALLOC ∨ tag selector = TAG_LARGE_OBJECT ∨ tag selector = TAG_FREE_LIST).

Definition test_holds (s : astate) (t : option cond) : bool :=
  match t with Some c => holds_cond size test thread s c | None => false end.

Lemma bound_range : 0 ≤ bound < 2 ^ 64.
Proof. by apply wrap_bound. Qed.

Lemma size_compare s :
  inputs_ok → holds_cond size test thread s (CmpL_ge SizeInBytes (ConL (i64 bound))) = bool_decide (bound ≤ size).
Proof.
  intros [_ _ Hs _ Hb]. pose proof bound_range as Hr. cbn [holds_cond eval].
  rewrite (i64_small bound), (wrap_small 64 bound), (i64_small bound), i64_small by (lia || done). done.
Qed.

Lemma decision_spec s :
  inputs_ok →
  fst decision || test_holds s (snd decision) = bool_decide (test ≠ 0) || too_big || no_fastpath.
Proof.
  intros Hok. pose proof (size_compare s Hok) as Hcmp. destruct Hok as [Hs Ht Hsz Hts Hb].
  unfold slow_decision. fold no_fastpath.
  destruct no_fastpath; [by rewrite orb_true_r|]. rewrite orb_false_r.
  unfold size_test, initial_test, too_big.
  destruct (decide (0 ≤ find_int_con_initial_test alloc)) as [Hi|Hi].
  - rewrite (bool_decide_eq_true_2 (0 ≤ find_int_con_initial_test alloc)) by done. destruct (Ht Hi) as [Et Hle].
    assert (bool_decide (find_int_con_initial_test alloc = 1) = bool_decide (test ≠ 0)) as ->
      by (apply bool_decide_ext; lia).
    destruct (decide (0 ≤ find_long_con_size alloc)) as [Hc|Hc].
    + rewrite (bool_decide_eq_true_2 (0 ≤ find_long_con_size alloc)), <-(Hs Hc) by done.
      case_match; cbn [fst snd test_holds]; by rewrite ?orb_true_r, ?orb_false_r.
    + rewrite (bool_decide_eq_false_2 (0 ≤ find_long_con_size alloc)) by done. cbn [fst snd test_holds]. by rewrite Hcmp.
  - rewrite (bool_decide_eq_false_2 (0 ≤ find_int_con_initial_test alloc)) by done.
    destruct (decide (0 ≤ find_long_con_size alloc)) as [Hc|Hc].
    + rewrite (bool_decide_eq_true_2 (0 ≤ find_long_con_size alloc)), <-(Hs Hc) by done.
      case_match; cbn [fst snd test_holds orb]; by rewrite ?orb_true_r, ?orb_false_r.
    + rewrite (bool_decide_eq_false_2 (0 ≤ find_long_con_size alloc)) by done. cbn [fst snd test_holds orb].
      cbn [holds_cond eval] in *. change (u32 0) with 0. change (u32 1) with 1. rewrite Hcmp.
      destruct (bool_decide (bound ≤ size)); [rewrite orb_true_r|rewrite orb_false_r].
      * apply bool_decide_eq_true_2. rewrite Z.lor_eq_0_iff. lia.
      * apply bool_decide_ext. rewrite Z.lor_eq_0_iff. lia.
Qed.

(** ** The fast path *)

Definition c2_top : Z := thread + (mutator_offset + cursor_position selector).

(** The thread and its mutator: in the address space, apart from the metadata. *)
Record thread_fits : Prop := {
  fits_selector : fastpath_selector selector;
  fits_mutator : 0 ≤ mutator_offset < 2 ^ 30;
  fits_thread : 0 ≤ thread;
  fits_top : c2_top + 16 < 2 ^ 64;
  fits_metadata x : c2_top ≤ x < c2_top + 8 → ¬ vo_table VO_BIT_BASE_ADDRESS x
}.

Definition c2_object (m : mem) : Z := u64 (read 8 m c2_top + hdr).
Definition c2_end (m : mem) : Z := u64 (c2_object m + size).
(** The end of the object reaches the limit. *)
Definition no_space (m : mem) : bool := bool_decide (read 8 m (c2_top + 8) ≤ c2_end m).

Lemma eval_word t m o : 0 ≤ thread → 0 ≤ o → thread + o < 2 ^ 64 → eval size test thread t m (AddP ThreadLocal (ConL o)) = thread + o.
Proof. intros. cbn [eval]. rewrite (wrap_small 64 o) by lia. by apply wrap_small; lia. Qed.

Lemma bump_run m log t :
  thread_fits →
  ∃ s', run (bump_stmts selector MMTK_MARK_COMPACT_HEADER_RESERVED_IN_BYTES
      (AddP ThreadLocal (ConL (mutator_offset + cursor_position selector)))
      (AddP ThreadLocal (ConL (mutator_offset + cursor_position selector + 8)))) (AState t m log) =
    (if no_space m then SlowPath s' else FastPath s') ∧ alog s' = log ∧
    amem s' = (if no_space m then m else write 8 m c2_top (c2_end m)) ∧
    (no_space m = false → temps s' 1%nat = c2_object m).
Proof.
  intros [Hsel Hm Ht Htop _].
  assert (0 ≤ cursor_position selector) as Hcp.
  { destruct Hsel as [Hi _]. unfold cursor_position. repeat case_decide; lia. }
  unfold c2_top in Htop.
  assert (∀ t m, eval size test thread t m (AddP ThreadLocal (ConL (mutator_offset + cursor_position selector))) = c2_top) as E1
    by (intros; apply eval_word; lia).
  assert (∀ t m, eval size test thread t m (AddP ThreadLocal (ConL (mutator_offset + cursor_position selector + 8))) = c2_top + 8) as E2
    by (intros; unfold c2_top; rewrite eval_word; lia).
  assert (∀ t m, eval size test thread t m (if decide (tag selector = TAG_MARK_COMPACT)
      then AddP (LoadP (AddP ThreadLocal (ConL (mutator_offset + cursor_position selector)))) (ConL hdr)
      else LoadP (AddP ThreadLocal (ConL (mutator_offset + cursor_position selector)))) = c2_object m) as E3.
  { intros t' m'. pose proof (read_range 8 m' c2_top) as Hr. change (8 * Z.of_nat 8) with 64 in Hr.
    unfold c2_object, c2_extra_header. case_decide as Hd.
    - change (u64 (read 8 m' (eval size test thread t' m' (AddP ThreadLocal (ConL (mutator_offset + cursor_position selector))))
        + u64 MMTK_MARK_COMPACT_HEADER_RESERVED_IN_BYTES) =
        u64 (read 8 m' c2_top + MMTK_MARK_COMPACT_HEADER_RESERVED_IN_BYTES)).
      rewrite E1. unfold wrap. by rewrite Zplus_mod_idemp_r.
    - change (eval size test thread t' m' (LoadP ?e)) with (read 8 m' (eval size test thread t' m' e)).
      rewrite E1, Z.add_0_r. symmetry. by apply wrap_small. }
  unfold bump_stmts. cbn [expand_run holds_cond temps amem].
  set (t1 := λ j : nat, if decide (j = 0%nat) then _ else _).
  set (t2 := λ j : nat, if decide (j = 1%nat) then _ else _).
  set (t3 := λ j : nat, if decide (j = 2%nat) then _ else _).
  assert (t3 1%nat = c2_object m) as T1 by exact (E3 t1 m).
  assert (t3 2%nat = c2_end m) as T2.
  { change (u64 (t2 1%nat + size) = c2_end m). unfold c2_end. f_equal. f_equal. exact (E3 t1 m). }
  assert (t3 0%nat = read 8 m (c2_top + 8)) as T0 by (change (read 8 m (eval size test thread t m
    (AddP ThreadLocal (ConL (mutator_offset + cursor_position selector + 8)))) = read 8 m (c2_top + 8)); by rewrite E2).
  change (eval size test thread t3 m eden_end) with (t3 0%nat).
  change (eval size test thread t3 m new_eden_top) with (t3 2%nat). rewrite T0, T2. fold (no_space m).
  rewrite E1. destruct (no_space m); eexists; (split; [reflexivity|]); by split_and!.
Qed.

(** The allocation needs the slow path. *)
Definition needs_slow (m : mem) : bool :=
  bool_decide (test ≠ 0) || too_big || no_fastpath || no_space m.

Lemma init_run s :
  run (init_stmts dtrace_extended_probes alloc) s =
  FastPath (AState (temps s) (initialize_object (temps s 1%nat) size (amem s))
    (alog s ++ Initialized (temps s 1%nat) :: (if needs_membar alloc then [StoreBarrier] else []) ++
     (if dtrace_extended_probes then [Dtraced (temps s 1%nat)] else []))).
Proof.
  unfold init_stmts, old_eden_top. cbn [expand_run eval].
  destruct (needs_membar alloc), dtrace_extended_probes; cbn; by rewrite <-?app_assoc.
Qed.

(** The effect of a successful fast path. *)
Definition c2_allocated (m : mem) (s : astate) : Prop :=
  let obj := c2_object m in
  ∃ m2, temps s 1%nat = obj ∧ amem s = initialize_object obj size m2 ∧
    read 8 m2 c2_top = c2_end m ∧
    (∀ x, x < c2_top ∨ c2_top + 8 ≤ x → ¬ vo_table VO_BIT_BASE_ADDRESS x → m2 x = m x) ∧
    (∀ o, object o → meta_bit VO_BIT_BASE_ADDRESS m2 o = meta_bit VO_BIT_BASE_ADDRESS m o ||
       (c2_enable_vo_bit selector MMTK_ENABLE_VO_BIT && bool_decide (o = obj))) ∧
    alog s = Initialized obj :: (if needs_membar alloc then [StoreBarrier] else []) ++
             (if dtrace_extended_probes then [Dtraced obj] else []).

Lemma vo_and_init_run m t :
  thread_fits → (c2_enable_vo_bit selector MMTK_ENABLE_VO_BIT = true → object (c2_object m)) →
  t 1%nat = c2_object m →
  ∃ s, run ((if c2_enable_vo_bit selector MMTK_ENABLE_VO_BIT then vo_bit_stmts VO_BIT_BASE_ADDRESS else []) ++
            init_stmts dtrace_extended_probes alloc) (AState t (write 8 m c2_top (c2_end m)) []) = FastPath s ∧
    c2_allocated m s.
Proof.
  intros [_ _ _ _ Hvo] Hobj Ht. set (m1 := write 8 m c2_top (c2_end m)).
  assert (read 8 m1 c2_top = c2_end m) as R1.
  { subst m1. rewrite read_write. apply wrap_wrap. }
  assert (∀ x, x < c2_top ∨ c2_top + 8 ≤ x → m1 x = m x) as F1 by (intros; by apply write_frame).
  assert (∀ o, object o → meta_bit VO_BIT_BASE_ADDRESS m1 o = meta_bit VO_BIT_BASE_ADDRESS m o) as B1.
  { intros o Ho. rewrite !meta_bit_testbit. f_equal. apply F1.
    pose proof (vo_in_table VO_BIT_BASE_ADDRESS o Ho). destruct (decide (c2_top ≤ meta_addr VO_BIT_BASE_ADDRESS o < c2_top + 8)); [|lia].
    by destruct (Hvo (meta_addr VO_BIT_BASE_ADDRESS o)). }
  destruct (c2_enable_vo_bit selector MMTK_ENABLE_VO_BIT) eqn:Ev.
  - destruct (vo_bit_stmts_run (AState t m1 [])) as (mm & E & F & B); cbn [temps amem alog] in *.
    { rewrite Ht. by apply Hobj. }
    rewrite expand_run_app, E, init_run. eexists; split; [reflexivity|]. exists mm. cbn [temps amem alog].
    rewrite Ht in *. specialize (Hobj eq_refl). pose proof (vo_in_table VO_BIT_BASE_ADDRESS _ Hobj) as Htab.
    split_and!; try done.
    + rewrite <-R1. apply read_ext. change (Z.of_nat 8) with 8. intros x Hx. apply F. intros ->. by eapply Hvo.
    + intros x Hx Hn. rewrite F; [by apply F1|]. by intros ->.
    + intros o Ho. rewrite B, B1 by done. by rewrite Ev.
  - cbn [app]. rewrite init_run. eexists; split; [reflexivity|]. exists m1. cbn [temps amem alog]. rewrite Ht.
    split_and!; try done.
    + intros x Hx _. by apply F1.
    + intros o Ho. rewrite B1, Ev by done. by rewrite orb_false_r.
Qed.

(** C31. What C2 expands an allocation to allocates when it may: if the initial
    test passes, the size is small enough, there is a fast path and the object
    ends below the limit of the thread's allocator, the result is the cursor
    (past the header of mark-compact), the cursor moves to the end of the
    object, its valid-object bit is set if it is to be, and the object is
    initialised before the store barrier that publication needs; only the
    object, the cursor and its bit change.  In all other cases the expansion is
    the slow call, or reaches it with memory as it was. *)
Theorem expand_allocate_run m t :
  inputs_ok → thread_fits → (c2_enable_vo_bit selector MMTK_ENABLE_VO_BIT = true → object (c2_object m)) →
  ∃ code, expand_allocate mmtk_enable_allocation_fastpath dtrace_alloc_probes dtrace_extended_probes
            max_non_los_bytes selector MMTK_MARK_COMPACT_HEADER_RESERVED_IN_BYTES mutator_offset
            VO_BIT_BASE_ADDRESS MMTK_ENABLE_VO_BIT alloc = Ok code ∧
    match code with
    | None => needs_slow m = true
    | Some code =>
        if needs_slow m
        then ∃ s, run code (AState t m []) = SlowPath s ∧ amem s = m ∧ alog s = []
        else ∃ s, run code (AState t m []) = FastPath s ∧ c2_allocated m s
    end.
Proof.
  intros Hin Hth Hobj. pose proof (decision_spec (AState t m []) Hin) as Hd.
  unfold expand_allocate, needs_slow. rewrite <-Hd. destruct decision as [always tst]. cbn [fst snd] in *.
  destruct always; cbn [orb] in *; [by exists None|].
  rewrite offsets_eq by apply Hth. cbn [mbind outcome_bind tlab_top_offset tlab_end_offset].
  eexists. split; [done|]. cbn beta iota.
  destruct (bump_run m [] t Hth) as (s1 & E1 & L1 & M1 & T1).
  assert (run (match tst with Some c => [IfSlow c] | None => [] end) (AState t m []) =
    if test_holds (AState t m []) tst then SlowPath (AState t m []) else FastPath (AState t m [])) as E0.
  { destruct tst as [c|]; [|done]. cbn. by destruct (holds_cond _ _ _ _ c). }
  rewrite expand_run_app, E0. destruct (test_holds _ tst); cbn [orb]; [by eexists|].
  rewrite expand_run_app, E1. destruct (no_space m); [by eexists|].
  destruct s1 as [t1 mm1 l1]. cbn in L1, M1, T1. subst. by apply vo_and_init_run; auto.
Qed.

End decisions.

End correctness.

(** ** Merging with the slow call *)

(** What a user of the allocation takes as input: a projection of the call that
    replaces it, or the merge of the two paths. *)
Inductive input :=
| CtrlFallthrough | CtrlCatchall
| MemFallthrough | MemCatchall | IoFallthrough | IoCatchall | Result
| ResultRegion | ResultPhiMem | ResultPhiIo | ResultPhiOop | OtherInput.
#[export] Instance input_eq_dec : EqDecision input.
Proof. solve_decision. Defined.

(** The projections that [extract_call_projections] finds. *)
Record projections := {
  memproj_fallthrough : bool; memproj_catchall : bool;
  ioproj_fallthrough : bool; ioproj_catchall : bool;
  fallthroughcatchproj : bool; resproj : bool
}.

(** [PhaseMacroExpand::replace_input], over all uses. *)
Definition replace_input (old new : input) (uses : list input) : list input :=
  (λ u, if decide (u = old) then new else u) <$> uses.

(** The uses of the allocation after the expansion, in the order of the source:
    the uses on the exceptional paths are redirected after those on the normal
    paths. *)
Definition rewire (always_slow : bool) (p : projections) (uses : list input) : list input :=
  let uses := if negb always_slow && memproj_fallthrough p then replace_input MemFallthrough ResultPhiMem uses else uses in
  let uses := if memproj_catchall p then replace_input MemCatchall MemFallthrough uses else uses in
  let uses := if ioproj_fallthrough p then replace_input IoFallthrough ResultPhiIo uses else uses in
  let uses := if ioproj_catchall p then replace_input IoCatchall IoFallthrough uses else uses in
  if always_slow then uses else
  let uses := if fallthroughcatchproj p then replace_input CtrlFallthrough ResultRegion uses else uses in
  if resproj p then replace_input Result ResultPhiOop uses else uses.

(** The projections that are used exist. *)
Definition projections_of (p : projections) (u : input) : Prop :=
  match u with
  | MemFallthrough => memproj_fallthrough p = true
  | MemCatchall => memproj_catchall p = true
  | IoFallthrough => ioproj_fallthrough p = true
  | IoCatchall => ioproj_catchall p = true
  | CtrlFallthrough => fallthroughcatchproj p = true
  | Result => resproj p = true
  | _ => True
  end.

(** Where each use belongs: after both paths on the normal exit, after the slow
    call alone on the exceptional one, which only the slow call has. *)
Definition merged (always_slow : bool) (u : input) : input :=
  match u with
  | MemFallthrough => if always_slow then MemFallthrough else ResultPhiMem
  | MemCatchall => MemFallthrough
  | IoFallthrough => ResultPhiIo
  | IoCatchall => IoFallthrough
  | CtrlFallthrough => if always_slow then CtrlFallthrough else ResultRegion
  | Result => if always_slow then Result else ResultPhiOop
  | u => u
  end.

Lemma replace_if (b : bool) old new uses :
  (if b then replace_input old new uses else uses) =
  (λ u, if b && bool_decide (u = old) then new else u) <$> uses.
Proof.
  destruct b; cbn [andb]; [|by rewrite list_fmap_id].
  apply list_fmap_ext. intros i u _. by case_decide; case_bool_decide.
Qed.

(** After the expansion every use of the allocation takes its input from where
    the paths that reach it come together: control, memory, I/O and result of the
    normal exit from the merge of fast path and slow call, those of the
    exceptional exit from the slow call alone, and no use is left on the
    projections that are removed. *)
Theorem rewire_merged always_slow p uses :
  Forall (projections_of p) uses → rewire always_slow p uses = merged always_slow <$> uses.
Proof.
  intros Hu. unfold rewire. rewrite !replace_if. rewrite <-!list_fmap_compose.
  assert (∀ f, Forall (λ u, f u = merged always_slow u) uses → f <$> uses = merged always_slow <$> uses) as Hf.
  { intros f Hall. induction Hall as [|u l Hx _ IH]; [done|]. cbn. apply Forall_cons_1 in Hu as [_ Hu]. by rewrite Hx, IH. }
  destruct always_slow; apply Hf; (eapply Forall_impl; [exact Hu|]); intros u Hp; unfold compose;
    destruct p as [[] [] [] [] [] []], u; (discriminate Hp || reflexivity).
Qed.

(** ** A concrete expansion *)

Section examples.
#[local] Program Instance clear_object : ObjectInit :=
  {| initialize_object obj size m := λ x, if decide (obj ≤ x < obj + size) then 0 else m x |}.
Next Obligation. intros obj size m x Hx. cbn. rewrite decide_False by lia. done. Qed.

(** An array of unknown length, no escape information. *)
Definition example_alloc : AllocateNode := {|
  find_long_con_size := -1; find_int_con_initial_test := -1; does_not_escape_thread := false;
  is_allocation_MemBar_redundant := false; is_complete_with_arraycopy := None |}.

Lemma example_inputs : inputs_ok 48 0 16384 bump_selector 0 example_alloc.
Proof. split; try (cbn; intros []; done); (split; [discriminate|reflexivity]) || reflexivity. Qed.

Lemma example_fits_c2 : thread_fits (2 ^ 40) 65536 bump_selector 1000.
Proof.
  split; try apply example_selector; try (split; [discriminate|reflexivity]); try discriminate; try reflexivity.
  intros x. change (c2_top 65536 bump_selector 1000) with 66544. unfold vo_table.
  change (2 ^ 40) with 1099511627776. lia.
Qed.

Lemma expand_allocate_run_witness :
  ∃ code s, expand_allocate true false false 16384 bump_selector 0 1000 (2 ^ 40) true example_alloc = Ok (Some code) ∧
    expand_run 48 0 65536 code (AState (λ _, 0) eden_memory []) = FastPath s ∧ temps s 1%nat = 1048576 ∧
    alog s = [Initialized 1048576; StoreBarrier].
Proof.
  destruct (expand_allocate_run (2 ^ 40) eden_example_mapped 48 0 65536 true false false 16384 bump_selector 0 1000 true
    example_alloc eden_memory (λ _, 0) example_inputs example_fits_c2) as ([code|] & E & R).
  - intros _. change (object 1048576). apply object_1048576.
  - replace (needs_slow _ _ _ _ _ _ _ _ _ _ _) with false in R by (vm_compute; reflexivity).
    destruct R as (s & Er & m2 & T & _ & _ & _ & _ & L). exists code, s.
    split; [exact E|]. split; [exact Er|]. split; [exact T|exact L].
  - exfalso. revert E. vm_compute. discriminate.
Defined.

Lemma rewire_merged_witness :
  rewire false {| memproj_fallthrough := true; memproj_catchall := true; ioproj_fallthrough := true;
                  ioproj_catchall := true; fallthroughcatchproj := true; resproj := false |}
    [MemCatchall; MemFallthrough; IoCatchall; OtherInput] =
  [MemFallthrough; ResultPhiMem; IoFallthrough; OtherInput].
Proof. rewrite rewire_merged; [reflexivity|]. repeat (apply Forall_cons_2; [first [reflexivity|exact I]|]). apply Forall_nil_2. Defined.

(** An initial test that is constantly true, with a size that is not constant:
    the size check is added to a test that has been decided, against the
    assertion before the expansion. *)
Example size_test_after_always_slow :
  arguments_consistent true false 16384 bump_selector 0
    {| find_long_con_size := -1; find_int_con_initial_test := 1; does_not_escape_thread := false;
       is_allocation_MemBar_redundant := false; is_complete_with_arraycopy := None |} = false.
Proof. vm_compute. reflexivity. Qed.

End examples.
