(* ===== verification/AllocTiers.v ===== *)
(** * Allocation in every execution tier

    Interpreted code, code from C1 and code from C2 allocate by moving the cursor of
    their thread's mutator, and all of them fall back on the runtime.  Here the
    allocations of any number of threads meet in one memory: each runs what its tier
    emits ([EdenAllocate], [C2Allocate]), on its slow path the runtime
    ([Mutator.mem_allocate]), and the objects they return never overlap.  mmtk-core
    is the interface of its allocation functions on that memory. *)

From stdpp Require Import base numbers list relations.
From Stdlib Require Import ZArith Lia.
From S2P Require Import Prelude Slots Layout Mutator Barrier X86 EdenAllocate C2Allocate.

Local Open Scope Z_scope.

#[local] Arguments read : simpl never.
#[local] Arguments write : simpl never.

(** ** Regions of memory *)

(** A start and a number of bytes. *)
Abbreviation region := (Z * Z)%type.

Definition within (x : Z) (r : region) : Prop := r.1 ≤ x < r.1 + r.2.
Definition inside (r r' : region) : Prop := ∀ x, within x r → within x r'.
Definition separate (r r' : region) : Prop := ∀ x, within x r → within x r' → False.

(** Each region of a list is apart from those after it. *)
Fixpoint all_separate (rs : list region) : Prop :=
  match rs with
  | [] => True
  | r :: rs => Forall (separate r) rs ∧ all_separate rs
  end.

Lemma separate_sym r r' : separate r r' → separate r' r.
Proof. intros Hs x H1 H2. by apply (Hs x). Qed.

Lemma separate_inside r1 r1' r2 r2' : separate r1' r2' → inside r1 r1' → inside r2 r2' → separate r1 r2.
Proof. intros Hs H1 H2 x X1 X2. apply (Hs x); auto. Qed.

Lemma inside_trans r1 r2 r3 : inside r1 r2 → inside r2 r3 → inside r1 r3.
Proof. unfold inside. auto. Qed.

Lemma all_separate_snoc rs : ∀ r r', all_separate rs → r ∈ rs → r' ∈ rs → r ≠ r' → separate r r'.
Proof.
  induction rs as [|r0 rs IH]; intros r r' Hs Hr Hr' Hn; [by apply not_elem_of_nil in Hr|].
  destruct Hs as [Hf Hs]. rewrite Forall_forall in Hf.
  apply elem_of_cons in Hr as [->|Hr]; apply elem_of_cons in Hr' as [->|Hr']; try done; auto using separate_sym.
Qed.

(** ** mmtk-core *)

(** The memory that mmtk-core allocates from, the regions of it that it has handed
    out (buffers of allocators and objects of its own), and how often it has
    collected. *)
Class AllocationHeap (C : Type) := {
  memory_of : C → mem;
  with_memory : mem → C → C;
  handed_out : C → list region;
  collections : C → nat
}.

Section tiers.
Context {C : Type} `{MutatorCore C, !AllocationHeap C} `{Callee} `{ObjectInit}.
Variables mmtk_enable_allocation_fastpath dtrace_alloc_probes dtrace_extended_probes : bool.
Variable max_non_los_bytes : Z.
Variable selector : AllocatorSelector.
Variable MMTK_MARK_COMPACT_HEADER_RESERVED_IN_BYTES : Z.
Variables mutator_offset allocated_bytes_offset : Z.
Variable VO_BIT_BASE_ADDRESS : Z.
Variable MMTK_ENABLE_VO_BIT : bool.
(** The Java threads, and the address range of the heap. *)
Variable threads : list Z.
Variable heap : region.

Abbreviation bit := (meta_bit VO_BIT_BASE_ADDRESS).
Abbreviation vo_enabled := (enable_vo_bit selector MMTK_ENABLE_VO_BIT).
Abbreviation header := (extra_header selector MMTK_MARK_COMPACT_HEADER_RESERVED_IN_BYTES).

(** The cursor of a thread's mutator; the limit is the next word.  Between them is
    the thread's buffer. *)
Definition top_of (thread : Z) : Z := thread + mutator_offset + cursor_position selector.
Definition count_of (thread : Z) : Z := thread + allocated_bytes_offset.
Definition cursor (m : mem) (thread : Z) : Z := read 8 m (top_of thread).
Definition limit (m : mem) (thread : Z) : Z := read 8 m (top_of thread + 8).
Definition buffer (m : mem) (thread : Z) : region := (cursor m thread, limit m thread - cursor m thread).

(** ** Allocations *)

(** The code that allocates, with the registers or nodes it works on. *)
Inductive tier_alloc :=
| Assembly (mach : machine) (var_size_in_bytes : option reg) (con_size_in_bytes : Z) (t1 : reg)
| Compiled (alloc : AllocateNode) (test : Z) (t : nat → Z)
| Runtime.

(** An allocation: the thread, the bytes, and the tier. *)
Record allocation := Allocation { thread : Z; bytes : Z; tier : tier_alloc }.

(** What the fast path does: the object, if there is one, and memory. *)
Definition fast_path (a : allocation) (m : mem) : outcome (option Z * mem) :=
  match tier a with
  | Assembly mach var con t1 =>
      code ← EdenAllocate.eden_allocate mmtk_enable_allocation_fastpath max_non_los_bytes selector
        MMTK_MARK_COMPACT_HEADER_RESERVED_IN_BYTES mutator_offset allocated_bytes_offset
        VO_BIT_BASE_ADDRESS MMTK_ENABLE_VO_BIT r15_thread rax var con t1;
      match exec code None (set_memory m mach) with
      | Falls mach' => Ok (Some (rf mach' rax), memory mach')
      | Jumps slow_case mach' => Ok (None, memory mach')
      | _ => Undef
      end
  | Compiled alloc test t =>
      code ← C2Allocate.expand_allocate mmtk_enable_allocation_fastpath dtrace_alloc_probes dtrace_extended_probes
        max_non_los_bytes selector MMTK_MARK_COMPACT_HEADER_RESERVED_IN_BYTES mutator_offset
        VO_BIT_BASE_ADDRESS MMTK_ENABLE_VO_BIT alloc;
      Ok match code with
         | None => (None, m)
         | Some code =>
             match expand_run (bytes a) test (thread a) code (AState t m []) with
             | FastPath s => (Some (temps s 1%nat), amem s)
             | SlowPath s => (None, amem s)
             end
         end
  | Runtime => Ok (None, m)
  end.

(** The allocation; 0 means that memory is exhausted. *)
Definition allocate (a : allocation) (c : C) : outcome (Z * C) :=
  '(o, m) ← fast_path a (memory_of c);
  let c := with_memory m c in
  Ok match o with
     | Some o => (o, c)
     | None => mem_allocate max_non_los_bytes c (thread a + mutator_offset) (bytes a / 8)
     end.

(** A run of allocations, each in the heap the one before has left. *)
Fixpoint allocates (l : list allocation) (c : C) : outcome (list Z * C) :=
  match l with
  | [] => Ok ([], c)
  | a :: l =>
      '(o, c) ← allocate a c;
      '(os, c) ← allocates l c;
      Ok (o :: os, c)
  end.

(** ** What an allocation does *)

Definition buffer_ok (m : mem) (T : Z) : Prop :=
  cursor m T ≤ limit m T ∧ limit m T ≤ 2 ^ 62 ∧ cursor m T mod 8 = 0.

(** Where an object may be taken from: the thread's buffer, or regions that were
    free. *)
Definition available (m : mem) (T : Z) (fresh : list region) (x : Z) : Prop :=
  within x (buffer m T) ∨ ∃ f, f ∈ fresh ∧ within x f.

(** An allocation of [size] bytes that returns [o], and for which mmtk-core hands
    out [fresh].  [marks] is whether it sets the object's valid-object bit. *)
Record effect (T size o : Z) (marks : bool) (fresh : list region) (c c' : C) : Prop := {
  ef_handed : handed_out c' = fresh ++ handed_out c;
  ef_fresh f : f ∈ fresh → inside f heap ∧ ∀ h, h ∈ handed_out c → separate f h;
  ef_object : o ≠ 0 → object o ∧ ∀ x, within x (o, size) → available (memory_of c) T fresh x;
  ef_range : buffer_ok (memory_of c') T;
  ef_buffer x : within x (buffer (memory_of c') T) → available (memory_of c) T fresh x;
  ef_apart : o ≠ 0 → separate (o, size) (buffer (memory_of c') T);
  ef_others T' : T' ∈ threads → T' ≠ T →
    cursor (memory_of c') T' = cursor (memory_of c) T' ∧ limit (memory_of c') T' = limit (memory_of c) T';
  ef_frame x : within x heap → ¬ available (memory_of c) T fresh x → memory_of c' x = memory_of c x;
  ef_bits p : object p → within p heap →
    bit (memory_of c') p =
      (bit (memory_of c) p && negb (existsb (λ f, bool_decide (f.1 ≤ p < f.1 + f.2)) fresh)) ||
      (marks && bool_decide (p = o))
}.

(** What mmtk-core promises of [alloc], as long as it does not collect, and of
    [post_alloc]: memory comes from the thread's buffer or from what is free, whose
    valid-object bits are clear; [post_alloc] sets the bit, and may write metadata
    into the object. *)
Class AllocationLaws := {
  memory_with m c : memory_of (with_memory m c) = m;
  handed_with m c : handed_out (with_memory m c) = handed_out c;
  collections_with m c : collections (with_memory m c) = collections c;
  core_alloc_collects c this size align off a :
    (collections c ≤ collections (core_alloc c this size align off a).2)%nat;
  core_alloc_effect c T size a :
    T ∈ threads → 0 < size → size mod 8 = 0 → buffer_ok (memory_of c) T →
    let r := core_alloc c (T + mutator_offset) size HeapWordSize 0 a in
    collections r.2 = collections c → ∃ fresh, effect T size r.1 false fresh c r.2;
  core_post_alloc_collects c this o size a : collections (core_post_alloc c this o size a) = collections c;
  core_post_alloc_effect c T o size a :
    T ∈ threads → object o →
    let c' := core_post_alloc c (T + mutator_offset) o size a in
    handed_out c' = handed_out c ∧
    (∀ T', T' ∈ threads →
       cursor (memory_of c') T' = cursor (memory_of c) T' ∧ limit (memory_of c') T' = limit (memory_of c) T') ∧
    (∀ x, within x heap → ¬ within x (o, size) → memory_of c' x = memory_of c x) ∧
    (∀ p, object p → within p heap →
       bit (memory_of c') p = bit (memory_of c) p || (vo_enabled && bool_decide (p = o)))
}.

(** The address space: what a thread's code writes besides objects is apart from
    the other threads', from the heap, and from the table of valid-object bits. *)
Definition cell (T x : Z) : Prop := top_of T ≤ x < top_of T + 16 ∨ count_of T ≤ x < count_of T + 8.

Record layout_ok : Prop := {
  lay_selector : fastpath_selector selector;
  lay_mutator : 0 ≤ mutator_offset < 2 ^ 30;
  lay_count : 0 ≤ allocated_bytes_offset;
  lay_header : 0 ≤ header < 2 ^ 30 ∧ header mod 8 = 0;
  lay_table : 0 ≤ VO_BIT_BASE_ADDRESS ∧ VO_BIT_BASE_ADDRESS + 2 ^ 57 < 2 ^ 64;
  lay_heap : 0 < heap.1 ∧ heap.1 + heap.2 ≤ 2 ^ 62 ∧ ∀ x, within x heap → ¬ vo_table VO_BIT_BASE_ADDRESS x;
  lay_thread T : T ∈ threads →
    0 ≤ T ∧ top_of T + 16 < 2 ^ 64 ∧ count_of T + 8 < 2 ^ 64 ∧
    (count_of T + 8 ≤ top_of T ∨ top_of T + 16 ≤ count_of T);
  lay_cells T x : T ∈ threads → cell T x → ¬ within x heap ∧ ¬ vo_table VO_BIT_BASE_ADDRESS x;
  lay_apart T T' x : T ∈ threads → T' ∈ threads → T ≠ T' → cell T x → cell T' x → False
}.

(** What an allocation has to bring: a size in whole words, and registers or inputs
    that hold it. *)
Definition allocation_ok (a : allocation) (m : mem) : Prop :=
  thread a ∈ threads ∧ 0 < bytes a < 2 ^ 62 ∧ bytes a mod 8 = 0 ∧
  match tier a with
  | Assembly mach var con t1 =>
      rf mach r15_thread = thread a ∧ size_of (rf mach) var con = bytes a ∧
      registers_ok max_non_los_bytes selector MMTK_MARK_COMPACT_HEADER_RESERVED_IN_BYTES MMTK_ENABLE_VO_BIT
        (set_memory m mach) var con t1
  | Compiled alloc test t =>
      inputs_ok (bytes a) test max_non_los_bytes selector MMTK_MARK_COMPACT_HEADER_RESERVED_IN_BYTES alloc
  | Runtime => True
  end.

(** ** The fast paths *)

Context (laws : AllocationLaws) (lay : layout_ok).

Lemma header_eq : extra_header selector MMTK_MARK_COMPACT_HEADER_RESERVED_IN_BYTES =
  c2_extra_header selector MMTK_MARK_COMPACT_HEADER_RESERVED_IN_BYTES.
Proof. done. Qed.

Lemma cursor_range m T : 0 ≤ cursor m T.
Proof. apply read_range. Qed.

(** Moving the cursor past an object that ends at most at the limit is an effect
    without fresh memory. *)
Lemma bump_effect c T size m' :
  let m := memory_of c in
  let o := cursor m T + header in
  T ∈ threads → buffer_ok m T → (∀ x, within x (buffer m T) → within x heap) →
  0 < size → size mod 8 = 0 → o + size ≤ limit m T →
  cursor m' T = o + size →
  (∀ x, ¬ top_of T ≤ x < top_of T + 8 → ¬ count_of T ≤ x < count_of T + 8 →
     ¬ vo_table VO_BIT_BASE_ADDRESS x → ¬ within x (o, size) → m' x = m x) →
  (∀ p, object p → within p heap → bit m' p = bit m p || (vo_enabled && bool_decide (p = o))) →
  o ≠ 0 ∧ effect T size o vo_enabled [] c (with_memory m' c).
Proof.
  intros m o HT [Hle [H62 H8]] Hheap Hs Hs8 Hfit Hcur Hframe Hbits.
  pose proof (cursor_range m T) as Hge. destruct (lay_header lay) as [Hh Hh8].
  destruct (lay_heap lay) as (Hp & Hh62 & Hnt).
  assert (within o heap) as Hoh by (apply Hheap; unfold within, buffer; simpl; lia).
  assert (object o) as Hobj.
  { split; [unfold within in Hoh; lia|]. subst o. rewrite Z.add_mod, H8, Hh8 by done. done. }
  assert (∀ x, within x (o, size) → within x (buffer m T)) as Hin by (unfold within, buffer; simpl; lia).
  assert (∀ x, within x (o, size) → within x heap) as Hin' by auto.
  assert (∀ T' x, T' ∈ threads → top_of T' ≤ x < top_of T' + 16 → (T' = T → top_of T + 8 ≤ x) → m' x = m x) as Hcell.
  { intros T' x HT' Hx Hx'. destruct (lay_cells lay T' x HT') as [X1 X2]; [by left|].
    destruct (lay_thread lay T HT) as (_ & _ & _ & Hap).
    apply Hframe; [..|by auto|by intros ?%Hin'].
    - intros Hy. destruct (decide (T' = T)) as [E|E]; [pose proof (Hx' E); lia|].
      eapply (lay_apart lay T' T x); try done; left; [done|lia].
    - intros Hy. destruct (decide (T' = T)) as [->|E]; [lia|].
      eapply (lay_apart lay T' T x); try done; [by left|by right]. }
  assert (limit m' T = limit m T) as Hlim.
  { apply read_ext. change (Z.of_nat 8) with 8. intros x Hx. apply (Hcell T); [done|lia|lia]. }
  split; [unfold within in Hoh; lia|].
  split; rewrite ?(memory_with (AllocationLaws := laws)).
  - by rewrite (handed_with (AllocationLaws := laws)).
  - intros f Hf. by apply not_elem_of_nil in Hf.
  - intros _. split; [done|]. intros x Hx. left. by apply Hin.
  - unfold buffer_ok. rewrite Hlim, Hcur. split_and!; [done|done|]. subst o.
    rewrite Z.add_mod, (Z.add_mod (cursor m T)), H8, Hh8, Hs8 by done. done.
  - intros x Hx. left. unfold within, buffer in *. simpl in *. rewrite Hlim, Hcur in Hx. fold m. lia.
  - intros _ x. unfold within, buffer. simpl. rewrite Hlim, Hcur. lia.
  - intros T' HT' Hn. split; apply read_ext; change (Z.of_nat 8) with 8; intros x Hx; apply (Hcell T'); try done; lia.
  - intros x Hx Ha. fold m. apply Hframe.
    + intros Hy. by destruct (lay_cells lay T x HT) as [? _]; [left; lia|].
    + intros Hy. by destruct (lay_cells lay T x HT) as [? _]; [by right|].
    + by apply Hnt.
    + intros Hy. apply Ha. left. by apply Hin.
  - intros p Hpo Hph. rewrite Hbits by done. cbn [existsb]. by rewrite andb_true_r.
Qed.

(** What the fast path of an allocation may do: nothing, or the effect. *)
Definition fast_ok (a : allocation) (c : C) (r : option Z * mem) : Prop :=
  match r.1 with
  | None => r.2 = memory_of c
  | Some o => o ≠ 0 ∧ effect (thread a) (bytes a) o vo_enabled [] c (with_memory r.2 c)
  end.

Lemma thread_ok_here T m : T ∈ threads → rf m r15_thread = T →
  thread_ok selector mutator_offset allocated_bytes_offset VO_BIT_BASE_ADDRESS m.
Proof.
  intros HT E. destruct (lay_thread lay T HT) as (H0' & Ht & Hc & Ha).
  split; unfold top_address, count_address; rewrite ?E.
  - done.
  - apply lay.
  - done.
  - split; [apply lay|done].
  - done.
  - intros x Hx. by apply (lay_cells lay T x HT).
Qed.

Lemma thread_fits_here T : T ∈ threads → thread_fits VO_BIT_BASE_ADDRESS T selector mutator_offset.
Proof.
  intros HT. destruct (lay_thread lay T HT) as (H0' & Ht & _ & _).
  assert (c2_top T selector mutator_offset = top_of T) as E by (unfold c2_top, top_of; lia).
  split; rewrite ?E; try done; try apply lay.
  intros x Hx. apply (lay_cells lay T x HT). left. lia.
Qed.

Section fast.
Variables (a : allocation) (c : C).
Hypothesis a_ok : allocation_ok a (memory_of c).
Hypothesis a_buffer : buffer_ok (memory_of c) (thread a).
Hypothesis a_heap : ∀ x, within x (buffer (memory_of c) (thread a)) → within x heap.

(** The cursor past the header is an aligned address. *)
Lemma start_ok : u64 (cursor (memory_of c) (thread a) + header) = cursor (memory_of c) (thread a) + header ∧
  object (cursor (memory_of c) (thread a) + header).
Proof.
  destruct a_buffer as (Hle & H62 & H8). destruct (lay_header lay) as [Hh Hh8].
  pose proof (cursor_range (memory_of c) (thread a)). split; [apply wrap_small; lia|]. split; [lia|].
  by rewrite Z.add_mod, H8, Hh8.
Qed.

Lemma assembly_ok mach var con t1 :
  tier a = Assembly mach var con t1 → ∃ r, fast_path a (memory_of c) = Ok r ∧ fast_ok a c r.
Proof.
  intros Et. destruct a_ok as (HT & [Hs0 Hs] & Hs8 & Ha). rewrite Et in Ha. destruct Ha as (E15 & Esz & Hr).
  unfold fast_path. rewrite Et. destruct start_ok as [Est Hobj].
  destruct (decide (mmtk_enable_allocation_fastpath = true)) as [Hfast|Hfast].
  2: { apply not_true_is_false in Hfast. rewrite Hfast. by eexists. }
  set (m := set_memory (memory_of c) mach) in *.
  assert (new_object selector MMTK_MARK_COMPACT_HEADER_RESERVED_IN_BYTES mutator_offset m =
    cursor (memory_of c) (thread a) + header) as Eo.
  { rewrite <-Est. unfold new_object, top_address. cbn [m memory rf set_memory]. by rewrite E15. }
  destruct (eden_allocate_asm mmtk_enable_allocation_fastpath max_non_los_bytes selector
    MMTK_MARK_COMPACT_HEADER_RESERVED_IN_BYTES mutator_offset allocated_bytes_offset VO_BIT_BASE_ADDRESS
    MMTK_ENABLE_VO_BIT (lay_table lay) m var con t1) as (code & m' & Ecode & _ & _ & HE); try done.
  { apply lay. } { by apply (thread_ok_here (thread a)). } { intros _. by rewrite Eo. }
  rewrite Ecode. cbn [mbind outcome_bind].
  match type of HE with (if ?b && ?f then _ else _) => destruct b; [destruct f eqn:Ef|] end; cbn [andb] in HE;
    [|by destruct HE as [-> HM]; eexists..].
  destruct HE as (-> & A1 & A2 & _ & A4 & A5). eexists. split; [done|].
  unfold fast_ok. cbn [fst snd]. rewrite A1, Eo.
  assert (top_address selector mutator_offset m = top_of (thread a)) as Etop.
  { unfold top_address, top_of. cbn [m rf set_memory]. by rewrite E15. }
  assert (count_address allocated_bytes_offset m = count_of (thread a)) as Ecount.
  { unfold count_address, count_of. cbn [m rf set_memory]. by rewrite E15. }
  assert (new_end selector MMTK_MARK_COMPACT_HEADER_RESERVED_IN_BYTES mutator_offset m var con =
    cursor (memory_of c) (thread a) + header + bytes a) as Ee.
  { unfold new_end. rewrite Eo. cbn [m rf set_memory]. rewrite Esz. apply wrap_small. destruct Hobj. lia. }
  unfold fits in Ef. apply negb_true_iff, orb_false_iff in Ef as [_ Ef]. apply bool_decide_eq_false in Ef.
  rewrite Ee, Etop in *. rewrite Ecount in *. rewrite Eo in *. cbn [m memory set_memory] in *.
  apply bump_effect; try done; [unfold limit; lia| |].
  - intros x X1 X2 X3 _. apply A4; try done; lia.
  - intros p Hp _. by apply A5.
Qed.

Lemma compiled_ok alloc test t :
  tier a = Compiled alloc test t → ∃ r, fast_path a (memory_of c) = Ok r ∧ fast_ok a c r.
Proof.
  intros Et. destruct a_ok as (HT & [Hs0 Hs] & Hs8 & Ha). rewrite Et in Ha.
  unfold fast_path. rewrite Et. destruct start_ok as [Est Hobj]. destruct (lay_heap lay) as (Hp & Hh62 & Hnt).
  assert (c2_top (thread a) selector mutator_offset = top_of (thread a)) as Etop by (unfold c2_top, top_of; lia).
  assert (c2_object (thread a) selector MMTK_MARK_COMPACT_HEADER_RESERVED_IN_BYTES mutator_offset (memory_of c) =
    cursor (memory_of c) (thread a) + header) as Eo by (rewrite <-Est; unfold c2_object; by rewrite Etop).
  destruct (expand_allocate_run VO_BIT_BASE_ADDRESS (lay_table lay) (bytes a) test (thread a)
    mmtk_enable_allocation_fastpath dtrace_alloc_probes dtrace_extended_probes max_non_los_bytes selector
    MMTK_MARK_COMPACT_HEADER_RESERVED_IN_BYTES mutator_offset MMTK_ENABLE_VO_BIT alloc (memory_of c) t)
    as (code & Ecode & HE); [done|by apply thread_fits_here|intros _; by rewrite Eo|].
  rewrite Ecode. cbn [mbind outcome_bind]. destruct code as [code|]; [|by eexists].
  match type of HE with (if ?b then _ else _) => destruct b eqn:Eb end.
  { destruct HE as (s & -> & EM & _). by eexists. }
  destruct HE as (s & -> & m2 & E1 & E2 & E3 & E4 & E5 & _). eexists. split; [done|].
  unfold fast_ok. cbn [fst snd]. rewrite E1, E2, Eo.
  assert (c2_end (bytes a) (thread a) selector MMTK_MARK_COMPACT_HEADER_RESERVED_IN_BYTES mutator_offset
    (memory_of c) = cursor (memory_of c) (thread a) + header + bytes a) as Ee.
  { unfold c2_end. rewrite Eo. apply wrap_small. destruct Hobj. lia. }
  apply orb_false_iff in Eb as [_ Eb]. unfold no_space in Eb. apply bool_decide_eq_false in Eb.
  rewrite Ee, Etop in *. rewrite Eo in *. set (o := cursor (memory_of c) (thread a) + header) in *.
  assert (o + bytes a ≤ limit (memory_of c) (thread a)) as Hfit by (unfold limit; lia).
  assert (∀ x, o ≤ x < o + bytes a → within x heap) as Hin.
  { intros x Hx. apply a_heap. destruct (lay_header lay). subst o. unfold within, buffer. simpl. lia. }
  apply bump_effect; try done.
  - unfold cursor at 1. etrans; [|exact E3]. apply read_ext. change (Z.of_nat 8) with 8. intros x Hx.
    apply initialize_frame. destruct (decide (o ≤ x < o + bytes a)) as [Ho|]; [|lia].
    destruct (lay_cells lay (thread a) x HT) as [Hn _]; [left; lia|]. by destruct Hn; apply Hin.
  - intros x X1 X2 X3 X4. fold o in X4. unfold within in X4. simpl in X4.
    rewrite initialize_frame by lia. apply E4; [lia|done].
  - intros p Hpo Hph. etrans; [|exact (E5 p Hpo)]. rewrite !meta_bit_testbit. f_equal. apply initialize_frame.
    pose proof (vo_in_table VO_BIT_BASE_ADDRESS p Hpo) as Hv.
    destruct (decide (o ≤ meta_addr VO_BIT_BASE_ADDRESS p < o + bytes a)) as [Ho|]; [|lia].
    by destruct (Hnt _ (Hin _ Ho)).
Qed.

Lemma fast_path_ok : ∃ r, fast_path a (memory_of c) = Ok r ∧ fast_ok a c r.
Proof.
  destruct (tier a) as [mach var con t1|alloc test t|] eqn:Et.
  - by eapply assembly_ok.
  - by eapply compiled_ok.
  - unfold fast_path. rewrite Et. by eexists.
Qed.

End fast.

(** ** The slow path *)

(** [alloc] of mmtk-core followed by [post_alloc], as [MMTkMutatorContext::alloc]
    calls them. *)
Lemma runtime_effect c T size :
  T ∈ threads → buffer_ok (memory_of c) T → (∀ x, within x (buffer (memory_of c) T) → within x heap) →
  0 < size < 2 ^ 62 → size mod 8 = 0 →
  let r := mem_allocate max_non_los_bytes c (T + mutator_offset) (size / 8) in
  (collections c ≤ collections r.2)%nat ∧
  (collections r.2 = collections c → ∃ fresh, effect T size r.1 vo_enabled fresh c r.2).
Proof.
  intros HT Hb Hheap [Hs0 Hs] Hs8 r.
  assert (u64 (Z.shiftl (size / 8) 3) = size) as Es.
  { rewrite Z.shiftl_mul_pow2 by lia. change (2 ^ 3) with 8.
    replace (size / 8 * 8) with size by (rewrite (Z.div_mod size 8) at 1; lia). apply wrap_small. lia. }
  subst r. unfold mem_allocate. rewrite Es. unfold alloc.
  set (n := allocator_number _).
  pose proof (core_alloc_collects (AllocationLaws := laws) c (T + mutator_offset) size HeapWordSize 0 n) as Hc.
  pose proof (core_alloc_effect (AllocationLaws := laws) c T size n HT Hs0 Hs8 Hb) as He.
  destruct (core_alloc c (T + mutator_offset) size HeapWordSize 0 n) as [o c1]. cbn [fst snd] in *.
  destruct (decide (o ≠ 0)) as [Ho|Ho]; cbn [fst snd].
  2: { split; [done|]. intros [fresh E]%He. exists fresh. destruct E. split; try done.
       intros p Hpo Hph. rewrite ef_bits0 by done. cbn [andb]. apply dec_stable in Ho as ->.
       rewrite (bool_decide_eq_false_2 (p = 0)), andb_false_r; [done|].
       pose proof (lay_heap lay). unfold within in Hph. lia. }
  rewrite (core_post_alloc_collects (AllocationLaws := laws)). split; [done|].
  intros [fresh E]%He. exists fresh. destruct E.
  destruct (ef_object0 Ho) as [Hobj Hat].
  destruct (core_post_alloc_effect (AllocationLaws := laws) c1 T o size n HT Hobj) as (P1 & P2 & P3 & P4).
  destruct (P2 T HT) as [Pc Pl]. split.
  - by rewrite P1.
  - done.
  - done.
  - unfold buffer_ok in *. by rewrite Pc, Pl.
  - intros x. unfold buffer. rewrite Pc, Pl. apply ef_buffer0.
  - intros _. unfold buffer. rewrite Pc, Pl. by apply ef_apart0.
  - intros T' HT' Hn. destruct (P2 T' HT') as [-> ->]. by apply ef_others0.
  - intros x Hx Hna. rewrite P3; [by apply ef_frame0|done|]. intros Hin. by apply Hna, Hat.
  - intros p Hpo Hph. rewrite P4, ef_bits0 by done. by rewrite orb_false_r.
Qed.

(** ** The heap *)

(** Some region that mmtk-core has handed out contains the address. *)
Definition given (c : C) (x : Z) : Prop := ∃ h, h ∈ handed_out c ∧ within x h.

(** The heap with the objects allocated in it: they are apart from each other and
    from the buffers, the buffers from one another, and the valid-object bits are
    those of the objects. *)
Record heap_inv (c : C) (objs : list region) : Prop := {
  inv_objects : all_separate objs;
  inv_object r : r ∈ objs → object r.1 ∧ 0 < r.2 ∧ ∀ x, within x r → given c x;
  inv_heap x : given c x → within x heap;
  inv_range T : T ∈ threads → buffer_ok (memory_of c) T;
  inv_given T x : T ∈ threads → within x (buffer (memory_of c) T) → given c x;
  inv_free T r : T ∈ threads → r ∈ objs → separate (buffer (memory_of c) T) r;
  inv_buffers T T' : T ∈ threads → T' ∈ threads → T ≠ T' →
    separate (buffer (memory_of c) T) (buffer (memory_of c) T');
  inv_bits p : object p → given c p → bit (memory_of c) p = vo_enabled && bool_decide (p ∈ objs.*1)
}.

(** The objects after an allocation. *)
Definition allocated_objects (o size : Z) (objs : list region) : list region :=
  if decide (o = 0) then objs else (o, size) :: objs.

(** What is available to a thread belongs to no object and to no other thread. *)
Lemma available_free c objs T size o marks fresh c' x :
  heap_inv c objs → T ∈ threads → effect T size o marks fresh c c' → available (memory_of c) T fresh x →
  given c' x ∧ within x heap ∧ (∀ r, r ∈ objs → ¬ within x r) ∧
  ∀ T', T' ∈ threads → T' ≠ T → ¬ within x (buffer (memory_of c) T').
Proof.
  intros [] HT [] Ha. unfold given. rewrite ef_handed0. destruct Ha as [Hx|(f & Hf & Hx)].
  - destruct (inv_given0 T x HT Hx) as (h & Hh & Hxh). split_and!.
    + exists h. by rewrite elem_of_app; auto.
    + apply inv_heap0. by exists h.
    + intros r Hr Hxr. by eapply inv_free0.
    + intros T' HT' Hn Hx'. by eapply (inv_buffers0 T T').
  - destruct (ef_fresh0 f Hf) as [Hfh Hfs]. split_and!.
    + exists f. by rewrite elem_of_app; auto.
    + by apply Hfh.
    + intros r Hr Hxr. destruct (inv_object0 r Hr) as (_ & _ & Hg). destruct (Hg x Hxr) as (h & Hh & Hxh). by eapply Hfs.
    + intros T' HT' Hn Hx'. destruct (inv_given0 T' x HT' Hx') as (h & Hh & Hxh). by eapply Hfs.
Qed.

Lemma given_mono c c' T size o marks fresh x :
  effect T size o marks fresh c c' → given c x → given c' x.
Proof. intros [] (h & Hh & Hx). exists h. by rewrite ef_handed0, elem_of_app; auto. Qed.

(** An allocation leaves the objects and the other buffers alone. *)
Lemma effect_frame c objs T size o marks fresh c' :
  heap_inv c objs → T ∈ threads → effect T size o marks fresh c c' →
  (∀ r x, r ∈ objs → within x r → memory_of c' x = memory_of c x) ∧
  (∀ T', T' ∈ threads → T' ≠ T → buffer (memory_of c') T' = buffer (memory_of c) T').
Proof.
  intros Hi HT He. split.
  - intros r x Hr Hx. apply (ef_frame _ _ _ _ _ _ _ He).
    + destruct (inv_object _ _ Hi r Hr) as (_ & _ & Hg). by apply (inv_heap _ _ Hi), Hg.
    + intros Ha. by apply (available_free _ _ _ _ _ _ _ _ x Hi HT He) in Ha as (_ & _ & Hn & _); apply (Hn r).
  - intros T' HT' Hn. unfold buffer. by destruct (ef_others _ _ _ _ _ _ _ He T' HT' Hn) as [-> ->].
Qed.

(** The objects' starts decide the bits of what was given out before, and of what
    is new. *)
Lemma effect_bits c objs T size o fresh c' p :
  heap_inv c objs → T ∈ threads → 0 < size → effect T size o vo_enabled fresh c c' →
  object p → given c' p →
  bit (memory_of c') p = vo_enabled && bool_decide (p ∈ (allocated_objects o size objs).*1).
Proof.
  intros Hi HT Hs He Hpo Hg.
  assert (p ∈ (allocated_objects o size objs).*1 ↔ (p = o ∧ o ≠ 0) ∨ p ∈ objs.*1) as Eo.
  { unfold allocated_objects. case_decide; cbn [fmap list_fmap fst]; rewrite ?elem_of_cons; naive_solver. }
  rewrite (bool_decide_ext _ _ Eo).
  assert (within p heap ∧ (given c p ∧ (∀ f, f ∈ fresh → ¬ within p f) ∨
    (∃ f, f ∈ fresh ∧ within p f) ∧ p ∉ objs.*1)) as [Hph Hcase].
  { destruct Hg as (h & Hh & Hx). rewrite (ef_handed _ _ _ _ _ _ _ He), elem_of_app in Hh.
    destruct Hh as [Hh|Hh].
    - destruct (available_free _ _ _ _ _ _ _ _ p Hi HT He) as (_ & Hph & Hn & _); [right; by exists h|].
      split; [done|]. right. split; [by exists h|]. intros (r & -> & Hr)%list_elem_of_fmap.
      apply (Hn r Hr). destruct (inv_object _ _ Hi r Hr) as (_ & ? & _). unfold within. lia.
    - assert (given c p) as Hgp by by exists h. split; [by apply (inv_heap _ _ Hi)|]. left. split; [done|].
      intros f Hf Hxf. destruct (ef_fresh _ _ _ _ _ _ _ He f Hf) as [_ Hsep]. by eapply Hsep. }
  assert (p ≠ 0) as Hp0 by (pose proof (lay_heap lay); unfold within in Hph; lia).
  rewrite (ef_bits _ _ _ _ _ _ _ He p Hpo Hph).
  destruct Hcase as [[Hgp Hnf]|[(f & Hf & Hxf) Hno]].
  - rewrite (inv_bits _ _ Hi p Hpo Hgp).
    replace (existsb _ fresh) with false; [cbn [negb]; rewrite andb_true_r|].
    + destruct vo_enabled; [cbn [andb]|done].
      rewrite <-bool_decide_or. apply bool_decide_ext. naive_solver.
    + symmetry. apply not_true_iff_false. intros (f & Hf & Hb)%existsb_exists.
      apply (Hnf f); [by apply list_elem_of_In|]. by apply bool_decide_eq_true in Hb.
  - replace (existsb _ fresh) with true; [cbn [negb]; rewrite andb_false_r; cbn [orb]|].
    + f_equal. apply bool_decide_ext. naive_solver.
    + symmetry. apply existsb_exists. exists f. split; [by apply list_elem_of_In|]. by apply bool_decide_eq_true.
Qed.

Lemma heap_inv_effect c objs T size o fresh c' :
  heap_inv c objs → T ∈ threads → 0 < size → effect T size o vo_enabled fresh c c' →
  heap_inv c' (allocated_objects o size objs) ∧
  (o ≠ 0 → Forall (separate (o, size)) objs ∧ inside (o, size) heap).
Proof.
  intros Hi HT Hs He. destruct (effect_frame _ _ _ _ _ _ _ _ Hi HT He) as [_ Hbuf].
  assert (∀ x, available (memory_of c) T fresh x → given c' x ∧ within x heap ∧
    (∀ r, r ∈ objs → ¬ within x r) ∧
    ∀ T', T' ∈ threads → T' ≠ T → ¬ within x (buffer (memory_of c) T')) as Hav
    by (intros x; by apply (available_free _ _ _ _ _ _ _ _ x Hi HT He)).
  assert (o ≠ 0 → ∀ x, within x (o, size) → available (memory_of c) T fresh x) as Hobj
    by (intros Ho; apply (ef_object _ _ _ _ _ _ _ He Ho)).
  assert (∀ x, within x (buffer (memory_of c') T) → available (memory_of c) T fresh x) as Hown
    by apply (ef_buffer _ _ _ _ _ _ _ He).
  assert (o ≠ 0 → Forall (separate (o, size)) objs) as Hsep.
  { intros Ho. apply Forall_forall. intros r Hr x X1 X2. destruct (Hav x) as (_ & _ & Hn & _); [by apply Hobj|].
    by apply (Hn r). }
  assert (∀ r, r ∈ allocated_objects o size objs ↔ (o ≠ 0 ∧ r = (o, size)) ∨ r ∈ objs) as Eo.
  { intros r. unfold allocated_objects. case_decide; rewrite ?elem_of_cons; tauto. }
  assert (∀ T', T' ∈ threads → T' = T ∨ (T' ≠ T ∧ buffer (memory_of c') T' = buffer (memory_of c) T')) as Hbuf'.
  { intros T' HT'. destruct (decide (T' = T)) as [E|E]; [by left|right; auto]. }
  split; [|intros Ho; split; [auto|intros x Hx; by apply Hav, Hobj]].
  split.
  - unfold allocated_objects. case_decide; [apply Hi|split; [by auto|apply Hi]].
  - intros r [[Ho ->]|Hr]%Eo.
    + cbn [fst snd]. split_and!; [by apply He|done|]. intros x Hx. by apply Hav, Hobj.
    + destruct (inv_object _ _ Hi r Hr) as (Ho & Hn & Hg). split_and!; try done. intros x Hx.
      eapply given_mono; [done|auto].
  - intros x (h & Hh & Hx). rewrite (ef_handed _ _ _ _ _ _ _ He), elem_of_app in Hh. destruct Hh as [Hh|Hh].
    + by apply (ef_fresh _ _ _ _ _ _ _ He h Hh).
    + apply (inv_heap _ _ Hi). by exists h.
  - intros T' HT'. destruct (decide (T' = T)) as [->|E]; [by apply He|].
    unfold buffer_ok. destruct (ef_others _ _ _ _ _ _ _ He T' HT' E) as [-> ->]. by apply Hi.
  - intros T' x HT' Hx. destruct (Hbuf' T' HT') as [->|[_ E]]; [by apply Hav, Hown|].
    rewrite E in Hx. eapply given_mono; [done|]. by apply (inv_given _ _ Hi T').
  - intros T' r HT' [[Ho ->]|Hr]%Eo x X1 X2.
    + destruct (Hbuf' T' HT') as [->|[Hn E]]; [by eapply (ef_apart _ _ _ _ _ _ _ He Ho)|]. rewrite E in X1.
      destruct (Hav x) as (_ & _ & _ & Hd); [by apply Hobj|]. by apply (Hd T').
    + destruct (Hbuf' T' HT') as [->|[Hn E]]; [|rewrite E in X1; by eapply (inv_free _ _ Hi T' r)].
      destruct (Hav x) as (_ & _ & Hd & _); [by apply Hown|]. by apply (Hd r).
  - assert (∀ T', T' ∈ threads → T' ≠ T → separate (buffer (memory_of c') T) (buffer (memory_of c') T')) as Hd.
    { intros T' HT' Hn x X1 X2. destruct (Hbuf' T' HT') as [?|[_ E]]; [done|]. rewrite E in X2.
      destruct (Hav x) as (_ & _ & _ & Hd); [by apply Hown|]. by apply (Hd T'). }
    intros T1 T2 HT1 HT2 Hn. destruct (Hbuf' T1 HT1) as [->|[N1 E1]]; [by apply Hd|].
    destruct (Hbuf' T2 HT2) as [->|[N2 E2]]; [by apply separate_sym, Hd|].
    rewrite E1, E2. by apply (inv_buffers _ _ Hi).
  - intros p Hpo Hg. by eapply effect_bits.
Qed.

(** ** Runs *)

(** An allocation comes through, with its effect if mmtk-core has not collected. *)
Lemma allocate_ok a c objs :
  heap_inv c objs → allocation_ok a (memory_of c) →
  ∃ o c', allocate a c = Ok (o, c') ∧ (collections c ≤ collections c')%nat ∧
    (collections c' = collections c → ∃ fresh, effect (thread a) (bytes a) o vo_enabled fresh c c').
Proof.
  intros Hi Ha. pose proof Ha as (HT & Hs & Hs8 & _).
  assert (∀ x, within x (buffer (memory_of c) (thread a)) → within x heap) as Hheap.
  { intros x Hx. apply (inv_heap _ _ Hi). by apply (inv_given _ _ Hi (thread a)). }
  destruct (fast_path_ok a c Ha) as ([o m'] & E & Hf); [by apply Hi|done|].
  unfold allocate. rewrite E. cbn [mbind outcome_bind]. unfold fast_ok in Hf. cbn [fst snd] in Hf.
  destruct o as [o|].
  - destruct Hf as [_ He]. eexists _, _. split; [done|]. rewrite (collections_with (AllocationLaws := laws)).
    split; [done|]. intros _. by exists [].
  - subst m'. set (c1 := with_memory (memory_of c) c).
    assert (memory_of c1 = memory_of c) as E1 by apply memory_with.
    assert (handed_out c1 = handed_out c) as E2 by apply handed_with.
    assert (collections c1 = collections c) as E3 by apply collections_with.
    destruct (runtime_effect c1 (thread a) (bytes a)) as [Hc He]; rewrite ?E1; try done; [by apply Hi|].
    destruct (mem_allocate _ c1 _ _) as [o c']. cbn [fst snd] in *. rewrite E3 in *.
    eexists _, _. split; [done|]. split; [done|]. intros [fresh Hef]%He. exists fresh.
    destruct Hef. rewrite E1, E2 in *. by split.
Qed.

(** What happens between two collections: allocations of any thread in any tier,
    and writes of the program into its objects. *)
Inductive heap_step : C * list region → C * list region → Prop :=
| step_allocate a c o c' objs :
    allocation_ok a (memory_of c) → allocate a c = Ok (o, c') → collections c' = collections c →
    heap_step (c, objs) (c', allocated_objects o (bytes a) objs)
| step_write r m c objs :
    r ∈ objs → (∀ x, ¬ within x r → m x = memory_of c x) → heap_step (c, objs) (with_memory m c, objs).

Lemma heap_inv_write c objs r m :
  heap_inv c objs → r ∈ objs → (∀ x, ¬ within x r → m x = memory_of c x) → heap_inv (with_memory m c) objs.
Proof.
  intros Hi Hr Hm. destruct (inv_object _ _ Hi r Hr) as (_ & _ & Hg).
  assert (∀ x, ¬ within x heap → m x = memory_of c x) as Hout.
  { intros x Hx. apply Hm. intros Hxr. by apply Hx, (inv_heap _ _ Hi), Hg. }
  assert (∀ T, T ∈ threads → cursor m T = cursor (memory_of c) T ∧ limit m T = limit (memory_of c) T) as Hc.
  { intros T HT. split; apply read_ext; change (Z.of_nat 8) with 8; intros x Hx; apply Hout;
      apply (lay_cells lay T x HT); left; lia. }
  destruct Hi. unfold given in *. split; unfold given; rewrite ?(memory_with (AllocationLaws := laws)),
    ?(handed_with (AllocationLaws := laws)); try done.
  - intros T HT. unfold buffer_ok. destruct (Hc T HT) as [-> ->]. by apply inv_range0.
  - intros T x HT. unfold buffer. destruct (Hc T HT) as [-> ->]. by apply inv_given0.
  - intros T r' HT. unfold buffer. destruct (Hc T HT) as [-> ->]. by apply inv_free0.
  - intros T T' HT HT'. unfold buffer. destruct (Hc T HT) as [-> ->], (Hc T' HT') as [-> ->]. by apply inv_buffers0.
  - intros p Hpo Hp. rewrite <-(inv_bits0 p Hpo Hp), !meta_bit_testbit. f_equal. apply Hout.
    intros Hx. destruct (lay_heap lay) as (_ & _ & Hnt). by eapply Hnt, vo_in_table.
Qed.

Lemma heap_step_inv s s' : heap_step s s' → heap_inv s.1 s.2 → heap_inv s'.1 s'.2.
Proof.
  intros [a c o c' objs Ha E Hc|r m c objs Hr Hm] Hi; cbn [fst snd] in *; [|by eapply heap_inv_write].
  destruct (allocate_ok a c objs Hi Ha) as (o' & c1 & E' & _ & He). rewrite E in E'. injection E' as <- <-.
  destruct (He Hc) as [fresh Hef]. destruct Ha as (HT & [Hs _] & _). by eapply heap_inv_effect.
Qed.

(** C12. Objects never overlap, whatever code allocates them: between two
    collections, whichever threads allocate, interpreted, compiled by C1 or C2 or
    through the runtime, in any order and however often the buffers are refilled,
    the objects are apart from one another, and the valid-object bits in the memory
    mmtk-core has handed out are set for exactly their addresses.  The next
    allocation comes through; unless it has to collect or memory is exhausted, its
    object is in the heap and apart from all others, and no byte of them changes. *)
Theorem allocations_separate c0 objs0 c objs a :
  heap_inv c0 objs0 → rtc heap_step (c0, objs0) (c, objs) →
  all_separate objs ∧
  (∀ p, object p → given c p → bit (memory_of c) p = vo_enabled && bool_decide (p ∈ objs.*1)) ∧
  (allocation_ok a (memory_of c) → ∃ o c', allocate a c = Ok (o, c') ∧
    (collections c' = collections c →
      (o ≠ 0 → inside (o, bytes a) heap ∧ Forall (separate (o, bytes a)) objs) ∧
      ∀ r x, r ∈ objs → within x r → memory_of c' x = memory_of c x)).
Proof.
  intros Hi0 Hrun. assert (heap_inv c objs) as Hi.
  { change (heap_inv (c, objs).1 (c, objs).2). eapply (rtc_invariant heap_step (λ s, heap_inv s.1 s.2)); [|done|done].
    intros s s' Hs Hinv. by eapply heap_step_inv. }
  split; [apply Hi|]. split; [apply Hi|]. intros Ha.
  destruct (allocate_ok a c objs Hi Ha) as (o & c' & E & _ & He). exists o, c'. split; [done|].
  intros [fresh Hef]%He. destruct Ha as (HT & [Hs _] & _).
  destruct (heap_inv_effect _ _ _ _ _ _ _ Hi HT Hs Hef) as [_ Hsep].
  split; [intros Ho; by destruct (Hsep Ho)|]. by eapply effect_frame.
Qed.

End tiers.

(** ** A concrete heap *)

(** mmtk-core hands out chunks of 64 KiB, one for each request that does not fit
    the buffer of its thread; the rest of the chunk becomes the buffer. *)
Record chunked := Chunked { chunk_memory : mem; used_chunks : nat; chunk_account : list request }.

Definition chunk (i : nat) : region := (2 ^ 24 + 65536 * Z.of_nat i, 65536).
Fixpoint chunks (n : nat) : list region :=
  match n with O => [] | S n => chunk n :: chunks n end.

(** Clearing the valid-object bits of a chunk. *)
Definition clear_chunk (i : nat) (m : mem) : mem := λ x,
  if decide (2 ^ 40 + 2 ^ 18 + 1024 * Z.of_nat i ≤ x < 2 ^ 40 + 2 ^ 18 + 1024 * Z.of_nat i + 1024) then 0 else m x.

Definition chunk_alloc (c : chunked) (this size : Z) (a : Z) : Z * chunked :=
  if decide (size ≤ 65536 ∧ (used_chunks c < 8)%nat) then
    let o := (chunk (used_chunks c)).1 in
    (o, Chunked (write 8 (write 8 (clear_chunk (used_chunks c) (chunk_memory c)) (this + 8) (o + size))
                   (this + 16) (o + 65536))
          (S (used_chunks c)) ((o, size, a) :: chunk_account c))
  else (0, c).

Definition chunk_post_alloc (c : chunked) (o : Z) : chunked :=
  let a := meta_addr (2 ^ 40) o in
  Chunked (write 1 (chunk_memory c) a (Z.lor (read 1 (chunk_memory c) a) (Z.shiftl 1 (meta_shift o))))
    (used_chunks c) (tail (chunk_account c)).

#[local] Instance chunked_core : MutatorCore chunked.
Proof.
  refine {|
    core_bind c t := Ok (t, c); core_alloc c this size al off a := chunk_alloc c this size a;
    core_post_alloc c this o size a := chunk_post_alloc c o;
    core_flush c _ := c; core_destroy c _ := c; core_gc_initialized _ := true;
    FREE_LIST_ALLOCATOR_SIZE := 56; uninitialised := chunk_account;
    live_mutators _ := []; unflushed _ := [] |}; try done.
  - intros c m b al off a. unfold chunk_alloc. case_decide; [|done].
    rewrite decide_False; [done|]. unfold chunk. cbn [fst]. change (2 ^ 24) with 16777216. lia.
  - intros c m o b a l E. cbn. by rewrite E.
Defined.

#[local] Instance chunked_heap : AllocationHeap chunked := {|
  memory_of := chunk_memory;
  with_memory m c := Chunked m (used_chunks c) (chunk_account c);
  handed_out c := chunks (used_chunks c);
  collections _ := 0%nat
|}.

Definition example_threads : list Z := [65536; 131072].
Definition example_heap : region := (2 ^ 24, 2 ^ 19).

Lemma elem_of_chunks h n : h ∈ chunks n → ∃ i, (i < n)%nat ∧ h = chunk i.
Proof.
  induction n as [|n IH]; intros Hh; [by apply not_elem_of_nil in Hh|].
  apply elem_of_cons in Hh as [->|Hh]; [by exists n; split; [lia|]|].
  destruct (IH Hh) as (i & ? & ->). by exists i; split; [lia|].
Qed.

Lemma example_thread_range T : T ∈ example_threads → T = 65536 ∨ T = 131072.
Proof. intros [->|[->|[]%not_elem_of_nil]%elem_of_cons]%elem_of_cons; auto. Qed.

Lemma meta_addr_div p : object p → meta_addr (2 ^ 40) p = 2 ^ 40 + p / 64.
Proof. intros [Hp _]. unfold meta_addr. rewrite i64_small, Z.shiftr_div_pow2 by (done || lia). done. Qed.

Lemma chunk_top T : top_of bump_selector 1000 T = T + 1000 + 8.
Proof. done. Qed.

(** The bits after clearing those of a chunk. *)
Lemma clear_chunk_bits i m p :
  object p → meta_bit (2 ^ 40) (clear_chunk i m) p =
    meta_bit (2 ^ 40) m p && negb (bool_decide ((chunk i).1 ≤ p < (chunk i).1 + (chunk i).2)).
Proof.
  intros Hp. rewrite !meta_bit_testbit, meta_addr_div by done. unfold clear_chunk, chunk. cbn [fst snd].
  pose proof (Z.div_mod p 64). pose proof (Z.mod_pos_bound p 64). case_decide as Hd.
  - rewrite Z.bits_0, bool_decide_eq_true_2, andb_false_r by lia. done.
  - rewrite bool_decide_eq_false_2, andb_true_r by lia. done.
Qed.

(** What [alloc] writes: the cells of the thread and the bits of the chunk. *)
Lemma chunk_alloc_memory c T size a o c' :
  chunk_alloc c (T + 1000) size a = (o, c') → o ≠ 0 →
  o = (chunk (used_chunks c)).1 ∧ used_chunks c' = S (used_chunks c) ∧ (used_chunks c < 8)%nat ∧ size ≤ 65536 ∧
  chunk_memory c' = write 8 (write 8 (clear_chunk (used_chunks c) (chunk_memory c)) (T + 1008) (o + size))
                      (T + 1016) (o + 65536).
Proof.
  unfold chunk_alloc. case_decide as Hd; intros E Ho; injection E as <- <-; [|done].
  destruct Hd. split_and!; try done. cbn [chunk_memory].
  replace (T + 1000 + 8) with (T + 1008) by lia. by replace (T + 1000 + 16) with (T + 1016) by lia.
Qed.

Lemma read_8_write m a v : 0 ≤ v < 2 ^ 64 → read 8 (write 8 m a v) a = v.
Proof. intros Hv. rewrite read_write. by apply wrap_small. Qed.

Lemma chunk_effect c T size a :
  T ∈ example_threads → 0 < size → size mod 8 = 0 →
  buffer_ok bump_selector 1000 (chunk_memory c) T →
  ∃ fresh, effect bump_selector 1000 (2 ^ 40) example_threads example_heap T size
    (chunk_alloc c (T + 1000) size a).1 false fresh c (chunk_alloc c (T + 1000) size a).2.
Proof.
  intros HT Hs Hs8 Hb. destruct (chunk_alloc c (T + 1000) size a) as [o c'] eqn:E. cbn [fst snd].
  destruct (decide (o = 0)) as [->|Ho].
  { assert (c' = c) as ->.
    { unfold chunk_alloc, chunk in E. cbn [fst] in E. change (2 ^ 24) with 16777216 in E.
      case_decide; injection E; intros; [lia|done]. }
    exists []. split; try done.
    - intros f Hf. by apply not_elem_of_nil in Hf.
    - intros x Hx. by left.
    - intros p _ _. cbn [existsb]. by rewrite andb_true_r, orb_false_r. }
  destruct (chunk_alloc_memory _ _ _ _ _ _ E Ho) as (Eo & Eu & Hu & Hle & EM). clear E.
  set (n := used_chunks c) in *. set (m1 := clear_chunk n (chunk_memory c)) in *.
  assert (chunk n = (o, 65536)) as En by (rewrite Eo; done).
  assert (o = 16777216 + 65536 * Z.of_nat n) as Eo' by (rewrite Eo; done).
  apply example_thread_range in HT as HT'.
  assert (read 8 (chunk_memory c') (T + 1008) = o + size) as Ec.
  { rewrite EM, read_write_ne by (change (Z.of_nat 8) with 8; lia). apply read_8_write. word_range. }
  assert (read 8 (chunk_memory c') (T + 1016) = o + 65536) as El.
  { rewrite EM. apply read_8_write. word_range. }
  assert (∀ x, x < T + 1008 ∨ T + 1024 ≤ x → chunk_memory c' x = m1 x) as Hf.
  { intros x Hx. rewrite EM, !write_frame by (change (Z.of_nat 8) with 8; lia). done. }
  assert (∀ x, x < 2 ^ 40 → m1 x = chunk_memory c x) as Hm1.
  { intros x Hx. subst m1. unfold clear_chunk. rewrite decide_False; [done|].
    change (2 ^ 40) with 1099511627776 in *. change (2 ^ 18) with 262144. lia. }
  assert (∀ T', top_of bump_selector 1000 T' = T' + 1008) as Et by (intros; rewrite chunk_top; lia).
  exists [(o, 65536)]. unfold buffer_ok, buffer, cursor, limit in *. rewrite !Et in *.
  replace (T + 1008 + 8) with (T + 1016) in * by lia.
  split; unfold buffer_ok, available, buffer, cursor, limit; cbn [memory_of handed_out chunked_heap]; rewrite ?Et, ?Ec;
    replace (T + 1008 + 8) with (T + 1016) in * by lia; rewrite ?El.
  - rewrite Eu. cbn [chunks app]. fold n. by rewrite En.
  - intros f ->%list_elem_of_singleton. split.
    + intros x. unfold within, example_heap. cbn. lia.
    + intros h (i & Hi & ->)%elem_of_chunks x. unfold within, chunk. cbn. lia.
  - intros _. split; [split; [lia|]|].
    + rewrite Eo', Z.add_mod, Z.mul_mod by done. rewrite Z.mul_0_l. done.
    + intros x Hx. right. exists (o, 65536). split; [by apply list_elem_of_singleton|]. unfold within in *. cbn in *. lia.
  - split_and!; [lia|lia|]. rewrite Z.add_mod, Hs8, Eo', (Z.add_mod 16777216), Z.mul_mod by done. rewrite Z.mul_0_l. done.
  - intros x Hx. right. exists (o, 65536). split; [by apply list_elem_of_singleton|]. unfold within in *. cbn in *. lia.
  - intros _ x. unfold within. cbn. lia.
  - intros T' HT1 Hn. apply example_thread_range in HT1. rewrite !Et.
    split; apply read_ext; change (Z.of_nat 8) with 8; intros x Hx; rewrite Hf by lia; apply Hm1; lia.
  - intros x Hx _. unfold within, example_heap in Hx. cbn in Hx. rewrite Hf by lia. apply Hm1. lia.
  - intros p Hp Hph. unfold within, example_heap in Hph. cbn in Hph. cbn [existsb fst snd andb]. rewrite !orb_false_r.
    pose proof (clear_chunk_bits n (chunk_memory c) p Hp) as Hb'. rewrite En in Hb'. cbn [fst snd] in Hb'.
    rewrite <-Hb'. rewrite !meta_bit_testbit. f_equal. apply Hf. rewrite meta_addr_div by done.
    pose proof (Z.div_pos p 64). lia.
Qed.

Section example.
#[local] Instance idle_calls : Callee :=
  {| callee_memory _ _ mm := mm; callee_scratch _ _ _ _ := 0 |}.
#[local] Program Instance zeroed_object : ObjectInit :=
  {| initialize_object obj size m := λ x, if decide (obj ≤ x < obj + size) then 0 else m x |}.
Next Obligation. intros obj size m x Hx. cbn. rewrite decide_False by lia. done. Qed.

Lemma chunked_laws : AllocationLaws bump_selector 1000 (2 ^ 40) true example_threads example_heap.
Proof.
  split; try done.
  - intros c T size a HT Hs Hs8 Hb r _. subst r. by apply chunk_effect.
  - intros c T o size a HT Ho c'. subst c'. cbn [memory_of handed_out chunked_heap core_post_alloc chunked_core].
    destruct (vo_bit_written (2 ^ 40) (chunk_memory c) o Ho) as [F B].
    pose proof (meta_addr_div o Ho) as Em. destruct Ho as [Ho _].
    pose proof (Z.div_pos o 64). unfold chunk_post_alloc. cbn [chunk_memory used_chunks].
    split_and!; [done| | |].
    + intros T' HT'%example_thread_range. unfold cursor, limit. rewrite !chunk_top.
      split; apply read_ext; change (Z.of_nat 8) with 8; intros x Hx; apply F; rewrite Em;
        change (2 ^ 40) with 1099511627776; lia.
    + intros x Hx _. apply F. rewrite Em. unfold within, example_heap in Hx. cbn in Hx.
      change (2 ^ 40) with 1099511627776. lia.
    + intros p Hp _. by apply B.
Qed.

Lemma example_layout : layout_ok bump_selector 0 1000 800 (2 ^ 40) example_threads example_heap.
Proof.
  split; unfold cell, within, vo_table, example_heap, example_threads; cbn -[Z.pow].
  - apply example_selector.
  - split; [discriminate|reflexivity].
  - discriminate.
  - split; [split; [discriminate|reflexivity]|reflexivity].
  - apply eden_example_mapped.
  - split_and!; [reflexivity|discriminate|]. change (2 ^ 40) with 1099511627776. lia.
  - intros T HT%example_thread_range. unfold top_of, count_of. change (cursor_position bump_selector) with 8.
    change (2 ^ 64) with 18446744073709551616. lia.
  - intros T x HT%example_thread_range. change (2 ^ 40) with 1099511627776. change (2 ^ 57) with 144115188075855872.
    change (2 ^ 24) with 16777216. change (2 ^ 19) with 524288. unfold top_of, count_of.
    change (cursor_position bump_selector) with 8. lia.
  - intros T T' x HT%example_thread_range HT'%example_thread_range. unfold top_of, count_of. change (cursor_position bump_selector) with 8. lia.
Qed.
(** Empty memory, with no buffers. *)
Definition empty_heap : chunked := Chunked (λ _, 0) 0 [].

Abbreviation example_inv := (heap_inv bump_selector 1000 (2 ^ 40) true example_threads example_heap).
Abbreviation example_step := (heap_step true false false 16384 bump_selector 0 1000 800 (2 ^ 40) true example_threads).
Abbreviation example_ok := (allocation_ok 16384 bump_selector 0 true example_threads).
Abbreviation example_allocate := (allocate true false false 16384 bump_selector 0 1000 800 (2 ^ 40) true).

Lemma empty_inv : example_inv empty_heap [].
Proof.
  assert (∀ T, buffer bump_selector 1000 (chunk_memory empty_heap) T = (0, 0)) as Eb by done.
  split; cbn [memory_of chunked_heap]; try done.
  - intros r Hr. by apply not_elem_of_nil in Hr.
  - intros x (h & Hh & _). by apply not_elem_of_nil in Hh.
  - intros T x _. rewrite Eb. unfold within. cbn. lia.
  - intros T r _ Hr. by apply not_elem_of_nil in Hr.
  - intros T T' _ _ _ x. rewrite Eb. unfold within. cbn. lia.
  - intros p _ (h & Hh & _). by apply not_elem_of_nil in Hh.
Qed.

(** Two threads: the first interpreted, the second in code from C2, 48 bytes each. *)
Definition interpreted : allocation := Allocation 65536 48 (Assembly eden_machine (Some rdx) 0 rbx).
Definition compiled : allocation := Allocation 131072 48 (Compiled example_alloc 0 (λ _, 0)).

Lemma interpreted_ok m : example_ok interpreted m.
Proof.
  split_and!; [by left|done|done|done|]. cbn [tier interpreted]. split_and!; try done.
  destruct example_registers. by split.
Qed.
Lemma compiled_example_ok m : example_ok compiled m.
Proof. split_and!; [by right; left|done|done|done|]. apply example_inputs. Qed.

(** The heap and the objects after a run. *)
Fixpoint after (l : list allocation) (s : chunked * list region) : chunked * list region :=
  match l with
  | [] => s
  | a :: l =>
      match example_allocate a s.1 with
      | Ok (o, c) => after l (c, allocated_objects o (bytes a) s.2)
      | _ => s
      end
  end.

Lemma after_run l s :
  Forall (λ a, ∀ m, example_ok a m) l → example_inv s.1 s.2 → rtc example_step s (after l s).
Proof.
  intros Hl. revert s. induction Hl as [|a l Ha _ IH]; intros [c objs] Hi; [apply rtc_refl|].
  destruct (allocate_ok true false false 16384 bump_selector 0 1000 800 (2 ^ 40) true example_threads example_heap
    chunked_laws example_layout a c objs Hi (Ha _)) as (o & c' & E & _).
  cbn [after fst snd]. rewrite E. assert (example_step (c, objs) (c', allocated_objects o (bytes a) objs)) as Hs
    by (by apply step_allocate; [apply Ha|..]).
  eapply rtc_l; [exact Hs|]. apply IH. by apply (heap_step_inv _ _ _ _ _ _ _ _ _ _ _ _ chunked_laws example_layout _ _ Hs).
Qed.

Definition example_run : list allocation := [interpreted; interpreted; compiled; interpreted; compiled].

(** Each thread gets a chunk for its first allocation and bumps its cursor
    afterwards. *)
Example example_addresses :
  (after example_run (empty_heap, [])).2 =
  [(16842800, 48); (16777312, 48); (16842752, 48); (16777264, 48); (16777216, 48)].
Proof. vm_compute. reflexivity. Qed.

Definition object_of {A} (r : outcome (Z * A)) : Z := match r with Ok (o, _) => o | _ => 0 end.

Lemma next_address : object_of (example_allocate interpreted (after example_run (empty_heap, [])).1) = 16777360.
Proof. vm_compute. reflexivity. Qed.

Lemma allocations_separate_witness :
  let s := after example_run (empty_heap, []) in
  all_separate s.2 ∧ ∃ o c', example_allocate interpreted s.1 = Ok (o, c') ∧ Forall (separate (o, 48)) s.2.
Proof.
  set (s := after example_run (empty_heap, [])).
  assert (rtc example_step (empty_heap, []) (s.1, s.2)) as Hrun.
  { destruct s as [c objs] eqn:E. cbn [fst snd]. rewrite <-E. apply after_run; [|apply empty_inv].
    repeat (apply Forall_cons_2; [first [apply interpreted_ok|apply compiled_example_ok]|]). apply Forall_nil_2. }
  destruct (allocations_separate true false false 16384 bump_selector 0 1000 800 (2 ^ 40) true example_threads
    example_heap chunked_laws example_layout empty_heap [] s.1 s.2 interpreted empty_inv Hrun) as (Hs & _ & Ha).
  split; [exact Hs|]. destruct (Ha (interpreted_ok _)) as (o & c' & E & Hc). exists o, c'. split; [exact E|].
  destruct (Hc eq_refl) as [Hsep _]. apply Hsep.
  pose proof next_address as En. fold s in En. rewrite E in En. cbn [object_of] in En. rewrite En. discriminate.
Defined.
End example.
