(* ===== verification/AllocRaces.v ===== *)
(** * Allocation fast paths of several threads at once

    Threads that run the code of [eden_allocate] at the same time share memory and
    synchronise on nothing.  Each moves the cursor of its own mutator, but the
    valid-object bits of eight words share a byte, which the code reads, changes and
    writes back.  Here the instructions of all threads are interleaved
    ([Interleaving]): as long as the objects do not share such a byte, each thread
    allocates as if it were alone; if they do, a bit can get lost.  mmtk-core's
    buffers are whole lines, so that they do not. *)

From stdpp Require Import base numbers list.
From Stdlib Require Import ZArith Lia.
From S2P Require Import Prelude Slots Layout Barrier X86 Interleaving EdenAllocate.

Local Open Scope Z_scope.

#[local] Arguments read : simpl never.
#[local] Arguments write : simpl never.

(** ** Code that addresses memory by the thread register *)

(** The register an instruction writes. *)
Definition destination (i : instr) : option reg :=
  match i with
  | movptr d _ | movptr_imm d _ | movptr_load d _ | movl d _ | movb_load d _ | movzbl d _ | lea d _
  | shrptr d _ | shrptr_cl d | shlptr_cl d | andptr d _ | orptr d _ | xorptr d _ | addptr d _ | pop d => Some d
  | _ => None
  end.

(** With the thread in [r15], the instruction stays in [F] and keeps [r15]. *)
Definition thread_local (T : Z) (F : Z → Prop) (i : instr) : Prop :=
  destination i ≠ Some r15_thread ∧
  match i with call_leaf _ _ | popa => False | _ => ∀ rs x, rs r15_thread = T → touched i rs x → F x end.

Section races.
Context `{Callee}.

Lemma exec1_keeps T F i m m' : thread_local T F i → exec1 i m = Some m' → rf m' r15_thread = rf m r15_thread.
Proof.
  intros [Hd Hl] E. destruct i; cbn [destination exec1] in *; try done;
    try (injection E as <-; cbn; rewrite ?upd_ne by (intros Heq; by apply Hd; rewrite Heq); done).
  destruct (stack m) as [|[z|rs] st]; [done| |done]. injection E as <-. cbn.
  rewrite upd_ne; [done|]. intros Heq. apply Hd. by rewrite Heq.
Qed.

Lemma thread_local_run T F c : Forall (thread_local T F) c → ∀ t m, rf m r15_thread = T → run_local F c t m.
Proof.
  induction 1 as [|i c Hi Hc IH]; intros t m Hm; [done|]. cbn [run_local]. destruct t as [x|]; [by apply IH|].
  assert (∀ m', exec1 i m = Some m' → run_local F c None m') as Hn.
  { intros m' E. apply IH. rewrite (exec1_keeps T F i m m' Hi E). done. }
  destruct Hi as [_ Hl]. split.
  - unfold local. destruct i; try done; intros y Hy; by apply (Hl (rf m) y).
  - destruct i; try (destruct (exec1 _ m) eqn:E; [by apply Hn|done]); [|by apply IH].
    destruct (flags m); [by apply IH|done].
Qed.

Lemma run_local_seek F c x m : no_bind c = true → run_local F c (Some x) m.
Proof.
  unfold no_bind. induction c as [|i c IH]; [done|]. cbn [forallb run_local]. intros [Hi Hc]%andb_true_iff.
  destruct i; try (by apply IH). done.
Qed.

Lemma run_local_app F c1 c2 t m :
  run_local F c1 t m →
  match exec c1 t m with
  | Falls m' => run_local F c2 None m'
  | Jumps x m' => run_local F c2 (Some x) m'
  | Stuck => True
  end → run_local F (c1 ++ c2) t m.
Proof.
  revert t m. induction c1 as [|i c1 IH]; intros t m H1 H2; [by destruct t|].
  cbn [run_local exec app] in *. destruct t as [x|].
  - destruct i; try (by apply IH). case_decide; by apply IH.
  - destruct H1 as [Hl H1]. split; [done|].
    destruct i; try (destruct (exec1 _ m); [by apply IH|done]); [|by apply IH].
    destruct (flags m) as [f|]; [|done]. destruct (holds c f); by apply IH.
Qed.

(** ** The code of an allocation *)

Variable mmtk_enable_allocation_fastpath : bool.
Variable max_non_los_bytes : Z.
Variable selector : AllocatorSelector.
Variable MMTK_MARK_COMPACT_HEADER_RESERVED_IN_BYTES : Z.
Variables mutator_offset allocated_bytes_offset : Z.
Variable VO_BIT_BASE_ADDRESS : Z.
Variable MMTK_ENABLE_VO_BIT : bool.
Hypothesis vo_mapped : 0 ≤ VO_BIT_BASE_ADDRESS ∧ VO_BIT_BASE_ADDRESS + 2 ^ 57 < 2 ^ 64.

Abbreviation vo_enabled := (enable_vo_bit selector MMTK_ENABLE_VO_BIT).
Abbreviation object_of := (new_object selector MMTK_MARK_COMPACT_HEADER_RESERVED_IN_BYTES mutator_offset).
Abbreviation bit := (meta_bit VO_BIT_BASE_ADDRESS).

(** What the code of a thread touches: the cursor and the limit of its mutator, its
    count of allocated bytes, and the byte with the new object's bit. *)
Definition footprint (m : machine) (x : Z) : Prop :=
  top_address selector mutator_offset m ≤ x < top_address selector mutator_offset m + 16 ∨
  count_address allocated_bytes_offset m ≤ x < count_address allocated_bytes_offset m + 8 ∨
  (vo_enabled = true ∧ x = meta_addr VO_BIT_BASE_ADDRESS (object_of m)).

(** The code that sets the bit. *)
Lemma vo_bit_local F m :
  0 ≤ rf m rax < 2 ^ 63 → F (meta_addr VO_BIT_BASE_ADDRESS (rf m rax)) →
  run_local F (vo_bit_code VO_BIT_BASE_ADDRESS rax) None m.
Proof.
  intros Ho HF. unfold vo_bit_code. cbn [run_local exec1 local touched].
  split_and!; try done; intros y Hy; try done; rewrite Hy; unfold effective; cbn [base index scale disp];
    cbn [rf set_reg arith set_flags set_memory]; unfold rscratch1;
    repeat (rewrite upd_eq || (rewrite upd_ne by congruence)); by rewrite vo_address.
Qed.

Section code.
Variables (m : machine) (var : option reg) (con : Z) (t1 : reg).
Hypothesis th : thread_ok selector mutator_offset allocated_bytes_offset VO_BIT_BASE_ADDRESS m.
Hypothesis re : registers_ok max_non_los_bytes selector MMTK_MARK_COMPACT_HEADER_RESERVED_IN_BYTES MMTK_ENABLE_VO_BIT
  m var con t1.
Hypothesis sel : fastpath_selector selector.
Hypothesis obj : vo_enabled = true → object (object_of m).

Abbreviation T := (rf m r15_thread).

(** An operand at a fixed offset of the thread. *)
Lemma thread_operand o n rs x :
  0 ≤ o → T + o < 2 ^ 64 → rs r15_thread = T →
  effective rs (Addr r15_thread None 0 o) ≤ x < effective rs (Addr r15_thread None 0 o) + n → T + o ≤ x < T + o + n.
Proof. intros Ho Hr E. rewrite thread_word; rewrite ?E; try done. apply th. Qed.

Lemma position_nonneg : 0 ≤ cursor_position selector.
Proof. destruct sel as [Hi _]. unfold cursor_position. repeat case_decide; lia. Qed.

Lemma cell_local o rs x :
  o = mutator_offset + cursor_position selector ∨ o = mutator_offset + cursor_position selector + 8 ∨
    o = allocated_bytes_offset →
  rs r15_thread = T →
  effective rs (Addr r15_thread None 0 o) ≤ x < effective rs (Addr r15_thread None 0 o) + 8 → footprint m x.
Proof.
  destruct th as [H0 [M0 M1] Htop [C0 C1] _ _]. pose proof position_nonneg.
  unfold footprint, top_address, count_address in *. intros Ho E Hx.
  assert (0 ≤ o ∧ T + o < 2 ^ 64) as [? ?] by lia. apply thread_operand in Hx; [|done..].
  destruct Ho as [-> | [-> | ->]]; lia.
Qed.

Lemma bump_local m0 :
  rf m0 r15_thread = T →
  run_local (footprint m)
    (bump_code selector MMTK_MARK_COMPACT_HEADER_RESERVED_IN_BYTES rax var con t1
       (Addr r15_thread None 0 (mutator_offset + cursor_position selector))
       (Addr r15_thread None 0 (mutator_offset + cursor_position selector + 8))) None m0.
Proof.
  destruct re as [[T1 T2] _ _ _ _]. apply thread_local_run.
  assert (Some t1 ≠ Some r15_thread) by congruence.
  unfold bump_code. destruct var as [v|]; case_decide; cbn [app];
    repeat (apply Forall_cons_2; [split; [done|cbn [touched]; try done; intros rs x; apply cell_local; tauto]|]);
    apply Forall_nil_2.
Qed.

Lemma count_local m0 :
  rf m0 r15_thread = T →
  run_local (footprint m)
    (allocated_bytes_code selector MMTK_MARK_COMPACT_HEADER_RESERVED_IN_BYTES allocated_bytes_offset var con) None m0.
Proof.
  apply thread_local_run. unfold allocated_bytes_code. destruct var as [v|];
    repeat (apply Forall_cons_2; [split; [done|cbn [touched]; try done; intros rs x; apply cell_local; tauto]|]);
    apply Forall_nil_2.
Qed.

Lemma tail_local m0 :
  rf m0 r15_thread = T → (vo_enabled = true → rf m0 rax = object_of m) →
  run_local (footprint m)
    ((if vo_enabled then vo_bit_code VO_BIT_BASE_ADDRESS rax else []) ++
     allocated_bytes_code selector MMTK_MARK_COMPACT_HEADER_RESERVED_IN_BYTES allocated_bytes_offset var con) None m0.
Proof.
  intros ET Ho. destruct vo_enabled eqn:Evo; cbn [app]; [|by apply count_local].
  specialize (Ho eq_refl). pose proof (obj eq_refl) as Hobj. rewrite <-Ho in Hobj.
  apply run_local_app.
  - apply vo_bit_local; [apply Hobj|]. rewrite Ho. by right; right.
  - destruct (vo_bit_exec VO_BIT_BASE_ADDRESS vo_mapped m0 Hobj) as (m1 & E1 & R1 & _).
    rewrite <-(app_nil_r (vo_bit_code _ _)), (exec_straight _ _ _ _ E1). cbn [exec].
    apply count_local. by rewrite R1.
Qed.

Lemma body_local m0 :
  rf m0 = rf m → memory m0 = memory m →
  run_local (footprint m)
    (body_code selector MMTK_MARK_COMPACT_HEADER_RESERVED_IN_BYTES mutator_offset allocated_bytes_offset
       VO_BIT_BASE_ADDRESS MMTK_ENABLE_VO_BIT var con t1) None m0.
Proof.
  intros Erf Emem. unfold body_code. apply run_local_app; [apply bump_local; by rewrite Erf|].
  pose proof position_nonneg as Hp. destruct re as [[T1 T2] Hv _ _ _], th as [H0 [M0 M1] Htop _ _ _].
  unfold top_address in Htop.
  destruct (bump_exec selector MMTK_MARK_COMPACT_HEADER_RESERVED_IN_BYTES m0 var con t1
    (mutator_offset + cursor_position selector)) as (m1 & E1 & A1 & R1 & _); rewrite ?Erf; try done; try lia.
  { intros v E. by destruct (Hv v E) as (? & ? & _). }
  rewrite E1. destruct (_ || _); [by apply run_local_seek, tail_no_bind|].
  apply tail_local; [by rewrite R1, Erf|]. intros _. rewrite A1, Erf, Emem. unfold new_object, top_address.
  do 3 f_equal. lia.
Qed.

(** The whole fast path. *)
Lemma eden_allocate_local code :
  eden_allocate mmtk_enable_allocation_fastpath max_non_los_bytes selector
    MMTK_MARK_COMPACT_HEADER_RESERVED_IN_BYTES mutator_offset allocated_bytes_offset VO_BIT_BASE_ADDRESS
    MMTK_ENABLE_VO_BIT r15_thread rax var con t1 = Ok code →
  run_local (footprint m) code None m.
Proof.
  assert (∀ l, run_local (footprint m) [jmp l] None m) as Hj by (intros l; split; [intros x []|done]).
  unfold eden_allocate. destruct mmtk_enable_allocation_fastpath; cbn [negb]; [|intros [= <-]; apply Hj].
  destruct (_ && _); [intros [= <-]; apply Hj|]. rewrite decide_False.
  2:{ destruct sel as [_ [[E _] | [[E _] | [E _]]]]; rewrite E; by intros [? | [? | ?]]. }
  rewrite offsets_eq by (exact sel || apply th). cbn [mbind outcome_bind tlab_top_offset tlab_end_offset].
  intros [= <-].
  pose (b := body_code selector MMTK_MARK_COMPACT_HEADER_RESERVED_IN_BYTES mutator_offset allocated_bytes_offset
    VO_BIT_BASE_ADDRESS MMTK_ENABLE_VO_BIT var con t1).
  match goal with |- run_local _ (?c ++ _) _ _ => change (run_local (footprint m) (c ++ b) None m) end.
  assert (∀ m0, rf m0 = rf m → memory m0 = memory m → run_local (footprint m) b None m0) as Hb by exact body_local.
  assert (no_bind b = true) as Hn.
  { unfold b, body_code, no_bind. rewrite forallb_app. apply andb_true_iff. split; [apply bump_no_bind|apply tail_no_bind]. }
  clearbody b. destruct var as [v|]; cbn [app]; [|by apply Hb].
  cbn [run_local exec1 local touched set_flags flags rf]. split; [intros x []|]. split; [intros x []|].
  destruct (holds _ _); [by apply run_local_seek|by apply Hb].
Qed.
End code.

(** ** Threads that allocate at the same time *)

(** A thread: its registers, and the size and the scratch register that the code was
    emitted for. *)
Record alloc_thread := AllocThread {
  at_mach : machine; at_var : option reg; at_con : Z; at_t1 : reg
}.

Definition view (mm : mem) (a : alloc_thread) : machine := set_memory mm (at_mach a).

Definition code_of (a : alloc_thread) : outcome (list instr) :=
  eden_allocate mmtk_enable_allocation_fastpath max_non_los_bytes selector
    MMTK_MARK_COMPACT_HEADER_RESERVED_IN_BYTES mutator_offset allocated_bytes_offset VO_BIT_BASE_ADDRESS
    MMTK_ENABLE_VO_BIT r15_thread rax (at_var a) (at_con a) (at_t1 a).

(** At the start of the code. *)
Definition about_to_allocate (a : alloc_thread) (c : cpu) : Prop :=
  code_of a = Ok (code c) ∧ target c = None ∧ mach c = at_mach a.

Abbreviation fast a m :=
  (small max_non_los_bytes selector MMTK_MARK_COMPACT_HEADER_RESERVED_IN_BYTES m (at_var a) (at_con a) &&
   fits selector MMTK_MARK_COMPACT_HEADER_RESERVED_IN_BYTES mutator_offset m (at_var a) (at_con a)).

(** The thread [c] has run all of its code: it has its object, or goes to the slow
    path and has changed nothing. *)
Definition allocation_done (before after : mem) (a : alloc_thread) (c : cpu) : Prop :=
  let m := view before a in
  let top := top_address selector mutator_offset m in
  let count := count_address allocated_bytes_offset m in
  if fast a m then
    target c = None ∧ rf (mach c) rax = object_of m ∧
    read 8 after top =
      new_end selector MMTK_MARK_COMPACT_HEADER_RESERVED_IN_BYTES mutator_offset m (at_var a) (at_con a) ∧
    read 8 after count =
      u64 (read 8 before count + size_of (rf m) (at_var a) (at_con a) +
           extra_header selector MMTK_MARK_COMPACT_HEADER_RESERVED_IN_BYTES) ∧
    (vo_enabled = true → bit after (object_of m) = true)
  else target c = Some slow_case ∧ ∀ x, footprint m x → after x = before x.

Hypothesis fastpath : mmtk_enable_allocation_fastpath = true.
Hypothesis sel : fastpath_selector selector.

(** Each thread can run its code. *)
Record alloc_ready (before : mem) (a : alloc_thread) : Prop := {
  ar_thread : thread_ok selector mutator_offset allocated_bytes_offset VO_BIT_BASE_ADDRESS (view before a);
  ar_registers : registers_ok max_non_los_bytes selector MMTK_MARK_COMPACT_HEADER_RESERVED_IN_BYTES MMTK_ENABLE_VO_BIT
    (view before a) (at_var a) (at_con a) (at_t1 a);
  ar_object : vo_enabled = true → object (object_of (view before a))
}.

(** Alone, the code is never stuck; and a thread that ends as if alone is done. *)
Lemma done_as_alone before a code :
  alloc_ready before a → code_of a = Ok code →
  exec code None (view before a) ≠ Stuck ∧
  ∀ after c m, exec code None (view before a) = match target c with None => Falls m | Some x => Jumps x m end →
    same_in (footprint (view before a)) m (set_memory after (mach c)) → allocation_done before after a c.
Proof.
  intros [R1 R2 R3] Ec.
  destruct (eden_allocate_asm mmtk_enable_allocation_fastpath max_non_los_bytes selector
    MMTK_MARK_COMPACT_HEADER_RESERVED_IN_BYTES mutator_offset allocated_bytes_offset VO_BIT_BASE_ADDRESS
    MMTK_ENABLE_VO_BIT vo_mapped (view before a) (at_var a) (at_con a) (at_t1 a) fastpath sel R1 R2 R3)
    as (code1 & m1 & Ecode & _ & _ & Hw).
  unfold code_of in Ec. rewrite Ecode in Ec. injection Ec as ->. unfold allocation_done.
  destruct (_ && _); destruct Hw as [-> Hw]; (split; [done|]); intros after c m Em [(R & _) Hm];
    destruct (target c); try done; cbn [rf set_memory memory] in R, Hm.
  - injection Em as <-. destruct Hw as (A1 & A2 & A3 & _ & A5).
    assert (∀ x, (∀ y, x ≤ y < x + 8 → footprint (view before a) y) → read 8 after x = read 8 (memory m1) x) as Hr.
    { intros x Hx. symmetry. by apply read_agree with (F := footprint (view before a)). }
    split_and!; [done|by rewrite <-R|rewrite <-A2; apply Hr; left; lia| |].
    + etransitivity; [|exact A3]. apply Hr. by right; left.
    + intros Hvo. rewrite meta_bit_testbit, <-Hm, <-meta_bit_testbit by (right; right; done).
      rewrite A5 by (by apply R3). rewrite Hvo, bool_decide_eq_true_2 by done. apply orb_true_r.
  - injection Em as -> ->. split; [done|]. intros x Hx. rewrite <-Hm by done. by rewrite Hw.
Qed.

Section threads.
Variable ths : list alloc_thread.
Variable s0 : system.
Hypothesis start : Forall2 about_to_allocate ths (cpus s0).

Abbreviation footprint_of a := (footprint (view (shared s0) a)).

(** C24. Threads that run the code of [eden_allocate] at the same time do not disturb
    each other, whatever the order of their instructions: as long as the cells of
    their mutators are apart and their new objects' valid-object bits are in
    different bytes, no thread gets stuck, and one whose code is at its end has what
    it would have alone: the object at its cursor, the cursor and the count of bytes
    moved, the bit set; or it goes to the slow path with its memory as it was.
    Nothing else in memory changes, and a schedule is at most as long as the code. *)
Theorem allocations_do_not_race l s :
  (∀ a, a ∈ ths → alloc_ready (shared s0) a) →
  (∀ i j a b x, ths !! i = Some a → ths !! j = Some b → i ≠ j → footprint_of a x → footprint_of b x → False) →
  sys_run l s0 = Some s →
  (length l + code_left s)%nat = code_left s0 ∧
  (∀ i a, ths !! i = Some a → ∃ c, cpus s !! i = Some c ∧
     (code c = [] ∨ ∃ s', sys_step i s = Some s') ∧
     (code c = [] → allocation_done (shared s0) (shared s) a c)) ∧
  (∀ x, (∀ a, a ∈ ths → ¬ footprint_of a x) → shared s x = shared s0 x).
Proof.
  intros Hready Hapart Hrun. split; [by apply sys_run_length|].
  set (F := λ i, match ths !! i with Some a => footprint_of a | None => λ _, False end).
  assert (∀ i a c, ths !! i = Some a → cpus s0 !! i = Some c →
    load_cpu (shared s0) c = Cpu (code c) None (view (shared s0) a) ∧ code_of a = Ok (code c) ∧
    alloc_ready (shared s0) a) as Hload.
  { intros i a c Ha Hc. destruct (Forall2_lookup_lr _ _ _ _ _ _ start Ha Hc) as (E1 & E2 & E3).
    split_and!; [|done|eapply Hready, list_elem_of_lookup_2, Ha]. unfold load_cpu, with_mach. by rewrite E2, E3. }
  destruct (sys_run_alone F) with (s0 := s0) (l := l) (s := s) as (Hstuck & Hend & Hout); [| |done|].
  { intros i j x Hij. unfold F. destruct (ths !! i) eqn:Ei, (ths !! j) eqn:Ej; try done. by eapply Hapart. }
  { intros i c Hc. destruct (Forall2_lookup_r _ _ _ _ _ start Hc) as (a & Ha & _).
    destruct (Hload i a c Ha Hc) as (El & Ec & [R1 R2 R3]). unfold F. rewrite Ha, El. unfold stays_local.
    cbn [code target mach]. by eapply eden_allocate_local. }
  split.
  - intros i a Ha. destruct (Forall2_lookup_l _ _ _ _ _ start Ha) as (c0 & Hc0 & _).
    destruct (Hload i a c0 Ha Hc0) as (El & Ec & Hr). destruct (done_as_alone _ _ _ Hr Ec) as [Hns Hd].
    specialize (Hstuck i c0 Hc0). specialize (Hend i c0). rewrite El in Hstuck, Hend.
    destruct (Hstuck Hns) as (c & Hc & Hp). exists c. split_and!; [done..|]. intros Hnil.
    destruct (Hend c Hc0 Hc Hnil) as (m & Em & Hm). unfold F in Hm. rewrite Ha in Hm. by eapply Hd.
  - intros x Hx. apply Hout. intros i Hi. unfold F. destruct (ths !! i) as [a|] eqn:Ea; [|by intros []].
    apply Hx. by eapply list_elem_of_lookup_2.
Qed.
End threads.
End races.

(** ** Concrete runs *)

Section examples.
#[local] Instance silent_callee : Callee :=
  {| callee_memory _ _ mm := mm; callee_scratch _ _ _ _ := 0 |}.

(** Two threads whose mutators have their cursors at [cur1] and [cur2], with room for
    [room] bytes each. *)
Definition two_cells (cur1 cur2 room : Z) : mem :=
  write 8 (write 8 (write 8 (write 8 (λ _, 0) 66544 cur1) 66552 (cur1 + room)) 132080 cur2) 132088 (cur2 + room).

Definition thread_at (t : Z) : alloc_thread :=
  AllocThread (Machine (λ r, match r with r15 => t | rdx => 16 | _ => 7 end) (λ _, 0) None [] []) (Some rdx) 0 rbx.

Definition racers : list alloc_thread := [thread_at 65536; thread_at 131072].

Definition racer_code (a : alloc_thread) : list instr :=
  match code_of true 16384 bump_selector 0 1000 800 (2 ^ 40) true a with Ok c => c | _ => [] end.

Definition race (cur1 cur2 room : Z) : system :=
  System (two_cells cur1 cur2 room) (map (λ a, Cpu (racer_code a) None (at_mach a)) racers).

Lemma race_start cur1 cur2 room :
  Forall2 (about_to_allocate true 16384 bump_selector 0 1000 800 (2 ^ 40) true) racers (cpus (race cur1 cur2 room)).
Proof. repeat (apply Forall2_cons; split; [by split|]). apply Forall2_nil_2. Qed.

(** One instruction each, in turn. *)
Definition in_turn : list nat := concat (replicate 25 [0; 1]%nat).

Lemma in_turn_ends :
  (λ s, map (λ c, length (code c)) (cpus s)) <$> sys_run in_turn (race 1048576 1056768 4096) = Some [0; 0]%nat.
Proof. vm_compute. reflexivity. Qed.

Abbreviation racer_top t := (top_address bump_selector 1000 (view (two_cells 1048576 1056768 4096) (thread_at t))).
Abbreviation racer_object t := (new_object bump_selector 0 1000 (view (two_cells 1048576 1056768 4096) (thread_at t))).

Lemma racer_cells :
  racer_top 65536 = 66544 ∧ racer_top 131072 = 132080 ∧
  racer_object 65536 = 1048576 ∧ racer_object 131072 = 1056768.
Proof. vm_compute. split_and!; reflexivity. Qed.

Abbreviation racer_fast t :=
  (let m := view (two_cells 1048576 1056768 4096) (thread_at t) in
   small 16384 bump_selector 0 m (Some rdx) 0 && fits bump_selector 0 1000 m (Some rdx) 0).
Abbreviation racer_end t :=
  (new_end bump_selector 0 1000 (view (two_cells 1048576 1056768 4096) (thread_at t)) (Some rdx) 0).

Lemma racer_outcome :
  racer_fast 65536 = true ∧ racer_end 65536 = 1048592 ∧
  racer_fast 131072 = true ∧ racer_end 131072 = 1056784.
Proof. vm_compute. split_and!; reflexivity. Qed.

Lemma racer_object_ok t : t = 65536 ∨ t = 131072 → object (racer_object t).
Proof.
  destruct racer_cells as (_ & _ & E1 & E2).
  intros [-> | ->]; rewrite ?E1, ?E2; (split; [split; [discriminate|reflexivity]|reflexivity]).
Qed.

Lemma racer_ready t :
  t = 65536 ∨ t = 131072 →
  alloc_ready 16384 bump_selector 0 1000 800 (2 ^ 40) true (two_cells 1048576 1056768 4096) (thread_at t).
Proof.
  intros Ht. destruct racer_cells as (E1 & E2 & _ & _). split.
  - assert (racer_top t = t + 1008) as E by (destruct Ht as [-> | ->]; rewrite ?E1, ?E2; reflexivity).
    split; rewrite ?E; unfold count_address, vo_table; cbn [rf view set_memory at_mach thread_at r15_thread];
      change (2 ^ 64) with 18446744073709551616; change (2 ^ 40) with 1099511627776;
      try match goal with |- ∀ _, _ => intros x end; destruct Ht as [-> | ->]; cbn; lia.
  - split; cbn [at_var at_con at_t1 thread_at]; try done; try (intros v [= <-]; by split_and!);
      try (intros v _ [= <-]; by split_and!).
  - intros _. by apply racer_object_ok.
Qed.

Lemma racers_apart i j a b x :
  racers !! i = Some a → racers !! j = Some b → i ≠ j →
  footprint bump_selector 0 1000 800 (2 ^ 40) true (view (two_cells 1048576 1056768 4096) a) x →
  footprint bump_selector 0 1000 800 (2 ^ 40) true (view (two_cells 1048576 1056768 4096) b) x → False.
Proof.
  destruct racer_cells as (E1 & E2 & E3 & E4). unfold footprint, count_address, racers.
  assert (meta_addr (2 ^ 40) 1048576 = 1099511644160) as M1 by reflexivity.
  assert (meta_addr (2 ^ 40) 1056768 = 1099511644288) as M2 by reflexivity.
  destruct i as [|[|i]], j as [|[|j]]; cbn [lookup list_lookup]; intros Ha Hb Hij; try done;
    injection Ha as <-; injection Hb as <-; rewrite ?E1, ?E2, ?E3, ?E4, ?M1, ?M2;
    cbn [rf view set_memory at_mach thread_at r15_thread]; lia.
Qed.

Lemma allocations_do_not_race_witness :
  ∃ s c1 c2, sys_run in_turn (race 1048576 1056768 4096) = Some s ∧
    cpus s !! 0%nat = Some c1 ∧ rf (mach c1) rax = 1048576 ∧ read 8 (shared s) 66544 = 1048592 ∧
    cpus s !! 1%nat = Some c2 ∧ rf (mach c2) rax = 1056768 ∧ read 8 (shared s) 132080 = 1056784.
Proof.
  pose proof in_turn_ends as Hends. destruct (sys_run in_turn _) as [s|] eqn:E; [|discriminate Hends].
  injection Hends as Hends.
  destruct (allocations_do_not_race true 16384 bump_selector 0 1000 800 (2 ^ 40) true eden_example_mapped eq_refl
    example_selector racers (race 1048576 1056768 4096) (race_start _ _ _) in_turn s) as (_ & Hth & _).
  - intros a Ha. unfold racers in Ha. rewrite !elem_of_cons in Ha.
    destruct Ha as [-> | [-> | []%not_elem_of_nil]]; apply racer_ready; auto.
  - exact racers_apart.
  - exact E.
  - clear E. destruct (Hth 0%nat (thread_at 65536) eq_refl) as (c1 & Hc1 & _ & D1).
    destruct (Hth 1%nat (thread_at 131072) eq_refl) as (c2 & Hc2 & _ & D2). exists s, c1, c2.
    assert (map (λ c, length (code c)) (cpus s) !! 0%nat = Some 0%nat ∧
            map (λ c, length (code c)) (cpus s) !! 1%nat = Some 0%nat) as [L1 L2] by (rewrite Hends; split; reflexivity).
    rewrite list_lookup_fmap, Hc1 in L1. rewrite list_lookup_fmap, Hc2 in L2.
    injection L1 as L1. injection L2 as L2. apply nil_length_inv in L1, L2.
    specialize (D1 L1). specialize (D2 L2). destruct racer_cells as (E1 & E2 & E3 & E4).
    destruct racer_outcome as (G1 & G2 & G3 & G4).
    unfold allocation_done in D1, D2. cbn [shared race] in D1, D2.
    cbn [at_var at_con thread_at] in D1, D2. cbv zeta in D1, D2, G1, G3.
    rewrite G1, E1, E3, G2 in D1. rewrite G3, E2, E4, G4 in D2. tauto.
Defined.

(** Two mutators whose free space shares a byte of valid-object bits: the first has
    read the byte when the second allocates, and then writes it back.  The bit of
    the second object is lost. *)
Definition racing_schedule : list nat := (replicate 13 0 ++ replicate 25 1 ++ replicate 12 0)%nat.

Example shared_byte_loses_bit :
  match sys_run racing_schedule (race 1048576 1048592 16) with
  | Some s =>
      map (λ c, (length (code c), rf (mach c) rax)) (cpus s) = [(0%nat, 1048576); (0%nat, 1048592)] ∧
      meta_bit (2 ^ 40) (shared s) 1048576 = true ∧ meta_bit (2 ^ 40) (shared s) 1048592 = false
  | None => False
  end.
Proof. vm_compute. split_and!; reflexivity. Qed.
End examples.
