(* ===== verification/Finalizer.v ===== *)
(** * The finalizer thread

    [MMTkFinalizerThread] ([mmtkFinalizerThread.cpp]): a Java thread that sleeps
    until a collection has found objects to finalize, and then calls [finalize()]
    on every object that mmtk-core hands out.  GC threads wake it through
    [MMTkHeap::schedule_finalizer]. *)

From stdpp Require Import base list relations sets.
From Stdlib Require Import Lia.
From S2P Require Import Prelude.

(** Where the thread is: about to look at [is_scheduled], inside [m->wait],
    between two calls of [get_finalized_object], or inside [finalize()]. *)
Inductive place {A : Type} := Checking | Waiting (notified : bool) | Draining | Finalizing (obj : A).
Arguments place : clear implicits.

(** mmtk-core hands out the objects that are ready one by one, in an order of its
    own: [get_finalized_object]. *)
Class FinalizableCore (A : Type) := {
  get_finalized_object : list A → option (A * list A);
  get_finalized_none l : get_finalized_object l = None ↔ l = [];
  get_finalized_some l x l' : get_finalized_object l = Some (x, l') → l ≡ₚ x :: l'
}.

Section finalizer.
Context {A : Type} `{FinalizableCore A}.

Record finalizer := Finalizer {
  is_scheduled : bool;
  at_place : place A;
  ready : list A;            (* found by collections, not handed out yet *)
  finalized : list A         (* [finalize()] has been called and has returned *)
}.

(** [MMTkFinalizerThread::initialize]: the thread exists from here on, unless it
    could not be created, which stops the machine. *)
Definition initialize (created : bool) : outcome finalizer :=
  guarantee created;; Ok (Finalizer false Checking [] []).

(** [MMTkFinalizerThread::schedule]: [notify] wakes the thread if it waits. *)
Definition notify (p : place A) : place A :=
  match p with Waiting _ => Waiting true | p => p end.

Definition schedule (s : finalizer) : finalizer :=
  if is_scheduled s then s
  else Finalizer true (notify (at_place s)) (ready s) (finalized s).

(** [MMTkHeap::schedule_finalizer] uses the instance; without one C++ leaves it
    undefined. *)
Definition schedule_finalizer (instance : option finalizer) : outcome finalizer :=
  match instance with Some s => Ok (schedule s) | None => Undef end.

(** The loop that waits to be scheduled: one look at [is_scheduled], with the
    monitor held. *)
Definition wait_until_scheduled (s : finalizer) : finalizer :=
  if is_scheduled s then Finalizer false Draining (ready s) (finalized s)
  else Finalizer false (Waiting false) (ready s) (finalized s).

(** One round of the loop that finalizes objects. *)
Definition finalize_next (s : finalizer) : finalizer :=
  match get_finalized_object (ready s) with
  | Some (obj, ready) => Finalizer (is_scheduled s) (Finalizing obj) ready (finalized s)
  | None => Finalizer (is_scheduled s) Checking (ready s) (finalized s)
  end.

(** ** Steps *)

(** The steps of [finalizer_thread_entry]; a thread that has been notified gets
    the monitor back and looks again. *)
Inductive thread_step : finalizer → finalizer → Prop :=
| step_check s : at_place s = Checking → thread_step s (wait_until_scheduled s)
| step_wake s : at_place s = Waiting true →
    thread_step s (Finalizer (is_scheduled s) Checking (ready s) (finalized s))
| step_next s : at_place s = Draining → thread_step s (finalize_next s)
| step_finalize s obj : at_place s = Finalizing obj →
    thread_step s (Finalizer (is_scheduled s) Draining (ready s) (obj :: finalized s)).

(** A collection makes objects ready and then schedules the thread; the state
    carries whether a GC thread is between the two.  [Monitor::wait] may also
    return for no reason. *)
Inductive step : finalizer * bool → finalizer * bool → Prop :=
| step_thread s s' b : thread_step s s' → step (s, b) (s', b)
| step_ready s b l :
    step (s, b) (Finalizer (is_scheduled s) (at_place s) (ready s ++ l) (finalized s), true)
| step_schedule s : step (s, true) (schedule s, false)
| step_spurious s b n : at_place s = Waiting n →
    step (s, b) (Finalizer (is_scheduled s) (Waiting true) (ready s) (finalized s), b).

(** ** No object is left behind *)

(** The objects that collections have made ready. *)
Definition current (p : place A) : list A := match p with Finalizing obj => [obj] | _ => [] end.
Definition found (s : finalizer) : list A := current (at_place s) ++ ready s ++ finalized s.

Definition busy (p : place A) : Prop := p = Draining ∨ ∃ obj, p = Finalizing obj.

Record inv (sb : finalizer * bool) : Prop := {
  (** a request is not slept through *)
  inv_awake : is_scheduled sb.1 = true → at_place sb.1 ≠ Waiting false;
  (** objects that are ready have been announced, or are about to be *)
  inv_announced : ready sb.1 ≠ [] → sb.2 = true ∨ is_scheduled sb.1 = true ∨ busy (at_place sb.1)
}.

Lemma inv_initial : inv (Finalizer false Checking [] [], false).
Proof. by split. Qed.

Lemma inv_step sb sb' : inv sb → step sb sb' → inv sb'.
Proof.
  intros [Ha Hr]. inversion 1 as [s s' b Hs|s b l|s|s b n Hn]; subst; cbn in *.
  - inversion Hs as [? Hp|? Hp|? Hp|? obj Hp]; subst; cbn in *; rewrite Hp in *.
    + unfold wait_until_scheduled. destruct (is_scheduled s) eqn:E; split; cbn; try done.
      * intros _. right. right. by left.
      * intros Hne. destruct (Hr Hne) as [?|[?|[?|[? ?]]]]; by auto.
    + split; cbn; [done|]. intros Hne. destruct (Hr Hne) as [?|[?|[?|[? ?]]]]; by auto.
    + unfold finalize_next. destruct (get_finalized_object (ready s)) as [[obj l]|] eqn:E.
      * split; cbn; [done|]. intros _. right. right. right. by exists obj.
      * apply get_finalized_none in E. split; cbn; [done|]. by rewrite E.
    + split; cbn; [done|]. intros _. right. right. by left.
  - split; cbn; [done|]. intros _. by left.
  - unfold schedule. destruct (is_scheduled s) eqn:E.
    + split; cbn; rewrite ?E; auto.
    + split; cbn; [|auto]. by destruct (at_place s).
  - split; cbn; [done|]. intros Hne. rewrite Hn in Hr. destruct (Hr Hne) as [?|[?|[?|[? ?]]]]; by auto.
Qed.

Lemma inv_reachable sb : rtc step (Finalizer false Checking [] [], false) sb → inv sb.
Proof. intros Hr. by apply (rtc_invariant step inv inv_step _ _ Hr), inv_initial. Qed.

(** The thread alone: every step gets nearer to sleep. *)
Definition place_rank (p : place A) : nat :=
  match p with Checking => 1 | Waiting true => 2 | Waiting false => 0 | Draining => 2 | Finalizing _ => 3 end.
Definition work (s : finalizer) : nat :=
  (if is_scheduled s then 3 else 0) + 2 * length (ready s) + place_rank (at_place s).

Lemma thread_step_work s s' : thread_step s s' → work s' < work s.
Proof.
  unfold work. inversion 1 as [? Hp|? Hp|? Hp|? obj Hp]; subst; rewrite Hp; cbn.
  - unfold wait_until_scheduled. destruct (is_scheduled s); cbn; lia.
  - lia.
  - unfold finalize_next. destruct (get_finalized_object (ready s)) as [[x l]|] eqn:E; cbn; [|lia].
    apply get_finalized_some in E. rewrite E. cbn. lia.
  - lia.
Qed.

(** The thread neither loses nor duplicates objects. *)
Lemma thread_step_found s s' : thread_step s s' → found s' ≡ₚ found s.
Proof.
  unfold found. inversion 1 as [? Hp|? Hp|? Hp|? obj Hp]; subst; rewrite Hp; cbn.
  - unfold wait_until_scheduled. by destruct (is_scheduled s).
  - done.
  - unfold finalize_next. destruct (get_finalized_object (ready s)) as [[x l]|] eqn:E; cbn; [|done].
    apply get_finalized_some in E. by rewrite E.
  - by rewrite Permutation_middle.
Qed.

Lemma thread_steps_found s s' : rtc thread_step s s' → found s' ≡ₚ found s.
Proof. induction 1 as [|x y z Hxy _ IH]; [done|]. by rewrite IH, (thread_step_found _ _ Hxy). Qed.

(** The thread can move unless it sleeps. *)
Lemma thread_moves s : at_place s ≠ Waiting false → ∃ s', thread_step s s'.
Proof. destruct (at_place s) as [|[]| |obj] eqn:E; intros Hne; eexists; try (by econstructor). Qed.

(** C18. Finalization reaches every object: in whatever order collections,
    requests, wake-ups and the thread's own steps have come so far, once no GC
    thread is about to make its request, the thread alone comes to rest after at
    most [work] steps, and then it sleeps, has no request, and has called
    [finalize()] exactly once more for every object that had been found and not
    yet finalized. *)
Theorem finalizer_drains s s' n :
  rtc step (Finalizer false Checking [] [], false) (s, false) → nsteps thread_step n s s' →
  n + work s' ≤ work s ∧
  ((∀ s'', ¬ thread_step s' s'') →
   at_place s' = Waiting false ∧ is_scheduled s' = false ∧ ready s' = [] ∧ finalized s' ≡ₚ found s).
Proof.
  intros Hr Hn. apply inv_reachable in Hr.
  destruct (nsteps_measure thread_step (λ _, True) work (λ s s' _ Hs, conj I (thread_step_work s s' Hs)) n s s' Hn I) as [_ Hw].
  split; [done|]. intros Hstop.
  assert (inv (s', false)) as [Ha Hann].
  { apply rtc_nsteps_2 in Hn. clear Hstop Hw. induction Hn as [|x y z Hxy _ IH]; [done|].
    apply IH. by apply (inv_step (x, false)); [|constructor]. }
  cbn in Ha, Hann.
  assert (at_place s' = Waiting false) as Ep.
  { destruct (at_place s') as [|[]| |obj] eqn:E; try done; exfalso;
      destruct (thread_moves s') as [s'' Hs]; rewrite ?E; try done; by apply (Hstop s''). }
  assert (is_scheduled s' = false) as Es by (destruct (is_scheduled s'); [by destruct (Ha eq_refl)|done]).
  assert (ready s' = []) as Er.
  { destruct (ready s') eqn:E; [done|]. destruct (Hann ltac:(done)) as [?|[?|[?|[? ?]]]]; congruence. }
  split_and!; try done. apply rtc_nsteps_2 in Hn. rewrite <-(thread_steps_found _ _ Hn).
  unfold found. by rewrite Ep, Er.
Qed.

End finalizer.

(** ** A concrete run *)

Section example.
Definition pop_first (l : list nat) : option (nat * list nat) :=
  match l with [] => None | x :: l => Some (x, l) end.
Lemma pop_first_none l : pop_first l = None ↔ l = [].
Proof. by destruct l. Qed.
Lemma pop_first_some l x l' : pop_first l = Some (x, l') → l ≡ₚ x :: l'.
Proof. destruct l; [done|]. by intros [= -> ->]. Qed.
#[local] Instance first_ready : FinalizableCore nat := {|
  get_finalized_object := pop_first; get_finalized_none := pop_first_none; get_finalized_some := pop_first_some |}.

(** A collection has found object 7 and has scheduled the thread, which was about
    to look for work. *)
Definition scheduled_state : finalizer := Finalizer true Checking [7] [].
Definition resting_state : finalizer := Finalizer false (Waiting false) [] [7].

Lemma finalizer_drains_witness :
  nsteps thread_step 5 scheduled_state resting_state ∧ finalized resting_state ≡ₚ [7].
Proof.
  assert (nsteps thread_step 5 scheduled_state resting_state) as Hn.
  { apply (nsteps_l _ _ _ (Finalizer false Draining [7] [])); [by apply (step_check scheduled_state)|].
    apply (nsteps_l _ _ _ (Finalizer false (Finalizing 7) [] [])); [exact (step_next (Finalizer false Draining [7] []) eq_refl)|].
    apply (nsteps_l _ _ _ (Finalizer false Draining [] [7])); [by apply (step_finalize (Finalizer false (Finalizing 7) [] []))|].
    apply (nsteps_l _ _ _ (Finalizer false Checking [] [7])); [exact (step_next (Finalizer false Draining [] [7]) eq_refl)|].
    apply (nsteps_l _ _ _ resting_state); [by apply (step_check (Finalizer false Checking [] [7]))|]. apply nsteps_O. }
  split; [exact Hn|].
  assert (rtc step (Finalizer false Checking [] [], false) (scheduled_state, false)) as Hr.
  { eapply rtc_l; [apply (step_ready (Finalizer false Checking [] []) false [7])|].
    eapply rtc_l; [apply step_schedule|]. apply rtc_refl. }
  destruct (finalizer_drains scheduled_state resting_state 5 Hr Hn) as [_ Hd].
  destruct Hd as (_ & _ & _ & E); [|exact E].
  intros s'' Hs. inversion Hs as [? Hp|? Hp|? Hp|? ? Hp]; discriminate Hp.
Defined.

End example.
