(* ===== verification/Heap.v ===== *)
(** * Bringing the heap up

    [ThirdPartyHeapArguments::initialize] ([thirdPartyHeapArguments.cpp]),
    [MMTkHeap::initialize], [post_initialize] and [enable_collection]
    ([mmtkHeap.cpp]), with the functions of the Rust side they call
    ([openjdk_gc_init], [mmtk_set_heap_size] of [api.rs], the singletons of
    [lib.rs]).  The option builder of mmtk-core is an interface. *)

From stdpp Require Import base strings gmap list.
From Stdlib Require Import ZArith Lia.
From S2P Require Import Prelude Slots Barrier BarrierSafety Finalizer.

Local Open Scope Z_scope.

(** ** HotSpot's flags *)

(** A flag, and whether it still has its default ([FLAG_IS_DEFAULT]). *)
Record flag (A : Type) := Flag { value : A; is_default : bool }.
Arguments Flag {A}.
Arguments value {A}.
Arguments is_default {A}.

(** [FLAG_SET_DEFAULT] assigns the value and leaves the origin alone. *)
Definition FLAG_SET_DEFAULT {A} (f : flag A) (v : A) : flag A := Flag v (is_default f).

Record vm_flags := VMFlags {
  UseTLAB : bool;
  UseCompressedOops : bool;
  UseCompressedClassPointers : bool;
  ParallelGCThreads : flag N;
  UseTransparentHugePages : flag bool;
  ThirdPartyHeapOptions : option string;
  min_heap_byte_size : Z;
  max_heap_byte_size : Z
}.

Definition environment := string → option string.

(** [set_bool_option_from_env_var]. *)
Definition set_bool_option_from_env_var (getenv : environment) (name : string) (var : bool)
    : outcome bool :=
  match getenv name with
  | None => Ok var
  | Some env_var =>
      if decide (env_var = "true" ∨ env_var = "yes" ∨ env_var = "on" ∨ env_var = "1") then Ok true
      else if decide (env_var = "false" ∨ env_var = "no" ∨ env_var = "off" ∨ env_var = "0") then Ok false
      else Fatal
  end.

(** ** mmtk-core's options *)

Inductive GCTriggerSelector := FixedHeapSize (size : Z) | DynamicHeapSize (min max : Z).

(** The builder [B], with what the documentation of its operations says of the
    two options the binding forwards: a setter replaces the value if it is valid
    and leaves the other options alone. *)
Class MMTKBuilder (B : Type) := {
  threads : B → N;
  transparent_hugepages : B → bool;
  set_threads : N → B → B;
  set_transparent_hugepages : bool → B → B;
  set_gc_trigger : GCTriggerSelector → B → bool * B;
  read_env_var_settings : environment → B → B;
  memory_manager_process_bulk : string → B → bool * B;
  force_plan : B → B;                        (* the plan chosen by a Cargo feature, if any *)
  gc_trigger_max_heap_size : B → Z;
  plan_barrier : B → active_barrier;
  plan_max_non_los_default_alloc_bytes : B → Z;
  threads_of_env : environment → option N;   (* valid settings of the two options *)
  hugepages_of_env : environment → option bool;
  threads_of_bulk : string → option N;
  hugepages_of_bulk : string → option bool;
  threads_set v b : v ≠ 0%N → threads (set_threads v b) = v;
  hugepages_set v b : transparent_hugepages (set_transparent_hugepages v b) = v;
  threads_set_hugepages v b : threads (set_transparent_hugepages v b) = threads b;
  hugepages_set_threads v b : transparent_hugepages (set_threads v b) = transparent_hugepages b;
  threads_env e b : threads (read_env_var_settings e b) = default (threads b) (threads_of_env e);
  hugepages_env e b :
    transparent_hugepages (read_env_var_settings e b) =
    default (transparent_hugepages b) (hugepages_of_env e);
  threads_bulk o b b' : memory_manager_process_bulk o b = (true, b') →
    threads b' = default (threads b) (threads_of_bulk o);
  hugepages_bulk o b b' : memory_manager_process_bulk o b = (true, b') →
    transparent_hugepages b' = default (transparent_hugepages b) (hugepages_of_bulk o);
  threads_trigger p b : threads (set_gc_trigger p b).2 = threads b;
  hugepages_trigger p b : transparent_hugepages (set_gc_trigger p b).2 = transparent_hugepages b;
  threads_plan b : threads (force_plan b) = threads b;
  hugepages_plan b : transparent_hugepages (force_plan b) = transparent_hugepages b
}.

Section heap.
Context {B : Type} `{MMTKBuilder B}.
Context {C : Type} `{BarrierCore C}.
Context {O : Type} `{FinalizableCore O}.
Context `{ChunkAlign}.
(** A debug build checks [assert]. *)
Variable ASSERT : bool.
(** [Abstract_VM_Version::parallel_worker_threads]: the flag's value when it has
    been set, a number for this machine otherwise. *)
Variable parallel_worker_threads : flag N → N.
(** The layout mmtk-core starts with. *)
Variable default_layout : vm_layout.

Definition vm_assert (b : bool) : outcome unit := if ASSERT then guarantee b else Ok tt.

(** [ThirdPartyHeapArguments::initialize]. *)
Definition ThirdPartyHeapArguments_initialize (f : vm_flags) : outcome vm_flags :=
  let n := parallel_worker_threads (ParallelGCThreads f) in
  let f := VMFlags false (UseCompressedOops f) (UseCompressedOops f)
             (FLAG_SET_DEFAULT (ParallelGCThreads f) n)
             (UseTransparentHugePages f) (ThirdPartyHeapOptions f)
             (min_heap_byte_size f) (max_heap_byte_size f) in
  if decide (value (ParallelGCThreads f) = 0%N) then
    vm_assert (negb (is_default (ParallelGCThreads f)));; Fatal
  else Ok f.

(** ** The heap *)

Record heap := Heap {
  mmtk_enable_allocation_fastpath : bool;
  mmtk_enable_barrier_fastpath : bool;
  USE_COMPRESSED_OOPS : bool;
  BUILDER : B;
  SINGLETON : option (B * vm_layout);    (* the options mmtk-core was created with *)
  oop_base_and_shift : oop_encoding;     (* BASE and SHIFT of slots.rs *)
  max_non_los_default_alloc_bytes : Z;
  narrow_oop : oop_encoding;             (* Universe's *)
  reserved : option (Z * Z);
  barrier_set : option (MMTkBarrierSetRuntime C);
  companion_started : bool;
  narrow_klass : option (Z * Z);         (* as the Rust side knows it *)
  finalizer_thread : option (finalizer (A := O))
}.

(** The process before [MMTkHeap::initialize]. *)
Definition no_heap (b : B) : heap :=
  Heap true true false b None (OopEncoding 0 0) 0 (OopEncoding 0 0) None None false None None.

(** [MMTkHeap::set_mmtk_options]. *)
Definition set_mmtk_options (f : vm_flags) (set_defaults : bool) (b : B) : B :=
  let b := if bool_decide (is_default (ParallelGCThreads f) = set_defaults)
           then set_threads (value (ParallelGCThreads f)) b else b in
  if bool_decide (is_default (UseTransparentHugePages f) = set_defaults)
  then set_transparent_hugepages (value (UseTransparentHugePages f)) b else b.

(** [mmtk_set_heap_size]. *)
Definition mmtk_set_heap_size (min max : Z) (b : B) : bool * B :=
  set_gc_trigger (if decide (min = max) then FixedHeapSize min else DynamicHeapSize min max) b.

Definition mmtk_enable_compressed_oops (s : heap) : outcome heap :=
  guarantee (negb (USE_COMPRESSED_OOPS s));;
  Ok (Heap (mmtk_enable_allocation_fastpath s) (mmtk_enable_barrier_fastpath s) true
        (BUILDER s) (SINGLETON s) (oop_base_and_shift s) (max_non_los_default_alloc_bytes s)
        (narrow_oop s) (reserved s) (barrier_set s) (companion_started s) (narrow_klass s)
        (finalizer_thread s)).

Definition with_builder (b : B) (s : heap) : heap :=
  Heap (mmtk_enable_allocation_fastpath s) (mmtk_enable_barrier_fastpath s) (USE_COMPRESSED_OOPS s)
    b (SINGLETON s) (oop_base_and_shift s) (max_non_los_default_alloc_bytes s)
    (narrow_oop s) (reserved s) (barrier_set s) (companion_started s) (narrow_klass s)
    (finalizer_thread s).

(** [openjdk_gc_init]: the layouts of the two sides are compared, the plan chosen
    at build time is set, and the singleton is created from the builder. *)
Definition openjdk_gc_init (layouts_valid : bool) (s : heap) : outcome heap :=
  guarantee layouts_valid;;
  let b := force_plan (BUILDER s) in
  guarantee (bool_decide (SINGLETON s = None));;
  l ← (if USE_COMPRESSED_OOPS s
       then set_compressed_pointer_vm_layout (gc_trigger_max_heap_size b)
       else Ok default_layout);
  let enc := if USE_COMPRESSED_OOPS s
             then initialize_compressed_oops_base_and_shift (heap_start l) (heap_end l)
             else oop_base_and_shift s in
  Ok (Heap (mmtk_enable_allocation_fastpath s) (mmtk_enable_barrier_fastpath s)
        (USE_COMPRESSED_OOPS s) b (Some (b, l)) enc (max_non_los_default_alloc_bytes s)
        (narrow_oop s) (reserved s) (barrier_set s) (companion_started s) (narrow_klass s)
        (finalizer_thread s)).

(** The options, from the source with the lowest priority to the one with the
    highest. *)
Definition set_options (f : vm_flags) (getenv : environment) (b : B) : outcome B :=
  let b := set_mmtk_options f true b in
  let b := read_env_var_settings getenv b in
  let b := set_mmtk_options f false b in
  b ← match ThirdPartyHeapOptions f with
      | Some options =>
          let '(ok, b) := memory_manager_process_bulk options b in guarantee ok;; Ok b
      | None => Ok b
      end;
  let '(set_heap_size, b) := mmtk_set_heap_size (min_heap_byte_size f) (max_heap_byte_size f) b in
  guarantee set_heap_size;; Ok b.

(** The part of [MMTkHeap::initialize] that follows [openjdk_gc_init]; it asks
    the new mmtk-core for the constants of the plan and for the heap range. *)
Definition set_up_heap (f : vm_flags) (thread_created : bool) (s : heap) : outcome heap :=
  match SINGLETON s with
  | None => Undef
  | Some (b, l) =>
      let narrow := if UseCompressedOops f then oop_base_and_shift s else narrow_oop s in
      runtime ← get_selected_barrier (mmtk_enable_barrier_fastpath s) (plan_barrier b);
      guarantee thread_created;;
      Ok (Heap (mmtk_enable_allocation_fastpath s) (mmtk_enable_barrier_fastpath s)
            (USE_COMPRESSED_OOPS s) (BUILDER s) (SINGLETON s) (oop_base_and_shift s)
            (plan_max_non_los_default_alloc_bytes b) narrow (Some (heap_start l, heap_end l))
            (Some runtime) true (narrow_klass s) (finalizer_thread s))
  end.

Definition initialize (f : vm_flags) (getenv : environment) (layouts_valid thread_created : bool)
    (s : heap) : outcome heap :=
  vm_assert (negb (UseTLAB f));;
  allocation ← set_bool_option_from_env_var getenv "MMTK_ENABLE_ALLOCATION_FASTPATH"
                 (mmtk_enable_allocation_fastpath s);
  barrier ← set_bool_option_from_env_var getenv "MMTK_ENABLE_BARRIER_FASTPATH"
              (mmtk_enable_barrier_fastpath s);
  let s := Heap allocation barrier (USE_COMPRESSED_OOPS s) (BUILDER s) (SINGLETON s)
             (oop_base_and_shift s) (max_non_los_default_alloc_bytes s) (narrow_oop s) (reserved s)
             (barrier_set s) (companion_started s) (narrow_klass s) (finalizer_thread s) in
  s ← (if UseCompressedOops f then mmtk_enable_compressed_oops s else Ok s);
  b ← set_options f getenv (BUILDER s);
  s ← openjdk_gc_init layouts_valid (with_builder b s);
  set_up_heap f thread_created s.

(** [MMTkHeap::post_initialize]; [base] and [shift] are Universe's. *)
Definition post_initialize (f : vm_flags) (narrow_klass_base narrow_klass_shift : Z) (s : heap) : heap :=
  if UseCompressedOops f then
    Heap (mmtk_enable_allocation_fastpath s) (mmtk_enable_barrier_fastpath s)
      (USE_COMPRESSED_OOPS s) (BUILDER s) (SINGLETON s) (oop_base_and_shift s)
      (max_non_los_default_alloc_bytes s) (narrow_oop s) (reserved s) (barrier_set s)
      (companion_started s) (Some (narrow_klass_base, narrow_klass_shift)) (finalizer_thread s)
  else s.

Definition with_finalizer (i : option (finalizer (A := O))) (s : heap) : heap :=
  Heap (mmtk_enable_allocation_fastpath s) (mmtk_enable_barrier_fastpath s)
    (USE_COMPRESSED_OOPS s) (BUILDER s) (SINGLETON s) (oop_base_and_shift s)
    (max_non_los_default_alloc_bytes s) (narrow_oop s) (reserved s) (barrier_set s)
    (companion_started s) (narrow_klass s) i.

(** [initialize_collection] allows collections; those that end before it returns
    schedule the finalizer thread [n] times. *)
Definition initialize_collection (n : nat) (s : heap) : outcome heap :=
  ofold (λ s _, i ← schedule_finalizer (finalizer_thread s); Ok (with_finalizer (Some i) s))
    s (replicate n tt).

(** [MMTkHeap::enable_collection]. *)
Definition enable_collection (thread_created : bool) (n : nat) (s : heap) : outcome heap :=
  i ← Finalizer.initialize thread_created;
  initialize_collection n (with_finalizer (Some i) s).

(** ** The priorities *)

(** The names of the two values of a fast-path flag. *)
Definition bool_names : gmap string bool :=
  list_to_map [("true", true); ("yes", true); ("on", true); ("1", true);
               ("false", false); ("no", false); ("off", false); ("0", false)].

Definition fastpath_enabled (getenv : environment) (name : string) : bool :=
  default true (getenv name ≫= (bool_names !!.)).

(** The two options: the bulk option string comes first, then the command line,
    the environment, and OpenJDK's default. *)
Definition configured_threads (f : vm_flags) (getenv : environment) : N :=
  default (if is_default (ParallelGCThreads f)
           then default (parallel_worker_threads (ParallelGCThreads f)) (threads_of_env getenv)
           else value (ParallelGCThreads f))
    (ThirdPartyHeapOptions f ≫= threads_of_bulk).

Definition configured_hugepages (f : vm_flags) (getenv : environment) : bool :=
  default (if is_default (UseTransparentHugePages f)
           then default (value (UseTransparentHugePages f)) (hugepages_of_env getenv)
           else value (UseTransparentHugePages f))
    (ThirdPartyHeapOptions f ≫= hugepages_of_bulk).

(** ** Starting the virtual machine *)

Definition start (f : vm_flags) (getenv : environment) (layouts_valid thread_created : bool) (b : B)
    : outcome heap :=
  f ← ThirdPartyHeapArguments_initialize f;
  initialize f getenv layouts_valid thread_created (no_heap b).

(** The flags [MMTkHeap::initialize] finds. *)
Definition arguments (f : vm_flags) : vm_flags :=
  VMFlags false (UseCompressedOops f) (UseCompressedOops f)
    (FLAG_SET_DEFAULT (ParallelGCThreads f) (parallel_worker_threads (ParallelGCThreads f)))
    (UseTransparentHugePages f) (ThirdPartyHeapOptions f)
    (min_heap_byte_size f) (max_heap_byte_size f).

(** What it takes to start, once the options are set. *)
Record startable (f : vm_flags) (getenv : environment) (layouts_valid thread_created : bool) (b' : B)
    : Prop := {
  start_threads : parallel_worker_threads (ParallelGCThreads f) ≠ 0%N;
  start_env name v : name ∈ ["MMTK_ENABLE_ALLOCATION_FASTPATH"; "MMTK_ENABLE_BARRIER_FASTPATH"] →
    getenv name = Some v → is_Some (bool_names !! v);
  start_layouts : layouts_valid = true;
  start_size : UseCompressedOops f = true → gc_trigger_max_heap_size b' ≤ 2 ^ 35;
  start_plan : plan_barrier b' ≠ OtherBarrier;
  start_companion : thread_created = true
}.

(** What has been set up then. *)
Record started (f : vm_flags) (getenv : environment) (s : heap) (b' : B) (l : vm_layout) : Prop := {
  started_options : SINGLETON s = Some (b', l);
  started_threads : threads b' = configured_threads f getenv;
  started_hugepages : transparent_hugepages b' = configured_hugepages f getenv;
  started_allocation : mmtk_enable_allocation_fastpath s =
    fastpath_enabled getenv "MMTK_ENABLE_ALLOCATION_FASTPATH";
  started_barrier_flag : mmtk_enable_barrier_fastpath s =
    fastpath_enabled getenv "MMTK_ENABLE_BARRIER_FASTPATH";
  started_layout : (if UseCompressedOops f
                    then set_compressed_pointer_vm_layout (gc_trigger_max_heap_size b')
                    else Ok default_layout) = Ok l;
  started_narrow : UseCompressedOops f = true →
    narrow_oop s = initialize_compressed_oops_base_and_shift (heap_start l) (heap_end l) ∧
    oop_base_and_shift s = narrow_oop s;
  started_reserved : reserved s = Some (heap_start l, heap_end l);
  started_bound : max_non_los_default_alloc_bytes s = plan_max_non_los_default_alloc_bytes b';
  started_barrier : ∃ r, barrier_set s = Some r ∧
    get_selected_barrier (mmtk_enable_barrier_fastpath s) (plan_barrier b') = Ok r;
  started_companion : companion_started s = true
}.

Lemma set_bool_option_ok getenv name :
  set_bool_option_from_env_var getenv name true =
  match getenv name with
  | Some v => if bool_names !! v is Some _ then Ok (fastpath_enabled getenv name) else Fatal
  | None => Ok (fastpath_enabled getenv name)
  end.
Proof.
  unfold set_bool_option_from_env_var, fastpath_enabled. destruct (getenv name) as [v|]; [|done].
  simpl. case_decide as Hy; [by destruct Hy as [->|[->|[->| ->]]]|].
  case_decide as Hn; [by destruct Hn as [->|[->|[->| ->]]]|].
  assert (bool_names !! v = None) as ->; [|done].
  apply not_elem_of_list_to_map_1. simpl. set_solver.
Qed.

Hypothesis threads_given : ∀ n, is_default n = false → parallel_worker_threads n = value n.

(** Either way of setting an option leaves the value of the source with the
    higher priority. *)
Lemma set_defaults_then_given f b :
  parallel_worker_threads (ParallelGCThreads f) ≠ 0%N →
  ∀ getenv, let b' := set_mmtk_options (arguments f) false
                        (read_env_var_settings getenv (set_mmtk_options (arguments f) true b)) in
  threads b' = (if is_default (ParallelGCThreads f)
                then default (parallel_worker_threads (ParallelGCThreads f)) (threads_of_env getenv)
                else value (ParallelGCThreads f)) ∧
  transparent_hugepages b' =
    (if is_default (UseTransparentHugePages f)
     then default (value (UseTransparentHugePages f)) (hugepages_of_env getenv)
     else value (UseTransparentHugePages f)).
Proof.
  intros Hn getenv. pose proof (threads_given (ParallelGCThreads f)) as Hg.
  unfold set_mmtk_options, arguments, FLAG_SET_DEFAULT. simpl.
  destruct (is_default (ParallelGCThreads f)), (is_default (UseTransparentHugePages f)); simpl;
    rewrite ?threads_set_hugepages, ?hugepages_set_threads, ?hugepages_set, ?threads_env,
      ?hugepages_env, ?threads_set_hugepages, ?hugepages_set_threads, ?hugepages_set,
      ?threads_set by done; rewrite <-?Hg by done; done.
Qed.

Lemma trigger_ok p b ok b' :
  set_gc_trigger p b = (ok, b') →
  threads b' = threads b ∧ transparent_hugepages b' = transparent_hugepages b.
Proof.
  intros E. rewrite <-(threads_trigger p b), <-(hugepages_trigger p b), E. done.
Qed.

Lemma set_options_ok f getenv b b' :
  parallel_worker_threads (ParallelGCThreads f) ≠ 0%N →
  set_options (arguments f) getenv b = Ok b' →
  threads b' = configured_threads f getenv ∧ transparent_hugepages b' = configured_hugepages f getenv.
Proof.
  intros Hn. unfold set_options, configured_threads, configured_hugepages, mmtk_set_heap_size.
  pose proof (set_defaults_then_given f b Hn getenv) as [Ht Hh]. cbv zeta in *.
  set (b1 := set_mmtk_options _ false _) in *. simpl.
  destruct (ThirdPartyHeapOptions f) as [o|]; simpl.
  - destruct (memory_manager_process_bulk o b1) as [[] b2] eqn:E; simpl; [|done].
    rewrite <-Ht, <-Hh, <-(threads_bulk _ _ _ E), <-(hugepages_bulk _ _ _ E).
    destruct (set_gc_trigger _ b2) as [[] b3] eqn:E2; simpl; [|done]. intros [= <-].
    by eapply trigger_ok.
  - rewrite <-Ht, <-Hh. destruct (set_gc_trigger _ b1) as [[] b3] eqn:E2; simpl; [|done].
    intros [= <-]. by eapply trigger_ok.
Qed.

(** After the options, nothing but the conditions of [startable] decides. *)
Lemma init_ok f layouts_valid thread_created s b1 :
  SINGLETON s = None → USE_COMPRESSED_OOPS s = UseCompressedOops f →
  let b' := force_plan b1 in
  layouts_valid = true → thread_created = true → plan_barrier b' ≠ OtherBarrier →
  (UseCompressedOops f = true → gc_trigger_max_heap_size b' ≤ 2 ^ 35) →
  ∃ s' l r,
  (s ← openjdk_gc_init layouts_valid (with_builder b1 s); set_up_heap (arguments f) thread_created s) =
    Ok s' ∧
  (if UseCompressedOops f
   then set_compressed_pointer_vm_layout (gc_trigger_max_heap_size b')
   else Ok default_layout) = Ok l ∧
  get_selected_barrier (mmtk_enable_barrier_fastpath s) (plan_barrier b') = Ok r ∧
  let enc := initialize_compressed_oops_base_and_shift (heap_start l) (heap_end l) in
  s' = Heap (mmtk_enable_allocation_fastpath s) (mmtk_enable_barrier_fastpath s)
         (UseCompressedOops f) b' (Some (b', l))
         (if UseCompressedOops f then enc else oop_base_and_shift s)
         (plan_max_non_los_default_alloc_bytes b')
         (if UseCompressedOops f then enc else narrow_oop s)
         (Some (heap_start l, heap_end l)) (Some r) true (narrow_klass s) (finalizer_thread s).
Proof.
  intros Hs Hu b' -> -> Hp Hsz. unfold openjdk_gc_init. simpl. rewrite Hs, Hu. simpl.
  change (force_plan b1) with b'.
  assert (∃ l, (if UseCompressedOops f
                then set_compressed_pointer_vm_layout (gc_trigger_max_heap_size b')
                else Ok default_layout) = Ok l) as [l Hl].
  { destruct (UseCompressedOops f); [|by eexists]. unfold set_compressed_pointer_vm_layout.
    change (Z.shiftl 32 30) with (2 ^ 35). rewrite bool_decide_eq_true_2 by auto. by eexists. }
  assert (∃ r, get_selected_barrier (mmtk_enable_barrier_fastpath s) (plan_barrier b') = Ok r) as [r Hr].
  { destruct (plan_barrier b'); simpl; eauto; done. }
  rewrite Hl. unfold set_up_heap. simpl. rewrite Hr. simpl.
  eexists _, l, r. split_and!; try done. by destruct (UseCompressedOops f).
Qed.

Lemma init_fails f layouts_valid thread_created s b1 r :
  SINGLETON s = None → USE_COMPRESSED_OOPS s = UseCompressedOops f →
  (s ← openjdk_gc_init layouts_valid (with_builder b1 s); set_up_heap (arguments f) thread_created s) = r →
  r = Fatal ∨
  layouts_valid = true ∧ thread_created = true ∧ plan_barrier (force_plan b1) ≠ OtherBarrier ∧
  (UseCompressedOops f = true → gc_trigger_max_heap_size (force_plan b1) ≤ 2 ^ 35).
Proof.
  intros Hs Hu <-. unfold openjdk_gc_init. simpl. rewrite Hs, Hu.
  destruct layouts_valid; [|by left]. simpl.
  destruct (UseCompressedOops f) eqn:Hc; simpl.
  - unfold set_compressed_pointer_vm_layout. change (Z.shiftl 32 30) with (2 ^ 35).
    case_bool_decide; [|by left]. simpl. unfold set_up_heap. simpl.
    destruct (plan_barrier _), thread_created; simpl; auto; right; by split_and!.
  - unfold set_up_heap. simpl.
    destruct (plan_barrier _), thread_created; simpl; auto; right; by split_and!.
Qed.

Lemma set_bool_cases getenv name :
  (set_bool_option_from_env_var getenv name true = Ok (fastpath_enabled getenv name) ∧
   ∀ v, getenv name = Some v → is_Some (bool_names !! v)) ∨
  (set_bool_option_from_env_var getenv name true = Fatal ∧
   ∃ v, getenv name = Some v ∧ ¬ is_Some (bool_names !! v)).
Proof.
  rewrite set_bool_option_ok. destruct (getenv name) as [v|] eqn:E; [|by left].
  destruct (bool_names !! v) as [x|] eqn:Ex.
  - left. split; [done|]. intros ? [= <-]. by exists x.
  - right. split; [done|]. exists v. split; [done|]. intros [? ?]. congruence.
Qed.

Lemma enable_ok f x y (b : B) :
  (if UseCompressedOops (arguments f)
   then mmtk_enable_compressed_oops (Heap x y false b None (OopEncoding 0 0) 0 (OopEncoding 0 0)
          None None false None None)
   else Ok (Heap x y false b None (OopEncoding 0 0) 0 (OopEncoding 0 0) None None false None None)) =
  Ok (Heap x y (UseCompressedOops f) b None (OopEncoding 0 0) 0 (OopEncoding 0 0)
        None None false None None).
Proof. simpl. by destruct (UseCompressedOops f). Qed.

Lemma set_options_defined f getenv (b : B) : set_options f getenv b ≠ Undef.
Proof.
  unfold set_options. destruct (ThirdPartyHeapOptions f); simpl.
  - destruct (memory_manager_process_bulk _ _) as [[] ?]; simpl; [|done].
    by destruct (mmtk_set_heap_size _ _ _) as [[] ?].
  - by destruct (mmtk_set_heap_size _ _ _) as [[] ?].
Qed.

(** C30. Starting the machine either succeeds or stops it: it succeeds exactly when
    the number of threads is not zero, the two environment variables have one of
    their eight values, mmtk-core accepts the option string and the heap size,
    the layouts agree, a compressed heap is at most 32 GiB, the plan has a known
    barrier and the companion thread could be created.  Then mmtk-core has been
    created with, for each of the two options HotSpot shares with it, the value
    of the source with the highest priority (option string, command line,
    environment, OpenJDK's default), and HotSpot decodes references as
    mmtk-core does. *)
Theorem heap_starts f getenv layouts_valid thread_created b :
  match start f getenv layouts_valid thread_created b with
  | Ok s => ∃ b1 l, set_options (arguments f) getenv b = Ok b1 ∧
      startable f getenv layouts_valid thread_created (force_plan b1) ∧
      started f getenv s (force_plan b1) l
  | Fatal => ∀ b1, set_options (arguments f) getenv b = Ok b1 →
      ¬ startable f getenv layouts_valid thread_created (force_plan b1)
  | Undef => False
  end.
Proof.
  unfold start, ThirdPartyHeapArguments_initialize. cbn [value ParallelGCThreads FLAG_SET_DEFAULT].
  destruct (decide (parallel_worker_threads (ParallelGCThreads f) = 0%N)) as [Hn|Hn].
  { unfold vm_assert. destruct ASSERT; [|by intros b1 _ []]. by destruct (is_default _); intros b1 _ []. }
  change (VMFlags false _ _ _ _ _ _ _) with (arguments f). cbn [mbind outcome_bind].
  unfold initialize, vm_assert. replace (if ASSERT then _ else Ok tt) with (Ok tt) by (by destruct ASSERT).
  cbn [mbind outcome_bind mmtk_enable_allocation_fastpath mmtk_enable_barrier_fastpath no_heap].
  destruct (set_bool_cases getenv "MMTK_ENABLE_ALLOCATION_FASTPATH") as [[-> Ha]|[-> (v & Hv & Hx)]].
  2: { intros b1 _ Hst. apply Hx. apply (start_env _ _ _ _ _ Hst _ v) in Hv; [done|set_solver]. }
  cbn [mbind outcome_bind].
  destruct (set_bool_cases getenv "MMTK_ENABLE_BARRIER_FASTPATH") as [[-> Hb]|[-> (v & Hv & Hx)]].
  2: { intros b1 _ Hst. apply Hx. apply (start_env _ _ _ _ _ Hst _ v) in Hv; [done|set_solver]. }
  cbn [mbind outcome_bind].
  rewrite enable_ok. cbn [mbind outcome_bind BUILDER]. change (BUILDER (no_heap b)) with b.
  set (s := Heap _ _ _ _ _ _ _ _ _ _ _ _ _).
  pose proof (set_options_defined (arguments f) getenv b) as Hdef.
  destruct (set_options (arguments f) getenv b) as [b1| |] eqn:Ho; cbn [mbind outcome_bind]; [|by intros b1 ?|done].
  cbn [mbind outcome_bind]. destruct (_ ≫= _) as [s'| |] eqn:E.
  - destruct (init_fails f _ _ s b1 _ eq_refl eq_refl E) as [|(Hl & Ht & Hp & Hsz)]; [done|].
    destruct (init_ok f _ _ s b1 eq_refl eq_refl Hl Ht Hp Hsz) as (s1 & l & r & E1 & El & Er & Hs1).
    rewrite E1 in E. injection E as <-. exists b1, l. split; [done|].
    destruct (set_options_ok f getenv b b1 Hn Ho) as [Hth Hhp]. split.
    + split; try done. intros name v [->|[->|[]%not_elem_of_nil]%elem_of_cons]%elem_of_cons; auto.
    + cbv zeta in Hs1; subst s1. split; simpl; rewrite ?threads_plan, ?hugepages_plan; try done.
      * intros ->. done.
      * by exists r.
  - intros b2 [= <-] [H1' H2' H3' H4' H5' H6'].
    destruct (init_ok f _ _ s b1 eq_refl eq_refl H3' H6' H5' H4') as (s1 & l & r & E1 & _).
    by rewrite E1 in E.
  - destruct (init_fails f _ _ s b1 _ eq_refl eq_refl E) as [|(Hl & Ht & Hp & Hsz)]; [done|].
    destruct (init_ok f _ _ s b1 eq_refl eq_refl Hl Ht Hp Hsz) as (s1 & l & r & E1 & _).
    by rewrite E1 in E.
Qed.

(** ** Enabling collection *)

Lemma initialize_collection_ok n : ∀ i s,
  ∃ i', initialize_collection n (with_finalizer (Some i) s) = Ok (with_finalizer (Some i') s) ∧
    (is_scheduled i = true ∨ (0 < n)%nat → is_scheduled i' = true).
Proof.
  induction n as [|n IH]; intros i s.
  - exists i. split; [done|]. intros [?|?]; [done|lia].
  - destruct (IH (schedule i) s) as (i' & Hi & Hs). exists i'. split; [exact Hi|].
    intros _. apply Hs. left. unfold schedule. by destruct (is_scheduled i) eqn:E.
Qed.

(** [enable_collection] has the finalizer thread ready before the first
    collection can ask for it: no request is lost, whatever happens before
    [initialize_collection] returns. *)
Lemma enable_collection_ready n s :
  enable_collection false n s = Fatal ∧
  ∃ i, enable_collection true n s = Ok (with_finalizer (Some i) s) ∧
    ((0 < n)%nat → is_scheduled i = true).
Proof.
  split; [done|]. destruct (initialize_collection_ok n (Finalizer.Finalizer false Checking [] []) s)
    as (i & Hi & Hs). exists i. split; [exact Hi|]. auto.
Qed.

(** The other order is undefined as soon as there is a request. *)
Lemma initialize_collection_first n s :
  initialize_collection (S n) (with_finalizer None s) = Undef.
Proof. done. Qed.

End heap.

(** ** A concrete start *)

Section example.

(** A builder that keeps the two options and the heap size. *)
Record toy_builder := ToyBuilder { toy_threads : N; toy_hugepages : bool; toy_max : Z }.

Definition toy_env_threads (e : environment) : option N :=
  if decide (e "MMTK_THREADS" = Some "4") then Some 4%N else None.
Definition toy_bulk_threads (o : string) : option N :=
  if decide (o = "threads=2") then Some 2%N else None.

#[local] Instance toy_options : MMTKBuilder toy_builder.
Proof.
  refine {|
    threads := toy_threads; transparent_hugepages := toy_hugepages;
    set_threads v b := ToyBuilder (if decide (v = 0%N) then toy_threads b else v) (toy_hugepages b) (toy_max b);
    set_transparent_hugepages v b := ToyBuilder (toy_threads b) v (toy_max b);
    set_gc_trigger p b :=
      let max := match p with FixedHeapSize n => n | DynamicHeapSize _ n => n end in
      if decide (0 < max) then (true, ToyBuilder (toy_threads b) (toy_hugepages b) max) else (false, b);
    read_env_var_settings e b :=
      ToyBuilder (default (toy_threads b) (toy_env_threads e)) (toy_hugepages b) (toy_max b);
    memory_manager_process_bulk o b :=
      match toy_bulk_threads o with
      | Some v => (true, ToyBuilder v (toy_hugepages b) (toy_max b))
      | None => (false, b)
      end;
    force_plan b := b;
    gc_trigger_max_heap_size := toy_max;
    plan_barrier _ := SATBBarrier;
    plan_max_non_los_default_alloc_bytes _ := 16384;
    threads_of_env := toy_env_threads; hugepages_of_env _ := None;
    threads_of_bulk := toy_bulk_threads; hugepages_of_bulk _ := None
  |}; try done; simpl; intros.
  - by rewrite decide_False.
  - destruct (toy_bulk_threads o); by simplify_eq.
  - destruct (toy_bulk_threads o); by simplify_eq.
  - by case_decide.
  - by case_decide.
Defined.

(** Four worker threads on this machine; an environment that sets two variables. *)
Definition toy_worker_threads (f : flag N) : N :=
  if is_default f then 4%N else value f.
Definition toy_environment : environment := λ name,
  if decide (name = "MMTK_THREADS") then Some "4"
  else if decide (name = "MMTK_ENABLE_BARRIER_FASTPATH") then Some "no" else None.

Definition toy_flags (gc_threads : flag N) (options : option string) : vm_flags :=
  VMFlags true true true gc_threads (Flag false true) options (2 ^ 20) (2 ^ 30).

Definition toy_start (gc_threads : flag N) (options : option string) :=
  start (C := list_core) (O := nat) (H2 := chunks_4M) true toy_worker_threads (VMLayout 0 0)
    (toy_flags gc_threads options) toy_environment true true (ToyBuilder 1 false 0).

Definition is_ok {A} (m : outcome A) : bool := match m with Ok _ => true | _ => false end.

Lemma heap_starts_witness :
  (∃ s b l, toy_start (Flag 0%N true) None = Ok s ∧ SINGLETON s = Some (b, l) ∧
     threads b = 4%N ∧ mmtk_enable_barrier_fastpath s = false) ∧
  (∃ s b l, toy_start (Flag 8%N false) None = Ok s ∧ SINGLETON s = Some (b, l) ∧ threads b = 8%N) ∧
  (∃ s b l, toy_start (Flag 8%N false) (Some "threads=2") = Ok s ∧ SINGLETON s = Some (b, l) ∧
     threads b = 2%N) ∧
  toy_start (Flag 8%N false) (Some "threads=two") = Fatal.
Proof.
  assert (∀ n : flag N, is_default n = false → toy_worker_threads n = value n) as Hg.
  { intros n Hn. unfold toy_worker_threads. by rewrite Hn. }
  pose proof (λ t o, heap_starts (C := list_core) (O := nat) (H2 := chunks_4M) true
    toy_worker_threads (VMLayout 0 0) Hg (toy_flags t o) toy_environment true true
    (ToyBuilder 1 false 0)) as Hs.
  assert (∀ t o, is_ok (toy_start t o) = true → ∃ s b l,
            toy_start t o = Ok s ∧ SINGLETON s = Some (b, l) ∧
            threads b = configured_threads toy_worker_threads (toy_flags t o) toy_environment ∧
            mmtk_enable_barrier_fastpath s =
              fastpath_enabled toy_environment "MMTK_ENABLE_BARRIER_FASTPATH") as Hr.
  { intros t o Hok. specialize (Hs t o). unfold toy_start in *.
    destruct (start _ _ _ _ _ _ _ _) as [s| |]; try discriminate.
    destruct Hs as (b1 & l & _ & _ & Hst). exists s, (force_plan b1), l. split_and!; [done|..]; apply Hst. }
  split_and!; [| | |vm_compute; reflexivity].
  - destruct (Hr (Flag 0%N true) None ltac:(vm_compute; reflexivity)) as (s & b & l & ? & ? & Ht & Hf).
    exists s, b, l. split_and!; [done|done|by rewrite Ht|by rewrite Hf].
  - destruct (Hr (Flag 8%N false) None ltac:(vm_compute; reflexivity)) as (s & b & l & ? & ? & Ht & _).
    exists s, b, l. split_and!; [done|done|by rewrite Ht].
  - destruct (Hr (Flag 8%N false) (Some "threads=2") ltac:(vm_compute; reflexivity))
      as (s & b & l & ? & ? & Ht & _).
    exists s, b, l. split_and!; [done|done|by rewrite Ht].
Defined.

End example.
