(* ===== verification/Services.v ===== *)
(** * Threads, memory pool and clock

    What the rest of HotSpot asks of the binding: the threads that mmtk-core
    spawns and the question whether a thread is a mutator ([mmtkUpcalls.cpp],
    [mmtkCollectorThread.cpp]), the memory pool of [java.lang.management]
    ([mmtkMemoryPool.cpp]), the time since the last collection ([mmtkHeap.cpp]). *)

From stdpp Require Import base gmap list.
From Stdlib Require Import ZArith Lia.
From S2P Require Import Prelude Mutator.

Local Open Scope Z_scope.

(** ** Threads *)

(** [third_party_heap_collector] of every thread, by the thread's address; a
    thread that is not there does not exist.  [java_threads] are those a
    [JavaThreadIteratorWithHandle] visits. *)
Record thread_table := ThreadTable {
  third_party_heap_collector : gmap Z Z;
  java_threads : list Z;
  n_workers : nat;
  workers_started : list (Z * Z)     (* start_worker calls: thread and context *)
}.

Section threads.
(** [&thread->third_party_heap_mutator]. *)
Variable third_party_heap_mutator_offset : Z.

(** [MMTkCollectorThread]: the constructor, and [run]. *)
Definition MMTkCollectorThread (t context : Z) (s : thread_table) : thread_table :=
  ThreadTable (<[t := context]> (third_party_heap_collector s)) (java_threads s)
    (n_workers s) (workers_started s).

Definition run (t : Z) (s : thread_table) : outcome thread_table :=
  match third_party_heap_collector s !! t with
  | Some context => Ok (ThreadTable (third_party_heap_collector s) (java_threads s)
                          (n_workers s) ((t, context) :: workers_started s))
  | None => Undef
  end.

Definition GC_THREAD_KIND_WORKER : Z := 1.

(** [mmtk_spawn_gc_thread]; [t] is the new thread, and [created] whether the
    operating system gave one. *)
Definition mmtk_spawn_gc_thread (kind ctx t : Z) (created : bool) (s : thread_table)
    : outcome thread_table :=
  if decide (kind = GC_THREAD_KIND_WORKER) then
    let s := ThreadTable (third_party_heap_collector s) (java_threads s) (S (n_workers s))
               (workers_started s) in
    let s := MMTkCollectorThread t ctx s in
    guarantee created;;
    run t s
  else Fatal.

Definition mmtk_get_mmtk_mutator (tls : Z) : Z := tls + third_party_heap_mutator_offset.

Definition mmtk_is_mutator (tls : Z) (s : thread_table) : outcome bool :=
  if decide (tls = 0) then Ok false
  else match third_party_heap_collector s !! tls with
       | Some collector => Ok (bool_decide (collector = 0))
       | None => Undef
       end.

Definition mmtk_get_mutators (s : thread_table) : list Z := mmtk_get_mmtk_mutator <$> java_threads s.

Definition mmtk_number_of_mutators (s : thread_table) : nat := length (java_threads s).

(** HotSpot clears the field when it makes a Java thread. *)
Record table_ok (s : thread_table) : Prop := {
  java_no_collector t : t ∈ java_threads s → t ≠ 0 ∧ third_party_heap_collector s !! t = Some 0;
  workers_distinct : length (workers_started s) = n_workers s;
  workers_context t c : (t, c) ∈ workers_started s → third_party_heap_collector s !! t = Some c
}.

(** A worker is spawned with the context it was asked for, and mmtk-core's two
    questions agree from then on: the threads it gets mutators of are mutators,
    and a worker is not. *)
Lemma spawn_worker_ok ctx t s :
  table_ok s → ctx ≠ 0 → third_party_heap_collector s !! t = None → t ≠ 0 →
  ∃ s', mmtk_spawn_gc_thread 1 ctx t true s = Ok s' ∧ table_ok s' ∧
    workers_started s' = (t, ctx) :: workers_started s ∧
    mmtk_is_mutator t s' = Ok false ∧
    ∀ t', t' ∈ java_threads s' → mmtk_is_mutator t' s' = Ok true.
Proof.
  intros [H1 H2 H3] Hc Ht Hn. unfold mmtk_spawn_gc_thread, run, MMTkCollectorThread. simpl.
  rewrite lookup_insert_eq. eexists. split; [done|]. unfold mmtk_is_mutator. simpl.
  assert (∀ k v, third_party_heap_collector s !! k = Some v →
            <[t := ctx]> (third_party_heap_collector s) !! k = Some v) as Hold.
  { intros k v Hk. by rewrite lookup_insert_ne by congruence. }
  split_and!; [|done| |].
  - split; simpl; [|by rewrite H2|].
    + intros k Hk. destruct (H1 k Hk). by auto.
    + intros k c [[= -> ->]|Hk]%elem_of_cons; [by rewrite lookup_insert_eq|by auto].
  - rewrite decide_False, lookup_insert_eq by done. by rewrite bool_decide_eq_false_2.
  - intros k Hk. destruct (H1 k Hk) as [Hk0 Hkc].
    rewrite decide_False, (Hold k 0 Hkc) by done. by rewrite bool_decide_eq_true_2.
Qed.

(** Any other kind of thread, and one the system does not give, stops the machine. *)
Lemma spawn_fails kind ctx t created s :
  kind ≠ 1 ∨ created = false → mmtk_spawn_gc_thread kind ctx t created s = Fatal.
Proof.
  intros H. unfold mmtk_spawn_gc_thread, GC_THREAD_KIND_WORKER.
  destruct (decide (kind = 1)); [|done]. by destruct H as [?| ->].
Qed.

End threads.

(** [mmtk_out_of_memory]: HotSpot reports an exhausted heap itself. *)
Inductive MMTkAllocationError := HeapOutOfMemory | MmapOutOfMemory.

Definition mmtk_out_of_memory (err_kind : MMTkAllocationError) : outcome unit :=
  match err_kind with HeapOutOfMemory => Ok tt | MmapOutOfMemory => Fatal end.

(** ** The memory pool *)

Section pool.
(** HotSpot's distance in words: [(left - right) / HeapWordSize], on [uintptr_t]. *)
Variable pointer_delta : Z → Z → Z.
Hypothesis pointer_delta_words : ∀ left right, pointer_delta left right = u64 (left - right) / HeapWordSize.

Record MMTkMemoryPool := MemoryPool {
  initial_size : Z;
  base_max_size : Z;                 (* of [CollectedMemoryPool] *)
  pool_start : Z;
  pool_end : Z;
  used_in_bytes : Z;
  available_for_allocation : bool
}.

(** Pools are available for allocation from the start. *)
Definition make_pool (start end_ init_size : Z) : MMTkMemoryPool :=
  MemoryPool init_size (u64 (pointer_delta start end_ * HeapWordSize)) start end_ 0 true.

(** [max_size], which hides that of the base class. *)
Definition max_size (p : MMTkMemoryPool) : Z :=
  u64 (pointer_delta (pool_start p) (pool_end p) * HeapWordSize).

(** [MMTkHeap::initialize_serviceability]. *)
Definition initialize_serviceability (start end_ min_heap_byte_size : Z) : MMTkMemoryPool :=
  make_pool start end_ min_heap_byte_size.

Record MemoryUsage := Usage { usage_init : Z; usage_used : Z; usage_committed : Z; usage_max : Z }.

Definition get_memory_usage (p : MMTkMemoryPool) : MemoryUsage :=
  let maxSize := if available_for_allocation p then max_size p else 0 in
  let committed := u64 (pointer_delta (pool_start p) (pool_end p) * HeapWordSize) in
  Usage (initial_size p) (used_in_bytes p) committed maxSize.

(** The arguments of [pointer_delta] are in the wrong order: what the pool reports
    as its maximal and committed size is the negated size of the heap range. *)
Lemma pool_size_negated start end_ init :
  0 < start < end_ → end_ < 2 ^ 63 → start mod 8 = 0 → end_ mod 8 = 0 →
  let u := get_memory_usage (initialize_serviceability start end_ init) in
  usage_max u = 2 ^ 64 - (end_ - start) ∧ usage_committed u = 2 ^ 64 - (end_ - start).
Proof.
  intros Hs He Hs8 He8. unfold get_memory_usage, max_size. simpl. rewrite pointer_delta_words. unfold HeapWordSize.
  assert (u64 (start - end_) = 2 ^ 64 - (end_ - start)) as ->.
  { unfold wrap. symmetry. apply (Z.mod_unique _ _ (-1)); lia. }
  assert ((2 ^ 64 - (end_ - start)) / 8 * 8 = 2 ^ 64 - (end_ - start)) as ->.
  { change (2 ^ 64) with (2 ^ 61 * 8). Z.div_mod_to_equations. lia. }
  rewrite wrap_small by lia. done.
Qed.

End pool.

(** ** Time *)

(** [mmtk_block_for_gc] notes when a collection is asked for. *)
Definition last_gc_time (javaTimeNanos : Z) : Z := i64 (Z.quot javaTimeNanos 1000000).

Definition millis_since_last_gc (javaTimeNanos last : Z) : Z :=
  let ret_val := i64 (Z.quot javaTimeNanos 1000000 - last) in
  if decide (ret_val < 0) then 0 else ret_val.

(** The answer is never negative, also if the clock goes back; otherwise it is the
    time since the collection, in milliseconds. *)
Lemma millis_since_last_gc_ok t0 t1 :
  0 ≤ t0 < 2 ^ 63 → 0 ≤ t1 < 2 ^ 63 →
  millis_since_last_gc t1 (last_gc_time t0) = Z.max 0 (t1 / 1000000 - t0 / 1000000).
Proof.
  intros H0 H1. unfold millis_since_last_gc, last_gc_time. rewrite !Z.quot_div_nonneg by lia.
  assert (∀ t, 0 ≤ t < 2 ^ 63 → 0 ≤ t / 1000000 < 2 ^ 62) as Hd.
  { intros t Ht. split; [apply Z.div_pos; lia|apply Z.div_lt_upper_bound; lia]. }
  pose proof (Hd t0 H0). pose proof (Hd t1 H1).
  rewrite (sign_small 64 (t0 / 1000000)) by (try change (2 ^ (64 - 1)) with (2 ^ 63); lia).
  assert (∀ z, - 2 ^ 63 ≤ z < 2 ^ 63 → i64 z = z) as Hi.
  { intros z Hz. unfold sign, wrap. change (64 - 1) with 63. case_decide as Hc.
    - destruct (decide (0 ≤ z)); [rewrite Z.mod_small in Hc by lia; lia|].
      rewrite <-(Z.mod_unique z (2 ^ 64) (-1) (z + 2 ^ 64)) by lia. lia.
    - destruct (decide (0 ≤ z)); [by rewrite Z.mod_small by lia|].
      rewrite <-(Z.mod_unique z (2 ^ 64) (-1) (z + 2 ^ 64)) in Hc by lia. lia. }
  rewrite Hi by lia. case_decide; lia.
Qed.
