(* ===== verification/Collection.v ===== *)
(** * The collector's side of a pause

    [collection.rs] and [active_plan.rs], through which mmtk-core stops and resumes
    the world, and what the binding keeps in step with a pause: the variable
    [CONCURRENT_MARKING_ACTIVE] that every SATB load barrier tests, and HotSpot's
    [DerivedPointerTable] ([mmtkUpcalls.cpp]).  The pause itself is the system of
    [StartWorld]. *)

From stdpp Require Import base gmap list.
From Stdlib Require Import ZArith Lia.
From S2P Require Import Prelude Companion CompanionSafety StartWorld StartWorldSafety Barrier BarrierSafety Mutator Services.

Local Open Scope Z_scope.

(** ** Threads *)

(** [GCThreadContext]: the only kind of thread mmtk-core asks for. *)
Inductive GCThreadContext := Worker (w : Z).

(** [VMCollection::spawn_gc_thread]; [t] and [created] as in [mmtk_spawn_gc_thread]. *)
Definition spawn_gc_thread (ctx : GCThreadContext) (t : Z) (created : bool) (s : thread_table)
    : outcome thread_table :=
  let '(ctx_ptr, kind) := match ctx with Worker w => (w, GC_THREAD_KIND_WORKER) end in
  mmtk_spawn_gc_thread kind ctx_ptr t created s.

(** The binding never asks for an unknown kind: only the operating system can
    make this fail. *)
Lemma spawn_gc_thread_fails ctx t created s :
  spawn_gc_thread ctx t created s = Fatal ↔ created = false.
Proof.
  destruct ctx as [w]. unfold spawn_gc_thread, mmtk_spawn_gc_thread. rewrite decide_True by done.
  destruct created; simpl; [|done]. unfold run, MMTkCollectorThread. simpl. by rewrite lookup_insert_eq.
Qed.

Section mutators.
Variable third_party_heap_mutator_offset : Z.
Abbreviation get_mutators := (Services.mmtk_get_mutators third_party_heap_mutator_offset).

(** [OpenJDKMutatorIterator]: a queue that the closure of [get_mutators] fills,
    and that [next] takes from the front of. *)
Definition OpenJDKMutatorIterator := list Z.
Definition iterator_new (s : thread_table) : OpenJDKMutatorIterator :=
  foldl (λ mutators mutator, mutators ++ [mutator]) [] (get_mutators s).
Definition iterator_next (it : OpenJDKMutatorIterator) : option (Z * OpenJDKMutatorIterator) :=
  match it with [] => None | m :: it => Some (m, it) end.

(** What a client gets from [mutators()] until it ends, in at most [fuel] calls. *)
Fixpoint iterator_collect (fuel : nat) (it : OpenJDKMutatorIterator) : list Z :=
  match fuel, iterator_next it with
  | S fuel, Some (m, it) => m :: iterator_collect fuel it
  | _, _ => []
  end.

Lemma iterator_new_eq s : iterator_new s = get_mutators s.
Proof.
  unfold iterator_new. assert (∀ l acc, foldl (λ ms m, ms ++ [m]) acc l = acc ++ l :> list Z) as H.
  { induction l as [|x l IH]; intros acc; simpl; [by rewrite app_nil_r|]. by rewrite IH, <-app_assoc. }
  apply H.
Qed.

(** The mutators come in the order of the threads, as many as
    [number_of_mutators] says. *)
Lemma iterator_complete s fuel :
  (Services.mmtk_number_of_mutators s < fuel)%nat →
  iterator_collect fuel (iterator_new s) = get_mutators s ∧
  length (get_mutators s) = Services.mmtk_number_of_mutators s.
Proof.
  intros Hf. split; [|by unfold Services.mmtk_get_mutators; rewrite length_fmap].
  rewrite iterator_new_eq. assert (length (get_mutators s) < fuel)%nat as Hl.
  { unfold Services.mmtk_get_mutators. by rewrite length_fmap. }
  clear Hf. revert fuel Hl. induction (get_mutators s) as [|m l IH]; intros [|fuel] Hl; simpl in *; try lia; [done|].
  f_equal. apply IH. lia.
Qed.
End mutators.

(** ** Marking and derived pointers *)

(** The plan in use, as far as [resume_mutators] asks, the state of mmtk-core's
    marking, the variable, and whether the derived pointer table is collecting. *)
Record pause := Pause {
  machine : sw;
  concurrent_work_in_progress : bool;
  CONCURRENT_MARKING_ACTIVE : Z;
  derived_active : bool
}.

Section pauses.
(** Whether the plan is [ConcurrentImmix]. *)
Variable is_concurrent_immix : bool.

(** The Rust part of [VMCollection::resume_mutators], before the upcall. *)
Definition resume_mutators_flag (p : pause) : Z :=
  if is_concurrent_immix then if concurrent_work_in_progress p then 1 else 0
  else CONCURRENT_MARKING_ACTIVE p.

(** [DerivedPointerTable::clear] starts a collection of derived pointers, and
    asserts that none is going on; [update_pointers] corrects the pointers and
    ends it. *)
Definition derived_clear (active : bool) : outcome bool := if active then Fatal else Ok true.
Definition derived_update_pointers (active : bool) : outcome bool := if active then Ok false else Fatal.

(** [mmtk_prepare_for_roots_re_scanning]. *)
Definition mmtk_prepare_for_roots_re_scanning (active : bool) : outcome bool :=
  active ← derived_update_pointers active; derived_clear active.

(** The calls at the start of [mmtk_stop_all_mutators] and of
    [mmtk_resume_mutators]. *)
Definition derived_at (from to : gc_worker_pc) (active : bool) : outcome bool :=
  match from, to with
  | WPrologue, WAskStop => derived_clear active
  | WEpilogue, WInc => derived_update_pointers active
  | _, _ => Ok active
  end.

(** A step of the machine with the binding's variables; mmtk-core changes its
    marking state in a pause, and may scan the roots of a pause again. *)
Inductive pause_step : pause → outcome pause → Prop :=
| ps_step m m' c f d :
    sw_step m m' → ¬ (worker m = WCollect ∧ worker m' = WEpilogue) →
    pause_step (Pause m c f d) (d' ← derived_at (worker m) (worker m') d; Ok (Pause m' c f d'))
| ps_resume m c f d :
    worker m = WCollect →
    pause_step (Pause m c f d) (Ok (Pause (set_worker WEpilogue m) c (resume_mutators_flag (Pause m c f d)) d))
| ps_marking m c c' f d :
    worker m = WCollect → pause_step (Pause m c f d) (Ok (Pause m c' f d))
| ps_rescan m c f d :
    worker m = WCollect →
    pause_step (Pause m c f d) (d' ← mmtk_prepare_for_roots_re_scanning d; Ok (Pause m c f d')).

Inductive pause_reachable : pause → Prop :=
| pr_boot n : pause_reachable (Pause (boot n) false 0 false)
| pr_step p p' : pause_reachable p → pause_step p (Ok p') → pause_reachable p'.

(** ** The invariant *)

Record pause_inv (p : pause) : Prop := {
  pause_machine : sw_inv (machine p);
  pause_marking : is_concurrent_immix = true → worker (machine p) ≠ WCollect →
    CONCURRENT_MARKING_ACTIVE p = if concurrent_work_in_progress p then 1 else 0;
  pause_other : is_concurrent_immix = false → CONCURRENT_MARKING_ACTIVE p = 0;
  pause_derived : derived_active p = code_cache_gc (machine p)
}.

(** A step of the machine follows the calls of the table, and only mmtk-core's
    call of [resume_mutators] ends a collection. *)
Lemma derived_step m m' :
  sw_inv m → sw_step m m' →
  derived_at (worker m) (worker m') (code_cache_gc m) = Ok (code_cache_gc m') ∧
  (worker m = WCollect → worker m' = WCollect ∨ worker m' = WEpilogue).
Proof.
  intros Hi Hs. pose proof (sw_prologues m Hi) as Hp.
  assert (∀ p d, derived_at p p d = Ok d) as Hsame by (by intros []).
  destruct Hs as [i m m' E|m m' E|m m' E|m Hw|i m _|m m' E|m m' E|i m _|m Hw|m _|i n m _]; simpl.
  - unfold mmtk_block_for_gc_step, lock_gc in E. destruct (mutators m !! i) as [[]|]; simplify_eq/=;
      repeat (case_match; simplify_eq/=); rewrite ?Hsame; auto.
  - unfold mmtk_stop_all_mutators_step, ask, observe in E. destruct (worker m) eqn:Hw; simplify_eq/=;
      repeat (case_decide; simplify_eq/=); (split; [|done]); [by destruct Hp as [-> _]|done..].
  - unfold mmtk_resume_mutators_step, ask, observe, lock_gc in E. destruct (worker m) eqn:Hw; simplify_eq/=;
      repeat (case_match; simplify_eq/=); (split; [|done]); try done; by destruct Hp as [-> _].
  - rewrite Hw. auto.
  - rewrite Hsame. auto.
  - unfold safepoint_begin in E. case_decide; simplify_eq/=. rewrite Hsame. auto.
  - unfold safepoint_end in E. case_decide; simplify_eq/=. rewrite Hsame. auto.
  - rewrite Hsame. auto.
  - rewrite Hw. split; [done|congruence].
  - rewrite Hsame. auto.
  - rewrite Hsame. auto.
Qed.

(** Every step can be taken: no assertion of the table fails; and it keeps the
    invariant. *)
Lemma pause_step_inv p r : pause_inv p → pause_step p r → ∃ p', r = Ok p' ∧ pause_inv p'.
Proof.
  intros [Hm Hc Ho Hd] Hs. destruct Hs as [m m' c f d Hs Hn|m c f d Hw|m c c' f d Hw|m c f d Hw]; simpl in *.
  - destruct (derived_step m m' Hm Hs) as [E Hw]. rewrite Hd, E. eexists. split; [done|]. simpl.
    split; simpl; [by eapply sw_step_inv| |done|done].
    intros Hi Hw'. apply Hc; [done|]. intros Hwc. destruct (Hw Hwc); tauto.
  - eexists. split; [done|]. split; simpl; [eapply sw_step_inv; [done|by constructor]| | |done].
    + intros Hi _. unfold resume_mutators_flag. by rewrite Hi.
    + intros Hi. unfold resume_mutators_flag. rewrite Hi. by apply Ho.
  - eexists. split; [done|]. split; simpl; auto. intros _ Hw'. by rewrite Hw in Hw'.
  - pose proof (sw_prologues m Hm) as Hp. rewrite Hw in Hp. destruct Hp as [Hcc _].
    rewrite Hd, Hcc. eexists. split; [done|]. split; simpl; auto.
Qed.

Lemma pause_reachable_inv p : pause_reachable p → pause_inv p.
Proof.
  induction 1 as [n|p p' _ IH Hs].
  - split; simpl; [apply inv_boot|done..].
  - by destruct (pause_step_inv _ _ IH Hs) as (? & [= <-] & ?).
Qed.

(** ** Properties *)

(** C22. Load barriers follow the marking: whenever a mutator can touch the heap,
    whatever collections have come before and whenever mmtk-core has started or
    ended marking in them, the SATB barrier of weak loads hands a loaded reference
    to mmtk-core exactly while concurrent marking is in progress; with another
    plan it never does.  And the derived pointer table is collecting exactly from
    the start of a pause to its end, so that none of its assertions fails. *)
Theorem load_barrier_follows_marking {C} `{BarrierCore C} fastpath p i mu (c : C) h decorators value :
  pause_reachable p → mutators (machine p) !! i = Some mu → safe mu = false →
  Barrier.CONCURRENT_MARKING_ACTIVE c = CONCURRENT_MARKING_ACTIVE p →
  load_reference (MMTkSATBBarrierSetRuntime fastpath) c h decorators value =
    (if is_concurrent_immix && concurrent_work_in_progress p && bool_decide (value ≠ 0)
     then mmtk_load_reference c h value else c) ∧
  derived_active p = code_cache_gc (machine p) ∧
  (∀ r, pause_step p r → ∃ p', r = Ok p').
Proof.
  intros Hr Hmu Hsafe Hc. destruct (pause_reachable_inv p Hr) as [Hm Hmark Hoth Hd].
  assert (worker (machine p) ≠ WCollect) as Hw.
  { intros Hw. pose proof (sw_worker _ Hm) as Hwo. rewrite Hw in Hwo. destruct Hwo as (_ & _ & Hst).
    pose proof (stopped_safe _ _ _ Hm Hst Hmu) as Hs. congruence. }
  split_and!; [|done|].
  - cbn [load_reference MMTkSATBBarrierSetRuntime]. rewrite Hc.
    assert (CONCURRENT_MARKING_ACTIVE p = 1 ↔ is_concurrent_immix = true ∧ concurrent_work_in_progress p = true) as E.
    { destruct is_concurrent_immix; [rewrite Hmark by done|rewrite Hoth by done];
        destruct (concurrent_work_in_progress p); naive_solver. }
    case_decide as H1; [destruct H1 as [[-> ->]%E Hv]; by rewrite bool_decide_eq_true_2|].
    destruct is_concurrent_immix, (concurrent_work_in_progress p); simpl; try done.
    case_bool_decide; [|done]. destruct H1. by rewrite E.
  - intros r Hs. destruct (pause_step_inv p r) as (p' & ? & _); [|done|by exists p'].
    by apply pause_reachable_inv.
Qed.
End pauses.

(** ** A concrete run *)

#[export] Instance gc_worker_pc_eq_dec : EqDecision gc_worker_pc.
Proof. solve_decision. Defined.

Inductive pause_choice := Machine (a : sw_choice) | Marking (b : bool) | Rescan.

Definition pause_play (ci : bool) (a : pause_choice) (p : pause) : outcome pause :=
  let '(Pause m c f d) := p in
  match a with
  | Machine DoCollected =>
      match worker m with
      | WCollect => Ok (Pause (set_worker WEpilogue m) c (resume_mutators_flag ci p) d)
      | _ => Undef
      end
  | Machine a =>
      match sw_play a m with
      | Some m' =>
          if decide (worker m = WCollect ∧ worker m' = WEpilogue) then Undef
          else d' ← derived_at (worker m) (worker m') d; Ok (Pause m' c f d')
      | None => Undef
      end
  | Marking b => match worker m with WCollect => Ok (Pause m b f d) | _ => Undef end
  | Rescan =>
      match worker m with
      | WCollect => d' ← mmtk_prepare_for_roots_re_scanning d; Ok (Pause m c f d')
      | _ => Undef
      end
  end.

Lemma pause_play_step ci a p p' : pause_play ci a p = Ok p' → pause_step ci p (Ok p').
Proof.
  destruct p as [m c f d]. unfold pause_play. intros E.
  assert (∀ a m', sw_play a m = Some m' →
    (if decide (worker m = WCollect ∧ worker m' = WEpilogue) then Undef
     else d' ← derived_at (worker m) (worker m') d; Ok (Pause m' c f d')) = Ok p' → pause_step ci (Pause m c f d) (Ok p')) as H.
  { intros a0 m' Hp E'. case_decide as Hd; [done|]. rewrite <-E'. constructor; [by eapply sw_play_step|done]. }
  destruct a as [a|b|]; [destruct a|..];
    try (match type of E with context [sw_play ?a m] => destruct (sw_play a m) eqn:Hp; [by eapply H|done] end);
    destruct (worker m) eqn:Hw; simplify_eq; try (rewrite <-E); by constructor.
Qed.

Definition pause_run (ci : bool) (l : list pause_choice) (n : nat) : outcome pause :=
  ofold (λ p a, pause_play ci a p) (Pause (boot n) false 0 false) l.

Lemma pause_run_reachable ci l n p : pause_run ci l n = Ok p → pause_reachable ci p.
Proof.
  unfold pause_run. assert (pause_reachable ci (Pause (boot n) false 0 false)) as Hr by constructor.
  revert Hr. generalize (Pause (boot n) false 0 false) as q. induction l as [|a l IH]; intros q Hr E; simpl in E.
  - by injection E as <-.
  - apply outcome_bind_ok in E as (q' & E1 & E2). apply (IH q'); [|done].
    eapply pr_step; [done|by eapply pause_play_step].
Qed.

(** A pause in which marking starts, and the mutator that runs after it. *)
Definition marking_run : list pause_choice :=
  (Machine <$> [DoStartGC; DoStop; DoStop; DoPoll 0; DoBegin; DoStop; DoStop]) ++
  [Marking true; Rescan; Machine DoCollected] ++
  (Machine <$> [DoResume; DoResume; DoResume; DoEnd; DoMutator 0]).

Definition marked : pause :=
  match pause_run true marking_run 1 with Ok p => p | _ => Pause (boot 1) false 0 false end.

Lemma load_barrier_follows_marking_witness :
  let c := ListCore (λ _, 0) [] [] [] 1 in
  let d := Decorators false true false false false true false false false false false false false false false in
  machine marked = sw_after 1 ([DoStartGC; DoStop; DoStop; DoPoll 0; DoBegin; DoStop; DoStop; DoCollected;
                                DoResume; DoResume; DoResume; DoEnd; DoMutator 0]) ∧
  load_reference (MMTkSATBBarrierSetRuntime true) c (λ _, 0) d 4096 = ListCore (λ _, 0) [] [] [4096] 1.
Proof.
  intros c d. split; [vm_compute; reflexivity|].
  destruct (load_barrier_follows_marking true true marked 0 MRun c (λ _, 0) d 4096) as [E _].
  - apply (pause_run_reachable true marking_run 1). vm_compute. reflexivity.
  - vm_compute. reflexivity.
  - reflexivity.
  - vm_compute. reflexivity.
  - rewrite E. vm_compute. reflexivity.
Defined.
