(* ===== verification/HeapQueries.v ===== *)
(** * What HotSpot asks the heap

    The virtual functions of [MMTkHeap] that are neither initialisation, roots nor
    allocation ([mmtkHeap.cpp], [mmtkHeap.hpp]), and the upcalls that make one call
    of HotSpot ([mmtkUpcalls.cpp], [mmtkRootsClosure.hpp]).  mmtk-core's answers
    are the interface [HeapCore]. *)

From stdpp Require Import base numbers list strings.
From Stdlib Require Import ZArith Lia.
From S2P Require Import Prelude Slots SlotRanges ObjectScan ObjectModel Roots Mutator Services.

Local Open Scope Z_scope.

(** ** mmtk-core *)

Class HeapCore (C : Type) := {
  total_bytes : C → Z;
  used_bytes : C → Z;
  is_in_mmtk_spaces : C → Z → bool;
  handle_user_collection_request : C → Z → C;     (* tls *)
  (** [MMTK_OPENJDK_FULL_VERSION] of the generated [build_info]. *)
  full_version : string
}.

(** No more is used than there is, and objects are in the address range of the
    heap. *)
Class HeapCoreLaws (C : Type) `{HeapCore C} := {
  used_le_total c : 0 ≤ used_bytes c ≤ total_bytes c;
  spaces_not_null c : is_in_mmtk_spaces c 0 = false
}.

(** ** [MMTkHeap] *)

Section heap.
Context {C : Type} `{HeapCore C}.
(** [&thread->third_party_heap_mutator] is this far into the thread. *)
Variable third_party_heap_mutator_offset : Z.
Variable mmtk_enable_allocation_fastpath : bool.

(** The fields that the functions below use; pointers are addresses. *)
Record MMTkHeap := Heap {
  _collector_policy : Z;
  _soft_ref_policy : Z;
  _mmtk_pool : Z;
  _mmtk_manager : Z;
  _n_workers : nat;
  _gc_lock : Z;
  _companion_thread : Z;
  _last_gc_time : Z;
  _num_root_scan_tasks : Z
}.

(** The constructor; [_mmtk_pool], [_mmtk_manager] and [_companion_thread] are set
    later. *)
Definition make_heap (policy soft_ref_policy lock : Z) : MMTkHeap :=
  Heap policy soft_ref_policy 0 0 0 lock 0 0 0.

Definition new_collector_thread (h : MMTkHeap) : MMTkHeap :=
  Heap (_collector_policy h) (_soft_ref_policy h) (_mmtk_pool h) (_mmtk_manager h) (S (_n_workers h))
    (_gc_lock h) (_companion_thread h) (_last_gc_time h) (_num_root_scan_tasks h).

Definition version : string := full_version.
Definition openjdk_max_capacity (c : C) : Z := total_bytes c.
Definition max_capacity (c : C) : Z := openjdk_max_capacity c.
Definition capacity (c : C) : Z := max_capacity c.
Definition used (c : C) : Z := used_bytes c.
Definition is_maximal_no_gc (c : C) : bool := false.
Definition is_in (c : C) (p : Z) : bool := is_in_mmtk_spaces c p.
Definition is_in_reserved (c : C) (p : Z) : bool := is_in c p.
Definition supports_tlab_allocation : bool := false.
Definition supports_inline_contig_alloc : bool := mmtk_enable_allocation_fastpath.
Definition tlab_capacity (thr : Z) : outcome Z := guarantee false;; Ok 0.
Definition tlab_used (thr : Z) : outcome Z := guarantee false;; Ok 0.
Definition can_elide_tlab_store_barriers : bool := true.
Definition can_elide_initializing_store_barrier (new_obj : Z) : bool := false.
Definition card_mark_must_follow_store : bool := false.
Definition is_scavengable (obj : Z) : bool := true.

(** [collect]: the current thread asks for a collection. *)
Definition collect (current : Z) (c : C) : C :=
  handle_user_collection_request c (mmtk_get_mmtk_mutator third_party_heap_mutator_offset current).
Definition do_full_collection (clear_all_soft_refs : bool) (c : C) : C := c.

Definition collector_policy (h : MMTkHeap) : Z := _collector_policy h.
Definition soft_ref_policy (h : MMTkHeap) : Z := _soft_ref_policy h.
Definition memory_managers (h : MMTkHeap) : list Z := [] ++ [_mmtk_manager h].
Definition memory_pools (h : MMTkHeap) : list Z := [] ++ [_mmtk_pool h].

(** The objects that a closure is applied to: none; only a warning is printed. *)
Definition object_iterate : list Z := [].
Definition safe_object_iterate : list Z := [].

Definition block_start (addr : Z) : outcome Z := guarantee false;; Ok 0.
Definition block_size (addr : Z) : outcome Z := guarantee false;; Ok 0.
Definition block_is_obj (addr : Z) : outcome bool := guarantee false;; Ok false.

Definition prepare_for_verify (h : MMTkHeap) : MMTkHeap := h.
Definition print_on : outcome unit := guarantee false.
Definition print_gc_threads_on : outcome unit := guarantee false.
(** The threads a closure is applied to. *)
Definition gc_threads_do (h : MMTkHeap) : list Z := [].
Definition print_tracing_info (h : MMTkHeap) : MMTkHeap := h.
Definition verify (h : MMTkHeap) : MMTkHeap := h.

(** ** [CollectedHeap]

    What HotSpot relies on: sizes in order, the heap inside the reserved region,
    and nothing asked of thread-local allocation buffers, because there are none. *)
Record collected_heap_ok (c : C) : Prop := {
  ch_used : 0 ≤ used c ≤ capacity c;
  ch_capacity : capacity c ≤ max_capacity c;
  ch_reserved p : is_in c p = true → is_in_reserved c p = true;
  ch_tlab thr : supports_tlab_allocation = true → ∃ n, tlab_capacity thr = Ok n
}.

Lemma heap_queries_ok `{!HeapCoreLaws C} c : collected_heap_ok c.
Proof.
  split.
  - apply used_le_total.
  - done.
  - done.
  - done.
Qed.

(** The functions that stop the machine, whatever they are asked. *)
Lemma unsupported_queries_fatal a :
  tlab_capacity a = Fatal ∧ tlab_used a = Fatal ∧ block_start a = Fatal ∧ block_size a = Fatal ∧
  block_is_obj a = Fatal ∧ print_on = Fatal ∧ print_gc_threads_on = Fatal.
Proof. done. Qed.

(** [collect] passes the address of the mutator where mmtk-core expects the
    thread, whose mutator [get_mmtk_mutator] would find further on. *)
Lemma collect_tls current c :
  third_party_heap_mutator_offset ≠ 0 →
  ∃ tls, collect current c = handle_user_collection_request c tls ∧ tls ≠ current ∧
    mmtk_get_mmtk_mutator third_party_heap_mutator_offset tls ≠
    mmtk_get_mmtk_mutator third_party_heap_mutator_offset current.
Proof. intros Hn. eexists. split; [done|]. unfold mmtk_get_mmtk_mutator. lia. Qed.

End heap.

(** ** Upcalls *)

Section upcalls.
(** HotSpot's [Klass::oop_size], in words and as an [int]; the offsets of the
    fields of [java.lang.Class] and [java.lang.ref.Reference]. *)
Variable oop_size : mem → Z → Z.
Variables InstanceMirrorKlass_offset_of_static_fields Class_static_oop_field_count_offset : Z.
Variables Reference_referent_offset Reference_discovered_offset : Z.

Definition offset_of_static_fields : Z := InstanceMirrorKlass_offset_of_static_fields.
Definition static_oop_field_count_offset : Z := Class_static_oop_field_count_offset.
Definition referent_offset : Z := Reference_referent_offset.
Definition discovered_offset : Z := Reference_discovered_offset.

Definition LogHeapWordSize : Z := 3.

(** The shift is one of [int]s, and its result becomes a [size_t]. *)
Definition mmtk_get_object_size (m : mem) (object : Z) : outcome Z :=
  let shifted := Z.shiftl (oop_size m object) LogHeapWordSize in
  if decide (- 2 ^ 31 ≤ shifted < 2 ^ 31) then Ok (u64 shifted) else Undef.

(** The size is right for objects below 2 GiB, which are all that the collector
    asks it for: it computes the size of arrays itself. *)
Lemma get_object_size_ok m object :
  0 ≤ oop_size m object < 2 ^ 28 → mmtk_get_object_size m object = Ok (8 * oop_size m object).
Proof.
  intros Hs. unfold mmtk_get_object_size, LogHeapWordSize. rewrite Z.shiftl_mul_pow2 by lia.
  change (2 ^ 3) with 8. rewrite decide_True by lia. f_equal. rewrite wrap_small by word_range. lia.
Qed.

Lemma get_object_size_overflows m object : 2 ^ 28 ≤ oop_size m object → mmtk_get_object_size m object = Undef.
Proof.
  intros Hs. unfold mmtk_get_object_size, LogHeapWordSize. rewrite Z.shiftl_mul_pow2 by lia.
  change (2 ^ 3) with 8. by rewrite decide_False by lia.
Qed.

(** ** [mmtk_scan_object] *)

(** [MMTkScanObjectClosure::do_oop_work]: the slots it hands on, none.  [x] is a
    slot of the object that HotSpot iterates over. *)
Definition scan_do_oop_work (UseCompressedOops : bool) (x : root) : outcome (list Z) :=
  if UseCompressedOops && negb (narrow x) then
    guarantee (bool_decide (Z.land (location x) tag_bit = 0));;
    let p := Z.lor (location x) tag_bit in Ok []
  else Ok [].

Definition mmtk_scan_object (UseCompressedOops : bool) (oop_slots : list root) : outcome (list Z) :=
  ofold (λ found x, new ← scan_do_oop_work UseCompressedOops x; Ok (found ++ new)) [] oop_slots.

(** Whatever the object, the upcall finds nothing; on a slot above 2^63 it stops
    the machine. *)
Lemma scan_object_finds_nothing UseCompressedOops oop_slots :
  mmtk_scan_object UseCompressedOops oop_slots = Ok [] ∨ mmtk_scan_object UseCompressedOops oop_slots = Fatal.
Proof.
  unfold mmtk_scan_object. induction oop_slots as [|x l IH]; [by left|]. cbn [ofold].
  assert (scan_do_oop_work UseCompressedOops x = Ok [] ∨ scan_do_oop_work UseCompressedOops x = Fatal) as [-> | ->].
  { unfold scan_do_oop_work. destruct (_ && _); [|by left]. case_bool_decide; [by left|by right]. }
  - exact IH.
  - by right.
Qed.

End upcalls.

(** ** Harness calls *)

(** The states of a Java thread, as far as the transitions here need them. *)
Inductive thread_state := ThreadInNative | ThreadInVM | ThreadInJava | ThreadBlocked.
#[export] Instance thread_state_eq_dec : EqDecision thread_state.
Proof. solve_decision. Defined.

Section harness.
Context {S : Type}.
(** A debug build checks [assert]. *)
Variable ASSERT : bool.
(** mmtk-core's side; it may collect, and the thread then blocks: its view of the
    thread state goes in and out. *)
Variable harness_impl : thread_state * S → outcome (thread_state * S).

(** [ThreadInVMfromNative]: from native code into the VM, and back at the end. *)
Definition in_vm_from_native (body : thread_state * S → outcome (thread_state * S)) (s : thread_state * S)
    : outcome (thread_state * S) :=
  if decide (s.1 = ThreadInNative) then
    s ← body (ThreadInVM, s.2);
    if decide (s.1 = ThreadInVM) then Ok (ThreadInNative, s.2) else Undef
  else Undef.

(** [mmtk_harness_begin] and [mmtk_harness_end]. *)
Definition mmtk_harness (is_Java_thread : bool) (s : thread_state * S) : outcome (thread_state * S) :=
  (if ASSERT then guarantee is_Java_thread else Ok tt);;
  in_vm_from_native harness_impl s.

(** [ThreadBlockInVM] of [mmtk_block_for_gc]: blocked while the collection runs, in
    the VM before and after. *)
Definition block_in_vm (wait : S → S) (s : thread_state * S) : outcome (thread_state * S) :=
  if decide (s.1 = ThreadInVM) then Ok (ThreadInVM, wait s.2) else Undef.

End harness.

(** A harness call from native code that makes mmtk-core collect blocks the thread
    in the state [ThreadBlockInVM] expects, and returns to native code. *)
Lemma harness_blocks_in_vm {S} ASSERT (wait : S → S) s :
  mmtk_harness ASSERT (block_in_vm wait) true (ThreadInNative, s) = Ok (ThreadInNative, wait s).
Proof. by destruct ASSERT. Qed.
