(* ===== verification/C2Merge.v ===== *)
(** * Where C2's allocation paths meet

    [MMTkBarrierSetC2::expand_allocate] ([mmtkBarrierSetC2.cpp]) replaces an
    allocation by a graph: the tests, the fast path, a call of HotSpot's slow path,
    and the region and phi nodes that merge the two.  Here is that graph, node by
    node, and which nodes control and values come from on each path.  The code of
    the fast path and the decision are those of [C2Allocate]. *)

From stdpp Require Import base numbers list.
From Stdlib Require Import ZArith Lia.
From S2P Require Import Prelude Slots X86 C2Allocate.

(** ** The graph *)

(** Nodes by the names they have in the source; [CallCtrl] and [CallResult] are the
    copies of the call's projections, and [Top] is the dead node. *)
Inductive mnode :=
| InCtrl | InMem | InIo | ReturnAdr | FramePtr | KlassNode | Length | Top
| ToobigTrue | ToobigFalse | NeedgcTrue | NeedgcFalse | SlowRegion
| FastOop | FastOopCtrl | FastOopRawmem
| CallCtrl | CallResult | CallMem
| MResultRegion | MResultPhiRawmem | MResultPhiRawoop | MResultPhiIo.
#[export] Instance mnode_eq_dec : EqDecision mnode.
Proof. solve_decision. Defined.






(** How an allocation runs: the initial test holds, there is no space, or neither. *)
Inductive alloc_path := TooBig | NeedGC | Fits.
#[export] Instance alloc_path_eq_dec : EqDecision alloc_path.
Proof. solve_decision. Defined.

Section build.
(** The decisions, whether the allocation is of an array, which projections of it
    are used, and how many users the merged I/O has in the end. *)
Variables (always_slow has_initial_slow_test has_length : bool).
Variable p : projections.
Variable result_phi_i_o_outcnt : nat.








(** ** What happens on a path *)




End build.

(** ** Properties *)


