(* ===== verification/Ffi.v ===== *)
(** * The interface between C++ and Rust

    The functions that [mmtk.h] declares, the functions that [mmtk/src/api.rs]
    defines for C ([extern "C"]), and the calls that the C++ side makes.  Nothing
    checks at build time that a declaration and a definition of the same name
    agree: the linker goes by names alone. *)

From stdpp Require Import base list strings.
From S2P Require Import Prelude.

(** ** Types at the boundary *)

(** Of the declarations: any pointer, [size_t], [int], [bool], the structure
    [AllocatorSelector], [void]. *)
Inductive c_type := CPointer | CSize | CIntT | CBool | CSelector | CVoid.

(** Of the definitions.  Threads are [VMThread] and the like; the enumeration
    [AllocationSemantics] is an [i32]. *)
Inductive rust_type :=
| RPointer | RAddress | RThread | RObjectReference | RNullableObjectReference
| RUsize | RAllocationSemantics | RBool | RAllocatorSelector | RUnit.

(** How a value is passed: the calling convention puts integers and pointers in
    registers, of which so many bytes count. *)
Inductive passed := InRegister (bytes : nat) | NotPassed.
#[export] Instance passed_eq_dec : EqDecision passed.
Proof. solve_decision. Defined.

Definition pass_c (t : c_type) : passed :=
  match t with
  | CPointer | CSize => InRegister 8 | CIntT => InRegister 4 | CBool => InRegister 1
  | CSelector => InRegister 2 | CVoid => NotPassed
  end.

Definition pass_rust (t : rust_type) : passed :=
  match t with
  | RPointer | RAddress | RThread | RObjectReference | RNullableObjectReference | RUsize => InRegister 8
  | RAllocationSemantics => InRegister 4 | RBool => InRegister 1 | RAllocatorSelector => InRegister 2
  | RUnit => NotPassed
  end.

Section tables.
Local Open Scope string_scope.

(** [mmtk.h], up to its accounting functions: parameters and result. *)
Definition declarations : list (string * (list c_type * c_type)) :=
  [("get_mmtk_version", ([], CPointer)); ("bind_mutator", ([CPointer], CPointer));
   ("destroy_mutator", ([CPointer], CVoid)); ("flush_mutator", ([CPointer], CVoid));
   ("alloc", ([CPointer; CSize; CSize; CSize; CIntT], CPointer));
   ("alloc_slow_bump_monotone_immortal", ([CPointer; CSize; CSize; CSize], CPointer));
   ("alloc_slow_bump_monotone_copy", ([CPointer; CSize; CSize; CSize], CPointer));
   ("alloc_slow_largeobject", ([CPointer; CSize; CSize; CSize], CPointer));
   ("post_alloc", ([CPointer; CPointer; CSize; CIntT], CVoid));
   ("mmtk_load_reference", ([CPointer; CPointer], CVoid));
   ("mmtk_object_reference_write_pre", ([CPointer; CPointer; CPointer; CPointer], CVoid));
   ("mmtk_object_reference_write_post", ([CPointer; CPointer; CPointer; CPointer], CVoid));
   ("mmtk_object_reference_write_slow", ([CPointer; CPointer; CPointer; CPointer], CVoid));
   ("mmtk_array_copy_pre", ([CPointer; CPointer; CPointer; CSize], CVoid));
   ("mmtk_array_copy_post", ([CPointer; CPointer; CPointer; CSize], CVoid));
   ("mmtk_object_probable_write", ([CPointer; CPointer], CVoid));
   ("release_buffer", ([CPointer; CSize; CSize], CVoid)); ("is_in_mmtk_spaces", ([CPointer], CBool));
   ("is_mapped_address", ([CPointer], CBool)); ("get_allocator_mapping", ([CIntT], CSelector));
   ("get_max_non_los_default_alloc_bytes", ([], CSize)); ("add_finalizer", ([CPointer], CVoid));
   ("get_finalized_object", ([], CPointer)); ("mmtk_active_barrier", ([], CPointer));
   ("initialize_collection", ([CPointer], CVoid)); ("gc_init", ([CSize], CVoid));
   ("will_never_move", ([CPointer], CBool)); ("process", ([CPointer; CPointer], CBool));
   ("process_bulk", ([CPointer], CBool)); ("scan_region", ([], CVoid));
   ("handle_user_collection_request", ([CPointer], CVoid));
   ("start_control_collector", ([CPointer; CPointer], CVoid));
   ("start_worker", ([CPointer; CPointer], CVoid)); ("mmtk_add_nmethod_oop", ([CPointer], CSize));
   ("mmtk_register_nmethod", ([CPointer], CSize)); ("mmtk_unregister_nmethod", ([CPointer], CSize))].

(** The rest of [mmtk.h]. *)
Definition openjdk_declarations : list (string * (list c_type * c_type)) :=
  [("free_bytes", ([], CSize)); ("total_bytes", ([], CSize)); ("openjdk_gc_init", ([CPointer], CVoid));
   ("openjdk_is_gc_initialized", ([], CBool)); ("mmtk_set_heap_size", ([CSize; CSize], CBool));
   ("mmtk_enable_compressed_oops", ([], CBool)); ("mmtk_narrow_oop_base", ([], CPointer));
   ("mmtk_narrow_oop_shift", ([], CSize));
   ("mmtk_set_compressed_klass_base_and_shift", ([CPointer; CSize], CSize)); ("used_bytes", ([], CSize));
   ("starting_heap_address", ([], CPointer)); ("last_heap_address", ([], CPointer));
   ("iterator", ([], CVoid)); ("openjdk_max_capacity", ([], CSize)); ("_noaccess_prefix", ([], CSize));
   ("_alignment", ([], CSize)); ("executable", ([], CBool));
   ("add_weak_candidate", ([CPointer; CPointer], CVoid));
   ("add_soft_candidate", ([CPointer; CPointer], CVoid));
   ("add_phantom_candidate", ([CPointer; CPointer], CVoid)); ("mmtk_harness_begin_impl", ([], CVoid));
   ("mmtk_harness_end_impl", ([], CVoid)); ("mmtk_builder_read_env_var_settings", ([], CVoid));
   ("mmtk_builder_set_threads", ([CSize], CVoid));
   ("mmtk_builder_set_transparent_hugepages", ([CBool], CVoid))].

(** [api.rs]. *)
Definition api : list (string * (list rust_type * rust_type)) :=
  [("get_mmtk_version", ([], RPointer)); ("mmtk_active_barrier", ([], RPointer));
   ("openjdk_gc_init", ([RPointer], RUnit)); ("openjdk_is_gc_initialized", ([], RBool));
   ("mmtk_set_heap_size", ([RUsize; RUsize], RBool)); ("bind_mutator", ([RThread], RPointer));
   ("destroy_mutator", ([RPointer], RUnit)); ("flush_mutator", ([RPointer], RUnit));
   ("alloc", ([RPointer; RUsize; RUsize; RUsize; RAllocationSemantics], RAddress));
   ("get_allocator_mapping", ([RAllocationSemantics], RAllocatorSelector));
   ("get_max_non_los_default_alloc_bytes", ([], RUsize));
   ("post_alloc", ([RPointer; RObjectReference; RUsize; RAllocationSemantics], RUnit));
   ("will_never_move", ([RObjectReference], RBool)); ("start_worker", ([RThread; RPointer], RUnit));
   ("initialize_collection", ([RThread], RUnit)); ("used_bytes", ([], RUsize));
   ("free_bytes", ([], RUsize)); ("total_bytes", ([], RUsize));
   ("handle_user_collection_request", ([RThread], RUnit)); ("mmtk_enable_compressed_oops", ([], RUnit));
   ("mmtk_set_compressed_klass_base_and_shift", ([RAddress; RUsize], RUnit));
   ("is_in_mmtk_spaces", ([RObjectReference], RBool)); ("is_mapped_address", ([RAddress], RBool));
   ("add_weak_candidate", ([RObjectReference], RUnit)); ("add_soft_candidate", ([RObjectReference], RUnit));
   ("add_phantom_candidate", ([RObjectReference], RUnit)); ("harness_begin", ([RUsize], RUnit));
   ("mmtk_harness_begin_impl", ([], RUnit)); ("harness_end", ([RUsize], RUnit));
   ("mmtk_harness_end_impl", ([], RUnit)); ("process", ([RPointer; RPointer], RBool));
   ("mmtk_builder_read_env_var_settings", ([], RUnit)); ("mmtk_builder_set_threads", ([RUsize], RUnit));
   ("mmtk_builder_set_transparent_hugepages", ([RBool], RUnit)); ("process_bulk", ([RPointer], RBool));
   ("mmtk_narrow_oop_base", ([], RAddress)); ("mmtk_narrow_oop_shift", ([], RUsize));
   ("starting_heap_address", ([], RAddress)); ("last_heap_address", ([], RAddress));
   ("openjdk_max_capacity", ([], RUsize)); ("executable", ([], RBool));
   ("mmtk_load_reference", ([RPointer; RObjectReference], RUnit));
   ("mmtk_object_reference_write_pre", ([RPointer; RObjectReference; RAddress; RNullableObjectReference], RUnit));
   ("mmtk_object_reference_write_post", ([RPointer; RObjectReference; RAddress; RNullableObjectReference], RUnit));
   ("mmtk_object_reference_write_slow", ([RPointer; RObjectReference; RAddress; RNullableObjectReference], RUnit));
   ("mmtk_array_copy_pre", ([RPointer; RAddress; RAddress; RUsize], RUnit));
   ("mmtk_array_copy_post", ([RPointer; RAddress; RAddress; RUsize], RUnit));
   ("mmtk_object_probable_write", ([RPointer; RObjectReference], RUnit));
   ("add_finalizer", ([RObjectReference], RUnit)); ("get_finalized_object", ([], RNullableObjectReference));
   ("mmtk_add_nmethod_oop", ([RAddress], RUnit)); ("mmtk_register_nmethod", ([RAddress], RUnit));
   ("mmtk_unregister_nmethod", ([RAddress], RUnit));
   ("release_buffer", ([RPointer; RUsize; RUsize], RUnit))].

(** The functions that the C++ files call, and whether any call uses the result. *)
Definition calls : list (string * bool) :=
  [("get_mmtk_version", true); ("bind_mutator", true); ("destroy_mutator", false); ("flush_mutator", false);
   ("alloc", true); ("post_alloc", false); ("mmtk_load_reference", false);
   ("mmtk_object_reference_write_pre", false); ("mmtk_object_reference_write_post", false);
   ("mmtk_object_reference_write_slow", false); ("mmtk_array_copy_pre", false);
   ("mmtk_array_copy_post", false); ("mmtk_object_probable_write", false); ("release_buffer", false);
   ("is_in_mmtk_spaces", true); ("get_allocator_mapping", true);
   ("get_max_non_los_default_alloc_bytes", true); ("add_finalizer", false); ("get_finalized_object", true);
   ("mmtk_active_barrier", true); ("initialize_collection", false); ("process_bulk", true);
   ("handle_user_collection_request", false); ("start_worker", false); ("mmtk_add_nmethod_oop", false);
   ("mmtk_register_nmethod", false); ("mmtk_unregister_nmethod", false); ("openjdk_gc_init", false);
   ("openjdk_is_gc_initialized", true); ("mmtk_set_heap_size", true);
   ("mmtk_enable_compressed_oops", false); ("mmtk_narrow_oop_base", true); ("mmtk_narrow_oop_shift", true);
   ("mmtk_set_compressed_klass_base_and_shift", false); ("used_bytes", true);
   ("starting_heap_address", true); ("last_heap_address", true); ("openjdk_max_capacity", true);
   ("mmtk_harness_begin_impl", false); ("mmtk_harness_end_impl", false);
   ("mmtk_builder_read_env_var_settings", false); ("mmtk_builder_set_threads", false);
   ("mmtk_builder_set_transparent_hugepages", false)].

End tables.

Definition find_function {A} (f : string) (l : list (string * A)) : option A :=
  snd <$> (list_find (λ x, x.1 = f) l ≫= λ r, Some r.2).

Definition declared (f : string) : option (list c_type * c_type) :=
  find_function f (declarations ++ openjdk_declarations).
Definition defined (f : string) : option (list rust_type * rust_type) := find_function f api.

(** A call of [f] works: the arguments arrive as they are passed, and the result
    comes back if it is used. *)
Definition call_ok (f : string) (result_used : bool) : Prop :=
  ∃ ps r ps' r', declared f = Some (ps, r) ∧ defined f = Some (ps', r') ∧
    Forall2 (λ p p', pass_c p = pass_rust p') ps ps' ∧ (result_used = true → pass_c r = pass_rust r').

Definition call_okb (f : string) (result_used : bool) : bool :=
  match declared f, defined f with
  | Some (ps, r), Some (ps', r') =>
      bool_decide (pass_c <$> ps = pass_rust <$> ps') && (negb result_used || bool_decide (pass_c r = pass_rust r'))
  | _, _ => false
  end.

Lemma call_okb_ok f u : call_okb f u = true → call_ok f u.
Proof.
  unfold call_okb, call_ok. destruct (declared f) as [[ps r]|], (defined f) as [[ps' r']|]; try done.
  intros [H1 H2]%andb_true_iff. apply bool_decide_eq_true in H1. exists ps, r, ps', r'. split_and!; [done|done| |].
  - apply (Forall2_fmap_1 pass_c pass_rust eq). by apply list_eq_Forall2.
  - intros ->. simpl in H2. by apply bool_decide_eq_true in H2.
Qed.

(** Every call that the C++ side makes to the Rust side works: the function is
    declared in [mmtk.h] and defined in [api.rs] with the same number of
    parameters, each argument is passed the way its definition expects it, and so
    is the result wherever a caller uses it.  No name is declared or defined
    twice. *)
Theorem calls_agree f result_used :
  (f, result_used) ∈ calls → call_ok f result_used ∧
  NoDup ((declarations ++ openjdk_declarations).*1) ∧ NoDup (api.*1).
Proof.
  intros Hin. split_and!.
  - apply call_okb_ok. assert (Forall (λ x, call_okb x.1 x.2 = true) calls) as Hall.
    { apply (bool_decide_unpack _). vm_compute. exact I. }
    rewrite Forall_forall in Hall. exact (Hall (f, result_used) Hin).
  - apply (bool_decide_unpack _). vm_compute. exact I.
  - apply (bool_decide_unpack _). vm_compute. exact I.
Qed.

Lemma calls_agree_witness : call_ok "mmtk_set_heap_size" true.
Proof.
  destruct (calls_agree "mmtk_set_heap_size" true) as [H _]; [|exact H].
  apply (list_elem_of_lookup_2 _ 29). reflexivity.
Defined.

(** What the declarations get wrong, without effect on a call: results that are
    not there, functions that are not there, and numbers of parameters. *)
Definition names (P : string → bool) : list string :=
  filter (λ f, P f = true) ((declarations ++ openjdk_declarations).*1).

Lemma declared_not_defined :
  names (λ f, bool_decide (defined f = None)) =
  ["alloc_slow_bump_monotone_immortal"; "alloc_slow_bump_monotone_copy"; "alloc_slow_largeobject";
   "gc_init"; "scan_region"; "start_control_collector"; "iterator"; "_noaccess_prefix"; "_alignment"]%string.
Proof. vm_compute. reflexivity. Qed.

Lemma results_differ :
  names (λ f, match declared f, defined f with
              | Some (_, r), Some (_, r') => negb (bool_decide (pass_c r = pass_rust r'))
              | _, _ => false end) =
  ["mmtk_add_nmethod_oop"; "mmtk_register_nmethod"; "mmtk_unregister_nmethod";
   "mmtk_enable_compressed_oops"; "mmtk_set_compressed_klass_base_and_shift"]%string.
Proof. vm_compute. reflexivity. Qed.

Lemma parameters_differ :
  names (λ f, match declared f, defined f with
              | Some (ps, _), Some (ps', _) => negb (bool_decide (length ps = length ps'))
              | _, _ => false end) =
  ["add_weak_candidate"; "add_soft_candidate"; "add_phantom_candidate"]%string.
Proof. vm_compute. reflexivity. Qed.
